(* ===== verification/_CoqProject ===== *)
-Q . S2P
Prelude.v
Float64.v
Rounding.v
GoStrings.v
Clock.v
HealthTests.v
Metrics.v
TestSupport.v
Proto.v
QuickTests.v
MinEntropy.v
Sha256.v
Whitening.v
MqttHandler.v
Pool.v
Collector.v
TokenBucket.v
GoNet.v
EntropyHTTP.v
GoStd.v
GoURL.v
Routes.v
Config.v
GrpcClient.v
MqttClient.v
Forwarder.v
Gateway.v
Serving.v
Traffic.v
Mirror.v
Typed.v
MetricsHTTP.v
Startup.v
Main.v
Lifetime.v
Program.v
