(* ===== verification/Prelude.v ===== *)
(** * Verification of entropy-tdc-gateway

    The gateway receives timestamps of a time-to-digital converter over MQTT,
    batches them, whitens each batch into 32 bytes, keeps these in a pool that
    an HTTP server serves from, and mirrors the batches to a cloud service over
    gRPC.  This library models the Go program under src/ and proves what it
    promises.

    ** Parts, files and code

    Shared: [Prelude] (Go integers, slices, errors, the effect monad [GoM],
    automation), [Float64] (IEEE 754 doubles with exact rounding lemmas),
    [Rounding] (how far a rounded operation is from the exact one),
    [GoStrings], [GoNet], [GoStd], [GoURL] (what the program uses of packages
    strings, strconv, unicode, net, time, path/filepath, net/url and of the
    multiplexer of net/http).

    From the source of randomness to the bytes served:
    - [MqttClient] (internal/mqtt/client.go): construction, TLS, the callbacks
      Paho runs, the channel that reports the first subscription;
    - [MqttHandler] (internal/mqtt/handler.go): a message becomes an event;
    - [Collector] (internal/collector/collector.go): [Add], [flush] and [Close]
      with the send loop and the auto-flush loop as a step relation;
    - [Forwarder] (main.go: toProtoEvent and the senders): a batch goes to the
      pool and, as messages, to the cloud;
    - [HealthTests], [QuickTests], [MinEntropy] (internal/validation),
      [Sha256], [Whitening] (internal/entropy/whitening.go), [Pool]
      (internal/entropy/pool.go): what the pool does with a batch and before it
      gives bytes away;
    - [TokenBucket], [EntropyHTTP], [Routes]
      (internal/entropy/http_entropy_server.go): the server with its rate
      limiter, its handlers, and which request reaches which of them;
    - [Proto], [GrpcClient] (pkg/pb messages, internal/grpc/client.go): the
      client of the cloud service with all its goroutines, as an executable step
      function; a sender inside stream.Send holds the mutex, and what does not
      need it goes on;
    - [Gateway]: the above together, interleaved over one store, with any number
      of cloud clients and the calls of the sender cut where others come between;
    - [Serving]: the same with the handlers of the HTTP endpoint, each cut
      between its two uses of the shared pool;
    - [Traffic]: the same with every request of the clients, by path and query;
    - [Mirror]: what the streams to the cloud were handed and took, against the
      batches sent;
    - [Typed]: the widths of the Go types, for all the running gateway holds.

    Around them: [Config] (internal/config), [Clock] (internal/clock), [Metrics]
    (internal/metrics/prometheus.go), [MetricsHTTP]
    (internal/metrics/http_metric_server.go), [Startup] (main.go: address check,
    client authentication, one attempt to connect, both retry loops), [Main]
    (main.go: run and waitForShutdown, with their deferred calls, each of which may
    return, panic or hang), [Lifetime] (what is up after a history of run's
    actions and of what happens meanwhile), [Program] (the gateway that run boots,
    and every way the process ends), [TestSupport] (testutil/testutil.go: a metrics
    registry for each test, polling).

    A Go struct is a record with the fields' names, a method a computation in
    [GoM] that threads the struct and lists the calls it makes on code outside
    the repository, an error value a [goerror], a panic or an unfinished
    computation [None] (in [Main] [Panicked] and [Blocked]).  A method that holds its object's mutex throughout is
    one atomic step; goroutines are interleaved by the step relations of
    [Collector], [GrpcClient], [Gateway], [Serving] and [Traffic], which split a
    method where it gives up its mutex, writes a field without holding it, or may
    block.

    ** What the theorems show

    - The whole: [Gateway.gateway_end_to_end] (every event in order in exactly one
      batch, every byte served at most once, at most 32 bytes per batch),
      [gateway_shutdown], [gateway_invariant]; [Main.run_returns] (exactly when
      run returns), [run_exposure]; [Lifetime.run_cleans_up] (what is down then,
      and what can stay up: a lost connection, a cloud client attached too late).
    - From the configuration to the answers: [Program.program_serves] (what
      [Load] accepts and [run] starts bounds what all requests together get),
      [program_ready] (what /ready promises, and when it never can),
      [process_ends] (every way the process ends, its status, and what is left
      open).
    - The endpoint of the running gateway: [Serving.serving_rate] (the limiter
      bounds what leaves, under every interleaving), [serving_healthy] (all
      answers together pass the health tests), [serving_handler] (an
      interleaved request is answered as the handler alone answers it, on the
      pool the others left).
    - The streams of the cloud clients are handed the batches in order, each at
      most once, and take exactly those the sender reports as sent
      ([Mirror.gateway_mirror]); every value keeps its Go type
      ([Typed.gateway_types]).
    - Collector: conservation, order and numbering of events, absence of
      deadlock, safe closing, and what goes wrong after closing.
    - Pool: conservation of bytes, the contract of [ExtractEntropy], health of
      the served stream; the health tests, statistical tests and estimators
      against their mathematical definitions; SHA-256 against known answers;
      whitening.
    - HTTP: every response of the handler, the routes, what a query asks for (a
      client that encodes a number gets that many bytes), rate limiting against
      an integer specification, and the loopback guarantee.
    - MQTT: what each message does, the round trip of timestamps, the report of
      the first subscription, when an attempt to connect succeeds.
    - Cloud: the client's goroutines keep its counters exact; a reconnection loop
      ends after the documented delays, whatever the other goroutines do, and the
      client is then connected unless one of them has disconnected it since; a
      lost reconnection, a late error of an old stream and a concurrent receive
      are proved possible.
    - Configuration: what [Load] guarantees; client authentication.
    - Termination of the retry loops, with the bounds of their random waits in
      floating point; tests never share a registry ([TestSupport]).

    ** Bounds, fuel, numbers

    Integers are [Z] with the wrap-around of their Go type written out where it
    can happen ([u8], [u32], [u64], [i32], [i64]); int is 64 bits wide.  Doubles
    are those of the Standard Library's specification floats, rounded to nearest
    even, with conversions as on amd64 and without fused multiply-add.  Fuel
    occurs in parsing (the length of the string, which decreases at every turn)
    and in the retry loops, whose termination theorems give the fuel that
    suffices (the number of attempts) and show that more changes nothing.

    Parameters stand for what is not in the repository: Unicode lower case
    outside ASCII, [math.Erfc], [math.Pow], [math.Log2], the order of map
    iteration, the growth of slices, the file system, certificates, name
    resolution, Paho, gRPC, go-authx, the text of wrapped errors, clocks and
    random numbers.  Hypotheses on them are those their documentation states.

    ** Not modelled

    Log lines; the HTTP, MQTT, gRPC and TLS protocols themselves, and what
    net/http answers to a path it redirects; the registry of the Prometheus
    library (only the calls made on it and when they panic); the generated code of
    pkg/pb beyond its messages (accessors, descriptors, stubs); godotenv (the
    environment is the one [Load] reads); the contents of the embedded OpenAPI
    file.  The function variables of main.go that tests replace are their initial
    values.  Clients are assumed not to use the method CONNECT.
    The auto-flush timer is a step that may happen at any time, since the period
    is not part of any guarantee; [Gateway.flush_interval] gives its value. *)

From stdpp Require Export prelude strings gmap list.
From Stdlib Require Export ZArith Lia.

#[global] Open Scope string_scope.
#[global] Open Scope list_scope.
#[global] Open Scope Z_scope.

(** ** Go integers of fixed width *)

Definition maxUint32 : Z := 2 ^ 32 - 1.
Definition maxInt64 : Z := 2 ^ 63 - 1.
Definition minInt64 : Z := - 2 ^ 63.

(** Conversions to the fixed-width types wrap around. *)
Definition u8 (x : Z) : Z := x mod 2 ^ 8.
Definition u32 (x : Z) : Z := x mod 2 ^ 32.
Definition u64 (x : Z) : Z := x mod 2 ^ 64.
Definition i32 (x : Z) : Z := (x + 2 ^ 31) mod 2 ^ 32 - 2 ^ 31.
Definition i64 (x : Z) : Z := (x + 2 ^ 63) mod 2 ^ 64 - 2 ^ 63.

Definition is_byte (b : Z) : Prop := 0 ≤ b < 256.
Definition is_u32 (x : Z) : Prop := 0 ≤ x < 2 ^ 32.
Definition is_u64 (x : Z) : Prop := 0 ≤ x < 2 ^ 64.
Definition is_i64 (x : Z) : Prop := - 2 ^ 63 ≤ x < 2 ^ 63.

(** A Go [[]byte] is a list of integers below 256. *)
Abbreviation bytes := (list Z).
Abbreviation bytes_ok := (Forall is_byte).

(** [len(x)] of a slice, and the slice expressions [x[:n]] and [x[n:]]. *)
Definition len {A} (l : list A) : Z := Z.of_nat (length l).
Definition slice_to {A} (n : Z) (l : list A) : list A := take (Z.to_nat n) l.
Definition slice_from {A} (n : Z) (l : list A) : list A := drop (Z.to_nat n) l.

(** ** Go values of type [error] and (value, error) results

    [Errorf fmt args] is the error built by [fmt.Errorf(fmt, args...)], and
    [Errorf msg []] the one built by [errors.New(msg)]. *)
Inductive goerror := Errorf (fmt : string) (args : list string).

(** [fmt.Errorf(prefix + "%w", args..., e)]. *)
Definition wrap (prefix : string) (args : list string) (e : goerror) : goerror :=
  match e with Errorf fmt eargs => Errorf (prefix +:+ fmt) (args ++ eargs) end.

#[export] Instance goerror_eq_dec : EqDecision goerror.
Proof. solve_decision. Defined.

Inductive result (A : Type) := Ok (a : A) | Err (e : goerror).
Arguments Ok {A} a.
Arguments Err {A} e.

Definition is_ok {A} (r : result A) : bool :=
  match r with Ok _ => true | Err _ => false end.

#[export] Instance result_ret : MRet result := λ A a, Ok a.
#[export] Instance result_bind : MBind result := λ A B f r,
  match r with Ok a => f a | Err e => Err e end.

Lemma bind_ok {A B} (r : result A) (f : A → result B) b :
  (r ≫= f) = Ok b → ∃ a, r = Ok a ∧ f a = Ok b.
Proof. destruct r as [a|e]; [by exists a|done]. Qed.

(** ** Effects

    [GoM W S A] is a computation over a mutable object of type [S] that makes
    calls of type [W] to code outside the repository and returns an [A].  The
    calls are collected in the order they are made. *)
Definition GoM (W S A : Type) : Type := S → A * S * list W.

Section GoM.
Context {W S : Type}.

#[export] Instance GoM_ret : MRet (GoM W S) := λ A a s, (a, s, []).
#[export] Instance GoM_bind : MBind (GoM W S) := λ A B f m s,
  match m s with
  | (a, s1, w1) => match f a s1 with (b, s2, w2) => (b, s2, w1 ++ w2) end
  end.

Definition get : GoM W S S := λ s, (s, s, []).
Definition put (s : S) : GoM W S unit := λ _, (tt, s, []).
Definition modify (f : S → S) : GoM W S unit := λ s, (tt, f s, []).
Definition call (w : list W) : GoM W S unit := λ s, (tt, s, w).

Definition run_val {A} (m : GoM W S A) (s : S) : A := (m s).1.1.
Definition run_state {A} (m : GoM W S A) (s : S) : S := (m s).1.2.
Definition run_calls {A} (m : GoM W S A) (s : S) : list W := (m s).2.

(** Two computations are equivalent when they agree on every state. *)
#[export] Instance GoM_equiv {A} : Equiv (GoM W S A) := λ m1 m2, ∀ s, m1 s = m2 s.

#[export] Instance GoM_equivalence {A} : Equivalence (≡@{GoM W S A}).
Proof.
  split.
  - by intros m s.
  - intros m1 m2 H s. by rewrite H.
  - intros m1 m2 m3 H1 H2 s. by rewrite H1, H2.
Qed.

#[export] Instance GoM_bind_proper {A B} :
  Proper (pointwise_relation A (≡) ==> (≡) ==> (≡)) (GoM_bind A B).
Proof.
  intros f g Hf m1 m2 Hm s. unfold GoM_bind. rewrite (Hm s).
  destruct (m2 s) as [[a s1] w1]. by rewrite (Hf a s1).
Qed.

(** What a sequence of computations does, from what its first one does. *)
Lemma bind_run {A B} (m : GoM W S A) (f : A → GoM W S B) s a s1 w1 :
  m s = (a, s1, w1) →
  (m ≫= f) s = (run_val (f a) s1, run_state (f a) s1, w1 ++ run_calls (f a) s1).
Proof.
  intros E. unfold mbind, GoM_bind, run_val, run_state, run_calls. rewrite E.
  by destruct (f a s1) as [[b s2] w2].
Qed.

Lemma bind_eq {A B} (m : GoM W S A) (f : A → GoM W S B) s a s1 w1 b s2 w2 :
  m s = (a, s1, w1) → f a s1 = (b, s2, w2) → (m ≫= f) s = (b, s2, w1 ++ w2).
Proof. intros E1 E2. unfold mbind, GoM_bind. by rewrite E1, E2. Qed.

Lemma run_triple {A} (m : GoM W S A) s : m s = (run_val m s, run_state m s, run_calls m s).
Proof. unfold run_val, run_state, run_calls. by destruct (m s) as [[a s1] w1]. Qed.

Lemma bind_ret_l {A B} (a : A) (f : A → GoM W S B) :
  (mret a ≫= f) ≡ f a.
Proof.
  intros s. unfold mbind, GoM_bind, mret, GoM_ret.
  by destruct (f a s) as [[b s2] w2].
Qed.

Lemma bind_ret_r {A} (m : GoM W S A) : (m ≫= mret) ≡ m.
Proof.
  intros s. unfold mbind, GoM_bind, mret, GoM_ret.
  destruct (m s) as [[a s1] w1]. by rewrite app_nil_r.
Qed.

Lemma bind_assoc {A B C} (m : GoM W S A) (f : A → GoM W S B) (g : B → GoM W S C) :
  ((m ≫= f) ≫= g) ≡ (m ≫= λ a, f a ≫= g).
Proof.
  intros s. unfold mbind, GoM_bind.
  destruct (m s) as [[a s1] w1]. destruct (f a s1) as [[b s2] w2].
  destruct (g b s2) as [[c s3] w3]. by rewrite (assoc_L (++)).
Qed.
End GoM.

(** ** Generic lemmas and automation *)

(** What a list of steps gives, step by step. *)
Lemma bind_app {A B} (f : A → list B) l k : (l ++ k) ≫= f = (l ≫= f) ++ (k ≫= f).
Proof. induction l as [|x l IH]; [done|]. cbn. by rewrite IH, (assoc_L (++)). Qed.

Lemma bind_one {A B} (f : A → list B) x : [x] ≫= f = f x.
Proof. cbn. by rewrite app_nil_r. Qed.

Create HintDb gw.
Create Rewrite HintDb len.

Lemma len_nonneg {A} (l : list A) : 0 ≤ len l.
Proof. unfold len. lia. Qed.

Lemma len_nil {A} : len (@nil A) = 0.
Proof. done. Qed.

Lemma len_cons {A} (x : A) l : len (x :: l) = len l + 1.
Proof. unfold len. simpl. lia. Qed.

Lemma len_app {A} (l1 l2 : list A) : len (l1 ++ l2) = len l1 + len l2.
Proof. unfold len. rewrite length_app. lia. Qed.

Lemma len_zero_iff {A} (l : list A) : len l = 0 ↔ l = [].
Proof. unfold len. destruct l; simpl; split; intros; try done; lia. Qed.

Lemma len_slice_to {A} n (l : list A) : 0 ≤ n ≤ len l → len (slice_to n l) = n.
Proof. unfold len, slice_to. rewrite length_take. lia. Qed.

Lemma len_slice_from {A} n (l : list A) : 0 ≤ n ≤ len l → len (slice_from n l) = len l - n.
Proof. unfold len, slice_from. rewrite length_drop. lia. Qed.

Lemma slice_to_from {A} n (l : list A) : slice_to n l ++ slice_from n l = l.
Proof. unfold slice_to, slice_from. apply take_drop. Qed.

(** How many elements of a list satisfy a predicate. *)
Fixpoint count {A} (P : A → bool) (l : list A) : Z :=
  match l with [] => 0 | x :: l => Z.b2z (P x) + count P l end.

Lemma count_nonneg {A} P (l : list A) : 0 ≤ count P l.
Proof. induction l as [|x l IH]; cbn [count]; [lia|]. destruct (P x); cbn [Z.b2z]; lia. Qed.

Lemma count_app {A} P (l k : list A) : count P (l ++ k) = count P l + count P k.
Proof. induction l as [|x l IH]; cbn [count app]; lia. Qed.

Lemma count_insert {A} P (l : list A) i x y :
  l !! i = Some x → count P (<[i := y]> l) = count P l - Z.b2z (P x) + Z.b2z (P y).
Proof.
  revert i. induction l as [|a l IH]; intros [|i]; try done.
  - intros [= ->]. cbn. lia.
  - intros Hi. specialize (IH i Hi).
    change (count P (<[S i := y]> (a :: l))) with (Z.b2z (P a) + count P (<[i := y]> l)).
    cbn [count]. lia.
Qed.

Lemma count_zero {A} P (l : list A) : count P l = 0 ↔ Forall (λ x, P x = false) l.
Proof.
  induction l as [|x l IH]; cbn [count]; [done|]. rewrite Forall_cons, <-IH.
  pose proof (count_nonneg P l). destruct (P x); cbn [Z.b2z]; [|intuition lia].
  split; [lia|by intros [? _]].
Qed.

#[export] Hint Rewrite @len_nil @len_cons @len_app : len.
#[export] Hint Resolve len_nonneg : gw.

(** Case analysis on every [if] and [match] of the goal. *)
Ltac split_cases :=
  repeat (case_decide || case_match); simplify_eq/=.

(** Boolean comparisons in hypotheses and goal, as propositions. *)
Ltac bool_to_Z :=
  repeat match goal with
  | H : (_ <? _) = true |- _ => apply Z.ltb_lt in H
  | H : (_ <? _) = false |- _ => apply Z.ltb_ge in H
  | H : (_ <=? _) = true |- _ => apply Z.leb_le in H
  | H : (_ <=? _) = false |- _ => apply Z.leb_gt in H
  | H : (_ =? _) = true |- _ => apply Z.eqb_eq in H
  | H : (_ =? _) = false |- _ => apply Z.eqb_neq in H
  end.

Lemma i64_id x : is_i64 x → i64 x = x.
Proof. unfold is_i64, i64. intros. rewrite Z.mod_small; lia. Qed.

Lemma u32_id x : is_u32 x → u32 x = x.
Proof. unfold is_u32, u32. intros. by rewrite Z.mod_small by lia. Qed.

Lemma u32_range x : is_u32 (u32 x).
Proof. unfold is_u32, u32. apply Z.mod_pos_bound. lia. Qed.

Lemma u64_range x : is_u64 (u64 x).
Proof. unfold is_u64, u64. apply Z.mod_pos_bound. lia. Qed.

#[export] Hint Resolve u32_range u64_range : gw.
