(* ===== verification/Float64.v ===== *)
(** * IEEE-754 binary64 arithmetic as Go's [float64] uses it

    The operations are the ones of [SpecFloat] at precision 53 and maximal
    exponent 1024 (round to nearest, ties to even).  The lemmas relate the
    floats the gateway computes, which are built from integers, to exact integer
    arithmetic: conversion, sums, differences and products of integers below
    2^53 are exact, and comparing two quotients of integers gives the comparison
    of the rational numbers. *)

From Stdlib Require Export SpecFloat.
From S2P Require Import Prelude.

Abbreviation f64 := spec_float.

Definition fprec : Z := 53.
Definition femax : Z := 1024.

(** [float64(n)] of an integer [n]. *)
Definition of_int (n : Z) : f64 := binary_normalize fprec femax n 0 false.

Definition fadd : f64 → f64 → f64 := SFadd fprec femax.
Definition fsub : f64 → f64 → f64 := SFsub fprec femax.
Definition fmul : f64 → f64 → f64 := SFmul fprec femax.
Definition fdiv : f64 → f64 → f64 := SFdiv fprec femax.
Definition fsqrt : f64 → f64 := SFsqrt fprec femax.
Definition fabs : f64 → f64 := SFabs.
Definition fneg : f64 → f64 := SFopp.

Definition feq : f64 → f64 → bool := SFeqb.
Definition flt : f64 → f64 → bool := SFltb.
Definition fle : f64 → f64 → bool := SFleb.

Definition fzero : f64 := S754_zero false.

(** The constant [n/d] of the source, rounded to the nearest float. *)
Definition flit (n d : Z) : f64 := fdiv (of_int n) (of_int d).

Definition is_nan (x : f64) : bool := match x with S754_nan => true | _ => false end.

Definition signbit (x : f64) : bool :=
  match x with
  | S754_zero s | S754_infinity s | S754_finite s _ _ => s
  | S754_nan => false
  end.

(** The value of a finite float in units of the smallest subnormal, 2^-1074. *)
Definition funit : Z := 2 ^ 1074.
Definition fscaled (x : f64) : Z :=
  match x with
  | S754_finite s m e => cond_Zopp s (Zpos m) * 2 ^ (e + 1074)
  | _ => 0
  end.

(** [math.Min] of the standard library. *)
Definition fmin (x y : f64) : f64 :=
  match x, y with
  | S754_infinity true, _ | _, S754_infinity true => S754_infinity true
  | S754_nan, _ | _, S754_nan => S754_nan
  | S754_zero s, S754_zero _ => if s then x else y
  | _, _ => if flt x y then x else y
  end.

(** Conversion to [int64]: truncation towards zero.  A value outside the range
    of [int64] (or a NaN) gives the smallest [int64], as on amd64. *)
Definition to_int64 (x : f64) : Z :=
  match x with
  | S754_zero _ => 0
  | S754_finite _ _ _ =>
      let n := Z.quot (fscaled x) funit in
      if (minInt64 <=? n) && (n <=? maxInt64) then n else minInt64
  | _ => minInt64
  end.

(** [math.Ceil] of the standard library. *)
Definition fceil (x : f64) : f64 :=
  match x with
  | S754_finite s m e =>
      if 0 <=? e then x
      else
        let n := - ((- fscaled x) / funit) in
        if n =? 0 then S754_zero s else of_int n
  | _ => x
  end.

(** ** Digits and shifts *)

Lemma digits2_pos_bounds m :
  2 ^ (Zpos (digits2_pos m) - 1) ≤ Zpos m < 2 ^ Zpos (digits2_pos m).
Proof.
  induction m as [m IH|m IH|]; simpl digits2_pos; [| |simpl; lia].
  all: rewrite Pos2Z.inj_succ, Z.pow_succ_r by lia.
  all: replace (Z.succ (Zpos (digits2_pos m)) - 1) with (Z.succ (Zpos (digits2_pos m) - 1)) by lia.
  all: rewrite Z.pow_succ_r by lia.
  all: rewrite ?(Pos2Z.inj_xI m), ?(Pos2Z.inj_xO m); lia.
Qed.

Lemma digits2_pos_unique m d :
  1 ≤ d → 2 ^ (d - 1) ≤ Zpos m < 2 ^ d → Zpos (digits2_pos m) = d.
Proof.
  intros Hd [H1 H2]. destruct (digits2_pos_bounds m) as [H3 H4].
  assert (Zpos (digits2_pos m) - 1 < d) by (apply (Z.pow_lt_mono_r_iff 2); lia).
  assert (d - 1 < Zpos (digits2_pos m)) by (apply (Z.pow_lt_mono_r_iff 2); lia).
  lia.
Qed.

(** [mrs] represents the rational [num / den]. *)
Definition rep (mrs : shr_record) (num den : Z) : Prop :=
  0 ≤ shr_m mrs ∧ 0 < den ∧
  let h := 2 * shr_m mrs + Z.b2z (shr_r mrs) in
  if shr_s mrs then h * den < 2 * num < (h + 1) * den else 2 * num = h * den.

Lemma shr_1_eq mrs :
  0 ≤ shr_m mrs →
  shr_1 mrs = Build_shr_record (shr_m mrs / 2) (Z.odd (shr_m mrs)) (shr_r mrs || shr_s mrs).
Proof.
  destruct mrs as [m r s]; simpl. intros Hm.
  rewrite <-Z.div2_div. by destruct m as [|[p|p|]|p].
Qed.

Lemma rep_shr_1 mrs num den : rep mrs num den → rep (shr_1 mrs) num (den * 2).
Proof.
  intros (Hm & Hden & H). rewrite shr_1_eq by done.
  split_and!; cbn [shr_m shr_r shr_s]; [by apply Z.div_pos|lia|].
  pose proof (Z.div_mod (shr_m mrs) 2 ltac:(lia)) as Hdm.
  rewrite Zmod_odd in Hdm.
  assert (2 * (shr_m mrs / 2) + Z.b2z (Z.odd (shr_m mrs)) = shr_m mrs) as ->.
  { revert Hdm. destruct (Z.odd (shr_m mrs)); cbn [Z.b2z]; lia. }
  revert H. destruct (shr_r mrs), (shr_s mrs); cbn [Z.b2z orb]; nia.
Qed.

Lemma rep_shr_iter p mrs num den :
  rep mrs num den → rep (SpecFloat.iter_pos shr_1 p mrs) num (den * 2 ^ Zpos p).
Proof.
  revert mrs den. induction p as [p IH|p IH|]; simpl SpecFloat.iter_pos; intros mrs den H.
  - apply rep_shr_1, IH, IH in H.
    rewrite (Pos2Z.inj_xI p).
    replace (2 * Zpos p + 1) with (1 + (Zpos p + Zpos p)) by lia.
    rewrite !Z.pow_add_r, Z.pow_1_r, !Z.mul_assoc by lia. done.
  - apply IH, IH in H. 
    rewrite (Pos2Z.inj_xO p).
    replace (2 * Zpos p) with (Zpos p + Zpos p) by lia. rewrite Z.pow_add_r by lia.
    by rewrite Z.mul_assoc.
  - by apply rep_shr_1.
Qed.

(** Rounding a represented rational to the nearest integer, ties to even. *)
Lemma rep_round_nearest_even mrs num den :
  rep mrs num den →
  let M := round_nearest_even (shr_m mrs) (loc_of_shr_record mrs) in
  0 ≤ M ∧ - den ≤ 2 * (M * den - num) ≤ den ∧
  (Z.abs (2 * (M * den - num)) = den → Z.even M = true).
Proof.
  destruct mrs as [m r s]. intros (Hm & Hden & H). simpl in Hm.
  destruct r, s; cbn [shr_m shr_r shr_s Z.b2z] in H; simpl.
  - split_and!; nia.
  - destruct (Z.even m) eqn:He.
    + split_and!; [lia..|done].
    + split_and!; [lia..|]. intros _. by rewrite Z.add_1_r, Z.even_succ, <-Z.negb_even, He.
  - split_and!; nia.
  - split_and!; nia.
Qed.

Lemma rep_exact m num den :
  0 ≤ m → 0 < den → num = m * den → rep (Build_shr_record m false false) num den.
Proof. intros. split_and!; cbn [shr_m shr_r shr_s Z.b2z]; lia. Qed.

Lemma rep_new_location q r num den :
  0 ≤ q → 0 < den → num = q * den + r → 0 ≤ r < den →
  rep (shr_record_of_loc q (new_location den r)) num den.
Proof.
  intros Hq Hden -> Hr. unfold new_location, new_location_even, new_location_odd.
  destruct (Z.even den) eqn:He, (r =? 0) eqn:Hr0; bool_to_Z.
  - apply rep_exact; lia.
  - destruct (Z.compare_spec (2 * r) den);
      (split_and!; cbn [shr_record_of_loc shr_m shr_r shr_s Z.b2z]; lia).
  - apply rep_exact; lia.
  - assert (2 * r ≠ den).
    { intros <-. by rewrite Z.even_mul in He. }
    destruct (Z.compare_spec (2 * r + 1) den);
      (split_and!; cbn [shr_record_of_loc shr_m shr_r shr_s Z.b2z]; lia).
Qed.

(** ** Rounding *)

(** The exponent of the result when the value has [d] digits over exponent [e]. *)
Abbreviation fexp64 := (fexp fprec femax).

Lemma fexp64_eq e : fexp64 e = Z.max (e - 53) (-1074).
Proof. done. Qed.

(** A float in canonical form: a subnormal, or a mantissa of 53 bits. *)
Definition canonical (m e : Z) : Prop :=
  -1074 ≤ e ≤ 971 ∧ 0 < m < 2 ^ 53 ∧ (-1074 < e → 2 ^ 52 ≤ m).

(** The value of [binary_round_aux] once the integer [M] nearest to the
    mantissa is known. *)
Definition round_result (s : bool) (M E : Z) : f64 :=
  if M =? 0 then S754_zero s
  else if M =? 2 ^ 53 then
    if E + 1 <=? 971 then S754_finite s (Z.to_pos (2 ^ 52)) (E + 1) else S754_infinity s
  else if E <=? 971 then S754_finite s (Z.to_pos M) E else S754_infinity s.

Lemma Zdigits2_spec m d : 1 ≤ d → 2 ^ (d - 1) ≤ m < 2 ^ d → Zdigits2 m = d.
Proof.
  intros Hd H. destruct m as [|m|m]; simpl; try lia.
  by apply digits2_pos_unique.
Qed.

Lemma Zdigits2_bounds m : 0 < m → 2 ^ (Zdigits2 m - 1) ≤ m < 2 ^ Zdigits2 m.
Proof. destruct m as [|m|m]; try lia. intros _. apply digits2_pos_bounds. Qed.

Lemma Zdigits2_le m k : 0 < m → 0 ≤ k → m < 2 ^ k → Zdigits2 m ≤ k.
Proof.
  intros Hm Hk H. pose proof (Zdigits2_bounds m Hm).
  assert (Zdigits2 m - 1 < k) by (apply (Z.pow_lt_mono_r_iff 2); lia). lia.
Qed.

Lemma Zdigits2_ge m k : 0 < m → 2 ^ k ≤ m → k < Zdigits2 m.
Proof.
  intros Hm H. pose proof (Zdigits2_bounds m Hm).
  apply (Z.pow_lt_mono_r_iff 2); [lia| |lia].
  destruct m; simpl; lia.
Qed.

Lemma shr_nonneg mrs e n num den :
  0 ≤ n → rep mrs num den →
  ∃ mrs', shr mrs e n = (mrs', e + n) ∧ rep mrs' num (den * 2 ^ n).
Proof.
  intros Hn H. destruct n as [|p|p]; [| |lia].
  - exists mrs. by rewrite Z.add_0_r, Z.pow_0_r, Z.mul_1_r.
  - eexists. split; [done|]. by apply rep_shr_iter.
Qed.

Lemma shr_nonpos mrs e n : n ≤ 0 → shr mrs e n = (mrs, e).
Proof. by destruct n. Qed.

Lemma rep_bounds m l num den :
  rep (shr_record_of_loc m l) num den → 0 < den ∧ m * den ≤ num < (m + 1) * den.
Proof.
  intros (Hm & Hden & H). split; [done|]. destruct l as [|[]]; simpl in *; lia.
Qed.

Lemma round_second_shift s M E :
  0 ≤ M ≤ 2 ^ 53 → -1074 ≤ E →
  (let '(mrs, e) := shr_fexp fprec femax M E loc_Exact in
   match shr_m mrs with
   | Z0 => S754_zero s
   | Zpos m => if e <=? femax - fprec then S754_finite s m e else S754_infinity s
   | Zneg _ => S754_nan
   end) = round_result s M E.
Proof.
  intros HM HE. unfold shr_fexp, round_result, femax, fprec. rewrite fexp64_eq.
  destruct (Z.eqb_spec M 0) as [->|HM0].
  { rewrite shr_nonpos by (simpl; lia). done. }
  destruct (Z.eqb_spec M (2 ^ 53)) as [->|HM53].
  { change (Zdigits2 (2 ^ 53)) with 54.
    replace (Z.max (54 + E - 53) (-1074) - E) with 1 by lia. done. }
  rewrite shr_nonpos.
  - destruct M; [lia|done|lia].
  - pose proof (Zdigits2_le M 53 ltac:(lia) ltac:(lia) ltac:(lia)). lia.
Qed.

(** [binary_round_aux] returns the float nearest to [num / den * 2^e], ties to
    even: its mantissa is [M] over the exponent [E]. *)
Lemma binary_round_aux_spec s m e l num den :
  0 < m → rep (shr_record_of_loc m l) num den →
  let E := fexp64 (Zdigits2 m + e) in
  e ≤ E →
  let den' := den * 2 ^ (E - e) in
  ∃ M, 0 ≤ M ≤ 2 ^ 53 ∧ (-1074 < E → 2 ^ 52 ≤ M) ∧
    - den' ≤ 2 * (M * den' - num) ≤ den' ∧
    (Z.abs (2 * (M * den' - num)) = den' → Z.even M = true) ∧
    binary_round_aux fprec femax s m e l = round_result s M E.
Proof.
  intros Hm Hrep E HeE den'.
  destruct (rep_bounds _ _ _ _ Hrep) as [Hden Hnum].
  unfold binary_round_aux, shr_fexp. fold E.
  destruct (shr_nonneg _ e (E - e) _ _ ltac:(lia) Hrep) as (mrs' & -> & Hrep').
  replace (e + (E - e)) with E by lia. fold den' in Hrep'.
  destruct (rep_round_nearest_even _ _ _ Hrep') as (HM0 & HM & Htie).
  set (M := round_nearest_even _ _) in *.
  pose proof (Zdigits2_bounds m Hm) as [Hd1 Hd2]. set (d := Zdigits2 m) in *.
  assert (0 < d) by (destruct m; simpl in *; lia).
  assert (HE : E = Z.max (d + e - 53) (-1074)) by done.
  assert (Hp : 0 < 2 ^ (E - e)) by (apply Z.pow_pos_nonneg; lia).
  assert (HM53 : M ≤ 2 ^ 53).
  { assert (2 ^ d ≤ 2 ^ 53 * 2 ^ (E - e)).
    { rewrite <-Z.pow_add_r by lia. apply Z.pow_le_mono_r; lia. }
    assert (num < 2 ^ 53 * den') by (unfold den'; nia).
    assert (2 * (M * den') ≤ 2 * num + den') by lia. nia. }
  exists M. split_and!; try done.
  - intros HE'. assert (HE2 : E - e = d - 53) by lia.
    assert (2 ^ 52 * 2 ^ (E - e) ≤ 2 ^ (d - 1)).
    { rewrite <-Z.pow_add_r by lia. apply Z.pow_le_mono_r; lia. }
    assert (2 ^ 52 * den' ≤ num) by (unfold den'; nia). nia.
  - lia.
  - lia.
  - apply round_second_shift; lia.
Qed.

(** ** Exact values *)

(** The scaled value of mantissa [c] over exponent [E]. *)
Definition scaled (c E : Z) : Z := c * 2 ^ (E + 1074).
Arguments scaled : simpl never.

Lemma pow_split e f : -1074 ≤ f ≤ e → 2 ^ (e + 1074) = 2 ^ (e - f) * 2 ^ (f + 1074).
Proof. intros. rewrite <-Z.pow_add_r by lia. f_equal. lia. Qed.

Lemma scaled_lt c E c' E' :
  canonical c E → canonical c' E' → E < E' → scaled c E < scaled c' E'.
Proof.
  intros (HE & Hc & _) (HE' & Hc' & Hn) HEE. unfold scaled.
  replace (E' + 1074) with ((E + 1074) + (1 + (E' - E - 1))) by lia.
  rewrite (Z.pow_add_r 2 (E + 1074)), (Z.pow_add_r 2 1), Z.pow_1_r by lia.
  assert (0 < 2 ^ (E + 1074)) by (apply Z.pow_pos_nonneg; lia).
  assert (0 < 2 ^ (E' - E - 1)) by (apply Z.pow_pos_nonneg; lia).
  specialize (Hn ltac:(lia)).
  set (u := 2 ^ (E + 1074)) in *. set (v := 2 ^ (E' - E - 1)) in *.
  assert (u ≤ u * v) by nia. assert (2 ^ 52 * (u * v) ≤ c' * (u * v)) by nia. nia.
Qed.

Lemma canonical_unique c E c' E' :
  canonical c E → canonical c' E' → scaled c E = scaled c' E' → c = c' ∧ E = E'.
Proof.
  intros HC HC' Heq. destruct (Z.lt_trichotomy E E') as [H|[->|H]].
  - pose proof (scaled_lt _ _ _ _ HC HC' H). lia.
  - split; [|done]. unfold scaled in Heq. apply Z.mul_reg_r in Heq; [done|].
    apply Z.pow_nonzero; [lia|]. destruct HC as [? _]; lia.
  - pose proof (scaled_lt _ _ _ _ HC' HC H). lia.
Qed.

Lemma Zdigits2_scaled m e :
  0 < m → -1074 ≤ e → Zdigits2 (scaled m e) = Zdigits2 m + e + 1074.
Proof.
  intros Hm He. pose proof (Zdigits2_bounds m Hm).
  assert (0 < Zdigits2 m) by (destruct m; simpl; lia).
  apply Zdigits2_spec; [lia|]. unfold scaled.
  replace (Zdigits2 m + e + 1074 - 1) with ((Zdigits2 m - 1) + (e + 1074)) by lia.
  replace (Zdigits2 m + e + 1074) with (Zdigits2 m + (e + 1074)) by lia.
  rewrite !(Z.pow_add_r 2 _ (e + 1074)) by lia.
  assert (0 < 2 ^ (e + 1074)) by (apply Z.pow_pos_nonneg; lia). nia.
Qed.

Lemma canonical_fexp c E : canonical c E → fexp64 (Zdigits2 c + E) = E.
Proof.
  intros (HE & Hc & Hn). rewrite fexp64_eq.
  pose proof (Zdigits2_le c 53 ltac:(lia) ltac:(lia) ltac:(lia)).
  destruct (Z.eq_dec E (-1074)) as [->|]; [lia|].
  pose proof (Zdigits2_ge c 52 ltac:(lia) (Hn ltac:(lia))). lia.
Qed.

(** A value that has a canonical form is rounded to it. *)
Lemma binary_round_aux_exact s m e c E :
  0 < m → canonical c E → -1074 ≤ e ≤ E → scaled m e = scaled c E →
  binary_round_aux fprec femax s m e loc_Exact = S754_finite s (Z.to_pos c) E.
Proof.
  intros Hm HC He Hv.
  pose proof (Zdigits2_scaled m e Hm ltac:(lia)) as Hd1.
  pose proof HC as (HE & Hc & Hn).
  pose proof (Zdigits2_scaled c E ltac:(lia) ltac:(lia)) as Hd2.
  rewrite Hv, Hd2 in Hd1.
  assert (HEE : fexp64 (Zdigits2 m + e) = E).
  { rewrite <-(canonical_fexp c E HC). f_equal. lia. }
  assert (Hmc : m = c * 2 ^ (E - e)).
  { unfold scaled in Hv. rewrite (pow_split E e), Z.mul_assoc in Hv by lia.
    apply Z.mul_reg_r in Hv; [done|]. apply Z.pow_nonzero; lia. }
  destruct (binary_round_aux_spec s m e loc_Exact m 1) as (M & HM & _ & Herr & _ & ->).
  - done.
  - apply rep_exact; lia.
  - lia.
  - rewrite HEE in *. assert (0 < 2 ^ (E - e)) by (apply Z.pow_pos_nonneg; lia).
    assert (M = c) as -> by nia. unfold round_result.
    destruct (Z.eqb_spec c 0); [lia|]. destruct (Z.eqb_spec c (2 ^ 53)); [lia|].
    destruct (Z.leb_spec E 971); [done|lia].
Qed.

Lemma iter_xO_eq m p : Zpos (Pos.iter xO m p) = Zpos m * 2 ^ Zpos p.
Proof.
  induction p as [|p IH] using Pos.peano_ind; [simpl; lia|].
  rewrite Pos.iter_succ, (Pos2Z.inj_xO (Pos.iter xO m p)), IH, Pos2Z.inj_succ, Z.pow_succ_r by lia.
  lia.
Qed.

Lemma shl_align_eq mx ex ex' :
  shl_align mx ex ex' = (Z.to_pos (Zpos mx * 2 ^ (ex - Z.min ex ex')), Z.min ex ex').
Proof.
  unfold shl_align. destruct (ex' - ex) as [|p|p] eqn:Hd.
  - replace (Z.min ex ex') with ex by lia. by rewrite Z.sub_diag, Z.mul_1_r.
  - replace (Z.min ex ex') with ex by lia. by rewrite Z.sub_diag, Z.mul_1_r.
  - replace (Z.min ex ex') with ex' by lia. f_equal.
    replace (ex - ex') with (Zpos p) by lia. by rewrite <-iter_xO_eq.
Qed.

Lemma binary_round_exact s m e c E :
  canonical c E → -1074 ≤ e → scaled (Zpos m) e = scaled c E →
  binary_round fprec femax s m e = S754_finite s (Z.to_pos c) E.
Proof.
  intros HC He Hv. pose proof HC as (HE & Hc & _).
  assert (HEE : fexp64 (Zpos (digits2_pos m) + e) = E).
  { pose proof (Zdigits2_scaled (Zpos m) e ltac:(lia) He) as Hd1.
    pose proof (Zdigits2_scaled c E ltac:(lia) ltac:(lia)) as Hd2.
    rewrite <-(canonical_fexp c E HC). f_equal. rewrite Hv, Hd2 in Hd1. simpl in Hd1. lia. }
  unfold binary_round. rewrite HEE, shl_align_eq.
  assert (0 < 2 ^ (e - Z.min e E)) by (apply Z.pow_pos_nonneg; lia).
  rewrite Z2Pos.id by nia.
  apply binary_round_aux_exact; [nia|done|lia|].
  rewrite <-Hv. unfold scaled.
  rewrite (pow_split e (Z.min e E)) by lia. lia.
Qed.

(** [repr x V]: [x] is the float whose scaled value is exactly [V]. *)
Inductive repr : f64 → Z → Prop :=
| repr_zero : repr (S754_zero false) 0
| repr_finite s c E :
    canonical (Zpos c) E →
    repr (S754_finite s c E) (cond_Zopp s (scaled (Zpos c) E)).

Lemma scaled_pos c E : -1074 ≤ E → 0 < c → 0 < scaled c E.
Proof. intros. unfold scaled. apply Z.mul_pos_pos; [done|]. apply Z.pow_pos_nonneg; lia. Qed.

Lemma canonical_pos c E : canonical c E → 0 < scaled c E.
Proof. intros (? & ? & _). apply scaled_pos; lia. Qed.

Lemma repr_fscaled x V : repr x V → fscaled x = V.
Proof. intros [|[] c E _]; simpl; unfold scaled; lia. Qed.

Lemma repr_functional x y V : repr x V → repr y V → x = y.
Proof.
  intros Hx Hy. destruct Hx as [|s c E HC].
  - inversion Hy as [|s c E HC Heq]; [done|].
    pose proof (canonical_pos _ _ HC). destruct s; simpl in *; lia.
  - inversion Hy as [Heq|s' c' E' HC' Heq]; subst;
      pose proof (canonical_pos _ _ HC).
    + destruct s; simpl in *; lia.
    + pose proof (canonical_pos _ _ HC').
      assert (s' = s ∧ scaled (Zpos c') E' = scaled (Zpos c) E) as [-> Hs]
        by (destruct s, s'; simpl in *; split; lia || done).
      destruct (canonical_unique _ _ _ _ HC' HC Hs) as [[= ->] ->]. done.
Qed.

(** [V] is the scaled value of some finite float. *)
Definition representable (V : Z) : Prop := ∃ x, repr x V.

Lemma binary_normalize_exact m e V z :
  representable V → -1074 ≤ e → m * 2 ^ (e + 1074) = V → z = false →
  repr (binary_normalize fprec femax m e z) V.
Proof.
  intros [x Hx] He HV ->.
  assert (0 < 2 ^ (e + 1074)) by (apply Z.pow_pos_nonneg; lia).
  destruct Hx as [|s c E HC].
  - assert (m = 0) as -> by nia. constructor.
  - pose proof (canonical_pos _ _ HC).
    unfold binary_normalize. destruct m as [|m|m].
    + destruct s; simpl in *; lia.
    + rewrite (binary_round_exact _ _ _ (Zpos c) E).
      * assert (s = false) as -> by (destruct s; simpl in *; [nia|done]).
        by constructor.
      * done.
      * done.
      * destruct s; unfold scaled in *; simpl in *; nia.
    + rewrite (binary_round_exact _ _ _ (Zpos c) E).
      * assert (s = true) as -> by (destruct s; simpl in *; [done|nia]).
        by constructor.
      * done.
      * done.
      * destruct s; unfold scaled in *; simpl in *; nia.
Qed.

(** Exact operations: when the exact result is a float, it is the result. *)
Lemma fadd_exact x y V W :
  repr x V → repr y W → representable (V + W) → repr (fadd x y) (V + W).
Proof.
  intros Hx Hy HR. destruct Hx as [|s c E HC]; [by destruct Hy; rewrite Z.add_0_l; constructor|].
  destruct Hy as [|s' c' E' HC']; [by rewrite Z.add_0_r; constructor|].
  destruct HC as (HE & _), HC' as (HE' & _).
  unfold fadd, SFadd. apply binary_normalize_exact; [done|lia| |done].
  rewrite !shl_align_eq. cbn [fst].
  replace (Z.min E (Z.min E E')) with (Z.min E E') by lia.
  replace (Z.min E' (Z.min E E')) with (Z.min E E') by lia.
  rewrite !Z2Pos.id by (apply Z.mul_pos_pos; [lia|]; apply Z.pow_pos_nonneg; lia).
  unfold scaled.
  rewrite (pow_split E (Z.min E E')), (pow_split E' (Z.min E E')) by lia.
  destruct s, s'; cbn [cond_Zopp]; lia.
Qed.

Lemma repr_neg x V : V ≠ 0 → repr x V → repr (fneg x) (- V).
Proof.
  intros HV Hx. revert HV. destruct Hx as [|s c E HC]; [done|intros _].
  replace (- cond_Zopp s (scaled (Zpos c) E)) with (cond_Zopp (negb s) (scaled (Zpos c) E))
    by (destruct s; simpl; lia).
  by apply repr_finite.
Qed.

Lemma fsub_fadd x y : is_Some (match y with S754_finite _ _ _ => Some tt | _ => None end) →
  fsub x y = fadd x (fneg y).
Proof.
  destruct y as [| | |s' m' e']; try by intros [? ?].
  destruct x as [|[]| |s m e]; try done. intros _.
  unfold fsub, fadd, SFsub, SFadd, fneg, SFopp. f_equal.
  destruct s'; cbn [cond_Zopp negb]; lia.
Qed.

Lemma fsub_exact x y V W :
  repr x V → repr y W → representable (V - W) → repr (fsub x y) (V - W).
Proof.
  intros Hx Hy HR. destruct (Z.eq_dec W 0) as [->|HW].
  - assert (y = S754_zero false) as -> by (eapply repr_functional; [done|constructor]).
    rewrite Z.sub_0_r. destruct Hx; simpl; by constructor.
  - rewrite fsub_fadd.
    + apply fadd_exact; [done|by apply repr_neg|done].
    + destruct Hy; [done|]. eauto.
Qed.

(** Comparison. *)
Lemma repr_compare x y V W :
  repr x V → repr y W → SFcompare x y = Some (V ?= W).
Proof.
  intros Hx Hy. destruct Hx as [|s c E HC], Hy as [|s' c' E' HC'];
    cbn [SFcompare cond_Zopp]; f_equal; symmetry.
  - pose proof (canonical_pos _ _ HC').
    destruct s'; cbn [cond_Zopp]; [apply Z.compare_gt_iff|apply Z.compare_lt_iff]; lia.
  - pose proof (canonical_pos _ _ HC).
    destruct s; cbn [cond_Zopp]; [apply Z.compare_lt_iff|apply Z.compare_gt_iff]; lia.
  - pose proof (canonical_pos _ _ HC). pose proof (canonical_pos _ _ HC').
    assert (Hcmp : (scaled (Zpos c) E ?= scaled (Zpos c') E') =
      match E ?= E' with Lt => Lt | Gt => Gt | Eq => Pos.compare_cont Eq c c' end).
    { destruct (Z.compare_spec E E') as [->|Hlt|Hgt].
      - unfold scaled. rewrite <-Zmult_compare_compat_r; [done|].
        apply Z.lt_gt, Z.pow_pos_nonneg; [lia|]. destruct HC' as [? _]; lia.
      - apply Z.compare_lt_iff. by apply scaled_lt.
      - apply Z.compare_gt_iff. by apply scaled_lt. }
    destruct s, s'; cbn [cond_Zopp].
    + rewrite Z.compare_opp, Z.compare_antisym, Hcmp. by destruct (E ?= E').
    + apply Z.compare_lt_iff. lia.
    + apply Z.compare_gt_iff. lia.
    + rewrite Hcmp. by destruct (E ?= E').
Qed.

(** ** Integers *)

(** Integers up to 2^53 in absolute value are floats. *)
Lemma representable_int n : Z.abs n ≤ 2 ^ 53 → representable (n * funit).
Proof.
  intros Hn. unfold funit.
  assert (Hpos : ∀ k, 0 < k ≤ 2 ^ 53 → ∃ c E, canonical (Zpos c) E ∧ scaled (Zpos c) E = k * 2 ^ 1074).
  { intros k Hk. destruct (Z.eq_dec k (2 ^ 53)) as [->|].
    { exists (2 ^ 52)%positive, 1. split; [|done]. split_and!; lia. }
    pose proof (Zdigits2_bounds k ltac:(lia)).
    pose proof (Zdigits2_le k 53 ltac:(lia) ltac:(lia) ltac:(lia)).
    assert (0 < Zdigits2 k) by (destruct k; simpl; lia).
    set (d := Zdigits2 k) in *.
    assert (Hp : 0 < 2 ^ (53 - d)) by (apply Z.pow_pos_nonneg; lia).
    assert (H52 : 2 ^ 52 = 2 ^ (d - 1) * 2 ^ (53 - d))
      by (rewrite <-Z.pow_add_r by lia; f_equal; lia).
    assert (H53 : 2 ^ 53 = 2 ^ d * 2 ^ (53 - d))
      by (rewrite <-Z.pow_add_r by lia; f_equal; lia).
    exists (Z.to_pos (k * 2 ^ (53 - d))), (d - 53). rewrite Z2Pos.id by nia. split.
    - split_and!; nia.
    - unfold scaled. rewrite <-Z.mul_assoc, <-Z.pow_add_r by lia. do 2 f_equal. lia. }
  destruct (Z.lt_trichotomy n 0) as [H|[->|H]].
  - destruct (Hpos (- n) ltac:(lia)) as (c & E & HC & HV).
    exists (S754_finite true c E). replace (n * 2 ^ 1074) with (- scaled (Zpos c) E) by lia.
    by apply (repr_finite true).
  - eexists. constructor.
  - destruct (Hpos n ltac:(lia)) as (c & E & HC & HV).
    exists (S754_finite false c E). rewrite <-HV. by apply (repr_finite false).
Qed.

Lemma repr_of_int n : Z.abs n ≤ 2 ^ 53 → repr (of_int n) (n * funit).
Proof.
  intros Hn. apply binary_normalize_exact; [by apply representable_int|lia|done|done].
Qed.

Lemma repr_int_inv x n : repr x (n * funit) → Z.abs n ≤ 2 ^ 53 → x = of_int n.
Proof. intros Hx Hn. by eapply repr_functional, repr_of_int. Qed.

(** Sums, differences and comparisons of integers below 2^53 are exact. *)
Lemma fadd_int a b :
  Z.abs a ≤ 2 ^ 53 → Z.abs b ≤ 2 ^ 53 → Z.abs (a + b) ≤ 2 ^ 53 →
  fadd (of_int a) (of_int b) = of_int (a + b).
Proof.
  intros. apply repr_int_inv; [|done]. rewrite Z.mul_add_distr_r.
  apply fadd_exact; [by apply repr_of_int..|].
  rewrite <-Z.mul_add_distr_r. by apply representable_int.
Qed.

Lemma fsub_int a b :
  Z.abs a ≤ 2 ^ 53 → Z.abs b ≤ 2 ^ 53 → Z.abs (a - b) ≤ 2 ^ 53 →
  fsub (of_int a) (of_int b) = of_int (a - b).
Proof.
  intros. apply repr_int_inv; [|done]. rewrite Z.mul_sub_distr_r.
  apply fsub_exact; [by apply repr_of_int..|].
  rewrite <-Z.mul_sub_distr_r. by apply representable_int.
Qed.

Lemma funit_pos : 0 < funit.
Proof. done. Qed.

Lemma fcompare_int a b :
  Z.abs a ≤ 2 ^ 53 → Z.abs b ≤ 2 ^ 53 → SFcompare (of_int a) (of_int b) = Some (a ?= b).
Proof.
  intros. rewrite (repr_compare _ _ (a * funit) (b * funit)) by (by apply repr_of_int).
  by rewrite <-Zmult_compare_compat_r.
Qed.

Lemma fle_int a b :
  Z.abs a ≤ 2 ^ 53 → Z.abs b ≤ 2 ^ 53 → fle (of_int a) (of_int b) = (a <=? b).
Proof. intros. unfold fle, SFleb, Z.leb. rewrite fcompare_int by done. by destruct (a ?= b). Qed.

Lemma flt_int a b :
  Z.abs a ≤ 2 ^ 53 → Z.abs b ≤ 2 ^ 53 → flt (of_int a) (of_int b) = (a <? b).
Proof. intros. unfold flt, SFltb, Z.ltb. rewrite fcompare_int by done. by destruct (a ?= b). Qed.

Lemma of_int_inj a b : Z.abs a ≤ 2 ^ 53 → Z.abs b ≤ 2 ^ 53 → of_int a = of_int b → a = b.
Proof.
  intros Ha Hb Heq. pose proof (fcompare_int a b Ha Hb) as Hc.
  rewrite Heq, fcompare_int, Z.compare_refl in Hc by done.
  apply Z.compare_eq. congruence.
Qed.

Lemma fabs_int a : Z.abs a ≤ 2 ^ 53 → fabs (of_int a) = of_int (Z.abs a).
Proof.
  intros Ha. pose proof (repr_of_int a Ha) as Hr.
  apply repr_int_inv; [|lia]. inversion Hr as [Hx HV|s c E HC Hx HV].
  - assert (a = 0) as -> by (pose proof funit_pos; nia). constructor.
  - pose proof (canonical_pos _ _ HC).
    replace (Z.abs a * funit) with (scaled (Zpos c) E)
      by (pose proof funit_pos; destruct s; simpl in *; nia).
    by apply (repr_finite false).
Qed.

(** The canonical form of a positive integer. *)
Lemma of_int_pos_form n :
  0 < n ≤ 2 ^ 53 →
  ∃ c E, of_int n = S754_finite false c E ∧ canonical (Zpos c) E ∧
    scaled (Zpos c) E = n * funit ∧ -52 ≤ E ≤ 1 ∧ 2 ^ 52 ≤ Zpos c.
Proof.
  intros Hn. pose proof (repr_of_int n ltac:(lia)) as Hr. pose proof funit_pos.
  inversion Hr as [Hx HV|s c E HC Hx HV]; [nia|].
  pose proof (canonical_pos _ _ HC). destruct s; simpl in HV; [nia|].
  pose proof HC as (HE & Hc & Hc52). unfold scaled, funit in *.
  assert (HE1 : -52 ≤ E).
  { destruct (Z_lt_le_dec E (-52)); [|done]. exfalso.
    assert (2 ^ (E + 1074) ≤ 2 ^ 1021) by (apply Z.pow_le_mono_r; lia).
    assert (2 ^ 1074 = 2 ^ 53 * 2 ^ 1021) by done. nia. }
  specialize (Hc52 ltac:(lia)).
  assert (HE2 : E ≤ 1).
  { destruct (Z_lt_le_dec 1 E); [|done]. exfalso.
    assert (2 ^ 1076 ≤ 2 ^ (E + 1074)) by (apply Z.pow_le_mono_r; lia).
    assert (2 ^ 1076 = 4 * 2 ^ 1074) by done. nia. }
  exists c, E. done.
Qed.

Lemma fmul_int a b :
  0 ≤ a → 0 ≤ b → a * b ≤ 2 ^ 53 → a ≤ 2 ^ 53 → b ≤ 2 ^ 53 →
  fmul (of_int a) (of_int b) = of_int (a * b).
Proof.
  intros Ha Hb Hab Ha' Hb'. 
  destruct (Z.eq_dec a 0) as [->|].
  { destruct (Z.eq_dec b 0) as [->|]; [done|].
    destruct (of_int_pos_form b ltac:(lia)) as (c & E & -> & _). done. }
  destruct (of_int_pos_form a ltac:(lia)) as (c & E & -> & HC & HV & HE & Hc).
  destruct (Z.eq_dec b 0) as [->|]; [by rewrite Z.mul_0_r|].
  destruct (of_int_pos_form b ltac:(lia)) as (c' & E' & -> & HC' & HV' & HE' & Hc').
  destruct (of_int_pos_form (a * b) ltac:(nia)) as (p & F & -> & HP & HVp & HF & Hp).
  unfold fmul, SFmul. cbn [xorb].
  assert (Hprod : scaled (Zpos (c * c')) (E + E') = scaled (Zpos p) F).
  { rewrite HVp. unfold scaled, funit in *. rewrite Pos2Z.inj_mul.
    assert (2 ^ (E + E' + 1074) * 2 ^ 1074 = 2 ^ (E + 1074) * 2 ^ (E' + 1074))
      by (rewrite <-!Z.pow_add_r by lia; f_equal; lia).
    assert (0 < 2 ^ 1074) by done. nia. }
  rewrite (binary_round_aux_exact _ _ _ (Zpos p) F); [done|lia|done| |done].
  split; [lia|]. apply Z.lt_le_incl.
  destruct (Z_lt_le_dec (E + E') F) as [|HFE]; [done|exfalso].
  unfold scaled in Hprod. rewrite (pow_split (E + E') F), Z.mul_assoc in Hprod by lia.
  apply Z.mul_reg_r in Hprod; [|apply Z.pow_nonzero; lia].
  assert (0 < 2 ^ (E + E' - F)) by (apply Z.pow_pos_nonneg; lia).
  destruct HP as (_ & HP & _). rewrite Pos2Z.inj_mul in Hprod. nia.
Qed.

(** ** Quotients of integers *)

(** [X] is the scaled value nearest to [a / b], ties to even. *)
Definition nearest_quotient (a b X : Z) : Prop :=
  ∃ M E, -1074 ≤ E ∧ X = scaled M E ∧
    let ulp := 2 ^ (E + 1074) in
    2 ^ 52 * b * ulp ≤ a * funit < 2 ^ 53 * b * ulp ∧
    - (b * ulp) ≤ 2 * (b * X - a * funit) ≤ b * ulp ∧
    (Z.abs (2 * (b * X - a * funit)) = b * ulp → Z.even M = true).

Lemma round_result_repr s M E :
  0 ≤ M ≤ 2 ^ 53 → -1074 < E < 970 → 2 ^ 52 ≤ M →
  ∃ c F, round_result s M E = S754_finite s c F ∧ canonical (Zpos c) F ∧
    scaled (Zpos c) F = scaled M E.
Proof.
  intros HM HE HM52. unfold round_result.
  destruct (Z.eqb_spec M 0); [lia|]. destruct (Z.eqb_spec M (2 ^ 53)) as [->|].
  - destruct (Z.leb_spec (E + 1) 971); [|lia]. eexists _, _. split_and!; [done| |].
    + split_and!; lia.
    + unfold scaled. replace (E + 1 + 1074) with (1 + (E + 1074)) by lia.
      rewrite (Z.pow_add_r 2 1) by lia. lia.
  - destruct (Z.leb_spec E 971); [|lia]. eexists _, _. split_and!; [done| |].
    + rewrite Z2Pos.id by lia. split_and!; lia.
    + by rewrite Z2Pos.id by lia.
Qed.

Lemma fdiv_core_int c E c' E' :
  canonical (Zpos c) E → canonical (Zpos c') E' →
  -52 ≤ E ≤ 1 → -52 ≤ E' ≤ 1 → 2 ^ 52 ≤ Zpos c → 2 ^ 52 ≤ Zpos c' →
  let num := Zpos c * 2 ^ 53 in
  SFdiv_core_binary fprec femax (Zpos c) E (Zpos c') E' =
    (num / Zpos c', E - E' - 53, new_location (Zpos c') (num mod Zpos c')).
Proof.
  intros HC HC' HE HE' Hc Hc' num. unfold SFdiv_core_binary.
  pose proof HC as (_ & Hc2 & _). pose proof HC' as (_ & Hc2' & _).
  rewrite !(Zdigits2_spec _ 53) by lia. rewrite fexp64_eq.
  replace (Z.min _ _) with (E - E' - 53) by lia.
  replace (E - E' - (E - E' - 53)) with 53 by lia.
  rewrite Z.shiftl_mul_pow2 by lia. fold num.
  unfold Z.div, Z.modulo. by destruct (Z.div_eucl num (Zpos c')).
Qed.

Lemma nearest_quotient_rescale a b M E num den w :
  0 < w → a * funit = num * w → b * 2 ^ (E + 1074) = den * w →
  2 ^ 52 * den ≤ num < 2 ^ 53 * den →
  - den ≤ 2 * (M * den - num) ≤ den →
  (Z.abs (2 * (M * den - num)) = den → Z.even M = true) →
  let ulp := 2 ^ (E + 1074) in
  2 ^ 52 * b * ulp ≤ a * funit < 2 ^ 53 * b * ulp ∧
  - (b * ulp) ≤ 2 * (b * scaled M E - a * funit) ≤ b * ulp ∧
  (Z.abs (2 * (b * scaled M E - a * funit)) = b * ulp → Z.even M = true).
Proof.
  intros Hw Ha Hb Hq Herr Htie ulp. fold ulp in Hb.
  assert (Hx : 2 * (b * scaled M E - a * funit) = 2 * (M * den - num) * w).
  { unfold scaled. fold ulp. nia. }
  rewrite Hx, Ha, Hb, <-!(Z.mul_assoc _ b ulp), Hb. split_and!; [nia..|].
  intros Heq. apply Htie. rewrite Z.abs_mul, (Z.abs_eq w) in Heq by lia. nia.
Qed.

Lemma fdiv_int_nearest a b :
  0 < a ≤ 2 ^ 53 → 0 < b ≤ 2 ^ 53 →
  ∃ X, repr (fdiv (of_int a) (of_int b)) X ∧ nearest_quotient a b X.
Proof.
  intros Ha Hb.
  destruct (of_int_pos_form a Ha) as (c & E & -> & HC & HV & HE & Hc).
  destruct (of_int_pos_form b Hb) as (c' & E' & -> & HC' & HV' & HE' & Hc').
  unfold fdiv, SFdiv. rewrite (fdiv_core_int c E c' E') by done. cbn [xorb].
  destruct HC as (_ & Hc53 & _), HC' as (_ & Hc53' & _).
  set (num := Zpos c * 2 ^ 53). set (q := num / Zpos c').
  assert (Hq : 2 ^ 52 ≤ q < 2 ^ 54).
  { split; [apply Z.div_le_lower_bound|apply Z.div_lt_upper_bound]; unfold num; lia. }
  destruct (binary_round_aux_spec false q (E - E' - 53) (new_location (Zpos c') (num mod Zpos c'))
    num (Zpos c')) as (M & HM & HM52 & Herr & Htie & Heq).
  - lia.
  - apply rep_new_location; [lia|lia| |by apply Z.mod_pos_bound].
    rewrite (Z.mul_comm q). by apply Z.div_mod.
  - rewrite fexp64_eq.
    pose proof (Zdigits2_ge q 52 ltac:(lia) ltac:(lia)). lia.
  - set (F := fexp64 _) in *.
    assert (HF : F = E - E' - 106 + Zdigits2 q).
    { unfold F. rewrite fexp64_eq.
      pose proof (Zdigits2_ge q 52 ltac:(lia) ltac:(lia)). lia. }
    pose proof (Zdigits2_ge q 52 ltac:(lia) ltac:(lia)).
    pose proof (Zdigits2_le q 54 ltac:(lia) ltac:(lia) ltac:(lia)).
    pose proof (Zdigits2_bounds q ltac:(lia)) as Hqd.
    destruct (round_result_repr false M F) as (p & G & Hp & HPC & HPV); [done|lia|apply HM52; lia|].
    rewrite Heq, Hp. exists (scaled M F). split.
    { rewrite <-HPV. by apply (repr_finite false). }
    replace (F - (E - E' - 53)) with (Zdigits2 q - 53) in * by lia.
    exists M, F. split_and!; [lia|done|].
    apply (nearest_quotient_rescale a b M F num (Zpos c' * 2 ^ (Zdigits2 q - 53)) (2 ^ (E + 1021)));
      [apply Z.pow_pos_nonneg; lia|..|done|done].
    + rewrite <-HV. unfold scaled, num. rewrite <-Z.mul_assoc, <-Z.pow_add_r by lia.
      do 2 f_equal. lia.
    + apply (Z.mul_reg_r _ _ funit); [done|].
      transitivity (Zpos c' * 2 ^ (E' + 1074) * 2 ^ (F + 1074)); [unfold scaled in HV'; nia|].
      unfold funit. rewrite <-!Z.mul_assoc, <-!Z.pow_add_r by lia. do 2 f_equal. lia.
    + pose proof (Z.div_mod num (Zpos c') ltac:(lia)) as Hdm. fold q in Hdm.
      pose proof (Z.mod_pos_bound num (Zpos c') ltac:(lia)).
      assert (0 < 2 ^ (Zdigits2 q - 53)) by (apply Z.pow_pos_nonneg; lia).
      replace (Zdigits2 q - 1) with (52 + (Zdigits2 q - 53)) in Hqd by lia.
      replace (Zdigits2 q) with (53 + (Zdigits2 q - 53)) in Hqd at 2 by lia.
      rewrite (Z.pow_add_r 2 52), (Z.pow_add_r 2 53) in Hqd by lia. nia.
Qed.

(** The relative error of a quotient is at most 2^-53. *)
Lemma nearest_quotient_error a b X :
  0 < b → nearest_quotient a b X → 0 < X ∧ 2 ^ 53 * Z.abs (b * X - a * funit) ≤ b * X.
Proof.
  intros Hb (M & E & HE & -> & Hq & Herr & _). unfold scaled in *.
  set (u := 2 ^ (E + 1074)) in *.
  assert (0 < u) by (apply Z.pow_pos_nonneg; lia).
  assert (2 ^ 52 ≤ M).
  { assert (2 * (b * u) * (2 ^ 52 - M) ≤ b * u) by lia. nia. }
  split; [nia|]. assert (2 ^ 52 * (b * u) ≤ b * (M * u)) by nia. lia.
Qed.

Lemma ulp_lt A b u C d v :
  0 < b → 0 < d → A * d = C * b →
  2 ^ 52 * b * u ≤ A → C < 2 ^ 53 * d * v → u < 2 * v.
Proof.
  intros Hb Hd Heq H1 H2.
  assert (2 ^ 52 * b * u * d ≤ A * d) by (apply Z.mul_le_mono_nonneg_r; lia).
  assert (C * b < 2 ^ 53 * d * v * b) by (apply Z.mul_lt_mono_pos_r; lia).
  apply (Z.mul_lt_mono_pos_l (b * d)); [nia|]. lia.
Qed.

Lemma pow_ulp_le E F : -1074 ≤ E → -1074 ≤ F → 2 ^ (E + 1074) < 2 * 2 ^ (F + 1074) → E ≤ F.
Proof.
  intros HE HF H. rewrite <-(Z.pow_add_r 2 1) in H by lia.
  apply Z.pow_lt_mono_r_iff in H; lia.
Qed.

(** Two roundings of the same value to even neighbours are equal. *)
Lemma even_neighbours x y g M N :
  0 < g → - g ≤ x ≤ g → - g ≤ y ≤ g → x - y = 2 * g * (M - N) →
  (Z.abs x = g → Z.even M = true) → (Z.abs y = g → Z.even N = true) → M = N.
Proof.
  intros Hg Hx Hy Hxy HM HN.
  destruct (Z.lt_trichotomy M N) as [Hlt|[->|Hlt]]; [|done|]; exfalso.
  - assert (N = M + 1) as -> by nia. specialize (HM ltac:(lia)). specialize (HN ltac:(lia)).
    by rewrite Z.add_1_r, Z.even_succ, <-Z.negb_even, HM in HN.
  - assert (M = N + 1) as -> by nia. specialize (HM ltac:(lia)). specialize (HN ltac:(lia)).
    by rewrite Z.add_1_r, Z.even_succ, <-Z.negb_even, HN in HM.
Qed.

Lemma nearest_quotient_unique a b X c d Y :
  0 < b → 0 < d → a * d = c * b →
  nearest_quotient a b X → nearest_quotient c d Y → X = Y.
Proof.
  intros Hb Hd Heq (M & E & HE & -> & Hq & Herr & Htie) (N & F & HF & -> & Hq' & Herr' & Htie').
  assert (HAC : a * funit * d = c * funit * b).
  { transitivity (a * d * funit); [ring|]. rewrite Heq. ring. }
  assert (E = F) as <-.
  { apply Z.le_antisymm; apply pow_ulp_le; try done.
    - apply (ulp_lt (a * funit) b _ (c * funit) d); lia.
    - apply (ulp_lt (c * funit) d _ (a * funit) b); lia. }
  f_equal. unfold scaled in *. set (u := 2 ^ (E + 1074)) in *.
  assert (0 < u) by (apply Z.pow_pos_nonneg; lia).
  set (A := a * funit) in *. set (C := c * funit) in *.
  apply (even_neighbours (2 * (b * (M * u) - A) * d) (2 * (d * (N * u) - C) * b) (b * d * u)).
  - repeat apply Z.mul_pos_pos; lia.
  - clear - Herr Hd. nia.
  - clear - Herr' Hb. nia.
  - replace (2 * (b * (M * u) - A) * d - 2 * (d * (N * u) - C) * b)
      with (2 * (b * d * u) * (M - N) - 2 * (A * d - C * b)) by ring. lia.
  - intros Habs. apply Htie. rewrite Z.abs_mul, (Z.abs_eq d) in Habs by lia.
    apply (Z.mul_reg_r _ _ d); lia.
  - intros Habs. apply Htie'. rewrite Z.abs_mul, (Z.abs_eq b) in Habs by lia.
    apply (Z.mul_reg_r _ _ b); lia.
Qed.

Lemma nearest_quotient_lt a b X c d Y :
  0 < b → 0 < d → 0 < a → 0 < c → a * d < c * b → a * d + c * b < 2 ^ 53 →
  nearest_quotient a b X → nearest_quotient c d Y → X < Y.
Proof.
  intros Hb Hd Ha Hc Hlt Hsmall HX HY.
  apply nearest_quotient_error in HX as [HX0 HX], HY as [HY0 HY]; [|done..].
  destruct (Z_lt_le_dec X Y) as [|Hle]; [done|exfalso]. pose proof funit_pos.
  assert (H1 : b * X * (2 ^ 53 - 1) ≤ 2 ^ 53 * (a * funit)) by lia.
  assert (H2 : 2 ^ 53 * (c * funit) ≤ d * Y * (2 ^ 53 + 1)) by lia.
  assert (H3 : b * d * X * (2 ^ 53 - 1) ≤ 2 ^ 53 * (a * d * funit)) by nia.
  assert (H4 : 2 ^ 53 * (c * b * funit) ≤ b * d * Y * (2 ^ 53 + 1)) by nia.
  assert (H5 : b * d * Y ≤ b * d * X) by nia.
  assert (H6 : c * b * funit * (2 ^ 53 - 1) ≤ a * d * funit * (2 ^ 53 + 1)) by nia.
  assert (H7 : c * b * (2 ^ 53 - 1) ≤ a * d * (2 ^ 53 + 1)) by nia.
  lia.
Qed.

Lemma quotient_repr a b :
  0 ≤ a ≤ 2 ^ 53 → 0 < b ≤ 2 ^ 53 →
  ∃ X, repr (fdiv (of_int a) (of_int b)) X ∧ (a = 0 ∧ X = 0 ∨ 0 < a ∧ nearest_quotient a b X).
Proof.
  intros Ha Hb. destruct (Z.eq_dec a 0) as [->|].
  - destruct (of_int_pos_form b Hb) as (m & E & -> & _).
    exists 0. split; [exact repr_zero|by left].
  - destruct (fdiv_int_nearest a b ltac:(lia) Hb) as (X & HX & Hq).
    exists X. split; [done|]. right. split; [lia|done].
Qed.

(** Comparing two quotients of small integers compares the rationals. *)
Lemma fcompare_quotient a b c d :
  0 ≤ a ≤ 2 ^ 53 → 0 < b ≤ 2 ^ 53 → 0 ≤ c ≤ 2 ^ 53 → 0 < d ≤ 2 ^ 53 → a * d + c * b < 2 ^ 53 →
  SFcompare (fdiv (of_int a) (of_int b)) (fdiv (of_int c) (of_int d)) = Some (a * d ?= c * b).
Proof.
  intros Ha Hb Hc Hd Hs.
  destruct (quotient_repr a b Ha Hb) as (X & HX & HXq).
  destruct (quotient_repr c d Hc Hd) as (Y & HY & HYq).
  rewrite (repr_compare _ _ X Y) by done. f_equal.
  destruct HXq as [[-> ->]|[Ha0 HXq]], HYq as [[-> ->]|[Hc0 HYq]].
  - done.
  - pose proof (nearest_quotient_error c d Y (proj1 Hd) HYq) as [HY0 _].
    transitivity Lt; [by apply Z.compare_lt_iff|]. symmetry. apply Z.compare_lt_iff.
    rewrite Z.mul_0_l. apply Z.mul_pos_pos; lia.
  - pose proof (nearest_quotient_error a b X (proj1 Hb) HXq) as [HX0 _].
    transitivity Gt; [by apply Z.compare_gt_iff|]. symmetry. apply Z.compare_gt_iff.
    rewrite Z.mul_0_l. apply Z.mul_pos_pos; lia.
  - destruct (Z.compare_spec (a * d) (c * b)) as [Heq|Hlt|Hgt].
    + apply Z.compare_eq_iff. apply (nearest_quotient_unique a b X c d Y); done || lia.
    + apply Z.compare_lt_iff. apply (nearest_quotient_lt a b X c d Y); done || lia.
    + apply Z.compare_gt_iff. apply (nearest_quotient_lt c d Y a b X); done || lia.
Qed.

Lemma fle_quotient a b c d :
  0 ≤ a ≤ 2 ^ 53 → 0 < b ≤ 2 ^ 53 → 0 ≤ c ≤ 2 ^ 53 → 0 < d ≤ 2 ^ 53 → a * d + c * b < 2 ^ 53 →
  fle (fdiv (of_int a) (of_int b)) (fdiv (of_int c) (of_int d)) = (a * d <=? c * b).
Proof.
  intros. unfold fle, SFleb, Z.leb. rewrite fcompare_quotient by done.
  by destruct (a * d ?= c * b).
Qed.

Lemma flt_quotient a b c d :
  0 ≤ a ≤ 2 ^ 53 → 0 < b ≤ 2 ^ 53 → 0 ≤ c ≤ 2 ^ 53 → 0 < d ≤ 2 ^ 53 → a * d + c * b < 2 ^ 53 →
  flt (fdiv (of_int a) (of_int b)) (fdiv (of_int c) (of_int d)) = (a * d <? c * b).
Proof.
  intros. unfold flt, SFltb, Z.ltb. rewrite fcompare_quotient by done.
  by destruct (a * d ?= c * b).
Qed.

(** The quotient of an exact division. *)
Lemma fdiv_exact k b :
  0 ≤ k ≤ 2 ^ 53 → 0 < b ≤ 2 ^ 53 → k * b ≤ 2 ^ 53 →
  fdiv (of_int (k * b)) (of_int b) = of_int k.
Proof.
  intros Hk Hb Hkb.
  destruct (Z.eq_dec k 0) as [->|Hk0].
  { by destruct (of_int_pos_form b Hb) as (m & E & -> & _). }
  assert (0 < k * b) by (apply Z.mul_pos_pos; lia).
  destruct (fdiv_int_nearest (k * b) b ltac:(lia) Hb) as (X & HX & HXq).
  apply repr_int_inv; [|lia]. replace (k * funit) with X; [done|].
  apply (nearest_quotient_unique (k * b) b X (k * b) b (k * funit)); [lia..|done|].
  destruct (of_int_pos_form k ltac:(lia)) as (c & E & _ & (HE & Hc & _) & HV & _ & Hc52).
  exists (Zpos c), E. replace (k * b * funit) with (b * (k * funit)) by ring.
  rewrite <-HV. unfold scaled. set (u := 2 ^ (E + 1074)).
  assert (0 < b * u) by (apply Z.mul_pos_pos; [lia|]; apply Z.pow_pos_nonneg; lia).
  split_and!; [lia|done|nia..].
Qed.

Lemma fdiv_1 k : 0 ≤ k ≤ 2 ^ 53 → fdiv (of_int k) (of_int 1) = of_int k.
Proof. intros. rewrite <-(Z.mul_1_r k) at 1. apply fdiv_exact; lia. Qed.

(** Equal fractions have equal floating-point quotients. *)
Lemma fdiv_cross a b c d :
  0 ≤ a ≤ 2 ^ 53 → 0 < b ≤ 2 ^ 53 → 0 ≤ c ≤ 2 ^ 53 → 0 < d ≤ 2 ^ 53 → a * d = c * b →
  fdiv (of_int a) (of_int b) = fdiv (of_int c) (of_int d).
Proof.
  intros Ha Hb Hc Hd Heq.
  destruct (quotient_repr a b) as (X & HX & HXq); [lia|lia|].
  destruct (quotient_repr c d) as (Y & HY & HYq); [lia|lia|].
  apply (repr_functional _ _ X); [done|].
  destruct HXq as [[-> ->]|[? HXq]], HYq as [[-> ->]|[? HYq]]; [done|nia|nia|].
  by rewrite (nearest_quotient_unique a b X c d Y) by (lia || done).
Qed.

(** ** Signs: no operation on positive operands gives a negative number *)

Lemma binary_round_aux_nonneg m e l : flt (binary_round_aux fprec femax false m e l) fzero = false.
Proof.
  unfold binary_round_aux. destruct (shr_fexp _ _ _ _ _) as [mrs1 e1].
  destruct (shr_fexp _ _ _ _ _) as [mrs2 e2].
  destruct (shr_m mrs2); [done| |done]. by destruct (_ <=? _).
Qed.

Lemma flt_of_int_nonneg n : 0 ≤ n → flt (of_int n) fzero = false.
Proof.
  intros Hn. unfold of_int, binary_normalize, binary_round.
  destruct n as [|p|p]; [done| |lia]. destruct (shl_align _ _ _) as [m e].
  apply binary_round_aux_nonneg.
Qed.

Lemma flt_irrefl x : flt x x = false.
Proof.
  destruct x as [[]|[]| |[] m e]; try done; unfold flt, SFltb, SFcompare;
    rewrite Z.compare_refl; by rewrite ?Pos.compare_cont_refl.
Qed.

Lemma flt_asym x y : flt x y = true → flt y x = false.
Proof.
  unfold flt, SFltb. destruct x as [[]|[]| |[] m e], y as [[]|[]| |[] n f]; try done;
    unfold SFcompare; rewrite (Z.compare_antisym e f);
    destruct (e ?= f); try done; pose proof (Pos.compare_antisym m n) as E;
    unfold Pos.compare in E; rewrite E; by destruct (Pos.compare_cont Eq m n).
Qed.

(** ** Non-negative floats: zero, positive finite canonical floats, infinity *)

Definition nonneg (x : f64) : Prop := (∃ V, 0 ≤ V ∧ repr x V) ∨ x = S754_infinity false.

Lemma repr_nonneg_cases x V :
  0 ≤ V → repr x V →
  (V = 0 ∧ x = S754_zero false) ∨
  ∃ c E, x = S754_finite false c E ∧ canonical (Zpos c) E ∧ V = scaled (Zpos c) E ∧ 0 < V.
Proof.
  intros HV Hx. revert HV. destruct Hx as [|s c E HC]; intros HV; [by left|right].
  pose proof (canonical_pos _ _ HC). destruct s; cbn [cond_Zopp] in *; [lia|]. by exists c, E.
Qed.

Lemma nonneg_of_int n : 0 ≤ n ≤ 2 ^ 53 → nonneg (of_int n).
Proof. intros. left. exists (n * funit). split; [apply Z.mul_nonneg_nonneg; [lia|done]|]. apply repr_of_int. lia. Qed.

Lemma nonneg_repr x V : 0 ≤ V → repr x V → nonneg x.
Proof. intros. left. by exists V. Qed.

Lemma round_result_nonneg M E :
  0 ≤ M ≤ 2 ^ 53 → -1074 ≤ E → (-1074 < E → 2 ^ 52 ≤ M) → nonneg (round_result false M E).
Proof.
  intros HM HE HM52. unfold round_result.
  destruct (Z.eqb_spec M 0) as [->|]; [left; exists 0; split; [lia|constructor]|].
  assert (Hfin : ∀ c F, canonical (Zpos c) F → nonneg (S754_finite false c F)).
  { intros c F HC. left. exists (scaled (Zpos c) F). split; [pose proof (canonical_pos _ _ HC); lia|].
    by apply (repr_finite false). }
  destruct (Z.eqb_spec M (2 ^ 53)).
  - destruct (Z.leb_spec (E + 1) 971); [|by right]. apply Hfin. split_and!; lia.
  - destruct (Z.leb_spec E 971); [|by right]. apply Hfin. unfold canonical. rewrite Z2Pos.id by lia. lia.
Qed.

Lemma binary_round_aux_is_nonneg m e :
  0 < m → e ≤ fexp64 (Zdigits2 m + e) → nonneg (binary_round_aux fprec femax false m e loc_Exact).
Proof.
  intros Hm He.
  destruct (binary_round_aux_spec false m e loc_Exact m 1 Hm) as (M & HM & HM52 & _ & _ & ->);
    [apply rep_exact; lia|done|].
  apply round_result_nonneg; [done| |done]. rewrite fexp64_eq. lia.
Qed.

Lemma Zdigits2_shift m k : 0 < m → 0 ≤ k → Zdigits2 (m * 2 ^ k) = Zdigits2 m + k.
Proof.
  intros Hm Hk. pose proof (Zdigits2_bounds m Hm).
  assert (0 < Zdigits2 m) by (destruct m; simpl; lia).
  apply Zdigits2_spec; [lia|].
  replace (Zdigits2 m + k - 1) with ((Zdigits2 m - 1) + k) by lia.
  rewrite !(Z.pow_add_r 2 _ k) by lia. assert (0 < 2 ^ k) by (apply Z.pow_pos_nonneg; lia). nia.
Qed.

Lemma binary_normalize_is_nonneg m e : 0 ≤ m → nonneg (binary_normalize fprec femax m e false).
Proof.
  intros Hm. unfold binary_normalize. destruct m as [|m|m]; [|clear Hm|lia].
  { left. exists 0. split; [lia|constructor]. }
  unfold binary_round. rewrite shl_align_eq.
  set (E := fexp64 (Zpos (digits2_pos m) + e)).
  assert (Hk : 0 < 2 ^ (e - Z.min e E)) by (apply Z.pow_pos_nonneg; lia).
  rewrite Z2Pos.id by nia. apply binary_round_aux_is_nonneg; [nia|].
  rewrite Zdigits2_shift by lia. simpl Zdigits2.
  replace (Zpos (digits2_pos m) + (e - Z.min e E) + Z.min e E) with (Zpos (digits2_pos m) + e) by lia.
  fold E. lia.
Qed.

(** The sum, difference, product and quotient of floats whose results cannot be negative. *)
Lemma fadd_nonneg x y : nonneg x → nonneg y → nonneg (fadd x y).
Proof.
  intros [(V & HV & Hx)| ->] [(W & HW & Hy)| ->].
  - destruct (repr_nonneg_cases x V HV Hx) as [[-> ->]|(c & E & -> & HC & -> & _)];
      destruct (repr_nonneg_cases y W HW Hy) as [[-> ->]|(d & F & -> & HD & -> & _)];
      try (left; eexists; (split; [|done]); lia).
    unfold fadd, SFadd. apply binary_normalize_is_nonneg. cbn [cond_Zopp]. lia.
  - destruct (repr_nonneg_cases x V HV Hx) as [[-> ->]|(c & E & -> & _)]; by right.
  - destruct (repr_nonneg_cases y W HW Hy) as [[-> ->]|(c & E & -> & _)]; by right.
  - by right.
Qed.

Lemma fsub_nonneg x y V W : repr x V → repr y W → 0 ≤ W ≤ V → nonneg (fsub x y).
Proof.
  intros Hx Hy HWV.
  destruct (repr_nonneg_cases x V ltac:(lia) Hx) as [[-> ->]|(c & E & -> & HC & -> & _)];
    destruct (repr_nonneg_cases y W ltac:(lia) Hy) as [[-> ->]|(d & F & -> & HD & -> & HP)];
    try (left; eexists; (split; [|done]); lia); [lia|].
  unfold fsub, SFsub. apply binary_normalize_is_nonneg. cbn [cond_Zopp].
  rewrite !shl_align_eq. cbn [fst].
  replace (Z.min E (Z.min E F)) with (Z.min E F) by lia.
  replace (Z.min F (Z.min E F)) with (Z.min E F) by lia.
  destruct HC as (HE & _), HD as (HF & _).
  rewrite !Z2Pos.id by (apply Z.mul_pos_pos; [lia|]; apply Z.pow_pos_nonneg; lia).
  unfold scaled in HWV. rewrite (pow_split E (Z.min E F)), (pow_split F (Z.min E F)) in HWV by lia.
  assert (0 < 2 ^ (Z.min E F + 1074)) by (apply Z.pow_pos_nonneg; lia). nia.
Qed.

Lemma fmul_nonneg x y W : nonneg x → repr y W → 0 < W → nonneg (fmul x y).
Proof.
  intros Hx Hy HW. destruct (repr_nonneg_cases y W ltac:(lia) Hy) as [[? _]|(d & F & -> & HD & -> & _)]; [lia|].
  destruct Hx as [(V & HV & Hx)| ->]; [|by right].
  destruct (repr_nonneg_cases x V HV Hx) as [[-> ->]|(c & E & -> & HC & -> & _)].
  { left. exists 0. split; [lia|constructor]. }
  unfold fmul, SFmul. cbn [xorb]. apply binary_round_aux_is_nonneg; [lia|]. rewrite fexp64_eq.
  destruct HC as (HE & Hc & Hc52), HD as (HF & Hd & Hd52).
  destruct (decide (E = -1074 ∧ F = -1074)) as [[-> ->]|Hn]; [lia|].
  assert (2 ^ 52 ≤ Zpos (c * d)).
  { rewrite Pos2Z.inj_mul. destruct (decide (E = -1074)) as [->|]; [|nia].
    assert (2 ^ 52 ≤ Zpos d) by (apply Hd52; lia). nia. }
  pose proof (Zdigits2_ge (Zpos (c * d)) 52 ltac:(lia) ltac:(lia)). lia.
Qed.

Lemma fdiv_int_nonneg a b : 0 ≤ a ≤ 2 ^ 53 → 0 < b ≤ 2 ^ 53 → nonneg (fdiv (of_int a) (of_int b)).
Proof.
  intros Ha Hb. destruct (quotient_repr a b Ha Hb) as (X & HX & Hq).
  apply (nonneg_repr _ X); [|done].
  destruct Hq as [[_ ->]|[Hpos (M & E & HE & -> & Hr & He & _)]]; [lia|].
  set (u := 2 ^ (E + 1074)) in *. assert (0 < u) by (apply Z.pow_pos_nonneg; lia).
  assert (Hbu : 2 ^ 52 * b * u ≤ b * scaled M E + b * u) by lia.
  assert (0 < b * u) by nia. nia.
Qed.

(** [math.Min] of a positive finite bound and a non-negative float. *)
Lemma fmin_bound c x V :
  repr c V → 0 < V → nonneg x → ∃ W, repr (fmin c x) W ∧ 0 ≤ W ≤ V ∧ (fmin c x = c ∨ fmin c x = x).
Proof.
  intros Hc HV Hx. destruct (repr_nonneg_cases c V ltac:(lia) Hc) as [[? _]|(m & e & -> & HC & -> & _)]; [lia|].
  destruct Hx as [(W & HW & Hx)| ->].
  - assert (Hcmp : flt (S754_finite false m e) x = (scaled (Zpos m) e <? W)).
    { unfold flt, SFltb, Z.ltb. rewrite (repr_compare _ _ _ _ Hc Hx). by destruct (_ ?= _). }
    assert (Hmin : fmin (S754_finite false m e) x =
      if scaled (Zpos m) e <? W then S754_finite false m e else x).
    { rewrite <-Hcmp. by destruct (repr_nonneg_cases x W HW Hx) as [[-> ->]|(c' & E & -> & _)]. }
    rewrite Hmin. destruct (Z.ltb_spec (scaled (Zpos m) e) W).
    + eexists. split_and!; [done|lia|lia|by left].
    + exists W. split_and!; [done|lia|lia|by right].
  - eexists. split_and!; [done|lia|lia|by left].
Qed.

Lemma fle_repr x y V W : repr x V → repr y W → fle x y = (V <=? W).
Proof.
  intros Hx Hy. unfold fle, SFleb, Z.leb. rewrite (repr_compare _ _ _ _ Hx Hy). by destruct (V ?= W).
Qed.

Lemma nonneg_not_neg x : nonneg x → flt x fzero = false.
Proof.
  intros [(V & HV & Hx)| ->]; [|done].
  by destruct (repr_nonneg_cases x V HV Hx) as [[-> ->]|(c & E & -> & _)].
Qed.

(** Mantissas below 2^53 over moderate exponents are floats. *)
Lemma representable_scaled m E : 0 ≤ m < 2 ^ 53 → -1021 ≤ E ≤ 971 → representable (scaled m E).
Proof.
  intros Hm HE. destruct (Z.eq_dec m 0) as [->|Hm0]; [exists (S754_zero false); constructor|].
  pose proof (Zdigits2_bounds m ltac:(lia)). pose proof (Zdigits2_le m 53 ltac:(lia) ltac:(lia) ltac:(lia)).
  assert (0 < Zdigits2 m) by (destruct m; simpl; lia). set (d := Zdigits2 m) in *.
  assert (Hp : 0 < 2 ^ (53 - d)) by (apply Z.pow_pos_nonneg; lia).
  assert (H52 : 2 ^ 52 = 2 ^ (d - 1) * 2 ^ (53 - d)) by (rewrite <-Z.pow_add_r by lia; f_equal; lia).
  assert (H53 : 2 ^ 53 = 2 ^ d * 2 ^ (53 - d)) by (rewrite <-Z.pow_add_r by lia; f_equal; lia).
  exists (S754_finite false (Z.to_pos (m * 2 ^ (53 - d))) (E - (53 - d))).
  replace (scaled m E) with (cond_Zopp false (scaled (Zpos (Z.to_pos (m * 2 ^ (53 - d)))) (E - (53 - d)))).
  - apply repr_finite. rewrite Z2Pos.id by nia. split_and!; nia.
  - cbn [cond_Zopp]. rewrite Z2Pos.id by nia. unfold scaled.
    rewrite <-Z.mul_assoc, <-Z.pow_add_r by lia. do 2 f_equal. lia.
Qed.

(** Subtracting one from a float between 1 and 2^53 is exact. *)
Lemma fsub_one x V :
  repr x V → funit ≤ V ≤ 2 ^ 53 * funit → repr (fsub x (of_int 1)) (V - funit).
Proof.
  intros Hx HV. pose proof (repr_of_int 1 ltac:(lia)) as H1. rewrite Z.mul_1_l in H1.
  apply fsub_exact; [done|done|]. pose proof funit_pos as Hu.
  destruct (repr_nonneg_cases x V ltac:(lia) Hx) as [[? _]|(c & E & -> & HC & -> & _)]; [lia|].
  destruct HC as (HE & Hc & Hc52). unfold scaled in HV.
  destruct (Z.eq_dec E 1) as [->|HE1].
  { assert (Hc1 : Zpos c = 2 ^ 52).
    { specialize (Hc52 ltac:(lia)). assert (E2 : 2 ^ (1 + 1074) = 2 * funit) by done.
      rewrite E2 in HV. clear E2. set (u := funit) in *. clearbody u. nia. }
    replace (scaled (Zpos c) 1 - funit) with ((2 ^ 53 - 1) * funit).
    - apply representable_int. lia.
    - unfold scaled. rewrite Hc1. reflexivity. }
  assert (HE0 : E ≤ 0).
  { destruct (Z.le_gt_cases E 0); [done|]. specialize (Hc52 ltac:(lia)).
    assert (2 ^ 1076 ≤ 2 ^ (E + 1074)) by (apply Z.pow_le_mono_r; lia).
    assert (2 ^ 1076 = 4 * funit) by done. set (u := funit) in *. clearbody u. nia. }
  assert (HE53 : -53 < E).
  { destruct (Z.lt_ge_cases (-53) E); [done|].
    assert (2 ^ (E + 1074) ≤ 2 ^ 1021) by (apply Z.pow_le_mono_r; lia).
    assert (funit = 2 ^ 53 * 2 ^ 1021) by done. set (u := funit) in *. clearbody u. nia. }
  assert (Hone : funit = 2 ^ (- E) * 2 ^ (E + 1074))
    by (unfold funit; rewrite <-Z.pow_add_r by lia; f_equal; lia).
  replace (scaled (Zpos c) E - funit) with (scaled (Zpos c - 2 ^ (- E)) E)
    by (unfold scaled; rewrite Hone; lia).
  assert (0 < 2 ^ (- E)) by (apply Z.pow_pos_nonneg; lia).
  assert (0 < 2 ^ (E + 1074)) by (apply Z.pow_pos_nonneg; lia).
  apply representable_scaled; nia.
Qed.

Lemma to_int64_range x : is_i64 (to_int64 x).
Proof.
  unfold is_i64, to_int64, minInt64, maxInt64. destruct x; try lia.
  set (n := Z.quot _ funit). destruct ((- 2 ^ 63 <=? n) && (n <=? 2 ^ 63 - 1)) eqn:E; [|lia].
  apply andb_true_iff in E. rewrite !Z.leb_le in E. lia.
Qed.

(** ** Truncating a quotient *)

Lemma to_int64_repr x V : repr x V → 0 ≤ V → V / funit ≤ maxInt64 → to_int64 x = V / funit.
Proof.
  intros Hx HV Hm. pose proof (repr_fscaled x V Hx) as Hs. pose proof funit_pos.
  assert (0 ≤ V / funit) by (apply Z.div_pos; lia).
  assert (to_int64 x =
    if (minInt64 <=? Z.quot (fscaled x) funit) && (Z.quot (fscaled x) funit <=? maxInt64)
    then Z.quot (fscaled x) funit else minInt64) as -> by (by destruct Hx).
  rewrite Hs, Z.quot_div_nonneg by lia. unfold minInt64.
  destruct (Z.leb_spec (- 2 ^ 63) (V / funit)); [|lia].
  by destruct (Z.leb_spec (V / funit) maxInt64); [|lia].
Qed.

(** [int64(float64(a) / float64(b))] is the integer quotient. *)
Lemma to_int64_quotient a b :
  0 ≤ a → 0 < b → a + b < 2 ^ 53 → to_int64 (fdiv (of_int a) (of_int b)) = a / b.
Proof.
  intros Ha Hb Hab. pose proof funit_pos as Hu.
  pose proof (Z.div_mod a b ltac:(lia)) as Hdm. pose proof (Z.mod_pos_bound a b Hb) as Hr.
  set (q := a / b) in *. set (r := a mod b) in *.
  assert (Hq : 0 ≤ q) by (apply Z.div_pos; lia).
  clearbody q r. assert (Hqa : q ≤ a) by nia.
  destruct (Z.eq_dec r 0) as [Hr0|Hr0].
  { assert (a = q * b) as -> by lia. rewrite fdiv_exact by lia.
    rewrite (to_int64_repr _ (q * funit)); [by rewrite Z.div_mul by lia|apply repr_of_int; lia|nia|].
    rewrite Z.div_mul by lia. unfold maxInt64. lia. }
  destruct (fdiv_int_nearest a b ltac:(lia) ltac:(lia)) as (X & HX & HXq).
  apply nearest_quotient_error in HXq as [HX0 Herr]; [|lia].
  assert (X / funit = q) as Hfl.
  { symmetry. apply (Z.div_unique_pos _ _ _ (X - funit * q)); [|lia].
    assert (q * b ≤ 2 ^ 53 - 1) by nia. assert ((q + 1) * b ≤ 2 ^ 53 - 1) by nia.
    set (u := funit) in *. clearbody u. clear HX.
    assert (b * (q * u) ≤ b * X).
    { destruct (Z.le_gt_cases (b * (q * u)) (b * X)) as [|Hlt]; [done|exfalso].
      assert (2 ^ 53 * (a * u - b * X) ≤ b * X) by lia. assert (a * u = q * b * u + r * u) by nia. nia. }
    assert (b * X < b * ((q + 1) * u)).
    { destruct (Z.lt_ge_cases (b * X) (b * ((q + 1) * u))) as [|Hge]; [done|exfalso].
      assert (2 ^ 53 * (b * X - a * u) ≤ b * X) by lia.
      assert (a * u = (q + 1) * b * u - (b - r) * u) by nia. nia. }
    split; nia. }
  rewrite (to_int64_repr _ X HX); [done|lia|]. rewrite Hfl. unfold maxInt64. lia.
Qed.
