(* ===== verification/Rounding.v ===== *)
(** * The error of one floating-point operation

    Products, sums and differences of doubles whose results do not overflow are
    within half a unit in the last place of the exact results.  Values are
    scaled as in [Float64]: a float of scaled value [V] stands for
    [V / 2^1074]. *)

From S2P Require Import Prelude Float64.

(** A finite float and its scaled value; a negative zero counts as zero. *)
Definition fin (x : f64) (V : Z) : Prop := repr x V ∨ (x = S754_zero true ∧ V = 0).

Lemma fin_repr x V : repr x V → fin x V.
Proof. by left. Qed.

Lemma fin_zero s : fin (S754_zero s) 0.
Proof. destruct s; [by right|left; constructor]. Qed.

(** [R] is [W / 2^k] up to half a unit in the last place, or half the smallest
    subnormal. *)
Definition near (R W k : Z) : Prop := 2 ^ 53 * Z.abs (R * 2 ^ k - W) ≤ Z.abs W + 2 ^ 52 * 2 ^ k.

Lemma near_opp R W k : near R W k → near (- R) (- W) k.
Proof. unfold near. intros Hn. replace (- R * 2 ^ k - - W) with (- (R * 2 ^ k - W)) by lia. by rewrite !Z.abs_opp. Qed.

(** The rounding of a positive mantissa. *)
Lemma round_result_fin s M E :
  0 ≤ M ≤ 2 ^ 53 → (-1074 < E → 2 ^ 52 ≤ M) → -1074 ≤ E ≤ 970 →
  fin (round_result s M E) (cond_Zopp s (scaled M E)).
Proof.
  intros HM HM2 HE. unfold round_result. destruct (Z.eqb_spec M 0) as [->|H0].
  { replace (cond_Zopp s (scaled 0 E)) with 0 by (unfold scaled; by destruct s). apply fin_zero. }
  left. destruct (Z.eqb_spec M (2 ^ 53)) as [->|H53].
  - destruct (Z.leb_spec (E + 1) 971); [|lia].
    replace (scaled (2 ^ 53) E) with (scaled (Zpos (Z.to_pos (2 ^ 52))) (E + 1)).
    + constructor. rewrite Z2Pos.id by done. split_and!; try done; lia.
    + unfold scaled. rewrite Z2Pos.id by done. replace (E + 1 + 1074) with (1 + (E + 1074)) by lia.
      rewrite Z.pow_add_r by lia. change (2 ^ 53) with (2 ^ 52 * 2 ^ 1). ring.
  - destruct (Z.leb_spec E 971); [|lia].
    replace (scaled M E) with (scaled (Zpos (Z.to_pos M)) E) by (by rewrite Z2Pos.id by lia).
    constructor. rewrite Z2Pos.id by lia. split_and!; [lia..|done].
Qed.

Lemma round_near s m e k :
  0 < m → e ≤ fexp64 (Zdigits2 m + e) → Zdigits2 m + e ≤ 1000 → 0 ≤ k → 0 ≤ e + 1074 + k →
  ∃ R, fin (binary_round_aux fprec femax s m e loc_Exact) (cond_Zopp s R) ∧ 0 ≤ R ∧
    near R (m * 2 ^ (e + 1074 + k)) k.
Proof.
  intros Hm He Hover Hk Hek. pose proof (Zdigits2_bounds m Hm) as [Hd1 Hd2].
  assert (Hdpos : 0 < Zdigits2 m) by (destruct m; simpl; lia).
  destruct (binary_round_aux_spec s m e loc_Exact m 1 Hm) as (M & HM & HM52 & Herr & _ & Heq);
    [by apply rep_exact; lia|done|]. rewrite Heq. clear Heq.
  set (d := Zdigits2 m) in *. set (E := fexp64 (d + e)) in *.
  assert (HE : E = Z.max (d + e - 53) (-1074)) by done.
  exists (scaled M E). split; [apply round_result_fin; [lia|done|lia]|].
  assert (Hp : 0 < 2 ^ (E + 1074)) by (apply Z.pow_pos_nonneg; lia).
  split; [unfold scaled; nia|]. unfold near, scaled.
  set (t := 2 ^ (e + 1074 + k)). assert (Ht : 0 < t) by (apply Z.pow_pos_nonneg; lia).
  replace (M * 2 ^ (E + 1074) * 2 ^ k) with (M * 2 ^ (E - e) * t)
    by (unfold t; rewrite <-!Z.mul_assoc, <-!Z.pow_add_r by lia; do 2 f_equal; lia).
  rewrite <-Z.mul_sub_distr_r, Z.abs_mul, (Z.abs_eq t), (Z.abs_eq (m * t)) by nia.
  rewrite Z.mul_1_l in Herr. set (q := 2 ^ (E - e)) in *.
  assert (Hq : q * t = 2 ^ (E + 1074 + k)) by (unfold q, t; rewrite <-Z.pow_add_r by lia; f_equal; lia).
  assert (Hhalf : 2 * (Z.abs (M * q - m) * t) ≤ q * t) by nia.
  assert (Hpk : 0 < 2 ^ k) by (apply Z.pow_pos_nonneg; lia).
  enough (2 ^ 52 * (q * t) ≤ m * t + 2 ^ 52 * 2 ^ k) by lia. rewrite Hq.
  destruct (Z.max_spec (d + e - 53) (-1074)) as [[_ Hmax]|[_ Hmax]]; rewrite Hmax in HE; rewrite HE.
  - replace (-1074 + 1074 + k) with k by lia. nia.
  - assert (2 ^ 52 * 2 ^ (d + e - 53 + 1074 + k) = 2 ^ (d - 1) * t).
    { unfold t. rewrite <-!Z.pow_add_r by lia. f_equal. lia. }
    nia.
Qed.

Lemma near_cond s R W k : near R W k → near (cond_Zopp s R) (cond_Zopp s W) k.
Proof. destruct s; [apply near_opp|done]. Qed.

Lemma near_zero k : 0 ≤ k → near 0 0 k.
Proof. intros Hk. unfold near. rewrite Z.mul_0_l, Z.sub_diag. pose proof (Z.pow_nonneg 2 k). cbn. lia. Qed.

(** A float that fits its exponent has few digits. *)
Lemma digits_bound m e n :
  0 < m → -1074 ≤ e + n → 0 ≤ n → m * 2 ^ (e + 1074 + n) ≤ 2 ^ (1974 + n) → Zdigits2 m + e ≤ 901.
Proof.
  intros Hm He Hn Hv. pose proof (Zdigits2_bounds m Hm) as [Hd _].
  assert (0 < Zdigits2 m) by (destruct m; simpl; lia).
  assert (Hp : 0 < 2 ^ (e + 1074 + n)) by (apply Z.pow_pos_nonneg; lia).
  assert (Hle : 2 ^ (Zdigits2 m - 1 + (e + 1074 + n)) ≤ 2 ^ (1974 + n)).
  { rewrite Z.pow_add_r by lia. nia. }
  apply Z.pow_le_mono_r_iff in Hle; lia.
Qed.

Lemma round_positive_near s p e :
  -1074 ≤ e → Zpos p * 2 ^ (e + 1074) ≤ 2 ^ 1974 →
  ∃ R, fin (binary_round fprec femax s p e) R ∧ near R (cond_Zopp s (Zpos p * 2 ^ (e + 1074))) 0.
Proof.
  intros He Hpv.
  assert (Hdig : Zdigits2 (Zpos p) + e ≤ 901).
  { apply (digits_bound _ e 0); rewrite ?Z.add_0_r; done. }
  clear Hpv. simpl Zdigits2 in Hdig.
  assert (Hp : 0 < 2 ^ (e + 1074)) by (apply Z.pow_pos_nonneg; lia).
  unfold binary_round. rewrite shl_align_eq. set (E := fexp64 (Zpos (digits2_pos p) + e)).
  assert (HE : E = Z.max (Zpos (digits2_pos p) + e - 53) (-1074)) by done.
  assert (Hk : 0 < 2 ^ (e - Z.min e E)) by (apply Z.pow_pos_nonneg; lia).
  rewrite Z2Pos.id by nia. set (m' := Zpos p * 2 ^ (e - Z.min e E)).
  assert (Hd : Zdigits2 m' + Z.min e E = Zpos (digits2_pos p) + e).
  { unfold m'. rewrite Zdigits2_shift by lia. simpl Zdigits2. lia. }
  destruct (round_near s m' (Z.min e E) 0) as (R & HR & HR0 & Hn); [unfold m'; nia| |lia..|].
  { rewrite Hd. fold E. lia. }
  exists (cond_Zopp s R). split; [done|]. apply near_cond.
  replace (m' * 2 ^ (Z.min e E + 1074 + 0)) with (Zpos p * 2 ^ (e + 1074)) in Hn; [done|].
  unfold m'. rewrite <-Z.mul_assoc, <-Z.pow_add_r by lia. do 2 f_equal. lia.
Qed.

Lemma normalize_near m e :
  -1074 ≤ e → Z.abs (m * 2 ^ (e + 1074)) ≤ 2 ^ 1974 →
  ∃ R, fin (binary_normalize fprec femax m e false) R ∧ near R (m * 2 ^ (e + 1074)) 0.
Proof.
  intros He Hv. pose proof (round_positive_near) as Hround. rewrite Z.abs_mul, (Z.abs_eq (2 ^ _)) in Hv by (by apply Z.pow_nonneg).
  destruct m as [|p|p]; unfold binary_normalize.
  - exists 0. rewrite Z.mul_0_l. split; [apply fin_zero|by apply near_zero].
  - exact (Hround false p e He Hv).
  - destruct (Hround true p e He Hv) as (R & HR & Hn). exists R. split; [done|].
    change (Zneg p) with (- Zpos p). by rewrite Z.mul_opp_l.
Qed.

(** ** The three operations *)

Lemma near_exact V : near V V 0.
Proof. unfold near. rewrite Z.mul_1_r, Z.sub_diag. cbn. lia. Qed.

Lemma fadd_near x y V W :
  fin x V → fin y W → Z.abs (V + W) ≤ 2 ^ 1974 → ∃ R, fin (fadd x y) R ∧ near R (V + W) 0.
Proof.
  intros Hx Hy.
  assert (Hz : ∀ s z U, fin z U → ∃ R, fin (fadd (S754_zero s) z) R ∧ near R U 0).
  { intros s z U Hzu. destruct Hzu as [[|s' c E HC]|[-> ->]]; cbn.
    - exists 0. split; [destruct s; apply fin_zero|by apply near_zero].
    - eexists. split; [left; by constructor|apply near_exact].
    - exists 0. split; [destruct s; apply fin_zero|by apply near_zero]. }
  assert (Hz' : ∀ s z U, fin z U → ∃ R, fin (fadd z (S754_zero s)) R ∧ near R U 0).
  { intros s z U Hzu. destruct Hzu as [[|s' c E HC]|[-> ->]]; cbn.
    - exists 0. split; [destruct s; apply fin_zero|by apply near_zero].
    - eexists. split; [left; by constructor|apply near_exact].
    - exists 0. split; [destruct s; apply fin_zero|by apply near_zero]. }
  destruct Hx as [[|s c E HC]|[-> ->]]; [intros _; by apply Hz| |intros _; by apply Hz].
  destruct Hy as [[|s' d F HD]|[-> ->]];
    [intros _; rewrite Z.add_0_r; by apply Hz', fin_repr; constructor| |intros _; rewrite Z.add_0_r; by apply Hz', fin_repr; constructor].
  destruct HC as (HE & _), HD as (HF & _). unfold fadd, SFadd. rewrite !shl_align_eq. cbn [fst].
  replace (Z.min E (Z.min E F)) with (Z.min E F) by lia.
  replace (Z.min F (Z.min E F)) with (Z.min E F) by lia.
  assert (0 < 2 ^ (E - Z.min E F)) by (apply Z.pow_pos_nonneg; lia).
  assert (0 < 2 ^ (F - Z.min E F)) by (apply Z.pow_pos_nonneg; lia).
  rewrite !Z2Pos.id by nia. set (a := 2 ^ (E - Z.min E F)) in *. set (b := 2 ^ (F - Z.min E F)) in *.
  assert (Hsum : cond_Zopp s (scaled (Zpos c) E) + cond_Zopp s' (scaled (Zpos d) F) =
    (cond_Zopp s (Zpos c * a) + cond_Zopp s' (Zpos d * b)) * 2 ^ (Z.min E F + 1074)).
  { unfold scaled. rewrite (pow_split E (Z.min E F)), (pow_split F (Z.min E F)) by lia. fold a b.
    destruct s, s'; cbn [cond_Zopp]; ring. }
  rewrite Hsum. apply normalize_near. lia.
Qed.

Lemma fin_neg x V : fin x V → fin (fneg x) (- V).
Proof.
  intros [[|s c E HC]|[-> ->]].
  - apply (fin_zero true).
  - left. cbn. replace (- cond_Zopp s (scaled (Zpos c) E)) with (cond_Zopp (negb s) (scaled (Zpos c) E))
      by (destruct s; cbn; lia). by constructor.
  - apply (fin_zero false).
Qed.

Lemma fsub_near x y V W :
  fin x V → repr y W → W ≠ 0 → Z.abs (V - W) ≤ 2 ^ 1974 → ∃ R, fin (fsub x y) R ∧ near R (V - W) 0.
Proof.
  intros Hx Hy HW Hb. rewrite fsub_fadd by (destruct Hy; [done|by eexists]).
  apply fadd_near; [done|by apply fin_neg, fin_repr|]. by replace (V + - W) with (V - W) by lia.
Qed.

Lemma product_exponent c d E F :
  canonical (Zpos c) E → canonical (Zpos d) F → E + F ≤ fexp64 (Zdigits2 (Zpos (c * d)) + (E + F)).
Proof.
  intros (HE & Hc & Hc52) (HF & Hd & Hd52). rewrite fexp64_eq.
  destruct (decide (E = -1074 ∧ F = -1074)) as [[-> ->]|Hn]; [lia|].
  assert (2 ^ 52 ≤ Zpos (c * d)).
  { rewrite Pos2Z.inj_mul. destruct (decide (E = -1074)) as [->|]; [|nia].
    assert (2 ^ 52 ≤ Zpos d) by (apply Hd52; lia). nia. }
  pose proof (Zdigits2_ge (Zpos (c * d)) 52 ltac:(lia) ltac:(lia)). lia.
Qed.

Lemma fmul_near x y V W :
  fin x V → fin y W → Z.abs (V * W) ≤ 2 ^ 3048 → ∃ R, fin (fmul x y) R ∧ near R (V * W) 1074.
Proof.
  intros Hx Hy Hb. assert (Hz : ∃ R, fin (S754_zero false) R ∧ near R 0 1074).
  { exists 0. split; [apply fin_zero|by apply near_zero]. }
  assert (Hz' : ∀ s, ∃ R, fin (S754_zero s) R ∧ near R 0 1074).
  { intros s. exists 0. split; [apply fin_zero|by apply near_zero]. }
  revert Hb. destruct Hx as [[|s c E HC]|[-> ->]]; intros Hb;
    [destruct Hy as [[|s' d F HD]|[-> ->]]; apply Hz'| |destruct Hy as [[|s' d F HD]|[-> ->]]; apply Hz'].
  revert Hb. destruct Hy as [[|s' d F HD]|[-> ->]]; intros Hb; [rewrite Z.mul_0_r; apply Hz'| |rewrite Z.mul_0_r; apply Hz'].
  unfold fmul, SFmul. pose proof (product_exponent c d E F HC HD) as Hexp.
  destruct HC as (HE & Hc & _), HD as (HF & Hd & _).
  assert (Hv : cond_Zopp s (scaled (Zpos c) E) * cond_Zopp s' (scaled (Zpos d) F) =
    cond_Zopp (xorb s s') (Zpos (c * d) * 2 ^ (E + F + 1074 + 1074))).
  { unfold scaled. replace (E + F + 1074 + 1074) with ((E + 1074) + (F + 1074)) by lia.
    rewrite (Z.pow_add_r 2 (E + 1074) (F + 1074)), Pos2Z.inj_mul by lia. destruct s, s'; cbn [cond_Zopp xorb]; ring. }
  rewrite Hv in *. assert (Hpp : 0 < 2 ^ (E + F + 1074 + 1074)) by (apply Z.pow_pos_nonneg; lia).
  assert (Hdig : Zdigits2 (Zpos (c * d)) + (E + F) ≤ 901).
  { apply (digits_bound _ _ 1074); [lia..|]. change (1974 + 1074) with 3048.
    destruct (xorb s s'); cbn [cond_Zopp] in Hb; rewrite ?Z.abs_opp, Z.abs_eq in Hb by lia; exact Hb. }
  destruct (round_near (xorb s s') (Zpos (c * d)) (E + F) 1074) as (R & HR & _ & Hn); [lia..|].
  exists (cond_Zopp (xorb s s') R). split; [done|]. by apply near_cond.
Qed.

(** Near an integer multiple of the scale. *)
Lemma near_scaled R A : near R (A * funit) 1074 → 2 ^ 53 * Z.abs (R - A) ≤ Z.abs A + 2 ^ 52.
Proof.
  unfold near. change (2 ^ 1074) with funit. pose proof funit_pos. generalize dependent funit. intros u Hu Hn.
  rewrite <-Z.mul_sub_distr_r, !Z.abs_mul, (Z.abs_eq u) in Hn by lia. nia.
Qed.

Lemma fin_to_int64 x V : fin x V → 0 ≤ V → V / funit ≤ maxInt64 → to_int64 x = V / funit.
Proof. intros [Hx|[-> ->]]; [by apply to_int64_repr|done]. Qed.
