(* ===== verification/GoStrings.v ===== *)
(** * Go strings: the parts of [strings] and [strconv] the gateway uses

    A Go string is a byte sequence, here Stdlib's [string] of 8-bit characters.
    The Unicode tables are the one thing left open: [ToLower] maps the strings
    that hold a byte of 128 or more by a parameter (class [GoUnicode]).  [TrimSpace]
    recognises the UTF-8 encodings of the space characters of [unicode.IsSpace]. *)

From Stdlib Require Export Ascii.
From S2P Require Import Prelude.


(** ** Bytes *)

Definition byte_of (c : ascii) : Z := Z.of_N (N_of_ascii c).
Definition char_of (b : Z) : ascii := ascii_of_N (Z.to_N b).

Definition string_of_bytes (l : bytes) : string := String.string_of_list_ascii (char_of <$> l).
Definition bytes_of_string (s : string) : bytes := byte_of <$> String.list_ascii_of_string s.

Definition newline : string := String "010"%char EmptyString.

Definition slen (s : string) : Z := Z.of_nat (String.length s).

(** [s[:n]] and [s[n:]]. *)
Definition str_to (n : Z) (s : string) : string := String.substring 0 (Z.to_nat n) s.
Definition str_from (n : Z) (s : string) : string :=
  String.substring (Z.to_nat n) (String.length s - Z.to_nat n) s.

Definition in_range (lo hi : Z) (c : ascii) : bool := (lo <=? byte_of c) && (byte_of c <=? hi).

Definition is_digit : ascii → bool := in_range 48 57.

(** ** strings *)

(** A one-byte space, and the two- and three-byte encodings of the others. *)
Definition space1 (a : ascii) : bool := in_range 9 13 a || (byte_of a =? 32).
Definition space2 (a b : ascii) : bool :=
  (byte_of a =? 0xC2) && ((byte_of b =? 0x85) || (byte_of b =? 0xA0)).
Definition space3 (a b c : ascii) : bool :=
  let x := (byte_of a * 256 + byte_of b) * 256 + byte_of c in
  (x =? 0xE19A80) || ((0xE28080 <=? x) && (x <=? 0xE2808A)) ||
  (x =? 0xE280A8) || (x =? 0xE280A9) || (x =? 0xE280AF) || (x =? 0xE2819F) || (x =? 0xE38080).

Fixpoint trim_left (l : list ascii) : list ascii :=
  match l with
  | a :: l1 =>
      if space1 a then trim_left l1
      else match l1 with
      | b :: l2 =>
          if space2 a b then trim_left l2
          else match l2 with
          | c :: l3 => if space3 a b c then trim_left l3 else l
          | [] => l
          end
      | [] => l
      end
  | [] => l
  end.

(** The same on the reversed string. *)
Fixpoint trim_left_rev (l : list ascii) : list ascii :=
  match l with
  | c :: l1 =>
      if space1 c then trim_left_rev l1
      else match l1 with
      | b :: l2 =>
          if space2 b c then trim_left_rev l2
          else match l2 with
          | a :: l3 => if space3 a b c then trim_left_rev l3 else l
          | [] => l
          end
      | [] => l
      end
  | [] => l
  end.

Definition TrimSpace (s : string) : string :=
  String.string_of_list_ascii (rev (trim_left_rev (rev (trim_left (String.list_ascii_of_string s))))).

(** [unicode_lower] is [strings.ToLower] on strings that are not ASCII. *)
Class GoUnicode := { unicode_lower : string → string }.

Definition is_ascii (s : string) : bool :=
  forallb (λ c, byte_of c <? 128) (String.list_ascii_of_string s).

Definition lower_char (c : ascii) : ascii :=
  if in_range 65 90 c then char_of (byte_of c + 32) else c.

Fixpoint lower_ascii (s : string) : string :=
  match s with
  | EmptyString => EmptyString
  | String c s => String (lower_char c) (lower_ascii s)
  end.

Definition ToLower `{GoUnicode} (s : string) : string :=
  if is_ascii s then lower_ascii s else unicode_lower s.

Definition HasPrefix (s p : string) : bool := String.prefix p s.

Definition HasSuffix (s suffix : string) : bool :=
  (String.length suffix <=? String.length s)%nat &&
  String.eqb (str_from (slen s - slen suffix) s) suffix.

(** [strings.Index(s, c)] for a one-byte [c], -1 when absent. *)
Fixpoint IndexByte (s : string) (c : ascii) : Z :=
  match s with
  | EmptyString => -1
  | String a s =>
      if Ascii.eqb a c then 0
      else let i := IndexByte s c in if i <? 0 then -1 else i + 1
  end.

(** [strings.Split(s, c)] for a one-byte separator: never empty. *)
Fixpoint Split (s : string) (c : ascii) : list string :=
  match s with
  | EmptyString => [EmptyString]
  | String a s =>
      if Ascii.eqb a c then EmptyString :: Split s c
      else match Split s c with
           | p :: ps => String a p :: ps
           | [] => [String a EmptyString]
           end
  end.

Fixpoint Join (l : list string) (c : ascii) : string :=
  match l with
  | [] => EmptyString
  | [s] => s
  | s :: l => s +:+ String c (Join l c)
  end.

(** ** strconv *)

Definition syntax_error (fn s : string) : goerror :=
  Errorf ("strconv." +:+ fn +:+ ": parsing %q: invalid syntax") [s].
Definition range_error (fn s : string) : goerror :=
  Errorf ("strconv." +:+ fn +:+ ": parsing %q: value out of range") [s].

(** The loop of [ParseUint(s, 10, bits)]: [None] is a syntax error, [Some None]
    a range error. *)
Definition cutoff10 : Z := (2 ^ 64 - 1) / 10 + 1.

Fixpoint parse_uint_loop (maxVal n : Z) (s : string) : option (option Z) :=
  match s with
  | EmptyString => Some (Some n)
  | String c s =>
      if is_digit c then
        let d := byte_of c - 48 in
        if cutoff10 <=? n then Some None
        else
          let n10 := u64 (n * 10) in
          let n1 := u64 (n10 + d) in
          if (n1 <? n10) || (maxVal <? n1) then Some None
          else parse_uint_loop maxVal n1 s
      else None
  end.

Definition ParseUint_as (fn s : string) (bitSize : Z) : result Z :=
  match s with
  | EmptyString => Err (syntax_error fn s)
  | _ => match parse_uint_loop (2 ^ bitSize - 1) 0 s with
         | None => Err (syntax_error fn s)
         | Some None => Err (range_error fn s)
         | Some (Some n) => Ok n
         end
  end.

Definition ParseUint (s : string) (bitSize : Z) : result Z := ParseUint_as "ParseUint" s bitSize.

(** [strconv.Atoi]: an optional sign and an [int64]. *)
Definition Atoi (s : string) : result Z :=
  let '(neg, digits) :=
    match s with
    | String c rest =>
        if byte_of c =? 45 then (true, rest)
        else if byte_of c =? 43 then (false, rest) else (false, s)
    | EmptyString => (false, s)
    end in
  match ParseUint_as "Atoi" digits 64 with
  | Ok un =>
      if negb neg && (2 ^ 63 <=? un) then Err (range_error "Atoi" s)
      else if neg && (2 ^ 63 <? un) then Err (range_error "Atoi" s)
      else Ok (if neg then - un else un)
  | Err (Errorf fmt _) => Err (Errorf fmt [s])
  end.

(** [strconv.Itoa]: twenty digits are enough for every 64-bit integer. *)
Fixpoint itoa_digits (fuel : nat) (n : Z) (acc : string) : string :=
  match fuel with
  | O => acc
  | S fuel =>
      let acc := String (char_of (48 + n mod 10)) acc in
      if n <? 10 then acc else itoa_digits fuel (n / 10) acc
  end.

Definition Itoa (n : Z) : string :=
  if n <? 0 then String (char_of 45) (itoa_digits 20 (- n) EmptyString)
  else itoa_digits 20 n EmptyString.

(** ** Lemmas *)

Lemma byte_of_range c : is_byte (byte_of c).
Proof.
  unfold is_byte, byte_of. pose proof (N_ascii_bounded c) as H. lia.
Qed.

Lemma byte_of_char_of b : is_byte b → byte_of (char_of b) = b.
Proof.
  unfold is_byte, byte_of, char_of. intros. rewrite N_ascii_embedding by lia. lia.
Qed.

Lemma is_digit_char_of d : 0 ≤ d < 10 → is_digit (char_of (48 + d)) = true.
Proof.
  intros. unfold is_digit, in_range. rewrite byte_of_char_of by (unfold is_byte; lia).
  apply andb_true_iff. rewrite !Z.leb_le. lia.
Qed.

(** The number written by a string of digits. *)
Fixpoint decimal_from (n : Z) (s : string) : option Z :=
  match s with
  | EmptyString => Some n
  | String c s => if is_digit c then decimal_from (n * 10 + (byte_of c - 48)) s else None
  end.

Definition decimal (s : string) : option Z :=
  match s with EmptyString => None | _ => decimal_from 0 s end.

Lemma digit_range c : is_digit c = true → 0 ≤ byte_of c - 48 < 10.
Proof. unfold is_digit, in_range. rewrite andb_true_iff, !Z.leb_le. lia. Qed.

Lemma decimal_from_ge n s v : 0 ≤ n → decimal_from n s = Some v → n ≤ v.
Proof.
  revert n. induction s as [|c s IH]; intros n Hn; simpl; [intros [= ->]; lia|].
  destruct (is_digit c) eqn:Hc; [|done]. apply digit_range in Hc.
  intros H%IH; lia.
Qed.

Lemma parse_uint_loop_spec maxVal n s :
  0 ≤ n ≤ maxVal → maxVal < 2 ^ 64 →
  ∀ v, parse_uint_loop maxVal n s = Some (Some v) ↔ decimal_from n s = Some v ∧ v ≤ maxVal.
Proof.
  intros Hn Hm. revert n Hn. induction s as [|c s IH]; intros n Hn v; simpl.
  { split; [intros [= ->]; split; [done|lia]|by intros [[= ->] _]]. }
  destruct (is_digit c) eqn:Hc; [|by split; [|intros [? _]]]. apply digit_range in Hc.
  assert (Hover : maxVal < n * 10 + (byte_of c - 48) →
    ¬ (decimal_from (n * 10 + (byte_of c - 48)) s = Some v ∧ v ≤ maxVal)).
  { intros ? [H%decimal_from_ge ?]; lia. }
  destruct (Z.leb_spec cutoff10 n) as [Hcut|Hcut].
  { split; [done|]. intros H. exfalso. apply Hover; [|done].
    unfold cutoff10 in Hcut. change ((2 ^ 64 - 1) / 10 + 1) with 1844674407370955162 in Hcut. lia. }
  change cutoff10 with 1844674407370955162 in Hcut.
  assert (Hu : u64 (n * 10) = n * 10) by (unfold u64; apply Z.mod_small; lia). rewrite Hu.
  destruct (Z_lt_le_dec (n * 10 + (byte_of c - 48)) (2 ^ 64)) as [Hlt|Hge].
  - assert (Hu1 : u64 (n * 10 + (byte_of c - 48)) = n * 10 + (byte_of c - 48))
      by (unfold u64; apply Z.mod_small; lia). rewrite Hu1.
    destruct (Z.ltb_spec (n * 10 + (byte_of c - 48)) (n * 10)); [lia|].
    destruct (Z.ltb_spec maxVal (n * 10 + (byte_of c - 48))) as [Hlt'|Hge']; simpl.
    + split; [done|]. intros H'. by destruct (Hover Hlt').
    + apply IH. lia.
  - assert (Hu1 : u64 (n * 10 + (byte_of c - 48)) = n * 10 + (byte_of c - 48) - 2 ^ 64).
    { unfold u64. symmetry. apply (Z.mod_unique _ _ 1); lia. }
    rewrite Hu1.
    destruct (Z.ltb_spec (n * 10 + (byte_of c - 48) - 2 ^ 64) (n * 10)); [|lia]. simpl.
    split; [done|]. intros H'. destruct (Hover ltac:(lia) H').
Qed.

Lemma ParseUint_as_ok fn s bits v :
  0 ≤ bits ≤ 64 → ParseUint_as fn s bits = Ok v ↔ decimal s = Some v ∧ v < 2 ^ bits.
Proof.
  intros Hb. assert (0 < 2 ^ bits) by (apply Z.pow_pos_nonneg; lia).
  assert (2 ^ bits ≤ 2 ^ 64) by (apply Z.pow_le_mono_r; lia).
  pose proof (parse_uint_loop_spec (2 ^ bits - 1) 0 s ltac:(lia) ltac:(lia) v) as Hs.
  unfold ParseUint_as, decimal. destruct s as [|c s]; [by split; [|intros [? _]]|].
  destruct (parse_uint_loop _ _ _) as [[w|]|]; (split; [intros Hv; simplify_eq|intros [H1 H2]]).
  - destruct Hs as [Hs _]. destruct (Hs eq_refl). split; [done|lia].
  - assert (Hv : v ≤ 2 ^ bits - 1) by lia. apply proj2 in Hs. specialize (Hs (conj H1 Hv)). congruence.
  - assert (Hv : v ≤ 2 ^ bits - 1) by lia. apply proj2 in Hs. specialize (Hs (conj H1 Hv)). congruence.
  - assert (Hv : v ≤ 2 ^ bits - 1) by lia. apply proj2 in Hs. specialize (Hs (conj H1 Hv)). congruence.
Qed.

Lemma decimal_nonneg s v : decimal s = Some v → 0 ≤ v.
Proof. destruct s; [done|]. intros H%decimal_from_ge; lia. Qed.

Lemma Atoi_range s v : Atoi s = Ok v → is_i64 v.
Proof.
  unfold Atoi. set (p := match s with EmptyString => _ | _ => _ end).
  destruct p as [neg digits]. destruct (ParseUint_as "Atoi" digits 64) as [un|[]] eqn:Hp; [|done].
  apply ParseUint_as_ok in Hp as [Hd Hlt]; [|lia]. apply decimal_nonneg in Hd.
  unfold is_i64. destruct neg; simpl; split_cases; bool_to_Z; intros; simplify_eq; lia.
Qed.

(** ** Printing and parsing integers *)

Lemma decimal_from_itoa fuel n acc :
  0 ≤ n < 10 ^ Z.of_nat fuel → (0 < fuel)%nat →
  decimal_from 0 (itoa_digits fuel n acc) = decimal_from n acc.
Proof.
  revert n acc. induction fuel as [|fuel IH]; intros n acc Hn Hf; [lia|]. simpl itoa_digits.
  pose proof (Z.mod_pos_bound n 10 ltac:(lia)). pose proof (Z.div_mod n 10 ltac:(lia)).
  assert (Hstep : ∀ m, decimal_from m (String (char_of (48 + n mod 10)) acc) =
                       decimal_from (m * 10 + n mod 10) acc).
  { intros m. simpl. rewrite is_digit_char_of by lia.
    rewrite byte_of_char_of by (unfold is_byte; lia). do 2 f_equal. lia. }
  destruct (Z.ltb_spec n 10) as [Hlt|Hge].
  - rewrite Hstep. f_equal. rewrite Z.mod_small; lia.
  - assert (Hf' : (0 < fuel)%nat).
    { destruct fuel; [|lia]. change (10 ^ Z.of_nat 1) with 10 in Hn. lia. }
    rewrite Nat2Z.inj_succ, Z.pow_succ_r in Hn by lia.
    rewrite IH, Hstep; [f_equal; lia| |done].
    split; [apply Z.div_pos; lia|]. apply Z.div_lt_upper_bound; lia.
Qed.

Lemma itoa_digits_nonempty fuel n acc :
  (0 < fuel)%nat → itoa_digits fuel n acc ≠ EmptyString.
Proof.
  assert (H : ∀ f m a, a ≠ EmptyString → itoa_digits f m a ≠ EmptyString).
  { induction f as [|f IH]; intros m a Ha; simpl; [done|]. case_match; [done|]. by apply IH. }
  destruct fuel as [|fuel]; [lia|]. intros _. simpl. case_match; [done|]. by apply H.
Qed.

Lemma decimal_Itoa n : 0 ≤ n < 10 ^ 20 → decimal (Itoa n) = Some n.
Proof.
  intros Hn. unfold Itoa. destruct (Z.ltb_spec n 0); [lia|].
  pose proof (itoa_digits_nonempty 20 n EmptyString ltac:(lia)) as Hne.
  pose proof (decimal_from_itoa 20 n EmptyString ltac:(done) ltac:(lia)) as Hd.
  unfold decimal. destruct (itoa_digits 20 n EmptyString); [done|]. by rewrite Hd.
Qed.

Lemma ParseUint_Itoa n bits : 0 ≤ bits ≤ 64 → 0 ≤ n < 2 ^ bits → ParseUint (Itoa n) bits = Ok n.
Proof.
  intros Hb Hn. apply ParseUint_as_ok; [done|]. split; [|lia]. apply decimal_Itoa.
  assert (2 ^ bits ≤ 2 ^ 64) by (apply Z.pow_le_mono_r; lia). lia.
Qed.

Lemma Atoi_decimal s v : decimal s = Some v → v < 2 ^ 63 → Atoi s = Ok v.
Proof.
  intros Hd Hv. unfold Atoi. destruct s as [|c s]; [done|].
  assert (Hc : is_digit c = true) by (cbn in Hd; by destruct (is_digit c)).
  apply digit_range in Hc. destruct (Z.eqb_spec (byte_of c) 45); [lia|]. destruct (Z.eqb_spec (byte_of c) 43); [lia|].
  rewrite (proj2 (ParseUint_as_ok "Atoi" (String c s) 64 v ltac:(lia)) ltac:(split; [done|lia])).
  cbn [negb andb]. by destruct (Z.leb_spec (2 ^ 63) v); [lia|].
Qed.

Lemma Atoi_Itoa n : 0 ≤ n < 2 ^ 63 → Atoi (Itoa n) = Ok n.
Proof. intros Hn. apply Atoi_decimal; [|lia]. apply decimal_Itoa. lia. Qed.

(** ** Trimming *)

(** A character that no trimming removes: printable ASCII other than space. *)
Definition solid (c : ascii) : bool := in_range 33 127 c.

Lemma solid_range c : solid c = true → 33 ≤ byte_of c ≤ 127.
Proof. unfold solid, in_range. rewrite andb_true_iff, !Z.leb_le. done. Qed.

Lemma digit_solid c : is_digit c = true → solid c = true.
Proof. unfold solid, is_digit, in_range. rewrite !andb_true_iff, !Z.leb_le. lia. Qed.

(** Decides the comparisons of a boolean formula by [lia]. *)
Ltac decide_Z :=
  repeat match goal with
  | |- context[?a =? ?b] => destruct (Z.eqb_spec a b); [try lia|]
  | |- context[?a <=? ?b] => destruct (Z.leb_spec a b); try lia
  end.

Lemma solid_not_space1 c : solid c = true → space1 c = false.
Proof. intros Hc%solid_range. unfold space1, in_range. decide_Z; done. Qed.

Lemma trim_left_solid c l : solid c = true → trim_left (c :: l) = c :: l.
Proof.
  intros Hc. cbn [trim_left]. rewrite solid_not_space1 by done. apply solid_range in Hc.
  destruct l as [|b [|d l]]; [done|..]; unfold space2, space3.
  - decide_Z; done.
  - pose proof (byte_of_range b) as Hb. pose proof (byte_of_range d) as Hd. unfold is_byte in *.
    destruct (Z.eqb_spec (byte_of c) 0xC2); [lia|]. cbn [andb].
    set (x := (byte_of c * 256 + byte_of b) * 256 + byte_of d).
    assert (x < 0xE19A80) by (subst x; lia). decide_Z; done.
Qed.

Lemma trim_left_rev_solid c l : solid c = true → trim_left_rev (c :: l) = c :: l.
Proof.
  intros Hc. cbn [trim_left_rev]. rewrite solid_not_space1 by done. apply solid_range in Hc.
  destruct l as [|b [|d l]]; [done|..]; unfold space2, space3.
  - destruct (byte_of b =? 0xC2); decide_Z; done.
  - pose proof (byte_of_range b) as Hb. pose proof (byte_of_range d) as Hd. unfold is_byte in *.
    assert ((byte_of b =? 0xC2) && ((byte_of c =? 0x85) || (byte_of c =? 0xA0)) = false) as ->
      by (destruct (byte_of b =? 0xC2); decide_Z; done).
    set (x := (byte_of d * 256 + byte_of b) * 256 + byte_of c).
    assert (x mod 256 = byte_of c) as Hx.
    { subst x. rewrite Z.add_comm, Z.mod_add by done. apply Z.mod_small. lia. }
    pose proof (Z.div_mod x 256 ltac:(done)). decide_Z; done.
Qed.

Lemma trim_left_spaces ws l : forallb space1 ws = true → trim_left (ws ++ l) = trim_left l.
Proof.
  induction ws as [|w ws IH]; [done|]. cbn [forallb app trim_left].
  intros [Hw Hws]%andb_true_iff. rewrite Hw. by apply IH.
Qed.

Lemma trim_left_rev_spaces ws l :
  forallb space1 ws = true → trim_left_rev (ws ++ l) = trim_left_rev l.
Proof.
  induction ws as [|w ws IH]; [done|]. cbn [forallb app trim_left_rev].
  intros [Hw Hws]%andb_true_iff. rewrite Hw. by apply IH.
Qed.

(** Text between solid characters, surrounded by ASCII white space. *)
Lemma TrimSpace_pad ws l ws' :
  forallb space1 ws = true → forallb space1 ws' = true →
  (∃ c l0, l = c :: l0 ∧ solid c = true) → (∃ l0 c, l = l0 ++ [c] ∧ solid c = true) →
  TrimSpace (String.string_of_list_ascii (ws ++ l ++ ws')) = String.string_of_list_ascii l.
Proof.
  intros Hws Hws' (c & l0 & Hl & Hc) (l1 & d & Hl' & Hd). unfold TrimSpace.
  rewrite String.list_ascii_of_string_of_list_ascii, trim_left_spaces by done.
  rewrite Hl at 1. cbn [app]. rewrite trim_left_solid, app_comm_cons, <-Hl by done.
  rewrite rev_app_distr, trim_left_rev_spaces.
  - rewrite Hl' at 1. rewrite rev_app_distr. cbn [rev app]. rewrite trim_left_rev_solid by done.
    f_equal. rewrite Hl'. cbn [rev]. by rewrite rev_involutive.
  - by rewrite forallb_forall in *; intros x ?%in_rev; apply Hws'.
Qed.

Lemma decimal_from_digits n s v :
  decimal_from n s = Some v → forallb is_digit (String.list_ascii_of_string s) = true.
Proof.
  revert n. induction s as [|c s IH]; intros n; simpl; [done|].
  destruct (is_digit c); [|done]. cbn [andb]. apply IH.
Qed.

Lemma TrimSpace_digits ws s ws' v :
  forallb space1 ws = true → forallb space1 ws' = true → decimal s = Some v →
  TrimSpace (String.string_of_list_ascii (ws ++ String.list_ascii_of_string s ++ ws')) = s.
Proof.
  intros Hws Hws' Hd. assert (Hdig : forallb is_digit (String.list_ascii_of_string s) = true).
  { destruct s; [done|]. by eapply decimal_from_digits. }
  rewrite forallb_forall in Hdig.
  assert (Hne : String.list_ascii_of_string s ≠ []) by (by destruct s).
  rewrite TrimSpace_pad; [apply String.string_of_list_ascii_of_string|done|done|..].
  - destruct (String.list_ascii_of_string s) as [|c l]; [done|]. exists c, l. split; [done|].
    apply digit_solid, Hdig. by left.
  - destruct (String.list_ascii_of_string s) as [|c l _] using rev_ind; [done|]. exists l, c.
    split; [done|]. apply digit_solid, Hdig. apply in_or_app. right. by left.
Qed.

(** ** Splitting *)

Lemma Split_nonempty s c : Split s c ≠ [].
Proof. destruct s as [|a s]; simpl; [done|]. destruct (Ascii.eqb a c); [done|]. by destruct (Split s c). Qed.

Lemma Split_app_two p q c : ∃ x y l, Split (p +:+ String c q) c = x :: y :: l.
Proof.
  induction p as [|a p (x & y & l & IH)]; simpl.
  - rewrite Ascii.eqb_refl. destruct (Split q c) eqn:E; [by apply Split_nonempty in E|by eauto].
  - rewrite IH. destruct (Ascii.eqb a c); eauto.
Qed.

Lemma Split_last_app p q c : last (Split (p +:+ String c q) c) = last (Split q c).
Proof.
  induction p as [|a p IH]; simpl.
  - rewrite Ascii.eqb_refl. destruct (Split q c) eqn:E; [by apply Split_nonempty in E|done].
  - destruct (Split_app_two p q c) as (x & y & l & E). rewrite E in *. by destruct (Ascii.eqb a c).
Qed.

Lemma Split_digits n s v c : is_digit c = false → decimal_from n s = Some v → Split s c = [s].
Proof.
  intros Hc. revert n. induction s as [|a s IH]; intros n; simpl; [done|].
  destruct (is_digit a) eqn:Ha; [|done]. intros Hd.
  destruct (Ascii.eqb_spec a c) as [->|]; [congruence|]. by rewrite (IH _ Hd).
Qed.

Lemma string_of_bytes_of_string s : string_of_bytes (bytes_of_string s) = s.
Proof.
  unfold string_of_bytes, bytes_of_string. rewrite <-list_fmap_compose.
  rewrite <-(String.string_of_list_ascii_of_string s) at 2. f_equal.
  induction (String.list_ascii_of_string s) as [|c l IH]; [done|]. cbn [fmap list_fmap].
  f_equal; [|done]. unfold compose, char_of, byte_of. by rewrite N2Z.id, ascii_N_embedding.
Qed.
