(* ===== verification/Clock.v ===== *)
(** * Time (package [time] as the gateway uses it, and internal/clock)

    A [time.Duration] is an [int64] number of nanoseconds and a [time.Time] an
    integer number of nanoseconds since the epoch.  [Clock] is the interface the
    components are written against; [FakeClock] is the package's deterministic
    implementation, whose channels are modelled in an explicit store. *)

From S2P Require Import Prelude Float64.

(** ** Durations *)

Definition Nanosecond : Z := 1.
Definition Microsecond : Z := 1000.
Definition Millisecond : Z := 1000 * Microsecond.
Definition Second : Z := 1000 * Millisecond.

(** [d.Seconds()]: whole seconds plus the fraction, added as floats. *)
Definition Seconds (d : Z) : f64 :=
  let sec := Z.quot d Second in
  let nsec := Z.rem d Second in
  fadd (of_int sec) (fdiv (of_int nsec) (of_int Second)).

(** [d.Microseconds()]. *)
Definition Microseconds (d : Z) : Z := Z.quot d Microsecond.

(** [t.Sub(u)] saturates at the ends of [int64]. *)
Definition Sub (t u : Z) : Z :=
  let d := t - u in
  if d <? minInt64 then minInt64 else if maxInt64 <? d then maxInt64 else d.

(** [time.Duration(n) * unit] and the other [int64] products wrap around. *)
Definition mul_i64 (a b : Z) : Z := i64 (a * b).

Lemma Sub_range t u : is_i64 (Sub t u).
Proof. unfold Sub, is_i64, minInt64, maxInt64. split_cases; bool_to_Z; lia. Qed.

Lemma Sub_id t u : is_i64 (t - u) → Sub t u = t - u.
Proof. unfold Sub, is_i64, minInt64, maxInt64. intros. split_cases; bool_to_Z; lia. Qed.

(** Whole seconds are exact. *)
Lemma Seconds_whole s : Z.abs s ≤ 2 ^ 53 → Seconds (s * Second) = of_int s.
Proof.
  intros Hs. unfold Seconds. rewrite Z.quot_mul, Z.rem_mul by done.
  change (fdiv (of_int 0) (of_int Second)) with (of_int 0).
  rewrite fadd_int by lia. by rewrite Z.add_0_r.
Qed.

(** ** The clock interface

    [Now] reads the clock and [After d] returns a channel that will deliver the
    time; both may change the clock object. *)
Class Clock (C : Type) := {
  Now : C → Z;
  After : C → Z → nat * C;
}.

(** ** The fake clock *)

Module FakeClock.

(** The channels handed out have a buffer of one value. *)
Record FakeClock := mkFakeClock {
  now : Z;
  waiters : list nat;
  pending : Z;
  chans : list (list Z);
}.

Definition NewFakeClock : FakeClock := mkFakeClock 0 [] 0 [].

Definition FNow (f : FakeClock) : Z := now f.

Definition FAfter (f : FakeClock) (_ : Z) : nat * FakeClock :=
  let ch := length (chans f) in
  if 0 <? pending f then
    (ch, mkFakeClock (now f) (waiters f) (pending f - 1) (chans f ++ [[now f]]))
  else
    (ch, mkFakeClock (now f) (waiters f ++ [ch]) (pending f) (chans f ++ [[]])).

#[export] Instance fake_clock : Clock FakeClock := { Now := FNow; After := FAfter }.

(** A send on a channel whose buffer is full would block: [None]. *)
Definition send (chans : list (list Z)) (ch : nat) (v : Z) : option (list (list Z)) :=
  match chans !! ch with
  | Some [] => Some (<[ch := [v]]> chans)
  | _ => None
  end.

Fixpoint send_all (chans : list (list Z)) (chs : list nat) (v : Z) : option (list (list Z)) :=
  match chs with
  | [] => Some chans
  | ch :: chs => chans' ← send chans ch v; send_all chans' chs v
  end.

(** [None]: [Fire] would block. *)
Definition Fire (f : FakeClock) : option FakeClock :=
  if len (waiters f) =? 0 then
    Some (mkFakeClock (now f) (waiters f) (pending f + 1) (chans f))
  else
    chans' ← send_all (chans f) (waiters f) (now f);
    Some (mkFakeClock (now f) [] (pending f) chans').

Definition Advance (d : Z) (f : FakeClock) : FakeClock :=
  mkFakeClock (now f + d) (waiters f) (pending f) (chans f).

(** The channel [ch] as its receiver sees it. *)
Definition received (f : FakeClock) (ch : nat) : option Z :=
  match chans f !! ch with Some [v] => Some v | _ => None end.

(** Waiters are distinct, still empty channels, and a signal is only kept
    pending while nobody waits. *)
Record wf (f : FakeClock) : Prop := {
  wf_nodup : NoDup (waiters f);
  wf_empty : ∀ ch, ch ∈ waiters f → chans f !! ch = Some [];
  wf_pending : 0 ≤ pending f;
  wf_idle : 0 < pending f → waiters f = [];
}.

Inductive step : FakeClock → FakeClock → Prop :=
| step_after f d : step f (FAfter f d).2
| step_fire f f' : Fire f = Some f' → step f f'
| step_advance f d : step f (Advance d f).

Lemma send_all_some chs chans v :
  NoDup chs → (∀ ch, ch ∈ chs → chans !! ch = Some []) →
  ∃ chans', send_all chans chs v = Some chans' ∧ length chans' = length chans ∧
    (∀ ch, ch ∈ chs → chans' !! ch = Some [v]) ∧
    (∀ ch, ch ∉ chs → chans' !! ch = chans !! ch).
Proof.
  revert chans. induction chs as [|ch chs IH]; intros chans Hnd He; simpl.
  { exists chans. split_and!; try done. by intros ? ?%not_elem_of_nil. }
  apply NoDup_cons in Hnd as [Hch Hnd].
  pose proof (He ch ltac:(left)) as Hc. unfold send. rewrite Hc. simpl.
  assert (Hlt : (ch < length chans)%nat) by (by apply lookup_lt_Some in Hc).
  destruct (IH (<[ch:=[v]]> chans)) as (chans' & -> & Hlen & H1 & H2); [done| |].
  { intros c Hin. rewrite list_lookup_insert_ne by (by intros ->). apply He. by right. }
  exists chans'. rewrite Hlen, length_insert. split_and!; try done.
  - intros c [->|Hin]%elem_of_cons; [|by apply H1].
    rewrite H2 by done. by apply list_lookup_insert_eq.
  - intros c [Hne Hin]%not_elem_of_cons. rewrite H2 by done.
    by rewrite list_lookup_insert_ne by done.
Qed.

Lemma wf_NewFakeClock : wf NewFakeClock.
Proof. split; try done; [apply NoDup_nil_2|by intros ? ?%not_elem_of_nil]. Qed.

Lemma Fire_wf f :
  wf f →
  ∃ f', Fire f = Some f' ∧ wf f' ∧
    (waiters f = [] → pending f' = pending f + 1) ∧
    (waiters f ≠ [] → pending f' = pending f) ∧
    (∀ ch, ch ∈ waiters f → received f' ch = Some (now f)) ∧
    (∀ ch, ch ∉ waiters f → received f' ch = received f ch).
Proof.
  intros [Hnd He Hp Hi]. unfold Fire.
  destruct (Z.eqb_spec (len (waiters f)) 0) as [Hw|Hw].
  - apply len_zero_iff in Hw. eexists. split_and!; [done| |done|done| |done].
    + split; simpl; rewrite ?Hw; try done; [apply NoDup_nil_2|by intros ? ?%not_elem_of_nil|lia].
    + rewrite Hw. by intros ? ?%not_elem_of_nil.
  - assert (Hne : waiters f ≠ []) by (intros E; by rewrite E in Hw).
    destruct (send_all_some (waiters f) (chans f) (now f) Hnd He) as (chans' & -> & Hl & H1 & H2).
    eexists. split_and!; [done| |done|done|..].
    + split; simpl; try done; [apply NoDup_nil_2|by intros ? ?%not_elem_of_nil].
    + intros ch Hin. unfold received. simpl. by rewrite H1.
    + intros ch Hin. unfold received. simpl. by rewrite H2.
Qed.

Lemma step_wf f f' : wf f → step f f' → wf f'.
Proof.
  intros Hwf. destruct 1 as [f d|f f' HF|f d].
  - destruct Hwf as [Hnd He Hp Hi]. unfold FAfter. destruct (Z.ltb_spec 0 (pending f)); simpl.
    + rewrite (Hi ltac:(done)) in *.
      split; simpl; try done; [by intros ? ?%not_elem_of_nil|lia].
    + split; simpl; [|..|done|lia].
      * apply NoDup_app. split_and!; [done| |apply NoDup_singleton].
        intros ch Hin ->%list_elem_of_singleton. apply He, lookup_lt_Some in Hin. lia.
      * intros ch [Hin| ->%list_elem_of_singleton]%elem_of_app.
        -- apply He in Hin. by apply lookup_app_l_Some.
        -- rewrite lookup_app_r, Nat.sub_diag by lia. done.
  - destruct (Fire_wf f Hwf) as (f'' & HF' & Hwf' & _). by simplify_eq.
  - by destruct Hwf; split.
Qed.
End FakeClock.
