(* ===== verification/HealthTests.v ===== *)
(** * Continuous health tests (internal/validation/continuous_health_tests.go)

    The Repetition Count Test and the Adaptive Proportion Test of NIST SP
    800-90B section 4.4.  Each is a stream monitor: the class [HealthMonitor]
    states what a monitor promises about the whole stream it has seen, however
    the stream is cut into blocks, and each test is proved to be an instance. *)

From S2P Require Import Prelude.

(** ** Stream monitors *)

(** The loop of [TestBlock]: it stops at the first sample that fails. *)
Fixpoint test_block {S} (step : S → Z → bool * S) (s : S) (samples : bytes) : bool * S :=
  match samples with
  | [] => (true, s)
  | sample :: rest =>
      match step s sample with
      | (true, s') => test_block step s' rest
      | (false, s') => (false, s')
      end
  end.

(** A monitor [tracks] the samples seen since it was last reset, and fails on
    the first sample that makes this stream [faulty]. *)
Class HealthMonitor {S} (step : S → Z → bool * S) := {
  tracks : S → bytes → Prop;
  faulty : S → bytes → Prop;
  faulty_step s x h : faulty (step s x).2 h ↔ faulty s h;
  faulty_app s h l : faulty s h → faulty s (h ++ l);
  step_pass s h x :
    tracks s h → ¬ faulty s h → (step s x).1 = true →
    tracks (step s x).2 (h ++ [x]) ∧ ¬ faulty s (h ++ [x]);
  step_fail s h x :
    tracks s h → ¬ faulty s h → (step s x).1 = false → faulty s (h ++ [x]);
}.

Section monitor.
Context {S} (step : S → Z → bool * S) `{!HealthMonitor step}.

Lemma test_block_pass s h l :
  tracks s h → ¬ faulty s h → (test_block step s l).1 = true →
  tracks (test_block step s l).2 (h ++ l) ∧ ¬ faulty s (h ++ l).
Proof.
  revert s h. induction l as [|x l IH]; intros s h Ht Hf; simpl.
  { by rewrite app_nil_r. }
  pose proof (step_pass s h x Ht Hf) as Hpass.
  pose proof (λ h, faulty_step s x h) as Hfs.
  destruct (step s x) as [[] s']; simpl in *; [|done].
  intros Hb. destruct (Hpass eq_refl) as [Ht' Hf'].
  rewrite <-Hfs in Hf'. destruct (IH s' (h ++ [x]) Ht' Hf' Hb) as [IH1 IH2].
  rewrite Hfs in IH2. by rewrite <-(assoc_L (++)) in IH1, IH2.
Qed.

Lemma test_block_fail s h l :
  tracks s h → ¬ faulty s h → (test_block step s l).1 = false → faulty s (h ++ l).
Proof.
  revert s h. induction l as [|x l IH]; intros s h Ht Hf; simpl; [done|].
  pose proof (step_pass s h x Ht Hf) as Hpass. pose proof (step_fail s h x Ht Hf) as Hfail.
  pose proof (λ h, faulty_step s x h) as Hfs.
  destruct (step s x) as [[] s']; simpl in *; intros Hb.
  - destruct (Hpass eq_refl) as [Ht' Hf']. rewrite <-Hfs in Hf'.
    specialize (IH s' (h ++ [x]) Ht' Hf' Hb). by rewrite Hfs, <-(assoc_L (++)) in IH.
  - specialize (Hfail eq_refl). rewrite cons_middle, (assoc_L (++)). by apply faulty_app.
Qed.

Lemma test_block_verdict s h l :
  tracks s h → ¬ faulty s h → ((test_block step s l).1 = false ↔ faulty s (h ++ l)).
Proof.
  intros Ht Hf. split; [by apply test_block_fail|].
  intros Hl. destruct (test_block step s l).1 eqn:Hb; [|done].
  by destruct (test_block_pass s h l Ht Hf Hb).
Qed.
End monitor.

Lemma test_block_app {S} (step : S → Z → bool * S) s l1 l2 :
  test_block step s (l1 ++ l2) =
    match test_block step s l1 with
    | (true, s') => test_block step s' l2
    | r => r
    end.
Proof.
  revert s. induction l1 as [|x l1 IH]; intros s; simpl; [done|].
  destruct (step s x) as [[] s']; [apply IH|done].
Qed.

(** ** Repetition Count Test *)

Module RepetitionCountTest.

Record RepetitionCountTest := mkRCT {
  cutoff : Z;
  lastSample : Z;
  repeatCount : Z;
  initialized : bool;
}.

Definition NewRepetitionCountTest (cutoff : Z) : RepetitionCountTest :=
  let cutoff := if cutoff <=? 0 then 40 else cutoff in
  mkRCT cutoff 0 0 false.

Definition Test (rct : RepetitionCountTest) (sample : Z) : bool * RepetitionCountTest :=
  if negb (initialized rct) then
    (true, mkRCT (cutoff rct) sample 1 true)
  else if sample =? lastSample rct then
    let repeatCount' := repeatCount rct + 1 in
    (negb (cutoff rct <=? repeatCount'),
     mkRCT (cutoff rct) (lastSample rct) repeatCount' (initialized rct))
  else
    (true, mkRCT (cutoff rct) sample 1 (initialized rct)).

Definition TestBlock (rct : RepetitionCountTest) (samples : bytes) : bool * RepetitionCountTest :=
  test_block Test rct samples.

Definition Reset (rct : RepetitionCountTest) : RepetitionCountTest :=
  mkRCT (cutoff rct) 0 0 false.

Definition GetState (rct : RepetitionCountTest) : Z * Z * Z * bool :=
  (lastSample rct, repeatCount rct, cutoff rct, initialized rct).

(** A run of [c] equal samples somewhere in the stream. *)
Definition has_run (c : nat) (h : bytes) : Prop :=
  ∃ l1 b l2, h = l1 ++ replicate c b ++ l2.

(** The first sample is never compared, so a cutoff of 1 acts as a cutoff of 2. *)
Definition run_limit (rct : RepetitionCountTest) : nat := Z.to_nat (Z.max 2 (cutoff rct)).

(** The last [n] samples of the stream are [b], and the one before is not. *)
Definition ends_with (h : bytes) (b : Z) (n : nat) : Prop :=
  ∃ h0, h = h0 ++ replicate n b ∧ (1 ≤ n)%nat ∧ last h0 ≠ Some b.

Definition follows (rct : RepetitionCountTest) (h : bytes) : Prop :=
  match h with
  | [] => initialized rct = false
  | _ => initialized rct = true ∧ 1 ≤ repeatCount rct ∧
         ends_with h (lastSample rct) (Z.to_nat (repeatCount rct))
  end.

Lemma last_replicate n (b : Z) : (1 ≤ n)%nat → last (replicate n b) = Some b.
Proof.
  intros Hn. destruct n as [|n]; [lia|]. replace (S n) with (n + 1)%nat by lia.
  rewrite replicate_add. apply last_snoc.
Qed.

Lemma has_run_snoc c h x :
  (1 ≤ c)%nat →
  has_run c (h ++ [x]) ↔ has_run c h ∨ ∃ l1, h ++ [x] = l1 ++ replicate c x.
Proof.
  intros Hc. split.
  - intros (l1 & b & l2 & Heq). destruct l2 as [|y l2 _] using rev_ind.
    + right. rewrite app_nil_r in Heq. exists l1. rewrite Heq. do 2 f_equal.
      apply (f_equal last) in Heq. rewrite last_snoc, last_app, last_replicate in Heq by done.
      congruence.
    + left. rewrite !(assoc_L (++)) in Heq. apply app_inj_tail in Heq as [-> _].
      exists l1, b, l2. by rewrite (assoc_L (++)).
  - intros [(l1 & b & l2 & ->)|[l1 ->]].
    + exists l1, b, (l2 ++ [x]). by rewrite <-!(assoc_L (++)).
    + exists l1, x, []. by rewrite app_nil_r.
Qed.

Lemma ends_with_suffix c h b n :
  (1 ≤ c)%nat → ends_with h b n → (∃ l1, h = l1 ++ replicate c b) ↔ (c ≤ n)%nat.
Proof.
  intros Hc (h0 & -> & Hn & Hlast). split.
  - intros [l1 Heq]. destruct (decide (c ≤ n)%nat) as [|Hlt]; [done|exfalso].
    replace c with ((c - n) + n)%nat in Heq by lia.
    rewrite replicate_add, (assoc_L (++)) in Heq. apply app_inv_tail in Heq as ->.
    apply Hlast. rewrite last_app, last_replicate by lia. done.
  - intros Hle. exists (h0 ++ replicate (n - c) b).
    rewrite <-(assoc_L (++)), <-replicate_add. do 2 f_equal. lia.
Qed.

Lemma ends_with_same h b n : ends_with h b n → ends_with (h ++ [b]) b (n + 1).
Proof.
  intros (h0 & -> & Hn & Hlast). exists h0. split_and!; [|lia|done].
  by rewrite replicate_add, (assoc_L (++)).
Qed.

Lemma ends_with_diff h b n x : ends_with h b n → x ≠ b → ends_with (h ++ [x]) x 1.
Proof.
  intros (h0 & -> & Hn & Hlast) Hx. exists (h0 ++ replicate n b). split_and!; [done|lia|].
  rewrite last_app, last_replicate by done. congruence.
Qed.

Lemma ends_with_first x : ends_with [x] x 1.
Proof. exists []. done. Qed.

(** What one call of [Test] does to the tracked stream. *)
Lemma Test_follows rct h x :
  follows rct h →
  follows (Test rct x).2 (h ++ [x]) ∧
  ∃ n, ends_with (h ++ [x]) x n ∧ ((Test rct x).1 = false ↔ (run_limit rct ≤ n)%nat).
Proof.
  intros Hf. unfold Test, run_limit. destruct h as [|y h].
  - simpl in Hf. rewrite Hf. split.
    + split_and!; [done|simpl; lia|apply ends_with_first].
    + exists 1%nat. split; [apply ends_with_first|]. simpl. split; [done|lia].
  - destruct Hf as (-> & Hc & He). cbn [negb].
    destruct (Z.eqb_spec x (lastSample rct)) as [->|Hne].
    + pose proof (ends_with_same _ _ _ He) as He'.
      replace (Z.to_nat (repeatCount rct) + 1)%nat
        with (Z.to_nat (repeatCount rct + 1)) in He' by lia.
      split; [by split_and!; simpl; [|lia|]|].
      eexists. split; [done|]. simpl. rewrite negb_false_iff, Z.leb_le. lia.
    + pose proof (ends_with_diff _ _ _ _ He Hne) as He'.
      split; [by split_and!; simpl; [|lia|]|].
      eexists. split; [done|]. simpl. split; [done|lia].
Qed.

Lemma cutoff_Test rct x : cutoff (Test rct x).2 = cutoff rct.
Proof. unfold Test. by split_cases. Qed.

#[export] Program Instance monitor : HealthMonitor Test := {
  tracks := follows;
  faulty rct h := has_run (run_limit rct) h;
}.
Next Obligation. intros. unfold run_limit. by rewrite cutoff_Test. Qed.
Next Obligation.
  intros rct h l (l1 & b & l2 & ->). exists l1, b, (l2 ++ l). by rewrite <-!(assoc_L (++)).
Qed.
Next Obligation.
  intros rct h x Hf Hok Hpass. destruct (Test_follows rct h x Hf) as (Hf' & n & He & Hv).
  split; [done|]. rewrite has_run_snoc by (unfold run_limit; lia).
  intros [?|Hl]; [done|]. apply (ends_with_suffix _ _ _ n) in Hl; [|unfold run_limit; lia|done].
  apply Hv in Hl. congruence.
Qed.
Next Obligation.
  intros rct h x Hf Hok Hfail. destruct (Test_follows rct h x Hf) as (Hf' & n & He & Hv).
  apply has_run_snoc; [unfold run_limit; lia|]. right.
  apply (ends_with_suffix _ _ _ n); [unfold run_limit; lia|done|]. by apply Hv.
Qed.

Lemma follows_fresh cutoff : follows (NewRepetitionCountTest cutoff) [].
Proof. done. Qed.

Lemma follows_Reset rct : follows (Reset rct) [].
Proof. done. Qed.

Lemma no_run_nil rct : ¬ has_run (run_limit rct) [].
Proof.
  intros (l1 & b & l2 & Heq). apply (f_equal length) in Heq.
  rewrite !length_app, length_replicate in Heq. simpl in Heq. unfold run_limit in Heq. lia.
Qed.

Lemma cutoff_TestBlock rct l : cutoff (TestBlock rct l).2 = cutoff rct.
Proof.
  unfold TestBlock. revert rct. induction l as [|x l IH]; intros rct; simpl; [done|].
  pose proof (cutoff_Test rct x). destruct (Test rct x) as [[] s']; simpl in *; [|done].
  by rewrite IH.
Qed.

Lemma fresh_verdict cutoff l :
  (TestBlock (NewRepetitionCountTest cutoff) l).1 = false ↔
  has_run (Z.to_nat (if cutoff <=? 0 then 40 else Z.max 2 cutoff)) l.
Proof.
  pose proof (test_block_verdict Test _ [] l (follows_fresh cutoff) (no_run_nil _)) as H.
  rewrite app_nil_l in H. unfold TestBlock. rewrite H. simpl. unfold run_limit. simpl.
  by destruct (cutoff <=? 0).
Qed.

(** C37: the Repetition Count Test, started fresh with any cutoff, rejects a
    stream of samples exactly when the stream holds a run of [max 2 cutoff]
    equal consecutive samples (40 when the cutoff is not positive), and the
    verdict does not depend on how the stream is cut into blocks. *)
Theorem rct_detects_runs cutoff l1 l2 :
  let rct := NewRepetitionCountTest cutoff in
  ((TestBlock rct (l1 ++ l2)).1 = false ↔
   has_run (Z.to_nat (if cutoff <=? 0 then 40 else Z.max 2 cutoff)) (l1 ++ l2)) ∧
  TestBlock rct (l1 ++ l2) =
    match TestBlock rct l1 with
    | (true, rct') => TestBlock rct' l2
    | failed => failed
    end.
Proof.
  intros rct. split; [apply fresh_verdict|apply test_block_app].
Qed.
End RepetitionCountTest.

(** ** Adaptive Proportion Test *)

Module AdaptiveProportionTest.

Record AdaptiveProportionTest := mkAPT {
  cutoff : Z;
  windowSize : Z;
  firstSample : Z;
  matchCount : Z;
  sampleCount : Z;
}.

Definition NewAdaptiveProportionTest (cutoff windowSize : Z) : AdaptiveProportionTest :=
  let cutoff := if cutoff <=? 0 then 605 else cutoff in
  let windowSize := if windowSize <=? 0 then 4096 else windowSize in
  mkAPT cutoff windowSize 0 0 0.

Definition Test (apt : AdaptiveProportionTest) (sample : Z) : bool * AdaptiveProportionTest :=
  let '(firstSample', matchCount') :=
    if sampleCount apt =? 0 then (sample, 1)
    else if sample =? firstSample apt then (firstSample apt, matchCount apt + 1)
    else (firstSample apt, matchCount apt) in
  let sampleCount' := sampleCount apt + 1 in
  if windowSize apt <=? sampleCount' then
    (matchCount' <? cutoff apt, mkAPT (cutoff apt) (windowSize apt) firstSample' 0 0)
  else
    (true, mkAPT (cutoff apt) (windowSize apt) firstSample' matchCount' sampleCount').

Definition TestBlock (apt : AdaptiveProportionTest) (samples : bytes) : bool * AdaptiveProportionTest :=
  test_block Test apt samples.

Definition Reset (apt : AdaptiveProportionTest) : AdaptiveProportionTest :=
  mkAPT (cutoff apt) (windowSize apt) 0 0 0.

Definition GetState (apt : AdaptiveProportionTest) : Z * Z * Z * Z * Z :=
  (firstSample apt, matchCount apt, sampleCount apt, cutoff apt, windowSize apt).

(** A window is biased when its first sample occurs [cutoff] times or more. *)
Definition biased (cutoff : Z) (w : bytes) : Prop :=
  match w with [] => False | x :: _ => cutoff ≤ Z.of_nat (count_occ Z.eq_dec w x) end.

(** Some complete window of the stream, cut every [size] samples, is biased. *)
Definition has_biased_window (cutoff size : Z) (h : bytes) : Prop :=
  ∃ h0 w h1, h = h0 ++ w ++ h1 ∧ len w = size ∧ (size | len h0) ∧ biased cutoff w.

(** The window being collected is the tail [w] of the stream. *)
Definition collects (apt : AdaptiveProportionTest) (h : bytes) : Prop :=
  ∃ h0 w, h = h0 ++ w ∧ (windowSize apt | len h0) ∧ len w = sampleCount apt ∧
    sampleCount apt < windowSize apt ∧
    match w with
    | [] => True
    | x :: _ => firstSample apt = x ∧ matchCount apt = Z.of_nat (count_occ Z.eq_dec w x)
    end.

Lemma has_biased_window_snoc c size h x :
  has_biased_window c size (h ++ [x]) →
  has_biased_window c size h ∨
  ∃ h0 w, h ++ [x] = h0 ++ w ∧ len w = size ∧ (size | len h0) ∧ biased c w.
Proof.
  intros (h0 & w & h1 & Heq & Hw). destruct h1 as [|y h1 _] using rev_ind.
  - right. exists h0, w. by rewrite app_nil_r in Heq.
  - left. rewrite !(assoc_L (++)) in Heq. apply app_inj_tail in Heq as [-> _].
    exists h0, w, h1. by rewrite (assoc_L (++)).
Qed.

(** The state of the window after one more sample, before it is judged. *)
Lemma Test_window apt h x :
  collects apt h →
  ∃ h0 w, h ++ [x] = h0 ++ w ∧ (windowSize apt | len h0) ∧ len w = sampleCount apt + 1 ∧
    ∃ y w', w = y :: w' ∧
    let n := Z.of_nat (count_occ Z.eq_dec w y) in
    Test apt x =
      (if windowSize apt <=? len w
       then (n <? cutoff apt, mkAPT (cutoff apt) (windowSize apt) y 0 0)
       else (true, mkAPT (cutoff apt) (windowSize apt) y n (len w))).
Proof.
  intros (h0 & w & -> & Hdiv & Hlen & Hlt & Hw). exists h0, (w ++ [x]).
  split_and!; [by rewrite (assoc_L (++))|done|by rewrite len_app, Hlen|].
  unfold Test. destruct w as [|y w].
  - exists x, []. split; [done|]. rewrite <-Hlen. simpl. destruct (Z.eq_dec x x); [|done].
    done.
  - exists y, (w ++ [x]). split; [done|]. destruct Hw as [-> Hm].
    change (y :: w ++ [x]) with ((y :: w) ++ [x]).
    rewrite len_app, Hlen, count_occ_app, Nat2Z.inj_add, <-Hm. change (len [x]) with 1.
    replace (sampleCount apt =? 0) with false
      by (symmetry; apply Z.eqb_neq; rewrite <-Hlen, len_cons; pose proof (len_nonneg w); lia).
    simpl (count_occ _ [x] y).
    destruct (Z.eqb_spec x y) as [->|Hne].
    + by destruct (Z.eq_dec y y).
    + destruct (Z.eq_dec x y); [done|]. by rewrite Z.add_0_r.
Qed.

(** Aligned windows of the stream [h0 ++ w], whose last window [w] starts at [h0]. *)
Lemma aligned_window_unique (size : Z) (h0 w h0' w' : bytes) :
  (size | len h0) → (size | len h0') → h0 ++ w = h0' ++ w' →
  0 < len w ≤ size → len w' = size → len w = size ∧ h0' = h0 ∧ w' = w.
Proof.
  intros [k Hk] [k' Hk'] Heq Hw Hw'. pose proof (f_equal len Heq) as Hl.
  rewrite !len_app in Hl.
  assert (Hkk : k = k') by (clear - Hk Hk' Hl Hw Hw'; nia). subst k'.
  assert (Hlen : length h0 = length h0') by (unfold len in *; lia).
  destruct (app_inj_1 _ _ _ _ Hlen Heq) as [-> ->]. split; [lia|done].
Qed.

(** The verdict on the window that the new sample completes or extends. *)
Lemma Test_verdict apt h x :
  collects apt h →
  ∃ h0 w, h ++ [x] = h0 ++ w ∧ (windowSize apt | len h0) ∧ 0 < len w ≤ windowSize apt ∧
  ((Test apt x).1 = false ↔ len w = windowSize apt ∧ biased (cutoff apt) w) ∧
  collects (Test apt x).2 (h ++ [x]).
Proof.
  intros Hc. destruct (Test_window apt h x Hc) as (h0 & w & Heq & Hdiv & Hlen & y & w' & -> & HT).
  destruct Hc as (_ & w0 & _ & _ & Hlen0 & Hlt & _). pose proof (len_nonneg w0).
  exists h0, (y :: w'). rewrite HT, Heq. split_and!; [done..|lia|lia| |].
  all: destruct (Z.leb_spec (windowSize apt) (len (y :: w'))); cbn [fst snd].
  - rewrite Z.ltb_ge. unfold biased. split; [split; [lia|done]|by intros [_ ?]].
  - split; [done|lia].
  - exists (h0 ++ y :: w'), []. rewrite app_nil_r, len_app. simpl. split_and!; try done; [|lia].
    apply Z.divide_add_r; [done|]. replace (len (y :: w')) with (windowSize apt) by lia. done.
  - by exists h0, (y :: w').
Qed.

Lemma params_Test apt x :
  cutoff (Test apt x).2 = cutoff apt ∧ windowSize (Test apt x).2 = windowSize apt.
Proof. unfold Test. by split_cases. Qed.

#[export] Program Instance monitor : HealthMonitor Test := {
  tracks := collects;
  faulty apt h := has_biased_window (cutoff apt) (windowSize apt) h;
}.
Next Obligation. intros apt x h. by destruct (params_Test apt x) as [-> ->]. Qed.
Next Obligation.
  intros apt h l (h0 & w & h1 & -> & Hw). exists h0, w, (h1 ++ l).
  by rewrite <-!(assoc_L (++)).
Qed.
Next Obligation.
  intros apt h x Hc Hok Hpass.
  destruct (Test_verdict apt h x Hc) as (h0 & w & Heq & Hdiv & Hlen & Hv & Hc').
  split; [done|]. intros [?|(h0' & w' & Heq' & Hlen' & Hdiv' & Hb)]%has_biased_window_snoc; [done|].
  rewrite Heq in Heq'.
  destruct (aligned_window_unique _ _ _ _ _ Hdiv Hdiv' Heq' Hlen Hlen') as (Hw & -> & ->).
  rewrite (proj2 Hv) in Hpass; done.
Qed.
Next Obligation.
  intros apt h x Hc Hok Hfail.
  destruct (Test_verdict apt h x Hc) as (h0 & w & Heq & Hdiv & Hlen & Hv & _).
  apply Hv in Hfail as [Hw Hb]. exists h0, w, []. by rewrite app_nil_r.
Qed.

Lemma collects_start apt : 0 < windowSize apt → sampleCount apt = 0 → collects apt [].
Proof. intros Hw Hs. exists [], []. rewrite Hs. split_and!; try done. by exists 0. Qed.

Lemma no_window_nil c size : 0 < size → ¬ has_biased_window c size [].
Proof.
  intros Hs (h0 & w & h1 & Heq & Hlen & _). apply (f_equal len) in Heq.
  rewrite !len_app, len_nil in Heq. pose proof (len_nonneg h0). pose proof (len_nonneg h1). lia.
Qed.

Lemma params_TestBlock apt l :
  cutoff (TestBlock apt l).2 = cutoff apt ∧ windowSize (TestBlock apt l).2 = windowSize apt.
Proof.
  unfold TestBlock. revert apt. induction l as [|x l IH]; intros apt; simpl; [done|].
  pose proof (params_Test apt x). destruct (Test apt x) as [[] s']; simpl in *; [|done].
  by destruct (IH s') as [-> ->].
Qed.

(** C39: the Adaptive Proportion Test, started fresh, rejects a stream exactly
    when one of the complete windows of [windowSize] samples it is cut into holds
    its own first sample [cutoff] times or more (605 and 4096 replace parameters
    that are not positive), however the stream is cut into blocks. *)
Theorem apt_detects_biased_windows cutoff windowSize l1 l2 :
  let apt := NewAdaptiveProportionTest cutoff windowSize in
  ((TestBlock apt (l1 ++ l2)).1 = false ↔
   has_biased_window (if cutoff <=? 0 then 605 else cutoff)
     (if windowSize <=? 0 then 4096 else windowSize) (l1 ++ l2)) ∧
  TestBlock apt (l1 ++ l2) =
    match TestBlock apt l1 with
    | (true, apt') => TestBlock apt' l2
    | failed => failed
    end.
Proof.
  intros apt. split; [|apply test_block_app].
  assert (Hw : 0 < if windowSize <=? 0 then 4096 else windowSize) by (split_cases; bool_to_Z; lia).
  pose proof (test_block_verdict Test apt [] (l1 ++ l2) (collects_start apt Hw eq_refl)
    (no_window_nil _ _ Hw)) as H.
  by rewrite app_nil_l in H.
Qed.
End AdaptiveProportionTest.
