(* ===== verification/Metrics.v ===== *)
(** * Prometheus metrics (internal/metrics/prometheus.go)

    Every function of the package becomes the list of calls it makes on the
    Prometheus client library: registering a metric with a registerer, and
    incrementing, adding to, setting or observing one.  The other components
    emit these calls through the effect monad of the prelude. *)

From S2P Require Import Prelude Float64 GoStrings Clock.

(** ** The metrics *)

Inductive metric :=
| EventsReceived
| EventsProcessed
| EventsDropped
| EventFormatType
| EventsPerChannel
| ValidationFailures
| ValidationFrequencyRatio
| ValidationRunsCount
| BatchesCreated
| BatchesSent
| BatchesFailed
| BatchSize
| BatchSendDuration
| WhiteningInputBytes
| WhiteningOutputBytes
| WhiteningCompressionRatio
| EntropyExtractions
| EntropyExtractedBytes
| EntropyPoolSize
| GRPCConnected
| GRPCReconnects
| GRPCStreamErrors
| MQTTConnected
| MQTTReconnects
| MQTTConnects
| MQTTDisconnects
| MQTTInboundMessages
| CollectorPoolSize
| CollectorBatchSize
| CollectorFlushDuration
| ContinuousRCTFailures
| ContinuousAPTFailures
| MinEntropyEstimateMCV
| MinEntropyEstimateCollision
| ProcessingLatency
| CloudAcksReceived
| CloudNacksReceived
| EntropyHTTPRequests
| EntropyHTTP503Total
| EntropyHTTPRateLimited
| EntropyHTTPLatency
| ForwarderMissingSeqTotal
| ForwarderBackpressureTotal
| ControlApplyTotal
| SignatureFailTotal
| GRPCServerConnectedClients
| GRPCServerBatchesSent
| GRPCServerBatchesDropped
| GRPCServerAcksReceived.

#[export] Instance metric_eq_dec : EqDecision metric.
Proof. solve_decision. Defined.

Inductive buckets :=
| LinearBuckets (start width : f64) (count : Z)
| ExponentialBuckets (start factor : f64) (count : Z)
| ExplicitBuckets (bounds : list f64).

Inductive kind :=
| Counter
| CounterVec (labels : list string)
| Gauge
| Histogram (b : buckets).

(** The variable a metric is stored in, its options and its type. *)
Record desc := mkDesc { d_metric : metric; d_name : string; d_help : string; d_kind : kind }.

(** A registerer is identified by a number. *)
Inductive prom_call :=
| Register (registerer : nat) (d : desc)
| Unregister (registerer : nat) (m : metric)
| Inc (m : metric) (labels : list string)
| Add (m : metric) (labels : list string) (v : f64)
| Set_ (m : metric) (v : f64)
| Observe (m : metric) (v : f64).

(** ** Registration *)

Definition register_ingest : list desc := [
  mkDesc EventsReceived "tdc_events_received_total"
    "Total number of TDC events received from MQTT" (CounterVec ["channel"]);
  mkDesc EventsProcessed "tdc_events_processed_total"
    "Total number of TDC events successfully processed" Counter;
  mkDesc EventsDropped "tdc_events_dropped_total"
    "Total number of TDC events dropped" (CounterVec ["reason"]);
  mkDesc EventFormatType "tdc_event_format_type_total"
    "Total number of TDC events by format type (raw_timestamp)" (CounterVec ["format"]);
  mkDesc EventsPerChannel "tdc_events_per_channel_total"
    "Total number of TDC events per channel" (CounterVec ["channel"]);
  mkDesc ValidationFailures "validation_failures_total"
    "Total number of quick validation test failures" (CounterVec ["test_type"]);
  mkDesc ValidationFrequencyRatio "validation_frequency_ratio"
    "Distribution of frequency test ratios (should be ~0.5)" (Histogram (LinearBuckets (flit 4 10) (flit 1 100) 21));
  mkDesc ValidationRunsCount "validation_runs_count"
    "Distribution of runs test counts" (Histogram (ExponentialBuckets (of_int 100) (flit 15 10) 15));
  mkDesc BatchesCreated "batches_created_total" "Total number of batches created" Counter;
  mkDesc BatchesSent "batches_sent_total" "Total number of batches successfully sent to cloud" Counter;
  mkDesc BatchesFailed "batches_failed_total"
    "Total number of batches that failed to send" (CounterVec ["reason"]);
  mkDesc BatchSize "batch_size_events"
    "Number of events per batch" (Histogram (LinearBuckets (of_int 100) (of_int 100) 20));
  mkDesc BatchSendDuration "batch_send_duration_seconds"
    "Time taken to send a batch to cloud" (Histogram (ExponentialBuckets (flit 1 1000) (of_int 2) 15))
].

Definition register_whitening : list desc := [
  mkDesc WhiteningInputBytes "whitening_input_bytes_total"
    "Total raw bytes processed by the whitening pipeline" Counter;
  mkDesc WhiteningOutputBytes "whitening_output_bytes_total"
    "Total whitened bytes produced by the whitening pipeline" Counter;
  mkDesc WhiteningCompressionRatio "whitening_compression_ratio"
    "Observed compression ratio of the whitening pipeline" (Histogram (LinearBuckets (flit 0 10) (flit 5 100) 21));
  mkDesc EntropyExtractions "entropy_extractions_total"
    "Total number of entropy extractions from the whitened pool" Counter;
  mkDesc EntropyExtractedBytes "entropy_extracted_bytes_total"
    "Total number of bytes extracted from the whitened pool" Counter;
  mkDesc EntropyPoolSize "entropy_pool_size_bytes" "Current size of the whitened entropy pool in bytes" Gauge;
  mkDesc GRPCConnected "grpc_connection_status" "gRPC connection status (1=connected, 0=disconnected)" Gauge;
  mkDesc GRPCReconnects "forwarder_reconnects_total"
    "Total number of forwarder reconnection attempts" Counter;
  mkDesc GRPCStreamErrors "grpc_stream_errors_total"
    "Total number of gRPC stream errors" (CounterVec ["error_type"]);
  mkDesc MQTTConnected "mqtt_connection_status" "MQTT connection status (1=connected, 0=disconnected)" Gauge;
  mkDesc MQTTReconnects "mqtt_reconnects_total" "Total number of MQTT reconnection attempts" Counter;
  mkDesc MQTTConnects "mqtt_connects_total" "Total number of successful MQTT connections" Counter;
  mkDesc MQTTDisconnects "mqtt_disconnects_total" "Total number of MQTT disconnects" Counter;
  mkDesc MQTTInboundMessages "mqtt_in_msgs_total" "Total number of MQTT messages received" Counter;
  mkDesc CollectorPoolSize "collector_pool_size_events" "Current number of events in collector buffer" Gauge;
  mkDesc CollectorBatchSize "collector_batch_size_events"
    "Current configured batch size for the collector" Gauge;
  mkDesc CollectorFlushDuration "collector_flush_duration_seconds"
    "Time taken to process and flush a batch" (Histogram (ExponentialBuckets (flit 1 10000) (of_int 2) 15))
].

Definition register_health : list desc := [
  mkDesc ContinuousRCTFailures "continuous_rct_failures_total"
    "Total number of NIST SP 800-90B Repetition Count Test failures" Counter;
  mkDesc ContinuousAPTFailures "continuous_apt_failures_total"
    "Total number of NIST SP 800-90B Adaptive Proportion Test failures" Counter;
  mkDesc MinEntropyEstimateMCV "min_entropy_estimate_mcv_bits_per_byte"
    "NIST SP 800-90B Most Common Value min-entropy estimate (range: 0.0-8.0)" (Histogram (LinearBuckets (flit 0 10) (flit 5 10) 17));
  mkDesc MinEntropyEstimateCollision "min_entropy_estimate_collision_bits_per_byte"
    "NIST SP 800-90B Collision min-entropy estimate (range: 0.0-8.0)" (Histogram (LinearBuckets (flit 0 10) (flit 5 10) 17));
  mkDesc ProcessingLatency "event_processing_latency_microseconds"
    "Latency from MQTT receive to batch creation" (Histogram (ExponentialBuckets (of_int 10) (of_int 2) 15));
  mkDesc CloudAcksReceived "cloud_acks_received_total" "Total number of ACKs received from cloud" Counter;
  mkDesc CloudNacksReceived "cloud_nacks_received_total"
    "Total number of NACKs received from cloud" (CounterVec ["reason"]);
  mkDesc EntropyHTTPRequests "entropy_http_requests_total"
    "Total number of entropy endpoint requests by status code" (CounterVec ["code"]);
  mkDesc EntropyHTTP503Total "entropy_http_503_total"
    "Total number of entropy endpoint 503 responses" Counter;
  mkDesc EntropyHTTPRateLimited "entropy_http_rate_limited_total"
    "Total number of entropy endpoint rate limited responses" Counter;
  mkDesc EntropyHTTPLatency "entropy_http_latency_seconds"
    "Latency distribution for entropy HTTP handler" (Histogram (ExplicitBuckets [(flit 5 1000); (flit 1 100); (flit 25 1000); (flit 5 100); (flit 1 10); (flit 25 100); (flit 5 10); (of_int 1); (of_int 2)]))
].

Definition register_cloud : list desc := [
  mkDesc ForwarderMissingSeqTotal "forwarder_missing_seq_total"
    "Total number of missing sequences reported by cloud" Counter;
  mkDesc ForwarderBackpressureTotal "forwarder_backpressure_total"
    "Total number of backpressure events received from cloud" Counter;
  mkDesc ControlApplyTotal "control_apply_total"
    "Total number of control plane config updates applied" (CounterVec ["field"]);
  mkDesc SignatureFailTotal "signature_fail_total" "Total number of batch signature failures" Counter;
  mkDesc GRPCServerConnectedClients "grpc_server_connected_clients"
    "Number of currently connected gRPC streaming clients" Gauge;
  mkDesc GRPCServerBatchesSent "grpc_server_batches_sent_total"
    "Total number of batches sent to gRPC clients" Counter;
  mkDesc GRPCServerBatchesDropped "grpc_server_batches_dropped_total"
    "Total number of batches dropped due to slow clients" (CounterVec ["reason"]);
  mkDesc GRPCServerAcksReceived "grpc_server_acks_received_total"
    "Total number of acknowledgments received from gRPC clients" (CounterVec ["success"])
].

Definition descs : list desc :=
  register_ingest ++ register_whitening ++ register_health ++ register_cloud.

(** The package variables: the current registerer ([None] is a nil interface)
    and the metric variables that are not nil. *)
Record state := mkState { currentRegisterer : option nat; vars : list metric }.

Definition M : Type → Type := GoM prom_call state.

(** [promauto.With(nil)] builds the metrics without registering them. *)
Definition initializeMetrics (registerer : option nat) : M unit :=
  call (match registerer with Some r => Register r <$> descs | None => [] end) ;;
  modify (λ s, mkState (currentRegisterer s) (d_metric <$> descs)).

Definition unregister_order : list metric := [
  EventsReceived; EventsProcessed; EventsDropped; EventFormatType; EventsPerChannel;
  ValidationFailures; ValidationFrequencyRatio; ValidationRunsCount; BatchesCreated;
  BatchesSent; BatchesFailed; BatchSize; BatchSendDuration; WhiteningInputBytes;
  WhiteningOutputBytes; WhiteningCompressionRatio; EntropyExtractions;
  EntropyExtractedBytes; EntropyPoolSize; GRPCConnected; GRPCReconnects; GRPCStreamErrors;
  MQTTConnected; MQTTReconnects; MQTTConnects; MQTTDisconnects; MQTTInboundMessages;
  CollectorPoolSize; CollectorBatchSize; CollectorFlushDuration; ContinuousRCTFailures;
  ContinuousAPTFailures; MinEntropyEstimateMCV; MinEntropyEstimateCollision;
  ProcessingLatency; CloudAcksReceived; CloudNacksReceived; EntropyHTTPRequests;
  EntropyHTTP503Total; EntropyHTTPRateLimited; EntropyHTTPLatency;
  ForwarderMissingSeqTotal; ForwarderBackpressureTotal; ControlApplyTotal;
  SignatureFailTotal; GRPCServerConnectedClients; GRPCServerBatchesSent;
  GRPCServerBatchesDropped; GRPCServerAcksReceived].

Definition unregisterAll (registerer : nat) : M unit :=
  s ← get;
  call (Unregister registerer <$> filter (λ m, m ∈ vars s) unregister_order).

Definition resetMetrics (registerer : option nat) : M unit :=
  s ← get;
  match currentRegisterer s with Some r => unregisterAll r | None => mret tt end ;;
  modify (λ s, mkState registerer (vars s)) ;;
  initializeMetrics registerer.

Definition ResetForTesting (registerer : option nat) : M unit := resetMetrics registerer.

Definition SetRegisterer (registerer : option nat) : M (option nat) :=
  s ← get;
  let previous := currentRegisterer s in
  match currentRegisterer s with Some r => unregisterAll r | None => mret tt end ;;
  modify (λ s, mkState registerer (vars s)) ;;
  initializeMetrics registerer ;;
  mret previous.

(** The package state before [init]: the default registerer, and no metric. *)
Definition initial (defaultRegisterer : nat) : state := mkState (Some defaultRegisterer) [].

Definition init (defaultRegisterer : nat) : M unit := resetMetrics (Some defaultRegisterer).

(** ** Recording *)

Definition channelLabel (channel : Z) : string :=
  if channel =? 0 then "0"
  else if channel =? 1 then "1"
  else if channel =? 2 then "2"
  else if channel =? 3 then "3"
  else "unknown".

Definition RecordEntropyHTTPRequest (code duration : Z) : list prom_call :=
  let label := if code <=? 0 then "0" else Itoa code in
  let duration := if duration <? 0 then 0 else duration in
  [Inc EntropyHTTPRequests [label]; Observe EntropyHTTPLatency (Seconds duration)].

Definition RecordEntropyHTTP503 : list prom_call := [Inc EntropyHTTP503Total []].

Definition RecordEntropyHTTPRateLimited : list prom_call := [Inc EntropyHTTPRateLimited []].

Definition RecordEvent (channel : Z) : list prom_call :=
  [Inc EventsReceived [channelLabel channel]; Inc EventsProcessed []].

Definition RecordEventDropped (reason : string) : list prom_call := [Inc EventsDropped [reason]].

Definition RecordDroppedCount (reason : string) (count : Z) : list prom_call :=
  if count =? 0 then [] else [Add EventsDropped [reason] (of_int count)].

Definition RecordFormatType (format : string) : list prom_call := [Inc EventFormatType [format]].

Definition RecordChannelEvent (channel : Z) : list prom_call :=
  [Inc EventsPerChannel [channelLabel channel]].

Definition RecordValidation (freqRatio : f64) (freqPassed : bool) (runsCount : Z)
    (runsPassed : bool) : list prom_call :=
  [Observe ValidationFrequencyRatio freqRatio; Observe ValidationRunsCount (of_int runsCount)] ++
  (if negb freqPassed then [Inc ValidationFailures ["frequency"]] else []) ++
  (if negb runsPassed then [Inc ValidationFailures ["runs"]] else []).

Definition RecordBatch (size : Z) (duration : f64) (success : bool) (failReason : string)
    : list prom_call :=
  [Inc BatchesCreated []; Observe BatchSize (of_int size)] ++
  (if success then [Inc BatchesSent []; Observe BatchSendDuration duration]
   else [Inc BatchesFailed [failReason]]).

Definition RecordWhitening (inputBytes outputBytes : Z) (ratio : f64) : list prom_call :=
  (if 0 <? inputBytes then
     let ratio := if flt ratio fzero then fzero
                  else if flt (of_int 1) ratio then of_int 1 else ratio in
     [Add WhiteningInputBytes [] (of_int inputBytes); Observe WhiteningCompressionRatio ratio]
   else []) ++
  (if 0 <? outputBytes then [Add WhiteningOutputBytes [] (of_int outputBytes)] else []).

Definition RecordEntropyExtraction (nbytes : Z) : list prom_call :=
  [Inc EntropyExtractions []] ++
  (if 0 <? nbytes then [Add EntropyExtractedBytes [] (of_int nbytes)] else []).

Definition SetEntropyPoolSize (nbytes : Z) : list prom_call := [Set_ EntropyPoolSize (of_int nbytes)].

Definition SetGRPCConnected (connected : bool) : list prom_call :=
  if connected then [Set_ GRPCConnected (of_int 1)] else [Set_ GRPCConnected (of_int 0)].

Definition RecordGRPCReconnect : list prom_call := [Inc GRPCReconnects []].

Definition RecordGRPCError (errorType : string) : list prom_call := [Inc GRPCStreamErrors [errorType]].

Definition SetMQTTConnected (connected : bool) : list prom_call :=
  if connected then [Set_ MQTTConnected (of_int 1)] else [Set_ MQTTConnected (of_int 0)].

Definition RecordMQTTReconnect : list prom_call := [Inc MQTTReconnects []].

Definition RecordMQTTConnect : list prom_call := [Inc MQTTConnects []].

Definition RecordMQTTDisconnect : list prom_call := [Inc MQTTDisconnects []].

Definition RecordMQTTMessage : list prom_call := [Inc MQTTInboundMessages []].

Definition SetCollectorPoolSize (size : Z) : list prom_call := [Set_ CollectorPoolSize (of_int size)].

Definition SetCollectorBatchSize (size : Z) : list prom_call := [Set_ CollectorBatchSize (of_int size)].

Definition RecordCollectorFlush (duration : Z) : list prom_call :=
  let duration := if duration <? 0 then 0 else duration in
  [Observe CollectorFlushDuration (Seconds duration)].

Definition RecordCloudAck (success : bool) (reason : string) : list prom_call :=
  if success then [Inc CloudAcksReceived []] else [Inc CloudNacksReceived [reason]].

Definition RecordMissingSequence (count : Z) : list prom_call :=
  if 0 <? count then [Add ForwarderMissingSeqTotal [] (of_int count)] else [].

Definition RecordBackpressure : list prom_call := [Inc ForwarderBackpressureTotal []].

Definition RecordControlApply (field : string) : list prom_call := [Inc ControlApplyTotal [field]].

Definition RecordSignatureFail : list prom_call := [Inc SignatureFailTotal []].

Definition RecordContinuousRCTFailure : list prom_call := [Inc ContinuousRCTFailures []].

Definition RecordContinuousAPTFailure : list prom_call := [Inc ContinuousAPTFailures []].

Definition clamp_entropy (minEntropy : f64) : f64 :=
  if flt minEntropy fzero then fzero
  else if flt (of_int 8) minEntropy then of_int 8 else minEntropy.

Definition RecordMinEntropyMCV (minEntropy : f64) : list prom_call :=
  [Observe MinEntropyEstimateMCV (clamp_entropy minEntropy)].

Definition RecordMinEntropyCollision (minEntropy : f64) : list prom_call :=
  [Observe MinEntropyEstimateCollision (clamp_entropy minEntropy)].

Definition SetGRPCServerConnectedClients (count : Z) : list prom_call :=
  [Set_ GRPCServerConnectedClients (of_int count)].

Definition RecordGRPCServerBatchSent : list prom_call := [Inc GRPCServerBatchesSent []].

Definition RecordGRPCServerBatchDropped (reason : string) : list prom_call :=
  [Inc GRPCServerBatchesDropped [reason]].

Definition RecordGRPCServerAckReceived (success : bool) (reason : string) : list prom_call :=
  let successLabel := if success then "true" else "false" in
  [Inc GRPCServerAcksReceived [successLabel]].

(** ** What a client of the library must respect *)

Definition kind_of (m : metric) : option kind :=
  d_kind <$> head (filter (λ d, d_metric d = m) descs).

Definition name_of (m : metric) : string :=
  from_option d_name EmptyString (head (filter (λ d, d_metric d = m) descs)).

(** The labels fit the kind of the metric. *)
Definition labels_ok (k : option kind) (labels : list string) : bool :=
  match k with
  | Some Counter => length labels =? 0
  | Some (CounterVec ls) => length labels =? length ls
  | _ => false
  end%nat.

(** Calls on which the library does not panic: a counter takes as many label
    values as it has labels and never decreases; a gauge is set, a histogram
    observes. *)
Definition call_ok (c : prom_call) : bool :=
  match c with
  | Register _ _ | Unregister _ _ => true
  | Inc m labels => labels_ok (kind_of m) labels
  | Add m labels v => labels_ok (kind_of m) labels && negb (flt v fzero)
  | Set_ m _ => match kind_of m with Some Gauge => true | _ => false end
  | Observe m _ => match kind_of m with Some (Histogram _) => true | _ => false end
  end.

(** The names held by each registerer after some calls; [None] when a name is
    registered twice with one registerer, on which [promauto] panics. *)
Fixpoint replay (h : gset (nat * string)) (l : list prom_call) : option (gset (nat * string)) :=
  match l with
  | [] => Some h
  | Register r d :: l =>
      if decide ((r, d_name d) ∈ h) then None else replay ({[(r, d_name d)]} ∪ h) l
  | Unregister r m :: l => replay (h ∖ {[(r, name_of m)]}) l
  | _ :: l => replay h l
  end.

(** Every list of calls a recording function can make. *)
Inductive recorded : list prom_call → Prop :=
| rec_http_request code d : recorded (RecordEntropyHTTPRequest code d)
| rec_http_503 : recorded RecordEntropyHTTP503
| rec_http_limited : recorded RecordEntropyHTTPRateLimited
| rec_event ch : recorded (RecordEvent ch)
| rec_dropped reason : recorded (RecordEventDropped reason)
| rec_dropped_count reason n : is_u32 n → recorded (RecordDroppedCount reason n)
| rec_format f : recorded (RecordFormatType f)
| rec_channel ch : recorded (RecordChannelEvent ch)
| rec_validation r p n q : recorded (RecordValidation r p n q)
| rec_batch n d ok r : recorded (RecordBatch n d ok r)
| rec_whitening i o r : recorded (RecordWhitening i o r)
| rec_extraction n : recorded (RecordEntropyExtraction n)
| rec_pool_size n : recorded (SetEntropyPoolSize n)
| rec_grpc_connected b : recorded (SetGRPCConnected b)
| rec_grpc_reconnect : recorded RecordGRPCReconnect
| rec_grpc_error e : recorded (RecordGRPCError e)
| rec_mqtt_connected b : recorded (SetMQTTConnected b)
| rec_mqtt_reconnect : recorded RecordMQTTReconnect
| rec_mqtt_connect : recorded RecordMQTTConnect
| rec_mqtt_disconnect : recorded RecordMQTTDisconnect
| rec_mqtt_message : recorded RecordMQTTMessage
| rec_collector_pool n : recorded (SetCollectorPoolSize n)
| rec_collector_batch n : recorded (SetCollectorBatchSize n)
| rec_collector_flush d : recorded (RecordCollectorFlush d)
| rec_cloud_ack ok r : recorded (RecordCloudAck ok r)
| rec_missing n : recorded (RecordMissingSequence n)
| rec_backpressure : recorded RecordBackpressure
| rec_control f : recorded (RecordControlApply f)
| rec_signature : recorded RecordSignatureFail
| rec_rct : recorded RecordContinuousRCTFailure
| rec_apt : recorded RecordContinuousAPTFailure
| rec_mcv e : recorded (RecordMinEntropyMCV e)
| rec_collision e : recorded (RecordMinEntropyCollision e)
| rec_server_clients n : recorded (SetGRPCServerConnectedClients n)
| rec_server_sent : recorded RecordGRPCServerBatchSent
| rec_server_dropped r : recorded (RecordGRPCServerBatchDropped r)
| rec_server_ack ok r : recorded (RecordGRPCServerAckReceived ok r).

Lemma recorded_ok cs : recorded cs → forallb call_ok cs = true.
Proof.
  destruct 1; unfold RecordDroppedCount, RecordValidation, RecordBatch, RecordWhitening,
    RecordEntropyExtraction, SetGRPCConnected, SetMQTTConnected, RecordCloudAck,
    RecordMissingSequence, is_u32 in *;
    repeat match goal with |- context[if ?b then _ else _] => destruct b eqn:? end;
    bool_to_Z; cbn [app forallb call_ok];
    repeat match goal with |- context[flt (of_int ?n) fzero] =>
      rewrite (flt_of_int_nonneg n) by lia end;
    try reflexivity.
Qed.

Lemma recorded_no_registration cs h : recorded cs → replay h cs = Some h.
Proof.
  destruct 1; unfold RecordDroppedCount, RecordValidation, RecordBatch, RecordWhitening,
    RecordEntropyExtraction, SetGRPCConnected, SetMQTTConnected, RecordCloudAck,
    RecordMissingSequence;
    by repeat match goal with |- context[if ?b then _ else _] => destruct b end.
Qed.

Lemma replay_app h l1 l2 : replay h (l1 ++ l2) = (replay h l1 ≫= λ h', replay h' l2).
Proof.
  revert h. induction l1 as [|[] l1 IH]; intros h; simpl; try apply IH; [done|].
  case_decide; [done|apply IH].
Qed.

Definition holding (r : nat) (ds : list desc) : gset (nat * string) :=
  list_to_set ((λ d, (r, d_name d)) <$> ds).

Lemma replay_register r ds h :
  NoDup (d_name <$> ds) → (∀ d, d ∈ ds → (r, d_name d) ∉ h) →
  replay h (Register r <$> ds) = Some (holding r ds ∪ h).
Proof.
  revert h. induction ds as [|d ds IH]; intros h Hnd Hf; simpl.
  { f_equal. unfold holding. set_solver. }
  rewrite fmap_cons in Hnd. apply NoDup_cons in Hnd as [Hd Hnd].
  rewrite decide_False by (apply Hf; left). rewrite IH; [|done|].
  - f_equal. unfold holding. set_solver.
  - intros d' Hd' [Heq%elem_of_singleton|Hin]%elem_of_union.
    + apply Hd. injection Heq as <-. apply list_elem_of_fmap. by exists d'.
    + revert Hin. apply Hf. by right.
Qed.

Lemma replay_unregister r ms h :
  replay h (Unregister r <$> ms) = Some (h ∖ list_to_set ((λ m, (r, name_of m)) <$> ms)).
Proof.
  revert h. induction ms as [|m ms IH]; intros h; simpl.
  - f_equal. set_solver.
  - rewrite IH. f_equal. set_solver.
Qed.

Lemma names_nodup : NoDup (d_name <$> descs).
Proof. apply (bool_decide_unpack _). vm_compute. reflexivity. Qed.

Lemma unregister_names r :
  list_to_set ((λ m, (r, name_of m)) <$> unregister_order) =@{gset (nat * string)} holding r descs.
Proof. reflexivity. Qed.

(** The package variables are all set, and the registries hold the metrics of
    the current registerer and nothing else of the package. *)
Definition installed (s : state) (h : gset (nat * string)) : Prop :=
  vars s = d_metric <$> descs ∧
  h = match currentRegisterer s with Some r => holding r descs | None => ∅ end.

Lemma filter_all : filter (λ m, m ∈ d_metric <$> descs) unregister_order = unregister_order.
Proof. vm_compute. reflexivity. Qed.

Lemma resetMetrics_eq registerer s :
  resetMetrics registerer s =
    (tt, mkState registerer (d_metric <$> descs),
     match currentRegisterer s with
     | Some r => Unregister r <$> filter (λ m, m ∈ vars s) unregister_order
     | None => []
     end ++ match registerer with Some r => Register r <$> descs | None => [] end).
Proof.
  unfold resetMetrics, unregisterAll, initializeMetrics, mbind, GoM_bind, get, modify, call, mret,
    GoM_ret.
  destruct (currentRegisterer s); simpl; by rewrite ?app_nil_r.
Qed.

Lemma SetRegisterer_eq registerer s :
  SetRegisterer registerer s =
    (currentRegisterer s, (resetMetrics registerer s).1.2, (resetMetrics registerer s).2).
Proof.
  unfold SetRegisterer, resetMetrics, unregisterAll, initializeMetrics, mbind, GoM_bind, get,
    modify, call, mret, GoM_ret.
  destruct (currentRegisterer s); simpl; by rewrite ?app_nil_r.
Qed.

Lemma replay_fresh registerer :
  replay ∅ match registerer with Some r => Register r <$> descs | None => [] end =
    Some match registerer with Some r => holding r descs | None => ∅ end.
Proof.
  destruct registerer as [r|]; [|done].
  rewrite (replay_register r descs ∅ names_nodup); [by rewrite (right_id_L ∅ (∪))|].
  intros d _. apply not_elem_of_empty.
Qed.

Lemma reset_installed registerer s h :
  installed s h ∨ (vars s = [] ∧ h = ∅) →
  ∃ h', replay h (resetMetrics registerer s).2 = Some h' ∧
    installed (resetMetrics registerer s).1.2 h'.
Proof.
  intros Hs. rewrite resetMetrics_eq. cbn [fst snd].
  assert (Hclear : replay h match currentRegisterer s with
     | Some r => Unregister r <$> filter (λ m, m ∈ vars s) unregister_order
     | None => [] end = Some ∅).
  { destruct Hs as [[Hv ->]|[Hv ->]].
    - destruct (currentRegisterer s); [|done].
      rewrite Hv, filter_all, replay_unregister, unregister_names, difference_diag_L. done.
    - destruct (currentRegisterer s); [|done]. rewrite Hv.
      assert (He : ∀ l : list metric, filter (λ m, m ∈ []) l = []); [|by rewrite He].
      induction l as [|m l IH]; [done|]. rewrite filter_cons_False; [done|apply not_elem_of_nil]. }
  rewrite replay_app, Hclear. cbn [mbind option_bind].
  eexists. split; [apply replay_fresh|]. done.
Qed.

(** What may happen after [init]: tests replace the registerer, the gateway records. *)
Inductive op :=
| OpSetRegisterer (registerer : option nat)
| OpResetForTesting (registerer : option nat)
| OpRecord (cs : list prom_call) (H : recorded cs).

Definition exec (o : op) : M unit :=
  match o with
  | OpSetRegisterer r => SetRegisterer r ;; mret tt
  | OpResetForTesting r => ResetForTesting r
  | OpRecord cs _ => call cs
  end.

Fixpoint exec_all (os : list op) : M unit :=
  match os with [] => mret tt | o :: os => exec o ;; exec_all os end.

Lemma exec_installed o s h :
  installed s h →
  ∃ h', replay h (run_calls (exec o) s) = Some h' ∧ installed (run_state (exec o) s) h'.
Proof.
  intros Hs. destruct (reset_installed (match o with OpSetRegisterer r | OpResetForTesting r => r
    | _ => None end) s h (or_introl Hs)) as (h' & Hr & Hi).
  destruct o as [r|r|cs Hrec]; unfold run_calls, run_state, exec.
  - exists h'. unfold mbind, GoM_bind. rewrite SetRegisterer_eq. cbn [fst snd mret GoM_ret].
    by rewrite app_nil_r.
  - by exists h'.
  - exists h. split; [by apply recorded_no_registration|done].
Qed.

Lemma exec_all_installed os s h :
  installed s h →
  ∃ h', replay h (run_calls (exec_all os) s) = Some h' ∧ installed (run_state (exec_all os) s) h'.
Proof.
  revert s h. induction os as [|o os IH]; intros s h Hs; [by exists h|].
  destruct (exec_installed o s h Hs) as (h1 & Hr1 & Hs1).
  destruct (IH _ _ Hs1) as (h2 & Hr2 & Hs2). exists h2.
  unfold run_calls, run_state in *. cbn [exec_all]. unfold mbind, GoM_bind.
  destruct (exec o s) as [[[] s1] w1]. cbn [fst snd] in *.
  destruct (exec_all os s1) as [[[] s2] w2]. cbn [fst snd] in *.
  by rewrite replay_app, Hr1.
Qed.

Lemma init_installed r :
  ∃ h, replay ∅ (run_calls (init r) (initial r)) = Some h ∧
    installed (run_state (init r) (initial r)) h.
Proof. apply reset_installed. by right. Qed.

(** However often the registerer is replaced after [init], while the gateway
    records, no metric name is ever registered twice with one registerer (on
    which [promauto] would panic), every metric stays initialised, and the
    registries hold the 49 metrics with the current registerer and nowhere else. *)
Theorem metrics_registered_once (defaultRegisterer : nat) (os : list op) :
  let m := init defaultRegisterer ;; exec_all os in
  let s := run_state m (initial defaultRegisterer) in
  vars s = unregister_order ∧ length (vars s) = 49%nat ∧
  replay ∅ (run_calls m (initial defaultRegisterer)) =
    Some (match currentRegisterer s with Some r => holding r descs | None => ∅ end).
Proof.
  intros m s. subst m.
  destruct (init_installed defaultRegisterer) as (h & Hr & Hs).
  destruct (exec_all_installed os _ _ Hs) as (h' & Hr' & Hs').
  subst s. unfold run_calls, run_state in *. unfold mbind, GoM_bind.
  destruct (init defaultRegisterer (initial defaultRegisterer)) as [[[] s1] w1].
  cbn [fst snd] in *. destruct (exec_all os s1) as [[[] s2] w2]. cbn [fst snd] in *.
  rewrite replay_app, Hr. simpl. rewrite Hr'. destruct Hs' as [Hv ->]. by rewrite Hv.
Qed.

(** Every call any recording function makes, whatever its arguments, suits
    the metric it is made on: the metric is registered, the labels have its
    arity, counters are never decreased, gauges are set and histograms observe;
    so no recording function makes the client library panic. *)
Theorem recording_never_panics cs : recorded cs → Forall (λ c, call_ok c = true) cs.
Proof. intros H%recorded_ok. apply Forall_forall. intros c ?%list_elem_of_In. by eapply forallb_forall in H. Qed.

Lemma recording_never_panics_witness :
  recorded (RecordDroppedCount "full" 7) ∧ Forall (λ c, call_ok c = true) (RecordDroppedCount "full" 7).
Proof.
  assert (H : recorded (RecordDroppedCount "full" 7)) by (apply rec_dropped_count; by split).
  split; [exact H|exact (recording_never_panics _ H)].
Defined.
