(* ===== verification/TestSupport.v ===== *)
(** * Support of the Go tests (testutil/testutil.go)

    [ResetRegistryForTest] gives a test a Prometheus registry of its own and
    holds a lock until the test's clean-up; [harness] is the state it works on,
    and [tstep] the runs of any number of tests.  [WaitForCondition] polls a
    probe, and [WaitForError] a channel, with a ticker. *)

From S2P Require Import Prelude Metrics.

(** ** A registry for each test *)

(** [prometheus.DefaultRegisterer], and the mutex, the number of registries made
    so far, the state of the metrics package and the tests with a clean-up
    function to run, the last registered first. *)
Definition DefaultRegisterer : nat := 0.

Record harness := mkHarness {
  registryMu : bool;
  registries : nat;
  pkg : Metrics.state;
  cleanups : list nat;
}.

Definition set_mu (b : bool) (s : harness) : harness := mkHarness b (registries s) (pkg s) (cleanups s).
Definition set_cleanups (l : list nat) (s : harness) : harness := mkHarness (registryMu s) (registries s) (pkg s) l.

Definition on_pkg {A} (m : Metrics.M A) : GoM prom_call harness A :=
  λ s, match m (pkg s) with (a, p, w) => (a, mkHarness (registryMu s) (registries s) p (cleanups s), w) end.

Definition NewRegistry : GoM prom_call harness nat :=
  λ s, (S (registries s), mkHarness (registryMu s) (S (registries s)) (pkg s) (cleanups s), []).

(** [None]: the call waits for the mutex. *)
Definition ResetRegistryForTest (t : nat) : GoM prom_call harness (option nat) :=
  s ← get;
  if registryMu s then mret None
  else
    modify (set_mu true) ;;
    reg ← NewRegistry;
    on_pkg (ResetForTesting (Some reg)) ;;
    modify (λ s, set_cleanups (t :: cleanups s) s) ;;
    mret (Some reg).

(** The function given to [t.Cleanup]. *)
Definition restore_registry : GoM prom_call harness unit :=
  on_pkg (ResetForTesting (Some DefaultRegisterer)) ;;
  modify (set_mu false).

(** The test runs the last of its clean-up functions. *)
Fixpoint take_cleanup (t : nat) (l : list nat) : option (list nat) :=
  match l with
  | [] => None
  | t' :: l => if Nat.eqb t t' then Some l else cons t' <$> take_cleanup t l
  end.

(** A test asks for a registry, ends (and its clean-up runs), or records. *)
Inductive tlabel :=
| TReset (t reg : nat) (calls : list prom_call)
| TCleanup (t : nat) (calls : list prom_call)
| TRecord (calls : list prom_call).

Inductive tstep : harness → tlabel → harness → Prop :=
| t_reset t reg s :
    run_val (ResetRegistryForTest t) s = Some reg →
    tstep s (TReset t reg (run_calls (ResetRegistryForTest t) s)) (run_state (ResetRegistryForTest t) s)
| t_cleanup t s l :
    take_cleanup t (cleanups s) = Some l →
    tstep s (TCleanup t (run_calls restore_registry s)) (set_cleanups l (run_state restore_registry s))
| t_record cs s : recorded cs → tstep s (TRecord cs) s.

Inductive tsteps : harness → list tlabel → harness → Prop :=
| tsteps_nil s : tsteps s [] s
| tsteps_snoc s tr s' l s'' : tsteps s tr s' → tstep s' l s'' → tsteps s (tr ++ [l]) s''.

(** The package after its [init], before any test. *)
Definition fresh_harness : harness :=
  mkHarness false 0 (run_state (init DefaultRegisterer) (initial DefaultRegisterer)) [].

Definition calls_of (l : tlabel) : list prom_call :=
  match l with TReset _ _ cs | TCleanup _ cs | TRecord cs => cs end.

(** What the client library has been asked since the program started. *)
Definition history (tr : list tlabel) : list prom_call :=
  run_calls (init DefaultRegisterer) (initial DefaultRegisterer) ++ (tr ≫= calls_of).

(** The registries handed out, in order. *)
Definition handed_of (l : tlabel) : list (nat * nat) := match l with TReset t reg _ => [(t, reg)] | _ => [] end.
Definition handed (tr : list tlabel) : list (nat * nat) := tr ≫= handed_of.

(** ** Waiting *)

(** Round [i] of the loop asks the probe and, when it reports nothing, waits in
    the [select]: [wake i] is the context's error, or [None] for a tick.  The
    result with [None] is a loop that has not ended after [fuel] rounds. *)
Fixpoint wait_rounds {T} (probe : nat → option T) (wake : nat → option goerror) (i fuel : nat) : option (result T) :=
  match fuel with
  | O => None
  | S fuel =>
      match probe i with
      | Some val => Some (Ok val)
      | None =>
          match wake i with
          | Some e => Some (Err e)
          | None => wait_rounds probe wake (S i) fuel
          end
      end
  end.

Definition WaitForCondition {T} (wake : nat → option goerror) (probe : nat → option T) (fuel : nat) : option (result T) :=
  wait_rounds probe wake 0 fuel.

Inductive waited := Received (e : option goerror) | Fatalf (message : goerror).

(** [context.Background()] is never done; [ch i] is what a receive gets in round
    [i], [None] when nothing is there (an error value may itself be nil). *)
Definition WaitForError (ch : nat → option (option goerror)) (desc : string) (fuel : nat) : option waited :=
  match WaitForCondition (λ _, None) ch fuel with
  | None => None
  | Some (Ok result) => Some (Received result)
  | Some (Err err) => Some (Fatalf (wrap "timeout waiting for %s: " [desc] err))
  end.

(** ** Properties *)

Lemma on_pkg_eq {A} (m : Metrics.M A) s :
  on_pkg m s = (run_val m (pkg s), mkHarness (registryMu s) (registries s) (run_state m (pkg s)) (cleanups s),
    run_calls m (pkg s)).
Proof. unfold on_pkg, run_val, run_state, run_calls. by destruct (m (pkg s)) as [[a p] w]. Qed.

Lemma ResetRegistryForTest_eq t s :
  ResetRegistryForTest t s =
    if registryMu s then (None, s, [])
    else
      (Some (S (registries s)),
       mkHarness true (S (registries s)) (run_state (ResetForTesting (Some (S (registries s)))) (pkg s)) (t :: cleanups s),
       run_calls (ResetForTesting (Some (S (registries s)))) (pkg s)).
Proof.
  unfold ResetRegistryForTest, mbind, GoM_bind, get, modify, NewRegistry, set_mu.
  destruct (registryMu s); [reflexivity|]. cbn [registries cleanups pkg].
  rewrite on_pkg_eq. cbn [pkg registryMu registries cleanups]. unfold mret, GoM_ret, set_cleanups.
  cbn [registryMu registries pkg cleanups fst snd]. by rewrite !app_nil_r.
Qed.

Lemma restore_registry_eq s :
  restore_registry s =
    (tt, mkHarness false (registries s) (run_state (ResetForTesting (Some DefaultRegisterer)) (pkg s)) (cleanups s),
     run_calls (ResetForTesting (Some DefaultRegisterer)) (pkg s)).
Proof.
  unfold restore_registry, mbind, GoM_bind, modify. rewrite on_pkg_eq. unfold set_mu.
  cbn [registryMu registries pkg cleanups]. by rewrite app_nil_r.
Qed.

Lemma reset_registerer r p : currentRegisterer (run_state (ResetForTesting r) p) = r.
Proof. unfold run_state, ResetForTesting. by rewrite resetMetrics_eq. Qed.

#[local] Opaque ResetForTesting.

(** The lock is held exactly by the one test with a registry. *)
Definition exclusive (tr : list tlabel) (s : harness) : Prop :=
  match cleanups s with
  | [] => registryMu s = false ∧ currentRegisterer (pkg s) = Some DefaultRegisterer
  | [t] => registryMu s = true ∧
      ∃ reg, last (handed tr) = Some (t, reg) ∧ currentRegisterer (pkg s) = Some reg
  | _ => False
  end.

Record harness_ok (tr : list tlabel) (s : harness) : Prop := {
  ok_lock : exclusive tr s;
  ok_numbers : (handed tr).*2 = seq 1 (registries s);
  ok_metrics : ∃ h, replay ∅ (history tr) = Some h ∧ installed (pkg s) h;
}.

Lemma history_snoc tr l : history (tr ++ [l]) = history tr ++ calls_of l.
Proof. unfold history. by rewrite bind_app, bind_one, (assoc_L (++)). Qed.

Lemma handed_snoc tr l : handed (tr ++ [l]) = handed tr ++ handed_of l.
Proof. unfold handed. by rewrite bind_app, bind_one. Qed.

(** After a call to [ResetForTesting] the metrics are with the new registerer. *)
Lemma reset_history r tr s h :
  replay ∅ (history tr) = Some h → installed (pkg s) h →
  ∃ h', replay ∅ (history tr ++ run_calls (ResetForTesting r) (pkg s)) = Some h' ∧
    installed (run_state (ResetForTesting r) (pkg s)) h'.
Proof.
  intros Hr Hs. destruct (reset_installed r _ _ (or_introl Hs)) as (h' & Hr' & Hs').
  exists h'. split; [|exact Hs']. by rewrite replay_app, Hr.
Qed.

Lemma tstep_ok tr s l s' : tstep s l s' → harness_ok tr s → harness_ok (tr ++ [l]) s'.
Proof.
  intros Hl [Hx Hn (h & Hr & Hi)].
  destruct Hl as [t reg s E|t s l E|cs s Hrec].
  - unfold run_val, run_state, run_calls in *. rewrite ResetRegistryForTest_eq in *.
    destruct (registryMu s) eqn:Hmu; [discriminate E|]. injection E as <-. cbn [fst snd].
    assert (Hc : cleanups s = []) by (clear -Hx Hmu; unfold exclusive in Hx; rewrite Hmu in Hx; destruct (cleanups s) as [|? []]; [done|by destruct Hx|done]).
    split.
    + unfold exclusive. rewrite Hc, handed_snoc. cbn. split; [done|]. eexists. split; [apply last_snoc|apply reset_registerer].
    + rewrite handed_snoc, fmap_app, Hn. cbn [registries]. by rewrite seq_S.
    + rewrite history_snoc. cbn [calls_of pkg]. exact (reset_history _ _ _ _ Hr Hi).
  - unfold run_state, run_calls. rewrite restore_registry_eq. cbn [fst snd].
    assert (Hl : l = []).
    { clear Hr Hi. unfold exclusive in Hx. destruct (cleanups s) as [|t' []]; [done| |done]. cbn in E. by destruct (Nat.eqb t t'); simplify_eq. }
    subst l. split.
    + split; [done|apply reset_registerer].
    + rewrite handed_snoc. cbn. by rewrite app_nil_r.
    + rewrite history_snoc. cbn [calls_of set_cleanups pkg]. exact (reset_history _ _ _ _ Hr Hi).
  - split.
    + unfold exclusive in *. rewrite handed_snoc. cbn. by rewrite app_nil_r.
    + rewrite handed_snoc. cbn. by rewrite app_nil_r.
    + exists h. split; [|done]. rewrite history_snoc, replay_app, Hr. cbn [option_bind mbind calls_of]. by apply recorded_no_registration.
Qed.

Lemma tsteps_ok tr s : tsteps fresh_harness tr s → harness_ok tr s.
Proof.
  intros Hs. remember fresh_harness as s0 eqn:E. induction Hs as [s|s tr s' l s'' _ IH Hl]; subst.
  - split; [split; [done|reflexivity]|done|]. destruct (init_installed DefaultRegisterer) as (h & Hr & Hi). exists h.
    unfold history. rewrite app_nil_r. exact (conj Hr Hi).
  - apply (tstep_ok _ _ _ _ Hl), IH. done.
Qed.

(** Tests that use [ResetRegistryForTest] never share a registry: however
    they start, record and end, at most one of them is between its call and its
    clean-up; the metrics are then registered with its registry, which no other
    test has had, once each and nowhere else, and with the default registerer
    when there is none; meanwhile any other call, a second one of the same test
    included, waits. *)
Theorem tests_isolated tr s :
  tsteps fresh_harness tr s →
  match cleanups s with
  | [] => currentRegisterer (pkg s) = Some DefaultRegisterer
  | [t] => ∃ reg, last (handed tr) = Some (t, reg) ∧ currentRegisterer (pkg s) = Some reg ∧ reg ≠ DefaultRegisterer ∧
      ∀ t', run_val (ResetRegistryForTest t') s = None
  | _ => False
  end ∧
  NoDup (handed tr).*2 ∧
  replay ∅ (history tr) = Some (match currentRegisterer (pkg s) with Some r => holding r descs | None => ∅ end).
Proof.
  intros [Hx Hn (h & Hr & _ & Hh)]%tsteps_ok. split_and!.
  - unfold exclusive in Hx. destruct (cleanups s) as [|t []]; [by destruct Hx| |done].
    destruct Hx as (Hmu & reg & Hlast & Hreg). exists reg. split_and!; [done..| |].
    + assert (Hin : reg ∈ seq 1 (registries s)).
      { rewrite <-Hn. apply list_elem_of_fmap. exists (t, reg). split; [done|]. by apply last_Some_elem_of. }
      apply elem_of_seq in Hin. unfold DefaultRegisterer. lia.
    + intros t'. unfold run_val. by rewrite ResetRegistryForTest_eq, Hmu.
  - rewrite Hn. apply NoDup_seq.
  - by rewrite Hr, Hh.
Qed.

(** The loop ends at the first round whose probe reports or whose [select] takes
    the context, with the value or the context's error. *)
Lemma wait_rounds_ends {T} (probe : nat → option T) wake k fuel :
  ∀ i, (∀ j, (i ≤ j < i + k)%nat → probe j = None ∧ wake j = None) → (k < fuel)%nat →
  wait_rounds probe wake i fuel =
    match probe (i + k)%nat, wake (i + k)%nat with
    | Some v, _ => Some (Ok v)
    | None, Some e => Some (Err e)
    | None, None => wait_rounds probe wake (S (i + k)) (fuel - S k)
    end.
Proof.
  revert fuel. induction k as [|k IH]; intros fuel i Hn Hf; (destruct fuel as [|fuel]; [lia|]); cbn.
  - rewrite Nat.add_0_r, Nat.sub_0_r. by destruct (probe i), (wake i).
  - destruct (Hn i ltac:(lia)) as [-> ->]. rewrite IH by (try (intros; apply Hn); lia).
    by rewrite Nat.add_succ_r.
Qed.

Lemma wait_rounds_forever {T} (probe : nat → option T) wake :
  (∀ j, probe j = None ∧ wake j = None) → ∀ fuel i, wait_rounds probe wake i fuel = None.
Proof.
  intros Hn. induction fuel as [|fuel IH]; intros i; cbn; [done|]. by destruct (Hn i) as [-> ->].
Qed.

(** With a context that is never done, only the probe ends the loop. *)
Lemma wait_rounds_background {T} (probe : nat → option T) i fuel e :
  wait_rounds probe (λ _, None) i fuel ≠ Some (Err e).
Proof. revert i. induction fuel as [|fuel IH]; intros i; cbn; [done|]. by destruct (probe i). Qed.

(** [WaitForError] returns the first value the channel yields, waits for ever
    when there is none, and can never report its time-out. *)
Theorem WaitForError_waits ch desc :
  (∀ k e fuel, (∀ i, (i < k)%nat → ch i = None) → ch k = Some e → (k < fuel)%nat →
     WaitForError ch desc fuel = Some (Received e)) ∧
  ((∀ i, ch i = None) → ∀ fuel, WaitForError ch desc fuel = None) ∧
  ∀ fuel message, WaitForError ch desc fuel ≠ Some (Fatalf message).
Proof.
  unfold WaitForError, WaitForCondition. split_and!.
  - intros k e fuel Hn Hk Hf. rewrite (wait_rounds_ends ch _ k) by (try (intros; split; [apply Hn|done]); lia).
    cbn [Nat.add]. by rewrite Hk.
  - intros Hn fuel. by rewrite wait_rounds_forever.
  - intros fuel message. pose proof (wait_rounds_background ch 0 fuel) as He.
    destruct (wait_rounds _ _ _ _) as [[v|e]|]; [done| |done]. by destruct (He e).
Qed.

Lemma tests_isolated_witness :
  let s := run_state (ResetRegistryForTest 7) fresh_harness in
  ∃ tr, tsteps fresh_harness tr s ∧ cleanups s = [7%nat] ∧ NoDup (handed tr).*2.
Proof.
  intros s. eexists. assert (H : tsteps fresh_harness [TReset 7 1 (run_calls (ResetRegistryForTest 7) fresh_harness)] s).
  { apply (tsteps_snoc _ [] fresh_harness); [apply tsteps_nil|]. by apply t_reset. }
  exact (conj H (conj eq_refl (proj1 (proj2 (tests_isolated _ s H))))).
Defined.
