(* ===== verification/Proto.v ===== *)
(** * Protocol buffer messages (pkg/pb/entropy.pb.go)

    The exported fields of the messages the gateway builds or reads, under the
    names of the generated structs.  A pointer to a scalar or to a message is an
    [option]; the bookkeeping fields of the generated code are left out. *)

From S2P Require Import Prelude Float64.

Record WhiteningStats := mkWhiteningStats {
  InputBits : Z;
  OutputBits : Z;
  ExtractionRate : f64;
}.

Record TestSummary := mkTestSummary {
  FreqPvalue : f64;
  RunsPvalue : f64;
  RctStat : option f64;
  AptStat : option f64;
  RctWindow : option Z;
  AptWindow : option Z;
}.

Record TDCEvent := mkTDCEvent {
  RpiTimestampUs : Z;
  TdcTimestampPs : Z;
  Channel : Z;
  DeltaPs : option Z;
  Flags : option Z;
  WhitenedEntropy : bytes;
}.

Record EdgeMetrics := mkEdgeMetrics {
  QuickShannonEntropy : f64;
  FrequencyTestPassed : bool;
  RunsTestPassed : bool;
  PoolSize : Z;
  ProcessingLatencyUs : Z;
  BiasPpm : option f64;
  RctPassed : option bool;
  AptPassed : option bool;
}.

Inductive ChecksumAlgo := CHECKSUM_ALGO_UNSPECIFIED | CHECKSUM_SHA256.
Inductive SignatureAlgo := SIGNATURE_ALGO_UNSPECIFIED | SIGNATURE_ED25519.
Inductive Compression := COMPRESSION_NONE | COMPRESSION_ZSTD.

Record EntropyBatch := mkEntropyBatch {
  Events : list TDCEvent;
  Metrics : option EdgeMetrics;
  BatchTimestampUs : Z;
  BatchSequence : Z;
  SourceId : string;
  TStartUs : Z;
  TEndUs : Z;
  Checksum : bytes;
  ChecksumAlgo_ : ChecksumAlgo;
  Signature : bytes;
  SignatureAlgo_ : option SignatureAlgo;
  Compression_ : Compression;
  DroppedEvents : Z;
  Whitening : option WhiteningStats;
  Tests : option TestSummary;
  Meta : option (gmap string string);
}.

Record Ack := mkAck {
  Success : bool;
  ReceivedSequence : Z;
  Message : string;
  MissingSequences : list Z;
  ReceivedAtUs : option Z;
  Backpressure : option bool;
  BackpressureReason : option string;
}.

(** [x.GetBackpressure()] and [x.GetBackpressureReason()] read a nil pointer as the zero value. *)
Definition GetBackpressure (a : Ack) : bool := default false (Backpressure a).
Definition GetBackpressureReason (a : Ack) : string := default EmptyString (BackpressureReason a).

(** The message [EntropyBatch{}] with every field zero. *)
Definition zeroBatch : EntropyBatch :=
  mkEntropyBatch [] None 0 0 EmptyString 0 0 [] CHECKSUM_ALGO_UNSPECIFIED [] None COMPRESSION_NONE 0
    None None None.

Definition zeroTestSummary : TestSummary := mkTestSummary fzero fzero None None None None.
