(* ===== verification/QuickTests.v ===== *)
(** * Quick statistical tests (internal/validation/quick_tests.go)

    The frequency and runs tests of NIST SP 800-22 and the summary statistics
    attached to a batch.  The verdicts are computed in floating point; they are
    proved to be the exact rational comparisons on the bits of the data. *)

From S2P Require Import Prelude Float64 Proto HealthTests.

(** The functions of Go's package [math] without a short exact definition. *)
Class MathLib := {
  Erfc : f64 → f64;
  Pow : f64 → f64 → f64;
  Log2 : f64 → f64;
}.

(** ** Operations *)

(** [(b >> i) & 1]. *)
Definition bit_at (b i : Z) : Z := Z.land (Z.shiftr b i) 1.

(** [bits.OnesCount8(b)]. *)
Definition OnesCount8 (b : Z) : Z :=
  foldr (λ i n, bit_at b i + n) 0 [7; 6; 5; 4; 3; 2; 1; 0].

Definition FrequencyTest (data : bytes) : f64 * bool :=
  if len data =? 0 then (of_int 0, false)
  else
    let ones := foldl (λ ones b, ones + OnesCount8 b) 0 data in
    let total := len data * 8 in
    let ratio := fdiv (of_int ones) (of_int total) in
    (ratio, fle (flit 45 100) ratio && fle ratio (flit 55 100)).

(** The loop over the bits [i = startBit, ..., 0] of one byte. *)
Fixpoint runs_byte (b : Z) (idx : list Z) (runs lastBit : Z) : Z * Z :=
  match idx with
  | [] => (runs, lastBit)
  | i :: idx =>
      let bit := bit_at b i in
      if bit =? lastBit then runs_byte b idx runs lastBit else runs_byte b idx (runs + 1) bit
  end.

(** The loop over the data; the first bit of the first byte is skipped. *)
Fixpoint runs_loop (data : bytes) (firstByte : bool) (runs lastBit : Z) : Z :=
  match data with
  | [] => runs
  | b :: data =>
      let idx := if firstByte then [6; 5; 4; 3; 2; 1; 0] else [7; 6; 5; 4; 3; 2; 1; 0] in
      let '(runs, lastBit) := runs_byte b idx runs lastBit in
      runs_loop data false runs lastBit
  end.

Definition RunsTest (data : bytes) : Z * bool :=
  match data with
  | [] => (0, false)
  | b0 :: _ =>
      let runs := runs_loop data true 1 (bit_at b0 7) in
      let n := len data * 8 in
      let expected := fdiv (of_int n) (of_int 2) in
      let deviation := fdiv (fabs (fsub (of_int runs) expected)) expected in
      (runs, flt deviation (flit 1 10))
  end.

(** [if p < 0 { p = 0 }; if p > 1 { p = 1 }]. *)
Definition clamp_probability (pValue : f64) : f64 :=
  let pValue := if flt pValue fzero then fzero else pValue in
  if flt (of_int 1) pValue then of_int 1 else pValue.

Definition computeFrequencyPValue `{MathLib} (data : bytes) (ratio : f64) : f64 :=
  let n := of_int (len data * 8) in
  let ones := fmul ratio n in
  let expected := fdiv n (of_int 2) in
  let chiSq := fdiv (Pow (fsub ones expected) (of_int 2)) expected in
  clamp_probability (Erfc (fsqrt (fdiv chiSq (of_int 2)))).

Definition computeRunsPValue `{MathLib} (data : bytes) (runs : Z) : f64 :=
  let n := of_int (len data * 8) in
  let expectedRuns := fdiv n (of_int 2) in
  let variance := fdiv n (of_int 4) in
  let z := fdiv (fabs (fsub (of_int runs) expectedRuns)) (fsqrt variance) in
  clamp_probability (Erfc (fdiv z (fsqrt (of_int 2)))).

Fixpoint rct_loop (data : bytes) (maxRepetitions currentRepetitions lastByte : Z) : Z :=
  match data with
  | [] => maxRepetitions
  | b :: data =>
      if b =? lastByte then
        let currentRepetitions := currentRepetitions + 1 in
        rct_loop data
          (if maxRepetitions <? currentRepetitions then currentRepetitions else maxRepetitions)
          currentRepetitions lastByte
      else rct_loop data maxRepetitions 1 b
  end.

Definition computeRCTStat (data : bytes) (window : Z) : f64 :=
  match data with
  | [] => of_int 0
  | b :: rest =>
      if window =? 0 then of_int 0
      else of_int (rct_loop (take (Z.to_nat (window - 1)) rest) 1 1 b)
  end.

(** [freq[b]++] for each byte, in order; a missing key reads as zero. *)
Definition frequencies (data : bytes) : gmap Z Z :=
  foldl (λ freq b, <[b := default 0 (freq !! b) + 1]> freq) ∅ data.

(** The largest value of a map, as found by a loop over it in some order. *)
Definition max_value (entries : list (Z * Z)) : Z :=
  foldl (λ m '(_, count), if m <? count then count else m) 0 entries.

Definition computeAPTStat (data : bytes) (window : Z) : f64 :=
  if (len data =? 0) || (window =? 0) then of_int 0
  else
    let windowSize := if len data <? window then len data else window in
    let freq := frequencies (slice_to windowSize data) in
    let maxFreq := max_value (map_to_list freq) in
    fdiv (of_int maxFreq) (of_int windowSize).

Definition ComputeTestSummary `{MathLib} (data : bytes) (rctWindow aptWindow : Z) : TestSummary :=
  if len data =? 0 then zeroTestSummary
  else
    let '(freqRatio, _) := FrequencyTest data in
    let freqPValue := computeFrequencyPValue data freqRatio in
    let '(runsCount, _) := RunsTest data in
    let runsPValue := computeRunsPValue data runsCount in
    let rctStat := computeRCTStat data rctWindow in
    let aptStat := computeAPTStat data aptWindow in
    mkTestSummary freqPValue runsPValue (Some rctStat) (Some aptStat) (Some rctWindow)
      (Some aptWindow).

(** ** The bits of the data *)

Definition byte_bits (b : Z) : list Z := bit_at b <$> [7; 6; 5; 4; 3; 2; 1; 0].

(** The bit stream, most significant bit of each byte first. *)
Definition bits_of (data : bytes) : list Z := data ≫= byte_bits.

Definition ones (bs : list Z) : Z := foldr Z.add 0 bs.

(** The number of maximal runs of equal values. *)
Fixpoint changes (b : Z) (bs : list Z) : Z :=
  match bs with
  | [] => 0
  | b' :: bs => (if b' =? b then 0 else 1) + changes b' bs
  end.

Definition runs_of (bs : list Z) : Z :=
  match bs with [] => 0 | b :: bs => 1 + changes b bs end.

Lemma bit_at_range b i : 0 ≤ bit_at b i ≤ 1.
Proof.
  unfold bit_at. pose proof (Z.land_ones (b ≫ i) 1 ltac:(done)) as H.
  change (Z.ones 1) with 1 in H. change (2 ^ 1) with 2 in H. rewrite H. pose proof (Z.mod_pos_bound (b ≫ i) 2). lia.
Qed.

Lemma ones_app l1 l2 : ones (l1 ++ l2) = ones l1 + ones l2.
Proof. induction l1 as [|b l1 IH]; simpl; [done|]. unfold ones in *. simpl. lia. Qed.

Lemma OnesCount8_bits b : OnesCount8 b = ones (byte_bits b).
Proof. reflexivity. Qed.

Lemma ones_count_loop data acc :
  foldl (λ ones b, ones + OnesCount8 b) acc data = acc + ones (bits_of data).
Proof.
  revert acc. induction data as [|b data IH]; intros acc; cbn [foldl].
  { unfold ones. simpl. lia. }
  rewrite IH, OnesCount8_bits. unfold bits_of. cbn [mbind list_bind]. rewrite ones_app. lia.
Qed.

Lemma len_bits_of data : len (bits_of data) = len data * 8.
Proof.
  induction data as [|b data IH]; [done|].
  unfold bits_of in *. cbn [mbind list_bind]. rewrite len_app, IH, len_cons.
  change (len (byte_bits b)) with 8. lia.
Qed.

Lemma bits_range data : Forall (λ b, 0 ≤ b ≤ 1) (bits_of data).
Proof.
  apply Forall_forall. intros b (x & Hb & _)%list_elem_of_bind.
  apply list_elem_of_fmap in Hb as (i & -> & _). apply bit_at_range.
Qed.

Lemma ones_range bs : Forall (λ b, 0 ≤ b ≤ 1) bs → 0 ≤ ones bs ≤ len bs.
Proof.
  induction 1 as [|b bs Hb _ IH]; [done|]. rewrite len_cons. unfold ones in *. simpl. lia.
Qed.

Lemma changes_range b bs : 0 ≤ changes b bs ≤ len bs.
Proof.
  revert b. induction bs as [|b' bs IH]; intros b; cbn [changes]; [done|].
  rewrite len_cons. specialize (IH b'). destruct (b' =? b); lia.
Qed.

Lemma runs_byte_spec b idx runs lastBit bs :
  let '(runs', lastBit') := runs_byte b idx runs lastBit in
  runs + changes lastBit ((bit_at b <$> idx) ++ bs) = runs' + changes lastBit' bs.
Proof.
  revert runs lastBit. induction idx as [|i idx IH]; intros runs lastBit; [done|].
  rewrite fmap_cons. cbn [runs_byte app changes].
  destruct (Z.eqb_spec (bit_at b i) lastBit) as [->|Hne].
  - rewrite Z.add_0_l. apply IH.
  - specialize (IH (runs + 1) (bit_at b i)). destruct (runs_byte _ _ _ _).
    lia.
Qed.

Lemma runs_loop_spec data runs lastBit :
  runs_loop data false runs lastBit = runs + changes lastBit (bits_of data).
Proof.
  revert runs lastBit. induction data as [|b data IH]; intros runs lastBit; cbn [runs_loop].
  { simpl. lia. }
  pose proof (runs_byte_spec b [7; 6; 5; 4; 3; 2; 1; 0] runs lastBit (bits_of data)) as H.
  destruct (runs_byte _ _ _ _) as [runs' lastBit']. rewrite IH. symmetry. exact H.
Qed.

Lemma runs_loop_first b data :
  runs_loop (b :: data) true 1 (bit_at b 7) = runs_of (bits_of (b :: data)).
Proof.
  cbn [runs_loop].
  pose proof (runs_byte_spec b [6; 5; 4; 3; 2; 1; 0] 1 (bit_at b 7) (bits_of data)) as H.
  destruct (runs_byte _ _ _ _) as [runs' lastBit']. rewrite runs_loop_spec. symmetry. exact H.
Qed.

(** ** What the verdicts mean *)

Lemma fabs_sub_int a b :
  0 ≤ a ≤ 2 ^ 50 → 0 ≤ b ≤ 2 ^ 50 → fabs (fsub (of_int a) (of_int b)) = of_int (Z.abs (a - b)).
Proof. intros. rewrite fsub_int by lia. apply fabs_int. lia. Qed.

Lemma half_bits n : 0 ≤ n ≤ 2 ^ 40 → fdiv (of_int (n * 8)) (of_int 2) = of_int (n * 4).
Proof. intros. replace (n * 8) with (n * 4 * 2) by lia. apply fdiv_exact; lia. Qed.

(** On data of up to 2^40 bytes the frequency test passes exactly when the
    fraction of one bits is between 9/20 and 11/20: the floating-point division
    and the literals 0.45 and 0.55 never change a verdict. *)
Theorem FrequencyTest_exact data :
  0 < len data ≤ 2 ^ 40 →
  (FrequencyTest data).2 = true ↔
    9 * len (bits_of data) ≤ 20 * ones (bits_of data) ≤ 11 * len (bits_of data).
Proof.
  intros Hlen. unfold FrequencyTest. destruct (Z.eqb_spec (len data) 0); [lia|].
  rewrite ones_count_loop, Z.add_0_l, <-len_bits_of. cbn [snd].
  pose proof (ones_range _ (bits_range data)) as Hones. rewrite len_bits_of in *.
  rewrite andb_true_iff. unfold flit.
  rewrite !fle_quotient by lia. lia.
Qed.

(** On data of up to 2^40 bytes the runs test counts the maximal runs of
    equal bits, and passes exactly when this count differs from half the number
    of bits by less than a tenth of it. *)
Theorem RunsTest_exact data :
  0 < len data ≤ 2 ^ 40 →
  (RunsTest data).1 = runs_of (bits_of data) ∧
  ((RunsTest data).2 = true ↔
     20 * Z.abs (runs_of (bits_of data) - len (bits_of data) / 2) < len (bits_of data)).
Proof.
  intros Hlen. unfold RunsTest. destruct data as [|b data]; [done|].
  rewrite runs_loop_first. cbn [fst snd]. split; [done|].
  remember (b :: data) as bs. rewrite half_bits by lia.
  assert (Hr : 0 ≤ runs_of (bits_of bs) ≤ len bs * 8).
  { rewrite <-len_bits_of. destruct (bits_of bs) as [|x l]; [done|]. rewrite len_cons.
    pose proof (changes_range x l). simpl. lia. }
  rewrite fabs_sub_int, len_bits_of by lia. unfold flit.
  rewrite flt_quotient by lia. replace (len bs * 8 / 2) with (len bs * 4)
    by (replace (len bs * 8) with (len bs * 4 * 2) by lia; by rewrite Z.div_mul). lia.
Qed.

Lemma FrequencyTest_exact_witness :
  (0 < len [240] ≤ 2 ^ 40) ∧
  ((FrequencyTest [240]).2 = true ↔
    9 * len (bits_of [240]) ≤ 20 * ones (bits_of [240]) ≤ 11 * len (bits_of [240])).
Proof.
  assert (H : 0 < len [240] ≤ 2 ^ 40) by (split; reflexivity || (vm_compute; discriminate)).
  exact (conj H (FrequencyTest_exact [240] H)).
Defined.

Lemma RunsTest_exact_witness :
  (0 < len [204] ≤ 2 ^ 40) ∧ (RunsTest [204]).1 = runs_of (bits_of [204]) ∧
  ((RunsTest [204]).2 = true ↔
     20 * Z.abs (runs_of (bits_of [204]) - len (bits_of [204]) / 2) < len (bits_of [204])).
Proof.
  assert (H : 0 < len [204] ≤ 2 ^ 40) by (split; reflexivity || (vm_compute; discriminate)).
  exact (conj H (RunsTest_exact [204] H)).
Defined.

Example RunsTest_ex : RunsTest [204] = (4, true).
Proof. vm_compute. reflexivity. Qed.

(** ** The most frequent byte *)

Definition occurrences (data : bytes) (b : Z) : Z := Z.of_nat (count_occ Z.eq_dec data b).

(** [m] is the number of occurrences of the most common byte of [data]. *)
Definition most_common (data : bytes) (m : Z) : Prop :=
  (∃ b, b ∈ data ∧ occurrences data b = m) ∧ ∀ b, occurrences data b ≤ m.

Lemma occurrences_app l1 l2 b : occurrences (l1 ++ l2) b = occurrences l1 b + occurrences l2 b.
Proof. unfold occurrences. rewrite count_occ_app. lia. Qed.

Lemma occurrences_one x b : occurrences [x] b = if decide (x = b) then 1 else 0.
Proof. unfold occurrences. simpl. destruct (Z.eq_dec x b); by case_decide. Qed.

Lemma occurrences_range data b : 0 ≤ occurrences data b ≤ len data.
Proof. unfold occurrences, len. pose proof (count_occ_bound Z.eq_dec b data). lia. Qed.

Lemma occurrences_pos data b : 0 < occurrences data b ↔ b ∈ data.
Proof.
  unfold occurrences. rewrite list_elem_of_In, (count_occ_In Z.eq_dec). lia.
Qed.

Lemma frequencies_snoc data b :
  frequencies (data ++ [b]) = <[b := default 0 (frequencies data !! b) + 1]> (frequencies data).
Proof. unfold frequencies. by rewrite foldl_app. Qed.

Lemma frequencies_lookup data b :
  frequencies data !! b = if decide (b ∈ data) then Some (occurrences data b) else None.
Proof.
  revert b. induction data as [|x data IH] using rev_ind; intros b.
  { rewrite decide_False by apply not_elem_of_nil. done. }
  assert (Hx : default 0 (frequencies data !! x) = occurrences data x).
  { rewrite IH. case_decide as Hb; [done|]. rewrite <-occurrences_pos in Hb.
    pose proof (occurrences_range data x). simpl. lia. }
  rewrite frequencies_snoc, occurrences_app, occurrences_one.
  destruct (decide (x = b)) as [->|Hne].
  - rewrite lookup_insert_eq, Hx, decide_True; [done|]. apply elem_of_app. right. left.
  - rewrite lookup_insert_ne, IH, Z.add_0_r by done.
    destruct (decide (b ∈ data)) as [Hb|Hb].
    + rewrite decide_True; [done|]. apply elem_of_app. by left.
    + rewrite decide_False; [done|]. rewrite elem_of_app, list_elem_of_singleton. naive_solver.
Qed.

(** The loop of the source finds the largest count, in whatever order it
    visits the map. *)
Lemma max_value_ge (entries : list (Z * Z)) acc :
  acc ≤ foldl (λ m '(_, count), if m <? count then count else m) acc entries ∧
  ∀ k n, (k, n) ∈ entries →
    n ≤ foldl (λ m '(_, count), if m <? count then count else m) acc entries.
Proof.
  revert acc. induction entries as [|[k n] entries IH]; intros acc; cbn [foldl].
  { split; [lia|]. by intros k n ?%not_elem_of_nil. }
  destruct (IH (if acc <? n then n else acc)) as [H1 H2]. split.
  - destruct (Z.ltb_spec acc n); lia.
  - intros k' n' [Heq|Hin]%elem_of_cons; [|by eapply H2].
    simplify_eq. destruct (Z.ltb_spec acc n); lia.
Qed.

Lemma max_value_attained (entries : list (Z * Z)) acc :
  foldl (λ m '(_, count), if m <? count then count else m) acc entries = acc ∨
  ∃ k : Z, (k, foldl (λ m '(_, count), if m <? count then count else m) acc entries) ∈ entries.
Proof.
  revert acc. induction entries as [|[k n] entries IH]; intros acc; cbn [foldl]; [by left|].
  destruct (IH (if acc <? n then n else acc)) as [->|[k' Hin]].
  - destruct (acc <? n); [right; exists k; left|by left].
  - right. exists k'. by right.
Qed.

Lemma max_value_most_common data entries :
  data ≠ [] → entries ≡ₚ map_to_list (frequencies data) → most_common data (max_value entries).
Proof.
  intros Hne Hperm. unfold max_value.
  assert (Hin : ∀ b n, (b, n) ∈ entries ↔ b ∈ data ∧ n = occurrences data b).
  { intros b n. rewrite Hperm, elem_of_map_to_list, frequencies_lookup.
    case_decide; naive_solver. }
  destruct (max_value_ge entries 0) as [Hacc Hge]. destruct data as [|b data]; [done|].
  assert (Hb : 0 < occurrences (b :: data) b) by (apply occurrences_pos; left).
  split.
  - destruct (max_value_attained entries 0) as [Heq|[k Hk]].
    + specialize (Hge b _ (proj2 (Hin b _) (conj (list_elem_of_here b data) eq_refl))). lia.
    + apply Hin in Hk as [? ?]. by exists k.
  - intros x. destruct (decide (x ∈ b :: data)) as [Hx|Hx].
    + apply (Hge x). by apply Hin.
    + assert (¬ 0 < occurrences (b :: data) x) by (by rewrite occurrences_pos). lia.
Qed.

Lemma most_common_unique data m n : most_common data m → most_common data n → m = n.
Proof.
  intros [(b & _ & <-) Hm] [(c & _ & <-) Hn]. specialize (Hm c). specialize (Hn b). lia.
Qed.

Lemma most_common_range data m : most_common data m → 1 ≤ m ≤ len data.
Proof.
  intros [(b & Hb & <-) _]. apply occurrences_pos in Hb. pose proof (occurrences_range data b). lia.
Qed.

(** ** The summary statistics *)

(** [m] is the length of the longest run of equal samples of [h], which ends in
    a run of [n] samples [b]. *)
Definition longest_run (h : bytes) (m : Z) : Prop :=
  ∀ c, (1 ≤ c)%nat → RepetitionCountTest.has_run c h ↔ Z.of_nat c ≤ m.

Lemma longest_run_snoc h x m n :
  longest_run h m → RepetitionCountTest.ends_with (h ++ [x]) x n →
  longest_run (h ++ [x]) (Z.max m (Z.of_nat n)).
Proof.
  intros Hm He c Hc. rewrite RepetitionCountTest.has_run_snoc, (Hm c Hc) by done.
  rewrite (RepetitionCountTest.ends_with_suffix c _ _ n) by done. lia.
Qed.

Lemma rct_loop_longest rest h m n last :
  longest_run h m → RepetitionCountTest.ends_with h last n → Z.of_nat n ≤ m →
  longest_run (h ++ rest) (rct_loop rest m (Z.of_nat n) last).
Proof.
  revert h m n last. induction rest as [|x rest IH]; intros h m n last Hm He Hn; cbn [rct_loop].
  { by rewrite app_nil_r. }
  rewrite cons_middle, (assoc_L (++)). destruct (Z.eqb_spec x last) as [->|Hne].
  - pose proof (RepetitionCountTest.ends_with_same _ _ _ He) as He'.
    pose proof (longest_run_snoc _ _ _ _ Hm He') as Hm'.
    replace (Z.of_nat n + 1) with (Z.of_nat (n + 1)) by lia.
    replace (if m <? Z.of_nat (n + 1) then Z.of_nat (n + 1) else m) with (Z.max m (Z.of_nat (n + 1)))
      by (destruct (Z.ltb_spec m (Z.of_nat (n + 1))); lia).
    apply IH; [done|done|lia].
  - pose proof (RepetitionCountTest.ends_with_diff _ _ _ _ He Hne) as He'.
    pose proof (longest_run_snoc _ _ _ _ Hm He') as Hm'.
    assert (1 ≤ m) by (destruct He as (? & _ & ? & _); lia).
    rewrite Z.max_l in Hm' by lia. apply (IH _ _ 1%nat); [done|done|lia].
Qed.

Lemma longest_run_one x : longest_run [x] 1.
Proof.
  intros c Hc. split.
  - intros (l1 & b & l2 & Heq). apply (f_equal length) in Heq.
    rewrite !length_app, length_replicate in Heq. simpl in Heq. lia.
  - intros. replace c with 1%nat by lia. by exists [], x, [].
Qed.

Lemma computeRCTStat_longest b data window :
  0 < window →
  ∃ m, computeRCTStat (b :: data) window = of_int m ∧
    longest_run (slice_to window (b :: data)) m.
Proof.
  intros Hw. unfold computeRCTStat. destruct (Z.eqb_spec window 0); [lia|].
  eexists. split; [done|]. unfold slice_to.
  replace (Z.to_nat window) with (S (Z.to_nat (window - 1))) by lia. cbn [firstn].
  apply (rct_loop_longest _ [b] 1 1 b); [apply longest_run_one| |done].
  apply RepetitionCountTest.ends_with_first.
Qed.

(** On a window of data the Repetition Count statistic of the summary is the
    length of the longest run of equal bytes in the window; so a fresh
    Repetition Count Test with a cutoff of at least 2 rejects the window exactly
    when its cutoff is at most the reported statistic. *)
Theorem computeRCTStat_agrees b data window cutoff :
  0 < window → 2 ≤ cutoff →
  let w := slice_to window (b :: data) in
  ∃ m, computeRCTStat (b :: data) window = of_int m ∧ longest_run w m ∧
    ((RepetitionCountTest.TestBlock (RepetitionCountTest.NewRepetitionCountTest cutoff) w).1 = false
     ↔ cutoff ≤ m).
Proof.
  intros Hw Hc w. destruct (computeRCTStat_longest b data window Hw) as (m & Hm & Hl).
  exists m. split_and!; [done|done|].
  rewrite RepetitionCountTest.fresh_verdict. destruct (Z.leb_spec cutoff 0); [lia|].
  rewrite Z.max_r by lia. pose proof (Hl (Z.to_nat cutoff) ltac:(lia)) as Hc'. fold w in Hc'. rewrite Hc'. lia.
Qed.

Lemma computeRCTStat_agrees_witness :
  let w := slice_to 4 [7; 7; 7; 1; 7] in
  (0 < 4) ∧ (2 ≤ 3) ∧
  ∃ m, computeRCTStat [7; 7; 7; 1; 7] 4 = of_int m ∧ longest_run w m ∧
    ((RepetitionCountTest.TestBlock (RepetitionCountTest.NewRepetitionCountTest 3) w).1 = false
     ↔ 3 ≤ m).
Proof.
  assert (H1 : 0 < 4) by lia. assert (H2 : 2 ≤ 3) by lia.
  exact (conj H1 (conj H2 (computeRCTStat_agrees 7 [7; 7; 1; 7] 4 3 H1 H2))).
Defined.

Lemma computeAPTStat_most_common b data window :
  0 < window →
  let w := slice_to window (b :: data) in
  ∃ m, most_common w m ∧ computeAPTStat (b :: data) window = fdiv (of_int m) (of_int (len w)).
Proof.
  intros Hw w. unfold computeAPTStat.
  destruct (Z.eqb_spec (len (b :: data)) 0) as [H|_]; [rewrite len_cons in H; pose proof (len_nonneg data); lia|].
  destruct (Z.eqb_spec window 0); [lia|]. cbn [orb].
  set (size := if len (b :: data) <? window then len (b :: data) else window).
  assert (slice_to size (b :: data) = w ∧ size = len w) as [-> ->].
  { subst size w. destruct (Z.ltb_spec (len (b :: data)) window).
    - unfold slice_to. rewrite !take_ge by (unfold len in *; lia). done.
    - split; [done|]. symmetry. apply len_slice_to. pose proof (len_nonneg (b :: data)). lia. }
  eexists. split; [|done]. apply max_value_most_common; [|done].
  subst w. unfold slice_to. destruct (Z.to_nat window) eqn:?; [lia|done].
Qed.

Lemma clamp_probability_range p :
  flt (clamp_probability p) fzero = false ∧ flt (of_int 1) (clamp_probability p) = false.
Proof.
  unfold clamp_probability.
  destruct (flt p fzero) eqn:H1; [split; vm_compute; reflexivity|].
  destruct (flt (of_int 1) p) eqn:H2; [split; vm_compute; reflexivity|done].
Qed.

(** The summary of non-empty data: both p-values lie in [0, 1] whatever the
    special functions return (a NaN passes through), the Repetition Count
    statistic is the longest run of the first [rctWindow] bytes, the Adaptive
    Proportion statistic is the share of the most common byte among the first
    [aptWindow] bytes, and a window of zero reports zero. *)
Theorem ComputeTestSummary_spec `{MathLib} b data rctWindow aptWindow :
  is_u32 rctWindow → is_u32 aptWindow →
  let s := ComputeTestSummary (b :: data) rctWindow aptWindow in
  (flt (FreqPvalue s) fzero = false ∧ flt (of_int 1) (FreqPvalue s) = false) ∧
  (flt (RunsPvalue s) fzero = false ∧ flt (of_int 1) (RunsPvalue s) = false) ∧
  RctWindow s = Some rctWindow ∧ AptWindow s = Some aptWindow ∧
  (∃ r, RctStat s = Some (of_int r) ∧
     if rctWindow =? 0 then r = 0 else longest_run (slice_to rctWindow (b :: data)) r) ∧
  (if aptWindow =? 0 then AptStat s = Some (of_int 0)
   else ∃ m, most_common (slice_to aptWindow (b :: data)) m ∧
     AptStat s = Some (fdiv (of_int m) (of_int (len (slice_to aptWindow (b :: data)))))).
Proof.
  intros [Hr _] [Ha _] s. subst s. unfold ComputeTestSummary.
  destruct (Z.eqb_spec (len (b :: data)) 0) as [E|_]; [by apply len_zero_iff in E|].
  destruct (FrequencyTest (b :: data)) as [ratio ?], (RunsTest (b :: data)) as [runs ?].
  cbn [FreqPvalue RunsPvalue RctWindow AptWindow RctStat AptStat].
  split_and!; try apply clamp_probability_range; try done.
  - destruct (Z.eqb_spec rctWindow 0) as [->|]; [by exists 0|].
    destruct (computeRCTStat_longest b data rctWindow) as (m & -> & Hm); [lia|by exists m].
  - destruct (Z.eqb_spec aptWindow 0) as [->|]; [done|].
    destruct (computeAPTStat_most_common b data aptWindow) as (m & Hm & ->); [lia|by exists m].
Qed.

Lemma ComputeTestSummary_spec_witness :
  let H := Build_MathLib (λ x, x) (λ x _, x) (λ x, x) in
  is_u32 2 ∧ is_u32 0 ∧ RctWindow (ComputeTestSummary [5; 5; 9] 2 0) = Some 2.
Proof.
  intros H. assert (H1 : is_u32 2) by (split; [lia|reflexivity]).
  assert (H2 : is_u32 0) by (split; [lia|reflexivity]).
  pose proof (@ComputeTestSummary_spec H 5 [5; 9] 2 0 H1 H2) as (_ & _ & Hw & _).
  exact (conj H1 (conj H2 Hw)).
Defined.
