(* ===== verification/MinEntropy.v ===== *)
(** * Min-entropy estimators (internal/validation/min_entropy.go)

    The Most Common Value and Collision estimators of NIST SP 800-90B section 6.
    A loop over a Go map visits it in an unspecified order, which is a parameter
    here: the estimates do not depend on it. *)

From S2P Require Import Prelude Float64 HealthTests QuickTests.

(** The order in which a [range] loop visits the entries of a map. *)
Class MapRange := {
  map_range : gmap Z Z → list (Z * Z);
  map_range_perm m : map_range m ≡ₚ map_to_list m;
}.

Section operations.
Context `{MathLib, MapRange}.

Definition EstimateMCV (data : bytes) : f64 :=
  if len data =? 0 then of_int 0
  else
    let freq := frequencies data in
    let maxCount := max_value (map_range freq) in
    let pMax := fdiv (of_int maxCount) (of_int (len data)) in
    if fle (of_int 1) pMax then of_int 0 else fneg (Log2 pMax).

(** The loop that also remembers the value with the largest count. *)
Definition max_entry (entries : list (Z * Z)) : Z * Z :=
  foldl (λ '(maxCount, mostCommonValue) '(val, count),
    if maxCount <? count then (count, val) else (maxCount, mostCommonValue)) (0, 0) entries.

Definition EstimateMCVWithStats (data : bytes) : f64 * Z * Z * Z :=
  if len data =? 0 then (of_int 0, 0, 0, 0)
  else
    let freq := frequencies data in
    let uniqueValues := Z.of_nat (size freq) in
    let '(maxCount, mostCommonValue) := max_entry (map_range freq) in
    let pMax := fdiv (of_int maxCount) (of_int (len data)) in
    let minEntropy := if fle (of_int 1) pMax then of_int 0 else fneg (Log2 pMax) in
    (minEntropy, mostCommonValue, maxCount, uniqueValues).

(** The loop over the data: the position and value of the first repeated byte
    (a position of zero when there is none) and the bytes seen before. *)
Fixpoint collision_loop (data : bytes) (i : Z) (seen : gset Z) : Z * Z * gset Z :=
  match data with
  | [] => (0, 0, seen)
  | b :: data =>
      if bool_decide (b ∈ seen) then (i + 1, b, seen)
      else collision_loop data (i + 1) ({[b]} ∪ seen)
  end.

(** [if e > 8.0 { e = 8.0 }; if e < 0.0 { e = 0.0 }]. *)
Definition clamp_bits (minEntropy : f64) : f64 :=
  let minEntropy := if flt (of_int 8) minEntropy then of_int 8 else minEntropy in
  if flt minEntropy fzero then fzero else minEntropy.

Definition EstimateCollision (data : bytes) : f64 :=
  if len data =? 0 then of_int 0
  else if len data =? 1 then of_int 8
  else
    let '(tCollision, _, _) := collision_loop data 0 ∅ in
    if tCollision =? 0 then of_int 8
    else if tCollision =? 2 then of_int 1
    else clamp_bits (Log2 (of_int tCollision)).

Definition EstimateCollisionWithStats (data : bytes) : f64 * Z * Z * Z :=
  match data with
  | [] => (of_int 0, 0, 0, 0)
  | [b] => (of_int 8, 0, b, 1)
  | _ =>
      let '(tCollision, collidedValue, seen) := collision_loop data 0 ∅ in
      let uniqueBeforeCollision := Z.of_nat (size seen) in
      if tCollision =? 0 then (of_int 8, 0, 0, uniqueBeforeCollision)
      else
        let minEntropy :=
          if tCollision =? 2 then of_int 1 else clamp_bits (Log2 (of_int tCollision)) in
        (minEntropy, tCollision, collidedValue, uniqueBeforeCollision)
  end.

Definition EstimateMinEntropyConservative (data : bytes) : f64 :=
  let mcv := EstimateMCV data in
  let collision := EstimateCollision data in
  if flt mcv collision then mcv else collision.

(** ** Most Common Value *)

Lemma max_entry_spec (entries : list (Z * Z)) m v :
  (m = 0 ∧ v = 0) ∨ (0 < m) →
  let r := foldl (λ '(maxCount, mostCommonValue) '(val, count),
    if maxCount <? count then (count, val) else (maxCount, mostCommonValue)) (m, v) entries in
  r.1 = foldl (λ m '(_, count), if m <? count then count else m) m entries ∧
  (r = (m, v) ∨ (r.2, r.1) ∈ entries).
Proof.
  revert m v. induction entries as [|[k n] entries IH]; intros m v Hm; cbn [foldl].
  { split; [done|by left]. }
  destruct (Z.ltb_spec m n).
  - destruct (IH n k) as [IH1 IH2]; [right; lia|]. split; [done|]. right.
    destruct IH2 as [->|Hin]; [left|by right].
  - destruct (IH m v Hm) as [IH1 IH2]. split; [done|].
    destruct IH2 as [->|Hin]; [by left|by right; right].
Qed.

Lemma max_entry_value entries : (max_entry entries).1 = max_value entries.
Proof. unfold max_entry, max_value. apply max_entry_spec. by left. Qed.

Lemma pMax_one m n : 1 ≤ m ≤ n → n ≤ 2 ^ 40 → fle (of_int 1) (fdiv (of_int m) (of_int n)) = (m =? n).
Proof.
  intros. rewrite <-(fdiv_1 1) by lia. rewrite fle_quotient by lia.
  destruct (Z.leb_spec (1 * n) (m * 1)), (Z.eqb_spec m n); lia.
Qed.

Lemma EstimateMCV_eq data m :
  most_common data m → len data ≤ 2 ^ 40 →
  EstimateMCV data =
    if m =? len data then of_int 0 else fneg (Log2 (fdiv (of_int m) (of_int (len data)))).
Proof.
  intros Hm Hl. pose proof (most_common_range _ _ Hm). unfold EstimateMCV.
  destruct (Z.eqb_spec (len data) 0); [lia|].
  assert (max_value (map_range (frequencies data)) = m) as ->.
  { eapply most_common_unique; [|done]. apply max_value_most_common; [|apply map_range_perm].
    intros ->. by rewrite len_nil in *. }
  by rewrite pMax_one by lia.
Qed.

Lemma most_common_exists data : data ≠ [] → ∃ m, most_common data m.
Proof. intros. eexists. by apply (max_value_most_common data (map_range (frequencies data))), map_range_perm. Qed.

#[local] Instance occurrences_proper : Proper ((≡ₚ) ==> eq ==> eq) occurrences.
Proof. intros l l' Hp b _ <-. unfold occurrences. f_equal. by apply Permutation_count_occ. Qed.

Lemma most_common_perm data data' m : data ≡ₚ data' → most_common data m → most_common data' m.
Proof.
  intros Hp [(b & Hb & Hm) Hle]. split.
  - exists b. by rewrite <-Hp.
  - intros x. by rewrite <-Hp.
Qed.

Lemma len_perm (data data' : bytes) : data ≡ₚ data' → len data = len data'.
Proof. intros Hp. unfold len. by rewrite Hp. Qed.

Lemma all_equal_occurrences data b : occurrences data b = len data ↔ data = repeat b (length data).
Proof.
  unfold occurrences, len. split.
  - intros Heq%Nat2Z.inj. by apply count_occ_unique in Heq.
  - intros ->. by rewrite count_occ_repeat_eq, repeat_length.
Qed.

(** *** Counting over all byte values *)

Definition all_bytes : bytes := Z.of_nat <$> seq 0 256.

Definition total (data l : bytes) : Z := foldr (λ b n, occurrences data b + n) 0 l.

Lemma elem_of_all_bytes b : b ∈ all_bytes ↔ is_byte b.
Proof.
  unfold all_bytes, is_byte. rewrite list_elem_of_fmap. split.
  - intros (n & -> & Hn%elem_of_seq). lia.
  - intros Hb. exists (Z.to_nat b). rewrite elem_of_seq. lia.
Qed.

Lemma NoDup_all_bytes : NoDup all_bytes.
Proof. apply NoDup_fmap_2; [apply _|apply NoDup_seq]. Qed.

Lemma total_absent x data l : x ∉ l → total (x :: data) l = total data l.
Proof.
  unfold total. induction l as [|b l IH]; [done|]. intros [Hne Hl]%not_elem_of_cons.
  cbn [foldr]. rewrite (IH Hl). change (x :: data) with ([x] ++ data).
  rewrite occurrences_app, occurrences_one, decide_False by done. lia.
Qed.

Lemma total_cons x data l : NoDup l → x ∈ l → total (x :: data) l = total data l + 1.
Proof.
  intros Hnd. induction l as [|b l IH]; [by intros ?%not_elem_of_nil|].
  apply NoDup_cons in Hnd as [Hb Hnd]. unfold total. cbn [foldr]. fold (total (x :: data) l).
  fold (total data l). change (x :: data) with ([x] ++ data) at 1.
  rewrite occurrences_app, occurrences_one.
  intros [->|Hx]%elem_of_cons.
  - rewrite decide_True, total_absent by done. lia.
  - rewrite decide_False by (by intros ->). rewrite (IH Hnd Hx). lia.
Qed.

Lemma total_all data : bytes_ok data → total data all_bytes = len data.
Proof.
  induction 1 as [|x data Hx _ IH]; [reflexivity|].
  rewrite total_cons, IH, len_cons; [done|apply NoDup_all_bytes|by apply elem_of_all_bytes].
Qed.

Lemma total_uniform data k l :
  (∀ b, b ∈ l → occurrences data b = k) → total data l = len l * k.
Proof.
  unfold total. induction l as [|b l IH]; intros Hk; [done|]. cbn [foldr].
  rewrite len_cons, IH, (Hk b); [lia|left|]. intros c Hc. apply Hk. by right.
Qed.

(** The Most Common Value estimate of up to 2^40 bytes is computed from the
    number [m] of occurrences of the most common byte: it is 0 when the data is
    constant, and -log2 of [m] over the length otherwise.  It does not depend on
    the order of the samples nor on the order in which the frequency map is
    visited, and on uniformly distributed bytes it is 8 bits, provided [Log2] is
    exact on 2^-8, as Go's implementation guarantees for powers of two. *)
Theorem EstimateMCV_spec data :
  data ≠ [] → len data ≤ 2 ^ 40 → Log2 (fdiv (of_int 1) (of_int 256)) = of_int (-8) →
  (∃ m, most_common data m ∧
    EstimateMCV data =
      (if m =? len data then of_int 0 else fneg (Log2 (fdiv (of_int m) (of_int (len data))))) ∧
    (m = len data ↔ ∃ b, data = repeat b (length data))) ∧
  (∀ data', data ≡ₚ data' → EstimateMCV data' = EstimateMCV data) ∧
  (∀ k, (∀ b, is_byte b → occurrences data b = k) → bytes_ok data → EstimateMCV data = of_int 8).
Proof.
  intros Hne Hl Hlog. destruct (most_common_exists data Hne) as [m Hm].
  pose proof (most_common_range _ _ Hm) as Hr. split_and!.
  - exists m. split_and!; [done|by apply EstimateMCV_eq|]. split.
    + intros ->. destruct Hm as [(b & _ & Hb) _]. exists b. by apply all_equal_occurrences.
    + intros [b Hb%all_equal_occurrences]. destruct Hm as [_ Hle]. specialize (Hle b). lia.
  - intros data' Hp. pose proof (len_perm _ _ Hp) as Hlen.
    rewrite (EstimateMCV_eq data m Hm Hl). rewrite Hlen in Hl |- *.
    by apply EstimateMCV_eq; [eapply most_common_perm|].
  - intros k Hk Hb. rewrite (EstimateMCV_eq data m Hm Hl).
    assert (Hlen : len data = 256 * k).
    { rewrite <-(total_all data Hb), (total_uniform _ k); [done|].
      intros b ?%elem_of_all_bytes. by apply Hk. }
    destruct Hm as [(b & Hb' & Hm) _]. rewrite Hk in Hm by (by eapply Forall_forall in Hb).
    subst m.
    destruct (Z.eqb_spec k (len data)); [lia|]. rewrite Hlen.
    rewrite (fdiv_cross k _ 1 256), Hlog by lia. reflexivity.
Qed.

Lemma EstimateMCVWithStats_eq data :
  data ≠ [] →
  let '(e, v, m, u) := EstimateMCVWithStats data in
  e = EstimateMCV data ∧ most_common data m ∧ occurrences data v = m ∧
  u = Z.of_nat (size (list_to_set data : gset Z)).
Proof.
  intros Hne. unfold EstimateMCVWithStats, EstimateMCV.
  destruct (Z.eqb_spec (len data) 0) as [E|_]; [by apply len_zero_iff in E|].
  set (entries := map_range (frequencies data)).
  pose proof (max_entry_value entries) as Hv.
  pose proof (max_entry_spec entries 0 0 (or_introl (conj eq_refl eq_refl))) as [_ Hin].
  fold (max_entry entries) in Hin.
  pose proof (max_value_most_common data entries Hne (map_range_perm _)) as Hm.
  destruct (max_entry entries) as [m v]. cbn [fst snd] in *. subst m.
  pose proof (most_common_range _ _ Hm). split_and!; [done|done| |].
  - destruct Hin as [Hz|Hin]; [simplify_eq; lia|].
    assert (Hin' : (v, max_value entries) ∈ map_to_list (frequencies data))
      by (by rewrite <-map_range_perm).
    rewrite elem_of_map_to_list, frequencies_lookup in Hin'. case_decide; naive_solver.
  - rewrite <-size_dom. do 2 f_equal. apply set_eq. intros b.
    rewrite elem_of_dom, frequencies_lookup, elem_of_list_to_set. case_decide; naive_solver.
Qed.

(** *** Collision *)

(** The data up to and including its first repeated byte [b]. *)
Definition first_collision (data pre : bytes) (b : Z) : Prop :=
  (∃ post, data = pre ++ b :: post) ∧ NoDup pre ∧ b ∈ pre.

Lemma collision_loop_spec data i seen pre :
  NoDup pre → seen = list_to_set pre → i = len pre →
  (NoDup (pre ++ data) ∧ collision_loop data i seen = (0, 0, list_to_set (pre ++ data))) ∨
  ∃ pre' b, first_collision (pre ++ data) pre' b ∧
    collision_loop data i seen = (len pre' + 1, b, list_to_set pre').
Proof.
  revert i seen pre. induction data as [|b data IH]; intros i seen pre Hnd -> ->; cbn [collision_loop].
  { left. by rewrite app_nil_r. }
  case_bool_decide as Hb; rewrite elem_of_list_to_set in Hb.
  - right. exists pre, b. split; [|done]. split_and!; [by exists data|done|done].
  - destruct (IH (len pre + 1) ({[b]} ∪ list_to_set pre) (pre ++ [b])) as [H1|H1].
    + apply NoDup_app. split_and!; [done| |apply NoDup_singleton].
      intros x Hx ->%list_elem_of_singleton. done.
    + rewrite list_to_set_app_L. set_solver.
    + by rewrite len_app.
    + left. by rewrite <-(assoc_L (++)) in H1.
    + right. by rewrite <-(assoc_L (++)) in H1.
Qed.

Lemma NoDup_bytes_length l : NoDup l → bytes_ok l → len l ≤ 256.
Proof.
  intros Hnd Hb. unfold len. assert (length l ≤ length all_bytes)%nat; [|by simpl in *; lia].
  apply submseteq_length, NoDup_submseteq; [done|].
  intros x Hx. apply elem_of_all_bytes. revert x Hx. by apply Forall_forall.
Qed.

Lemma first_collision_bounds data pre b :
  bytes_ok data → first_collision data pre b → 2 ≤ len pre + 1 ≤ 257.
Proof.
  intros Hb [(post & ->) [Hnd Hin]]. apply Forall_app in Hb as [Hb _].
  pose proof (NoDup_bytes_length pre Hnd Hb). destruct pre as [|x pre]; [by apply not_elem_of_nil in Hin|].
  rewrite len_cons in *. pose proof (len_nonneg pre). lia.
Qed.

Lemma first_collision_unique data pre b pre' b' :
  first_collision data pre b → first_collision data pre' b' → pre = pre' ∧ b = b'.
Proof.
  intros [(post & ->) [Hnd Hin]] [(post' & Heq) [Hnd' Hin']].
  assert (Hpre : pre = pre').
  { apply app_eq_inv in Heq as [(k & Hp & Hk)|(k & Hp & Hk)].
    - destruct k as [|c k]; [by rewrite app_nil_r in Hp|exfalso]. injection Hk as -> _.
      subst pre. apply NoDup_app in Hnd as (_ & Hnd & _). apply (Hnd c Hin'). left.
    - destruct k as [|c k]; [by rewrite app_nil_r in Hp|exfalso]. injection Hk as -> _.
      subst pre'. apply NoDup_app in Hnd' as (_ & Hnd' & _). apply (Hnd' c Hin). left. }
  subst pre'. split; [done|]. by apply app_inv_head in Heq as [= ->].
Qed.

Lemma clamp_bits_range e :
  flt (clamp_bits e) fzero = false ∧ flt (of_int 8) (clamp_bits e) = false.
Proof.
  unfold clamp_bits. destruct (flt (of_int 8) e) eqn:H1.
  - split; vm_compute; reflexivity.
  - destruct (flt e fzero) eqn:H2; [split; vm_compute; reflexivity|done].
Qed.

(** The Collision estimate of two or more bytes.  If all are distinct it is
    8; otherwise it is determined by the one-based position [t] of the first
    byte that repeats an earlier one, which is between 2 and 257: 1 when [t] is
    2 and log2 of [t] clamped to [0, 8] otherwise.  The diagnostic variant
    returns the same estimate with [t], the repeated byte and the number of
    distinct bytes before it. *)
Theorem EstimateCollision_spec data :
  bytes_ok data → 2 ≤ len data →
  (NoDup data → EstimateCollision data = of_int 8 ∧
    EstimateCollisionWithStats data = (of_int 8, 0, 0, len data)) ∧
  (∀ pre b, first_collision data pre b →
    let t := len pre + 1 in
    2 ≤ t ≤ 257 ∧
    EstimateCollision data = (if t =? 2 then of_int 1 else clamp_bits (Log2 (of_int t))) ∧
    EstimateCollisionWithStats data = (EstimateCollision data, t, b, len pre)) ∧
  (NoDup data ∨ ∃ pre b, first_collision data pre b) ∧
  flt (EstimateCollision data) fzero = false ∧ flt (of_int 8) (EstimateCollision data) = false.
Proof.
  intros Hb Hlen. unfold EstimateCollision.
  assert (Hbig : ∃ x y l, data = x :: y :: l).
  { destruct data as [|x [|y l]]; [done..|by exists x, y, l]. }
  assert (HW : EstimateCollisionWithStats data =
    let '(t, v, seen) := collision_loop data 0 ∅ in
    let u := Z.of_nat (size seen) in
    if t =? 0 then (of_int 8, 0, 0, u)
    else (if t =? 2 then of_int 1 else clamp_bits (Log2 (of_int t)), t, v, u)).
  { by destruct Hbig as (x & y & l & ->). }
  rewrite HW. destruct (Z.eqb_spec (len data) 0); [lia|].
  destruct (Z.eqb_spec (len data) 1); [lia|].
  assert (Hsize : ∀ l : bytes, NoDup l → Z.of_nat (size (list_to_set l : gset Z)) = len l)
    by (intros; by rewrite size_list_to_set).
  destruct (collision_loop_spec data 0 ∅ [] NoDup_nil_2 eq_refl eq_refl)
    as [[Hnd ->]|(pre & b & Hc & ->)]; rewrite ?app_nil_l in *.
  - split_and!; [intros _; cbn [Z.eqb]; by rewrite Hsize| |by left|done|done].
    intros pre b [(post & ->) [_ Hin]]. exfalso. apply NoDup_app in Hnd as (_ & Hnd & _).
    by apply (Hnd b Hin); left.
  - pose proof (first_collision_bounds _ _ _ Hb Hc) as Ht.
    destruct (Z.eqb_spec (len pre + 1) 0); [lia|]. split_and!.
    + intros Hnd. exfalso. destruct Hc as [(post & ->) [_ Hin]].
      apply NoDup_app in Hnd as (_ & Hnd & _). by apply (Hnd b Hin); left.
    + intros pre' b' Hc'. destruct (first_collision_unique _ _ _ _ _ Hc' Hc) as [-> ->].
      split_and!; [lia|lia|done|]. by rewrite Hsize by apply Hc.
    + right. by exists pre, b.
    + destruct (_ =? 2); [reflexivity|apply clamp_bits_range].
    + destruct (_ =? 2); [reflexivity|apply clamp_bits_range].
Qed.

(** The conservative estimate is one of the two, and neither is below it. *)
Lemma EstimateMinEntropyConservative_min data :
  let e := EstimateMinEntropyConservative data in
  (e = EstimateMCV data ∨ e = EstimateCollision data) ∧
  flt (EstimateMCV data) e = false ∧ flt (EstimateCollision data) e = false.
Proof.
  unfold EstimateMinEntropyConservative.
  destruct (flt (EstimateMCV data) (EstimateCollision data)) eqn:H1; split_and!; auto using flt_irrefl.
  by apply flt_asym.
Qed.
End operations.

(** ** Witnesses *)

(** Instances for the witnesses: [Log2] exact on powers of two, and the order of [map_to_list]. *)
Definition witness_math : MathLib := {|
  Erfc := λ x, x;
  Pow := λ x _, x;
  Log2 := λ x, match x with
    | S754_finite false 4503599627370496 e => of_int (e + 52)
    | _ => x
    end;
|}.

Definition witness_range : MapRange :=
  {| map_range := map_to_list; map_range_perm := λ m, Permutation_refl _ |}.

Lemma EstimateMCV_spec_witness :
  let H := witness_math in let R := witness_range in
  ([3; 3; 7] ≠ []) ∧ len [3; 3; 7] ≤ 2 ^ 40 ∧
  Log2 (fdiv (of_int 1) (of_int 256)) = of_int (-8) ∧
  EstimateMCV [7; 3; 3] = EstimateMCV [3; 3; 7].
Proof.
  intros H R. assert (H1 : [3; 3; 7] ≠ []) by discriminate.
  assert (H2 : len [3; 3; 7] ≤ 2 ^ 40) by (vm_compute; discriminate).
  assert (H3 : Log2 (fdiv (of_int 1) (of_int 256)) = of_int (-8)) by (vm_compute; reflexivity).
  pose proof (@EstimateMCV_spec H R [3; 3; 7] H1 H2 H3) as (_ & Hp & _).
  exact (conj H1 (conj H2 (conj H3 (Hp [7; 3; 3] (Permutation_rev [3; 3; 7]))))).
Defined.

Lemma EstimateCollision_spec_witness :
  let H := witness_math in
  bytes_ok [3; 5; 3] ∧ 2 ≤ len [3; 5; 3] ∧ flt (EstimateCollision [3; 5; 3]) fzero = false.
Proof.
  intros H. assert (H1 : bytes_ok [3; 5; 3]) by (repeat constructor; vm_compute; congruence).
  assert (H2 : 2 ≤ len [3; 5; 3]) by (vm_compute; discriminate).
  exact (conj H1 (conj H2 (proj1 (proj2 (proj2 (proj2 (@EstimateCollision_spec H [3; 5; 3] H1 H2))))))).
Defined.
