(* ===== verification/Sha256.v ===== *)
(** * SHA-256 (Go's crypto/sha256)

    FIPS 180-4, on lists of bytes; words are integers below 2^32. *)

From S2P Require Import Prelude.

Definition add32 (a b : Z) : Z := u32 (a + b).
Definition rotr (x n : Z) : Z := Z.lor (Z.shiftr x n) (u32 (Z.shiftl x (32 - n))).
Definition not32 (x : Z) : Z := maxUint32 - x.

(** The constants of the standard: the first 32 bits of the fractional parts of
    the cube roots of the first 64 primes, and of the square roots of the first 8. *)
Fixpoint cube_root (bits : nat) (r x : Z) : Z :=
  match bits with
  | O => r
  | S bits =>
      let r' := r + 2 ^ Z.of_nat bits in
      cube_root bits (if r' * r' * r' <=? x then r' else r) x
  end.

Definition is_prime (n : Z) : bool :=
  forallb (λ d, negb (n mod Z.of_nat d =? 0)) (seq 2 (Z.to_nat n - 2)).

Definition primes : list Z := filter (λ n, is_prime n = true) (Z.of_nat <$> seq 2 310).

Definition K256 : list Z := Eval vm_compute in (λ p, u32 (cube_root 36 0 (p * 2 ^ 96))) <$> primes.

Definition initial_hash : list Z := Eval vm_compute in (λ p, u32 (Z.sqrt (p * 2 ^ 64))) <$> take 8 primes.

(** A 32-bit word as four bytes, most significant first, and back. *)
Definition word_bytes (w : Z) : bytes :=
  [u8 (Z.shiftr w 24); u8 (Z.shiftr w 16); u8 (Z.shiftr w 8); u8 w].

Fixpoint words (l : bytes) : list Z :=
  match l with
  | a :: b :: c :: d :: l => (((a * 256 + b) * 256 + c) * 256 + d) :: words l
  | _ => []
  end.

(** The padding: 0x80, zeros, and the length in bits as 64 bits. *)
Definition pad (l : bytes) : bytes :=
  let n := len l in
  l ++ [0x80] ++ replicate (Z.to_nat ((55 - n) mod 64)) 0 ++
  word_bytes (Z.shiftr (u64 (n * 8)) 32) ++ word_bytes (u64 (n * 8)).

Definition sigma0 (x : Z) : Z := Z.lxor (Z.lxor (rotr x 7) (rotr x 18)) (Z.shiftr x 3).
Definition sigma1 (x : Z) : Z := Z.lxor (Z.lxor (rotr x 17) (rotr x 19)) (Z.shiftr x 10).
Definition Sigma0 (x : Z) : Z := Z.lxor (Z.lxor (rotr x 2) (rotr x 13)) (rotr x 22).
Definition Sigma1 (x : Z) : Z := Z.lxor (Z.lxor (rotr x 6) (rotr x 11)) (rotr x 25).

(** The message schedule, kept with the latest word first. *)
Fixpoint schedule (n : nat) (w : list Z) : list Z :=
  match n with
  | O => w
  | S n =>
      let at_ i := nth i w 0 in
      let new := add32 (add32 (sigma1 (at_ 1%nat)) (at_ 6%nat)) (add32 (sigma0 (at_ 14%nat)) (at_ 15%nat)) in
      schedule n (new :: w)
  end.

Record regs := mkRegs { ra : Z; rb : Z; rc : Z; rd : Z; re : Z; rf : Z; rg : Z; rh : Z }.

Definition round (r : regs) (kw : Z * Z) : regs :=
  let '(mkRegs a b c d e f g h) := r in
  let ch := Z.lxor (Z.land e f) (Z.land (not32 e) g) in
  let maj := Z.lxor (Z.lxor (Z.land a b) (Z.land a c)) (Z.land b c) in
  let t1 := add32 (add32 (add32 h (Sigma1 e)) (add32 ch kw.1)) kw.2 in
  let t2 := add32 (Sigma0 a) maj in
  mkRegs (add32 t1 t2) a b c (add32 d t1) e f g.

Definition load_regs (h : list Z) : regs :=
  let at_ i := nth i h 0 in
  mkRegs (at_ 0%nat) (at_ 1%nat) (at_ 2%nat) (at_ 3%nat) (at_ 4%nat) (at_ 5%nat) (at_ 6%nat) (at_ 7%nat).

Definition regs_list (r : regs) : list Z := [ra r; rb r; rc r; rd r; re r; rf r; rg r; rh r].

Definition block (h : list Z) (b : bytes) : list Z :=
  let w := rev (schedule 48 (rev (words b))) in
  let r := foldl round (load_regs h) (zip K256 w) in
  zip_with add32 (regs_list (load_regs h)) (regs_list r).

Fixpoint blocks (fuel : nat) (h : list Z) (l : bytes) : list Z :=
  match fuel, l with
  | S fuel, _ :: _ => blocks fuel (block h (take 64 l)) (drop 64 l)
  | _, _ => h
  end.

(** [sha256.Sum256(l)]; each block shortens the list, whose length is enough fuel. *)
Definition Sum256 (l : bytes) : bytes :=
  let p := pad l in
  blocks (length p) initial_hash p ≫= word_bytes.

Lemma length_block h b : length (block h b) = 8%nat.
Proof. reflexivity. Qed.

Lemma length_blocks fuel h l : length h = 8%nat → length (blocks fuel h l) = 8%nat.
Proof.
  revert h l. induction fuel as [|fuel IH]; intros h l Hh; simpl; [done|].
  destruct l; [done|]. by apply IH.
Qed.

Lemma word_bytes_ok w : bytes_ok (word_bytes w).
Proof. repeat constructor; unfold u8; apply Z.mod_pos_bound; lia. Qed.

Lemma len_word_bytes (ws : list Z) : len (ws ≫= word_bytes) = 4 * len ws.
Proof.
  induction ws as [|w ws IH]; [done|]. cbn [mbind list_bind]. rewrite len_app, IH, len_cons.
  change (len (word_bytes w)) with 4. lia.
Qed.

Lemma Sum256_len l : len (Sum256 l) = 32.
Proof.
  unfold Sum256. rewrite len_word_bytes. unfold len at 1. by rewrite length_blocks.
Qed.

Lemma Sum256_bytes l : bytes_ok (Sum256 l).
Proof.
  apply Forall_forall. intros b (w & Hb & _)%list_elem_of_bind.
  pose proof (word_bytes_ok w) as H. by eapply Forall_forall in H.
Qed.

(** The padded message is a whole number of blocks, so the fuel suffices. *)
Lemma pad_blocks l : (64 | len (pad l)).
Proof.
  unfold pad. rewrite !len_app. change (len (word_bytes _)) with 4.
  change (len [0x80]) with 1. unfold len at 2. rewrite length_replicate.
  pose proof (Z.mod_pos_bound (55 - len l) 64 ltac:(lia)). rewrite Z2Nat.id by lia.
  pose proof (Z.div_mod (55 - len l) 64 ltac:(lia)).
  exists (1 - (55 - len l) / 64). lia.
Qed.

Lemma blocks_fuel fuel k h l :
  (length l ≤ fuel)%nat → blocks (fuel + k) h l = blocks fuel h l.
Proof.
  revert h l. induction fuel as [|fuel IH]; intros h l Hl.
  - destruct l; [|simpl in Hl; lia]. by destruct k.
  - destruct l as [|x l]; [done|]. simpl. apply IH. rewrite length_drop. simpl in *. lia.
Qed.

(** FIPS 180-4 test vectors. *)
Example Sum256_abc : Sum256 [97; 98; 99] = [
  0xba; 0x78; 0x16; 0xbf; 0x8f; 0x01; 0xcf; 0xea; 0x41; 0x41; 0x40; 0xde; 0x5d; 0xae; 0x22; 0x23;
  0xb0; 0x03; 0x61; 0xa3; 0x96; 0x17; 0x7a; 0x9c; 0xb4; 0x10; 0xff; 0x61; 0xf2; 0x00; 0x15; 0xad].
Proof. vm_compute. reflexivity. Qed.

Example Sum256_two_blocks :
  take 4 (Sum256 (repeat 97 64)) = [0xff; 0xe0; 0x54; 0xfe].
Proof. vm_compute. reflexivity. Qed.

Example K256_length : length K256 = 64%nat ∧ last K256 = Some 0xc67178f2.
Proof. split; reflexivity. Qed.
