(* ===== verification/Whitening.v ===== *)
(** * Whitening (internal/entropy/whitening.go)

    The parity fold and SHA-256 conditioner of the dual-stage pipeline, the Von
    Neumann extractor, and the whitening statistics.  A nil slice is an empty
    list: the source only asks for lengths. *)

From S2P Require Import Prelude Float64 Proto HealthTests QuickTests Sha256.

(** ** Operations *)

(** [output[byteIndex] |= 1 << bitPosition]; the index is in range, see [packBits_bits]. *)
Definition set_bit (output : bytes) (index : Z) : bytes :=
  let byteIndex := Z.to_nat (index / 8) in
  let bitPosition := 7 - index mod 8 in
  match output !! byteIndex with
  | Some b => <[byteIndex := Z.lor b (Z.shiftl 1 bitPosition)]> output
  | None => output
  end.

Fixpoint pack_loop (bits : bytes) (index : Z) (output : bytes) : bytes :=
  match bits with
  | [] => output
  | bit :: bits =>
      pack_loop bits (index + 1) (if bit =? 0 then output else set_bit output index)
  end.

Definition packBits (bits : bytes) : bytes :=
  if len bits =? 0 then []
  else pack_loop bits 0 (replicate (Z.to_nat ((len bits + 7) / 8)) 0).

(** The loop over the four bit pairs of one byte. *)
Definition extract_pair (value : Z) (extractedBits : bytes) (pairIndex : Z) : bytes :=
  let firstBitIndex := 7 - pairIndex * 2 in
  let secondBitIndex := firstBitIndex - 1 in
  let firstBit := bit_at value firstBitIndex in
  let secondBit := bit_at value secondBitIndex in
  if firstBit =? secondBit then extractedBits
  else if firstBit =? 0 then extractedBits ++ [0]
  else extractedBits ++ [1].

Definition extract_value (extractedBits : bytes) (value : Z) : bytes :=
  foldl (extract_pair value) extractedBits [0; 1; 2; 3].

Definition VonNeumannExtractor (input : bytes) : bytes :=
  if len input =? 0 then []
  else
    let extractedBits := foldl extract_value [] input in
    if len extractedBits =? 0 then [] else packBits extractedBits.

Definition SHA256Conditioner (input : bytes) : bytes :=
  if len input =? 0 then [] else Sum256 input.

Fixpoint xor_fold (input : bytes) : bytes :=
  match input with
  | a :: ((b :: _) as rest) => Z.lxor a b :: xor_fold rest
  | _ => []
  end.

Definition ParityPreprocess (input : bytes) : bytes :=
  if len input <? 2 then [] else xor_fold input.

Definition DualStageWhitening (rawTDC : bytes) : bytes :=
  let stageOne := ParityPreprocess rawTDC in
  if len stageOne =? 0 then [] else SHA256Conditioner stageOne.

Definition toBitCount (bytesCount : Z) : Z :=
  if bytesCount <=? 0 then 0
  else if maxUint32 / 8 <=? bytesCount then maxUint32
  else u32 (Z.shiftl (u32 bytesCount) 3).

Definition ComputeWhiteningStats (inputBytes outputBytes : Z) : WhiteningStats :=
  if inputBytes =? 0 then mkWhiteningStats 0 0 (of_int 0)
  else
    let inputBits := toBitCount inputBytes in
    let outputBits := toBitCount outputBytes in
    let extractionRate :=
      if 0 <? inputBits then fdiv (of_int outputBits) (of_int inputBits) else fzero in
    mkWhiteningStats inputBits outputBits extractionRate.

(** ** The parity fold *)

Lemma xor_fold_cons a b l : xor_fold (a :: b :: l) = Z.lxor a b :: xor_fold (b :: l).
Proof. done. Qed.

Lemma len_xor_fold x l : len (xor_fold (x :: l)) = len l.
Proof. revert x. induction l as [|y l IH]; intros x; [done|]. by rewrite xor_fold_cons, !len_cons, IH. Qed.

Lemma len_ParityPreprocess l : len (ParityPreprocess l) = Z.max 0 (len l - 1).
Proof.
  unfold ParityPreprocess. destruct l as [|x l]; [done|].
  destruct (Z.ltb_spec (len (x :: l)) 2) as [H|H]; rewrite len_cons in *; pose proof (len_nonneg l).
  - rewrite len_nil. lia.
  - rewrite len_xor_fold. lia.
Qed.

Lemma ParityPreprocess_fold l : ParityPreprocess l = xor_fold l.
Proof.
  unfold ParityPreprocess. destruct (Z.ltb_spec (len l) 2); [|done].
  destruct l as [|x [|y l]]; [done..|]. rewrite !len_cons in *. pose proof (len_nonneg l). lia.
Qed.

Lemma xor_fold_lookup l i a b :
  l !! i = Some a → l !! S i = Some b → xor_fold l !! i = Some (Z.lxor a b).
Proof.
  revert l. induction i as [|i IH]; intros [|x [|y l]] Ha Hb; try done; [|by apply IH].
  cbn in *. by simplify_eq.
Qed.

Lemma lxor_byte a b : is_byte a → is_byte b → is_byte (Z.lxor a b).
Proof.
  unfold is_byte. intros Ha Hb. split; [by apply Z.lxor_nonneg; lia|].
  destruct (Z.eq_dec (Z.lxor a b) 0) as [->|]; [lia|].
  assert (0 ≤ Z.lxor a b) by (apply Z.lxor_nonneg; lia).
  change 256 with (2 ^ 8). apply Z.log2_lt_pow2; [lia|].
  pose proof (Z.log2_lxor a b ltac:(lia) ltac:(lia)).
  assert (∀ x, 0 ≤ x < 256 → Z.log2 x < 8) as Hl.
  { intros x Hx. destruct (Z.eq_dec x 0) as [->|]; [done|]. apply Z.log2_lt_pow2; lia. }
  pose proof (Hl a Ha). pose proof (Hl b Hb). lia.
Qed.

Lemma xor_fold_shift c l : xor_fold (Z.lxor c <$> l) = xor_fold l.
Proof.
  induction l as [|a [|b l] IH]; [done..|]. rewrite !fmap_cons, !xor_fold_cons in *. rewrite IH.
  f_equal. rewrite <-(Z.lxor_assoc (Z.lxor c a)), (Z.lxor_comm c a), (Z.lxor_assoc a c c).
  by rewrite Z.lxor_nilpotent, Z.lxor_0_r.
Qed.

Lemma lxor_cancel_l a b : Z.lxor (Z.lxor a b) a = b.
Proof. by rewrite (Z.lxor_comm a b), Z.lxor_assoc, Z.lxor_nilpotent, Z.lxor_0_r. Qed.

Lemma xor_fold_inj a l b m :
  length l = length m → xor_fold (a :: l) = xor_fold (b :: m) →
  b :: m = Z.lxor (Z.lxor a b) <$> a :: l.
Proof.
  revert a b m. induction l as [|x l IH]; intros a b [|y m] Hl Heq; try done.
  { cbn. by rewrite lxor_cancel_l. }
  rewrite !xor_fold_cons in Heq. injection Heq as Hxy Heq. injection Hl as Hl.
  rewrite fmap_cons, lxor_cancel_l. f_equal.
  rewrite (IH x y m Hl Heq).
  assert (Z.lxor x y = Z.lxor a b) as ->; [|done].
  apply (f_equal (Z.lxor a)) in Hxy. rewrite <-!Z.lxor_assoc, Z.lxor_nilpotent, Z.lxor_0_l in Hxy.
  rewrite Hxy. rewrite (Z.lxor_comm a b), !Z.lxor_assoc. f_equal.
  by rewrite Z.lxor_nilpotent, Z.lxor_0_r.
Qed.

(** ** Packing bits *)

Lemma bit_at_testbit b i : 0 ≤ i → bit_at b i = Z.b2z (Z.testbit b i).
Proof.
  intros Hi. unfold bit_at. pose proof (Z.land_ones (b ≫ i) 1 ltac:(done)) as H.
  change (Z.ones 1) with 1 in H. change (2 ^ 1) with 2 in H.
  rewrite H, <-Z.bit0_mod, Z.shiftr_spec by done. done.
Qed.

Lemma bit_at_lor b p q :
  0 ≤ p → 0 ≤ q → bit_at (Z.lor b (Z.shiftl 1 p)) q = if decide (q = p) then 1 else bit_at b q.
Proof.
  intros Hp Hq. rewrite !bit_at_testbit, Z.lor_spec, Z.shiftl_spec by done.
  case_decide as Hd.
  - subst. rewrite Z.sub_diag. by rewrite orb_true_r.
  - destruct (Z.lt_ge_cases q p).
    + rewrite (Z.testbit_neg_r 1) by lia. by rewrite orb_false_r.
    + rewrite (Z.bits_above_log2 1) by (simpl; lia). by rewrite orb_false_r.
Qed.

Lemma byte_bits_lookup b n : (n < 8)%nat → byte_bits b !! n = Some (bit_at b (7 - Z.of_nat n)).
Proof. intros Hn. do 8 (destruct n as [|n]; [done|]). lia. Qed.

Lemma bits_of_lookup data n :
  bits_of data !! n = (λ b, bit_at b (7 - Z.of_nat (n mod 8))) <$> data !! (n / 8)%nat.
Proof.
  revert n. induction data as [|b data IH]; intros n; [done|].
  unfold bits_of. cbn [mbind list_bind]. fold (bits_of data).
  destruct (decide (n < 8)%nat) as [Hn|Hn].
  - rewrite lookup_app_l by (change (n < 8)%nat; done).
    rewrite Nat.mod_small, Nat.div_small by done. by apply byte_bits_lookup.
  - rewrite lookup_app_r by (change (8 ≤ n)%nat; lia). change (length (byte_bits b)) with 8%nat.
    assert (E : n = ((n - 8) + 1 * 8)%nat) by lia.
    assert (n mod 8 = (n - 8) mod 8)%nat as -> by (rewrite E at 1; apply Nat.Div0.mod_add).
    assert (n / 8 = S ((n - 8) / 8))%nat as -> by (rewrite E at 1; rewrite Nat.div_add; lia).
    apply IH.
Qed.

Lemma bits_of_set_bit data n :
  (n < 8 * length data)%nat → bits_of (set_bit data (Z.of_nat n)) = <[n := 1]> (bits_of data).
Proof.
  intros Hn. apply list_eq. intros i. unfold set_bit.
  assert (Hdiv : Z.to_nat (Z.of_nat n / 8) = (n / 8)%nat).
  { change 8 with (Z.of_nat 8). by rewrite <-Nat2Z.inj_div, Nat2Z.id. }
  assert (Hmod : Z.of_nat n mod 8 = Z.of_nat (n mod 8)).
  { change 8 with (Z.of_nat 8) at 1. by rewrite <-Nat2Z.inj_mod. }
  rewrite Hdiv, Hmod.
  assert (Hb : (n / 8 < length data)%nat) by (apply Nat.Div0.div_lt_upper_bound; lia).
  destruct (lookup_lt_is_Some_2 data _ Hb) as [b Hlook]. rewrite Hlook, bits_of_lookup.
  pose proof (Nat.mod_upper_bound n 8 ltac:(lia)) as Hn8.
  pose proof (Nat.mod_upper_bound i 8 ltac:(lia)) as Hi8.
  pose proof (Nat.div_mod n 8 ltac:(lia)) as En. pose proof (Nat.div_mod i 8 ltac:(lia)) as Ei.
  destruct (decide (i = n)) as [->|Hne].
  - rewrite list_lookup_insert_eq by done. cbn. rewrite bit_at_lor, decide_True by lia.
    rewrite list_lookup_insert_eq; [done|].
    pose proof (len_bits_of data). unfold len in *. lia.
  - rewrite (list_lookup_insert_ne (bits_of data)) by done. rewrite bits_of_lookup.
    destruct (decide (i / 8 = n / 8)%nat) as [Heq|Hd].
    + rewrite Heq, Hlook, list_lookup_insert_eq by done. cbn [fmap option_fmap option_map].
      rewrite bit_at_lor, decide_False by lia. done.
    + by rewrite list_lookup_insert_ne by done.
Qed.

Lemma length_set_bit data i : length (set_bit data i) = length data.
Proof. unfold set_bit. case_match; [apply length_insert|done]. Qed.

Lemma pack_loop_bits bits done out k :
  Forall (λ b, b = 0 ∨ b = 1) bits →
  bits_of out = done ++ replicate (length bits + k) 0 →
  bits_of (pack_loop bits (Z.of_nat (length done)) out) = done ++ bits ++ replicate k 0.
Proof.
  revert done out. induction bits as [|b bits IH]; intros done_ out Hb Hout; [done|].
  apply Forall_cons in Hb as [Hb Hbs]. cbn [pack_loop].
  replace (Z.of_nat (length done_) + 1) with (Z.of_nat (length (done_ ++ [b])))
    by (rewrite length_app; simpl; lia).
  rewrite IH; [by rewrite <-(assoc_L (++))|done|].
  assert (Hlen : (length done_ < 8 * length out)%nat).
  { pose proof (len_bits_of out) as Hl. unfold len in Hl. rewrite Hout in Hl.
    rewrite length_app, length_replicate in Hl. simpl in Hl. lia. }
  destruct Hb as [-> | ->]; cbn [Z.eqb].
  - rewrite Hout, <-(assoc_L (++)). done.
  - rewrite bits_of_set_bit, Hout by done. cbn [length Nat.add replicate].
    rewrite insert_app_r_alt, Nat.sub_diag by lia. by rewrite <-(assoc_L (++)).
Qed.

Lemma packBits_bits bits :
  Forall (λ b, b = 0 ∨ b = 1) bits →
  bits_of (packBits bits) = bits ++ replicate (Z.to_nat ((- len bits) mod 8)) 0.
Proof.
  intros Hb. unfold packBits. destruct (Z.eqb_spec (len bits) 0) as [->%len_zero_iff|Hn]; [done|].
  pose proof (len_nonneg bits).
  change 0 with (Z.of_nat (length (@nil Z))) at 2.
  rewrite (pack_loop_bits bits [] _ (Z.to_nat ((- len bits) mod 8))); [done|done|].
  pose proof (Z.div_mod (len bits + 7) 8 ltac:(lia)) as H1.
  pose proof (Z.mod_pos_bound (len bits + 7) 8 ltac:(lia)).
  pose proof (Z.div_mod (- len bits) 8 ltac:(lia)) as H2.
  pose proof (Z.mod_pos_bound (- len bits) 8 ltac:(lia)).
  assert (Hz : ∀ n, bits_of (replicate n 0) = replicate (n * 8) 0).
  { induction n as [|n IH]; [done|]. unfold bits_of in *. cbn [replicate mbind list_bind].
    rewrite IH. done. }
  rewrite Hz, app_nil_l. f_equal. unfold len in *. lia.
Qed.

(** ** Von Neumann extraction *)

(** The reference: the first bit of each unequal pair of the bit stream. *)
Fixpoint von_neumann (bs : list Z) : list Z :=
  match bs with
  | a :: b :: bs => (if a =? b then [] else [a]) ++ von_neumann bs
  | _ => []
  end.

Fixpoint swap_pairs (bs : list Z) : list Z :=
  match bs with a :: b :: bs => b :: a :: swap_pairs bs | _ => bs end.

Lemma von_neumann_cons a b l :
  von_neumann (a :: b :: l) = (if a =? b then [] else [a]) ++ von_neumann l.
Proof. done. Qed.

Lemma extract_pair_eq value acc p :
  0 ≤ p < 4 →
  extract_pair value acc p = acc ++ von_neumann [bit_at value (7 - p * 2); bit_at value (6 - p * 2)].
Proof.
  intros Hp. unfold extract_pair. replace (7 - p * 2 - 1) with (6 - p * 2) by lia.
  rewrite von_neumann_cons, app_nil_r.
  pose proof (bit_at_range value (7 - p * 2)). set (x := bit_at value (7 - p * 2)) in *.
  destruct (x =? _); [by rewrite app_nil_r|].
  destruct (Z.eqb_spec x 0) as [->|]; [done|]. by replace x with 1 by lia.
Qed.

Lemma extract_byte value acc :
  extract_value acc value = acc ++ von_neumann (byte_bits value).
Proof.
  unfold extract_value. cbn [foldl]. rewrite !extract_pair_eq, <-!(assoc_L (++)) by lia. f_equal.
  unfold byte_bits. rewrite !fmap_cons, fmap_nil, !von_neumann_cons.
  change (von_neumann []) with (@nil Z). by rewrite !app_nil_r.
Qed.

Lemma von_neumann_byte value l :
  von_neumann (byte_bits value ++ l) = von_neumann (byte_bits value) ++ von_neumann l.
Proof.
  unfold byte_bits. rewrite !fmap_cons, fmap_nil. cbn [app]. rewrite !von_neumann_cons.
  change (von_neumann []) with (@nil Z). by rewrite app_nil_r, <-!(assoc_L (++)).
Qed.

Lemma extract_bytes input acc :
  foldl extract_value acc input = acc ++ von_neumann (bits_of input).
Proof.
  revert acc. induction input as [|value input IH]; intros acc.
  { cbn. by rewrite app_nil_r. }
  cbn [foldl]. rewrite IH, extract_byte. unfold bits_of. cbn [mbind list_bind].
  by rewrite von_neumann_byte, (assoc_L (++)).
Qed.

Lemma von_neumann_bits bs :
  Forall (λ b, 0 ≤ b ≤ 1) bs → Forall (λ b, b = 0 ∨ b = 1) (von_neumann bs).
Proof.
  enough (∀ n bs, (length bs ≤ n)%nat → Forall (λ b, 0 ≤ b ≤ 1) bs →
    Forall (λ b, b = 0 ∨ b = 1) (von_neumann bs)) as H by (by apply (H (length bs))).
  clear bs. induction n as [|n IH]; intros [|a [|b bs]] Hn Hb; simpl in Hn; try (by constructor); [lia|].
  rewrite von_neumann_cons. apply Forall_cons in Hb as [Ha [_ Hb]%Forall_cons].
  apply Forall_app. split; [destruct (a =? b); [by constructor|apply Forall_singleton; lia]|]. apply IH; [lia|done].
Qed.

Lemma von_neumann_swap bs :
  Forall (λ b, 0 ≤ b ≤ 1) bs →
  von_neumann (swap_pairs bs) = (λ b, 1 - b) <$> von_neumann bs.
Proof.
  enough (∀ n bs, (length bs ≤ n)%nat → Forall (λ b, 0 ≤ b ≤ 1) bs →
    von_neumann (swap_pairs bs) = (λ b, 1 - b) <$> von_neumann bs) as H
    by (by apply (H (length bs))).
  clear bs. induction n as [|n IH]; intros [|a [|b bs]] Hn Hb; simpl in Hn; try done; [lia|].
  apply Forall_cons in Hb as [Ha [Hb Hbs]%Forall_cons]. cbn [swap_pairs].
  rewrite !von_neumann_cons, fmap_app, IH by (lia || done). f_equal.
  rewrite (Z.eqb_sym b a). destruct (Z.eqb_spec a b); [done|]. cbn. f_equal. lia.
Qed.

Lemma DualStageWhitening_digest l :
  2 ≤ len l →
  DualStageWhitening l = Sum256 (ParityPreprocess l) ∧
  len (DualStageWhitening l) = 32 ∧ bytes_ok (DualStageWhitening l).
Proof.
  pose proof (len_ParityPreprocess l) as Hlen. intros Hl.
  assert (HD : DualStageWhitening l = Sum256 (ParityPreprocess l)).
  { unfold DualStageWhitening, SHA256Conditioner.
    destruct (Z.eqb_spec (len (ParityPreprocess l)) 0); [lia|done]. }
  rewrite HD. split_and!; [done|apply Sum256_len|apply Sum256_bytes].
Qed.

(** ** Properties *)

(** C36: dual-stage whitening returns nothing on fewer than two bytes and 32
    bytes otherwise: the SHA-256 digest of the fold that replaces each pair of
    adjacent bytes by its exclusive or.  The fold loses exactly one byte: two
    inputs of one length are folded alike, and so whitened alike, exactly when
    one is the other with every byte exclusive-ored with one constant.  The Von
    Neumann extractor, which api/openapi.yaml and the comment on WhiteningStats
    in api/proto/v1/entropy.proto name as the first stage, has no part in it. *)
Theorem DualStageWhitening_spec l :
  (len l < 2 → DualStageWhitening l = []) ∧
  (2 ≤ len l →
    DualStageWhitening l = Sum256 (ParityPreprocess l) ∧
    len (DualStageWhitening l) = 32 ∧ bytes_ok (DualStageWhitening l) ∧
    len (ParityPreprocess l) = len l - 1 ∧
    (∀ i a b, l !! i = Some a → l !! S i = Some b → ParityPreprocess l !! i = Some (Z.lxor a b)) ∧
    (∀ m, len m = len l →
      ParityPreprocess m = ParityPreprocess l ↔ ∃ c, m = Z.lxor c <$> l)).
Proof.
  pose proof (len_ParityPreprocess l) as Hlen. split; intros Hl.
  - unfold DualStageWhitening. destruct (Z.eqb_spec (len (ParityPreprocess l)) 0); [done|lia].
  - destruct (DualStageWhitening_digest l Hl) as (? & ? & ?). split_and!; [done..|lia| |].
    + intros i a b. rewrite ParityPreprocess_fold. apply xor_fold_lookup.
    + intros m Hm. rewrite !ParityPreprocess_fold. split.
      * destruct l as [|a l]; [done|]. destruct m as [|b m]; [by rewrite <-Hm in Hl|].
        intros Hf. exists (Z.lxor a b). symmetry in Hf. apply xor_fold_inj in Hf; [done|].
        unfold len in Hm. simpl in Hm. lia.
      * intros [c ->]. apply xor_fold_shift.
Qed.

(** The Von Neumann extractor outputs, packed most significant bit first
    and padded with zeros to whole bytes, the first bit of every unequal pair of
    input bits; exchanging the two bits of every pair, which are equally likely
    orders for independent bits, complements the extracted bits. *)
Theorem VonNeumannExtractor_spec input :
  let extracted := von_neumann (bits_of input) in
  bits_of (VonNeumannExtractor input) =
    extracted ++ replicate (Z.to_nat ((- len extracted) mod 8)) 0 ∧
  von_neumann (swap_pairs (bits_of input)) = (λ b, 1 - b) <$> extracted.
Proof.
  intros extracted. split; [|apply von_neumann_swap, bits_range].
  unfold VonNeumannExtractor. rewrite extract_bytes, app_nil_l. fold extracted.
  destruct (Z.eqb_spec (len input) 0) as [->%len_zero_iff|_]; [done|].
  destruct (Z.eqb_spec (len extracted) 0) as [->%len_zero_iff|_]; [done|].
  apply packBits_bits, von_neumann_bits, bits_range.
Qed.

Lemma toBitCount_small n : 0 ≤ n < 536870911 → toBitCount n = n * 8.
Proof.
  intros Hn. unfold toBitCount. change (maxUint32 / 8) with 536870911.
  destruct (Z.leb_spec n 0); [lia|]. destruct (Z.leb_spec 536870911 n); [lia|].
  rewrite (u32_id n) by (unfold is_u32; lia). rewrite Z.shiftl_mul_pow2 by done.
  apply u32_id. unfold is_u32. lia.
Qed.

Lemma toBitCount_range n : is_u32 (toBitCount n).
Proof. unfold toBitCount. split_cases; [done|done|apply u32_range]. Qed.

(** The whitening statistics: bit counts never wrap around: they are eight
    times the byte counts below 536870911 bytes and saturate at 2^32-1 from
    there on (one byte count earlier than the overflow); with no input all is
    zero, and below the saturation the rate is the ratio of the byte counts. *)
Theorem ComputeWhiteningStats_spec inputBytes outputBytes :
  let s := ComputeWhiteningStats inputBytes outputBytes in
  is_u32 (InputBits s) ∧ is_u32 (OutputBits s) ∧
  (inputBytes = 0 → s = mkWhiteningStats 0 0 fzero) ∧
  (inputBytes ≠ 0 → InputBits s = toBitCount inputBytes ∧ OutputBits s = toBitCount outputBytes) ∧
  (inputBytes < 0 → InputBits s = 0 ∧ ExtractionRate s = fzero) ∧
  (0 < inputBytes < 536870911 → 0 ≤ outputBytes < 536870911 →
    InputBits s = inputBytes * 8 ∧ OutputBits s = outputBytes * 8 ∧
    ExtractionRate s = fdiv (of_int outputBytes) (of_int inputBytes)) ∧
  (536870911 ≤ inputBytes → InputBits s = maxUint32) ∧
  (536870911 * 8 ≤ maxUint32 ∧ toBitCount 536870911 ≠ 536870911 * 8).
Proof.
  intros s. subst s. unfold ComputeWhiteningStats.
  destruct (Z.eqb_spec inputBytes 0) as [->|Hne].
  { split_and!; try done; lia. }
  assert (Hneg : inputBytes < 0 → toBitCount inputBytes = 0).
  { intros. unfold toBitCount. by destruct (Z.leb_spec inputBytes 0); [|lia]. }
  cbn [InputBits OutputBits ExtractionRate].
  split_and!; try apply toBitCount_range; try done.
  - intros H. by rewrite (Hneg H).
  - intros Hi Ho. rewrite !toBitCount_small by lia. split_and!; [done|done|].
    destruct (Z.ltb_spec 0 (inputBytes * 8)); [|lia]. apply fdiv_cross; lia.
  - intros H. unfold toBitCount. change (maxUint32 / 8) with 536870911.
    destruct (Z.leb_spec inputBytes 0); [lia|]. by destruct (Z.leb_spec 536870911 inputBytes); [|lia].
Qed.
