(* ===== verification/MqttHandler.v ===== *)
(** * MQTT message handler (internal/mqtt/handler.go)

    [OnMessage] turns a message into calls on the metrics and on the collector
    it was given; the collector is seen through its interface, as the calls
    [Add] and [IncrementDropped]. *)

From S2P Require Import Prelude GoStrings Float64 Clock Metrics.

Record TDCEvent := mkTDCEvent {
  RpiTimestampUs : Z;
  Channel : Z;
  TdcTimestampPs : Z;
  DeltaPs : option Z;
  Flags : option Z;
}.

#[export] Instance TDCEvent_eq_dec : EqDecision TDCEvent.
Proof. solve_decision. Defined.

Definition zeroEvent : TDCEvent := mkTDCEvent 0 0 0 None None.

(** The interface [Collector]. *)
Inductive collector_call :=
| Add (event : TDCEvent)
| IncrementDropped (count : Z).

(** What the handler does, in order. *)
Inductive rx_call :=
| Prom (c : prom_call)
| Coll (c : collector_call).

(** What a call reads from the clock: [timeNowMicros()] and the time elapsed
    since the call began. *)
Record readings := mkReadings { timeNowMicros : Z; elapsed : Z }.

Section handler.
Context `{GoUnicode}.

Definition isMetaTopic (topic : string) : bool := HasSuffix (ToLower (TrimSpace topic)) "/meta".

Definition extractChannelFromTopic (topic : string) : Z :=
  let parts := Split topic "/"%char in
  match last parts with
  | None => 0
  | Some lastPart => match ParseUint lastPart 32 with Ok ch => u32 ch | Err _ => 0 end
  end.

Definition nowMicrosSafe (now : readings) : Z :=
  let ts := timeNowMicros now in if ts <=? 0 then 0 else u64 ts.

Definition parseRawTimestamp (now : readings) (topic : string) (payload : bytes) : result TDCEvent :=
  let timestampStr := TrimSpace (string_of_bytes payload) in
  timestamp ← ParseUint timestampStr 64;
  let channel := extractChannelFromTopic topic in
  let rpiTimestamp := nowMicrosSafe now in
  mret (mkTDCEvent rpiTimestamp channel timestamp None None).

(** [collector] tells whether [handler.Collector] is not nil. *)
Definition OnMessage (collector : bool) (now : readings) (topic : string) (payload : bytes)
    : list rx_call :=
  (Prom <$> RecordMQTTMessage) ++
  if isMetaTopic topic then []
  else
    match parseRawTimestamp now topic payload with
    | Err _ =>
        (Prom <$> RecordEventDropped "parse_error") ++
        (if collector then [Coll (IncrementDropped 1)] else [])
    | Ok event =>
        if TdcTimestampPs event =? 0 then
          (Prom <$> RecordEventDropped "invalid_timestamp") ++
          (if collector then [Coll (IncrementDropped 1)] else [])
        else
          (Prom <$> RecordEvent (Channel event) ++ RecordFormatType "raw_timestamp" ++
            RecordChannelEvent (Channel event)) ++
          (if collector then [Coll (Add event)] else []) ++
          (let latencyMicros := Microseconds (elapsed now) in
           if 0 <? latencyMicros then [Prom (Observe ProcessingLatency (of_int latencyMicros))]
           else [])
    end.

(** ** Specification *)

(** What a message means: metadata, an invalid message or an event. *)
Inductive message := MetaMessage | BadMessage | EventMessage (channel timestamp : Z).

(** The channel of a topic: its last segment when this is a decimal number below 2^32. *)
Definition channel_spec (topic : string) : Z :=
  match decimal (default EmptyString (last (Split topic "/"%char))) with
  | Some ch => if ch <? 2 ^ 32 then ch else 0
  | None => 0
  end.

Definition classify (topic : string) (payload : bytes) : message :=
  if isMetaTopic topic then MetaMessage
  else
    match decimal (TrimSpace (string_of_bytes payload)) with
    | Some ts => if (0 <? ts) && (ts <? 2 ^ 64) then EventMessage (channel_spec topic) ts else BadMessage
    | None => BadMessage
    end.

Definition collector_calls (cs : list rx_call) : list collector_call :=
  omap (λ c, match c with Coll c => Some c | Prom _ => None end) cs.

Definition prom_calls (cs : list rx_call) : list prom_call :=
  omap (λ c, match c with Prom c => Some c | Coll _ => None end) cs.

(** How many events a list of calls counts as dropped. *)
Definition dropped_events (cs : list prom_call) : Z :=
  foldr (λ c n, match c with Inc EventsDropped _ => 1 | _ => 0 end + n) 0 cs.

Definition processed_events (cs : list prom_call) : Z :=
  foldr (λ c n, match c with Inc EventsProcessed _ => 1 | _ => 0 end + n) 0 cs.

Lemma Split_last_nonempty s c : ∃ p, last (Split s c) = Some p.
Proof.
  destruct (last (Split s c)) eqn:Hl; [by eauto|]. apply last_None in Hl.
  destruct s as [|a s]; [done|]. simpl in Hl. destruct (Ascii.eqb a c); [done|].
  by destruct (Split s c).
Qed.

Lemma ParseUint_decimal s bits :
  0 ≤ bits ≤ 64 →
  match ParseUint s bits with
  | Ok v => decimal s = Some v ∧ 0 ≤ v < 2 ^ bits
  | Err _ => ∀ v, decimal s = Some v → 2 ^ bits ≤ v
  end.
Proof.
  intros Hb. unfold ParseUint. destruct (ParseUint_as "ParseUint" s bits) as [v|e] eqn:Hp.
  - apply ParseUint_as_ok in Hp as [Hd Hv]; [|done]. pose proof (decimal_nonneg _ _ Hd). done.
  - intros v Hv. destruct (Z.lt_ge_cases v (2 ^ bits)) as [Hlt|]; [|done].
    assert (ParseUint_as "ParseUint" s bits = Ok v) by (by apply ParseUint_as_ok). congruence.
Qed.

Lemma extractChannelFromTopic_spec topic : extractChannelFromTopic topic = channel_spec topic.
Proof.
  unfold extractChannelFromTopic, channel_spec.
  destruct (Split_last_nonempty topic "/"%char) as [p ->]. cbn [default from_option id].
  pose proof (ParseUint_decimal p 32 ltac:(lia)) as Hp.
  destruct (ParseUint p 32) as [v|].
  - destruct Hp as [-> Hv]. destruct (Z.ltb_spec v (2 ^ 32)); [|lia]. by apply u32_id.
  - destruct (decimal p) as [v|]; [|done]. specialize (Hp v eq_refl).
    by destruct (Z.ltb_spec v (2 ^ 32)); [lia|].
Qed.

Lemma nowMicrosSafe_spec now :
  is_i64 (timeNowMicros now) → nowMicrosSafe now = Z.max 0 (timeNowMicros now).
Proof.
  unfold nowMicrosSafe, is_i64, u64. intros Hr.
  destruct (Z.leb_spec (timeNowMicros now) 0); [lia|]. rewrite Z.mod_small; lia.
Qed.

Lemma prom_calls_prom l : prom_calls (Prom <$> l) = l.
Proof. induction l as [|c l IH]; [done|]. cbn. by f_equal. Qed.

Lemma collector_calls_prom l : collector_calls (Prom <$> l) = [].
Proof. by induction l. Qed.

Lemma collector_calls_app l1 l2 : collector_calls (l1 ++ l2) = collector_calls l1 ++ collector_calls l2.
Proof. unfold collector_calls. apply omap_app. Qed.

Lemma parseRawTimestamp_spec now topic payload :
  is_i64 (timeNowMicros now) →
  match parseRawTimestamp now topic payload with
  | Ok e => decimal (TrimSpace (string_of_bytes payload)) = Some (TdcTimestampPs e) ∧
      0 ≤ TdcTimestampPs e < 2 ^ 64 ∧
      e = mkTDCEvent (Z.max 0 (timeNowMicros now)) (channel_spec topic) (TdcTimestampPs e) None None
  | Err _ => ∀ ts, decimal (TrimSpace (string_of_bytes payload)) = Some ts → 2 ^ 64 ≤ ts
  end.
Proof.
  intros Hnow. unfold parseRawTimestamp.
  pose proof (ParseUint_decimal (TrimSpace (string_of_bytes payload)) 64 ltac:(lia)) as Hp.
  destruct (ParseUint _ 64) as [ts|e]; [|exact Hp]. destruct Hp as [Hd Hts].
  cbn [mbind result_bind mret result_ret TdcTimestampPs].
  by rewrite nowMicrosSafe_spec, extractChannelFromTopic_spec by done.
Qed.

(** The calls for a message that is not an event. *)
Definition drop_calls (collector : bool) (reason : string) : list rx_call :=
  (Prom <$> RecordMQTTMessage) ++ (Prom <$> RecordEventDropped reason) ++
  (if collector then [Coll (IncrementDropped 1)] else []).

Definition event_calls (collector : bool) (now : readings) (e : TDCEvent) : list rx_call :=
  (Prom <$> RecordMQTTMessage) ++
  (Prom <$> RecordEvent (Channel e) ++ RecordFormatType "raw_timestamp" ++
    RecordChannelEvent (Channel e)) ++
  (if collector then [Coll (Add e)] else []) ++
  (if 0 <? Microseconds (elapsed now)
   then [Prom (Observe ProcessingLatency (of_int (Microseconds (elapsed now))))] else []).

Lemma OnMessage_classify collector now topic payload :
  is_i64 (timeNowMicros now) →
  OnMessage collector now topic payload =
    match classify topic payload with
    | MetaMessage => Prom <$> RecordMQTTMessage
    | BadMessage =>
        drop_calls collector
          (if decide (decimal (TrimSpace (string_of_bytes payload)) = Some 0)
           then "invalid_timestamp" else "parse_error")
    | EventMessage ch ts =>
        event_calls collector now (mkTDCEvent (Z.max 0 (timeNowMicros now)) ch ts None None)
    end.
Proof.
  intros Hnow. unfold OnMessage, classify. destruct (isMetaTopic topic); [done|].
  pose proof (parseRawTimestamp_spec now topic payload Hnow) as Hp.
  destruct (parseRawTimestamp now topic payload) as [e|e].
  - destruct Hp as (Hd & Hr & He). rewrite Hd.
    destruct (Z.eqb_spec (TdcTimestampPs e) 0) as [Hz|Hz].
    + rewrite Hz. done.
    + replace ((0 <? TdcTimestampPs e) && (TdcTimestampPs e <? 2 ^ 64)) with true
        by (symmetry; apply andb_true_iff; rewrite !Z.ltb_lt; lia).
      rewrite He. done.
  - assert (Hbad : match decimal (TrimSpace (string_of_bytes payload)) with
        | Some ts => if (0 <? ts) && (ts <? 2 ^ 64) then EventMessage (channel_spec topic) ts else BadMessage
        | None => BadMessage end = BadMessage).
    { destruct (decimal _) as [ts|]; [|done]. specialize (Hp ts eq_refl).
      destruct (Z.ltb_spec ts (2 ^ 64)); [lia|]. by rewrite andb_false_r. }
    rewrite Hbad, decide_False; [done|]. intros Hd. specialize (Hp 0 Hd). lia.
Qed.

Lemma channel_spec_range topic : is_u32 (channel_spec topic).
Proof.
  unfold channel_spec, is_u32. destruct (decimal _) as [ch|] eqn:Hd; [|lia].
  apply decimal_nonneg in Hd. destruct (Z.ltb_spec ch (2 ^ 32)); lia.
Qed.

(** C24: every MQTT message is handled in exactly one of three ways: metadata
    topics are only counted; a payload that is not a decimal number between 1
    and 2^64-1 is dropped once, in the metrics and at the collector; any other
    payload is added to the collector once, as an event carrying this number,
    the channel of the topic and the non-negative reception time.  A nil
    collector changes nothing else. *)
Theorem OnMessage_spec collector now topic payload :
  is_i64 (timeNowMicros now) →
  let cs := OnMessage collector now topic payload in
  Forall (λ c, call_ok c = true) (prom_calls cs) ∧
  match classify topic payload with
  | MetaMessage => cs = [Prom (Inc MQTTInboundMessages [])]
  | BadMessage =>
      collector_calls cs = (if collector then [IncrementDropped 1] else []) ∧
      dropped_events (prom_calls cs) = 1 ∧ processed_events (prom_calls cs) = 0
  | EventMessage ch ts =>
      collector_calls cs =
        (if collector
         then [Add (mkTDCEvent (Z.max 0 (timeNowMicros now)) ch ts None None)] else []) ∧
      dropped_events (prom_calls cs) = 0 ∧ processed_events (prom_calls cs) = 1 ∧
      0 < ts < 2 ^ 64 ∧ is_u32 ch
  end.
Proof.
  intros Hnow cs. subst cs. rewrite OnMessage_classify by done.
  assert (Hrange : match classify topic payload with
    | EventMessage ch ts => 0 < ts < 2 ^ 64 ∧ is_u32 ch | _ => True end).
  { unfold classify. destruct (isMetaTopic topic); [done|]. destruct (decimal _) as [ts|]; [|done].
    destruct ((0 <? ts) && (ts <? 2 ^ 64)) eqn:E; [|done].
    rewrite andb_true_iff, !Z.ltb_lt in E. split; [lia|apply channel_spec_range]. }
  destruct (classify topic payload) as [| |ch ts].
  - split; [repeat constructor|done].
  - by destruct collector; split; [repeat constructor| |repeat constructor|].
  - unfold event_calls. destruct collector, (0 <? Microseconds (elapsed now)); cbn;
      (split; [repeat constructor|done]).
Qed.

(** C29: a timestamp published in decimal, possibly surrounded by white space, on
    a topic ending in a channel number reaches the collector unchanged. *)
Theorem OnMessage_roundtrip now prefix ch ts ws ws' :
  is_i64 (timeNowMicros now) → is_u32 ch → 0 < ts < 2 ^ 64 →
  forallb space1 ws = true → forallb space1 ws' = true →
  let topic := prefix +:+ String "/" (Itoa ch) in
  isMetaTopic topic = false →
  collector_calls (OnMessage true now topic
    (byte_of <$> ws ++ String.list_ascii_of_string (Itoa ts) ++ ws')) =
    [Add (mkTDCEvent (Z.max 0 (timeNowMicros now)) ch ts None None)].
Proof.
  intros Hnow Hch Hts Hws Hws' topic Hmeta. rewrite OnMessage_classify by done.
  set (payload := byte_of <$> _).
  assert (Hpay : decimal (TrimSpace (string_of_bytes payload)) = Some ts).
  { subst payload. set (l := ws ++ _). rewrite <-(String.list_ascii_of_string_of_list_ascii l).
    change (byte_of <$> String.list_ascii_of_string (String.string_of_list_ascii l))
      with (bytes_of_string (String.string_of_list_ascii l)).
    rewrite string_of_bytes_of_string. subst l.
    pose proof (decimal_Itoa ts ltac:(lia)) as Hd. by rewrite (TrimSpace_digits _ _ _ ts). }
  assert (Hchan : channel_spec topic = ch).
  { unfold channel_spec, topic. rewrite Split_last_app.
    pose proof (decimal_Itoa ch ltac:(unfold is_u32 in *; lia)) as Hd.
    assert (Hd' : decimal_from 0 (Itoa ch) = Some ch) by (by destruct (Itoa ch)).
    rewrite (Split_digits 0 _ ch) by done. cbn. rewrite Hd.
    unfold is_u32 in Hch. destruct (Z.ltb_spec ch (2 ^ 32)); lia. }
  unfold classify. rewrite Hmeta, Hpay, Hchan.
  replace ((0 <? ts) && (ts <? 2 ^ 64)) with true
    by (symmetry; apply andb_true_iff; rewrite !Z.ltb_lt; lia).
  unfold event_calls. by destruct (0 <? Microseconds (elapsed now)).
Qed.
End handler.

Definition witness_unicode : GoUnicode := {| unicode_lower := λ s, s |}.

Example isMetaTopic_ex :
  let U := witness_unicode in
  isMetaTopic " lab/TDC/META " = true ∧ isMetaTopic "timestamps/channel/2" = false.
Proof. vm_compute. done. Qed.

Lemma OnMessage_spec_witness :
  let U := witness_unicode in
  is_i64 5 ∧
  collector_calls (OnMessage true (mkReadings 5 0) "t/1" (bytes_of_string "x")) = [IncrementDropped 1].
Proof.
  intros U. assert (H : is_i64 5) by (split; [lia|reflexivity]).
  pose proof (@OnMessage_spec U true (mkReadings 5 0) "t/1" (bytes_of_string "x") H) as [_ Hs].
  exact (conj H (proj1 Hs)).
Defined.

Lemma OnMessage_roundtrip_witness :
  let U := witness_unicode in
  is_i64 5 ∧ is_u32 3 ∧ (0 < 12345 < 2 ^ 64) ∧
  collector_calls (OnMessage true (mkReadings 5 0) "timestamps/channel/3"
    (byte_of <$> [] ++ String.list_ascii_of_string (Itoa 12345) ++ ["010"%char])) =
    [Add (mkTDCEvent (Z.max 0 5) 3 12345 None None)].
Proof.
  intros U. assert (H1 : is_i64 5) by (split; [lia|reflexivity]).
  assert (H2 : is_u32 3) by (split; [lia|reflexivity]).
  assert (H3 : 0 < 12345 < 2 ^ 64) by (split; reflexivity).
  exact (conj H1 (conj H2 (conj H3 (@OnMessage_roundtrip U (mkReadings 5 0) "timestamps/channel" 3
    12345 [] ["010"%char] H1 H2 H3 eq_refl eq_refl ltac:(vm_compute; reflexivity))))).
Defined.
