(* ===== verification/Pool.v ===== *)
(** * The whitened entropy pool (internal/entropy/pool.go)

    The pool buffers whitened bytes between the collector, which adds batches
    of events, and the HTTP server, which extracts bytes after the continuous
    health tests.  Its mutex makes each method atomic. *)

From S2P Require Import Prelude Float64 Clock HealthTests Metrics.
From S2P Require Import QuickTests MinEntropy Sha256 Whitening MqttHandler.
Import RepetitionCountTest(RepetitionCountTest, NewRepetitionCountTest).
Import AdaptiveProportionTest(AdaptiveProportionTest, NewAdaptiveProportionTest).

Definition defaultMinWhitenedBytes : Z := 32.
Definition whitenedBufferMultiplier : Z := 4.
Definition defaultMaxRawEventsStored : Z := 4096.

Record WhitenedPool := mkPool {
  rawEvents : list TDCEvent;
  whitened : bytes;
  minPoolSize : Z;
  maxPoolSize : Z;
  maxRawEvents : Z;
  rct : RepetitionCountTest;
  apt : AdaptiveProportionTest;
}.

Definition NewWhitenedPoolWithBounds (minSize maxSize : Z) : WhitenedPool :=
  let minSize := if minSize <=? 0 then defaultMinWhitenedBytes else minSize in
  let maxSize := if maxSize <=? 0 then mul_i64 minSize whitenedBufferMultiplier else maxSize in
  let maxSize := if maxSize <? minSize then minSize else maxSize in
  mkPool [] [] minSize maxSize defaultMaxRawEventsStored (NewRepetitionCountTest 40)
    (NewAdaptiveProportionTest 605 4096).

Definition NewWhitenedPool (minSize : Z) : WhitenedPool :=
  let minSize := if minSize <=? 0 then defaultMinWhitenedBytes else minSize in
  let maxSize := mul_i64 minSize whitenedBufferMultiplier in
  let maxSize := if maxSize <? minSize then minSize else maxSize in
  NewWhitenedPoolWithBounds minSize maxSize.

(** [binary.LittleEndian.PutUint64]. *)
Definition le_bytes64 (x : Z) : bytes :=
  (λ i, u8 (Z.shiftr x (8 * i))) <$> [0; 1; 2; 3; 4; 5; 6; 7].

(** [append(old, new...)], then drop from the front what exceeds [limit]. *)
Definition append_trim {A} (old new : list A) (limit : Z) : list A :=
  let l := old ++ new in
  if limit <? len l then let trim := len l - limit in slice_from trim l else l.

Section pool.
Context `{MathLib, MapRange}.

Definition M : Type → Type := GoM prom_call WhitenedPool.

Definition set_rawEvents (v : list TDCEvent) (p : WhitenedPool) : WhitenedPool :=
  mkPool v (whitened p) (minPoolSize p) (maxPoolSize p) (maxRawEvents p) (rct p) (apt p).
Definition set_whitened (v : bytes) (p : WhitenedPool) : WhitenedPool :=
  mkPool (rawEvents p) v (minPoolSize p) (maxPoolSize p) (maxRawEvents p) (rct p) (apt p).
Definition set_rct (v : RepetitionCountTest) (p : WhitenedPool) : WhitenedPool :=
  mkPool (rawEvents p) (whitened p) (minPoolSize p) (maxPoolSize p) (maxRawEvents p) v (apt p).
Definition set_apt (v : AdaptiveProportionTest) (p : WhitenedPool) : WhitenedPool :=
  mkPool (rawEvents p) (whitened p) (minPoolSize p) (maxPoolSize p) (maxRawEvents p) (rct p) v.

Definition AddBatch (events : list TDCEvent) : M unit :=
  if len events =? 0 then mret tt
  else
    let rawBytes := events ≫= (λ event, le_bytes64 (TdcTimestampPs event)) in
    let whitenedBytes := DualStageWhitening rawBytes in
    let ratio :=
      if (0 <? len rawBytes) && (0 <? len whitenedBytes)
      then fdiv (of_int (len whitenedBytes)) (of_int (len rawBytes)) else fzero in
    call (RecordWhitening (len rawBytes) (len whitenedBytes) ratio) ;;
    (if 0 <? len whitenedBytes then
       let '(freqRatio, freqPassed) := FrequencyTest whitenedBytes in
       let '(runsCount, runsPassed) := RunsTest whitenedBytes in
       call (RecordValidation freqRatio freqPassed runsCount runsPassed) ;;
       call (RecordMinEntropyMCV (EstimateMCV whitenedBytes)) ;;
       call (RecordMinEntropyCollision (EstimateCollision whitenedBytes))
     else mret tt) ;;
    modify (λ p, set_rawEvents (append_trim (rawEvents p) events (maxRawEvents p)) p) ;;
    if len whitenedBytes =? 0 then mret tt
    else
      modify (λ p, set_whitened (append_trim (whitened p) whitenedBytes (maxPoolSize p)) p) ;;
      p ← get;
      call (SetEntropyPoolSize (len (whitened p))).

(** [None] is the result [(nil, false)]. *)
Definition ExtractEntropy (numBytes : Z) : M (option bytes) :=
  if numBytes <=? 0 then mret None
  else
    p ← get;
    if len (whitened p) <? minPoolSize p then mret None
    else if len (whitened p) <? numBytes then mret None
    else
      let output := slice_to numBytes (whitened p) in
      let '(rct_ok, rct1) := RepetitionCountTest.TestBlock (rct p) output in
      modify (set_rct rct1) ;;
      if negb rct_ok then
        call RecordContinuousRCTFailure ;;
        call (RecordEventDropped "rct_failure") ;;
        modify (set_rct (RepetitionCountTest.Reset rct1)) ;;
        mret None
      else
        let '(apt_ok, apt1) := AdaptiveProportionTest.TestBlock (apt p) output in
        modify (set_apt apt1) ;;
        if negb apt_ok then
          call RecordContinuousAPTFailure ;;
          call (RecordEventDropped "apt_failure") ;;
          modify (set_apt (AdaptiveProportionTest.Reset apt1)) ;;
          mret None
        else
          modify (λ p, set_whitened (slice_from numBytes (whitened p)) p) ;;
          call (RecordEntropyExtraction numBytes) ;;
          p ← get;
          call (SetEntropyPoolSize (len (whitened p))) ;;
          mret (Some output).

Definition PoolStatus : M (Z * Z) := p ← get; mret (len (rawEvents p), len (whitened p)).

Definition AvailableEntropy : M Z :=
  p ← get;
  if len (whitened p) <=? minPoolSize p then mret 0
  else mret (len (whitened p) - minPoolSize p).

(** ** What one operation does *)

(** The bytes a batch contributes. *)
Definition batch_bytes (events : list TDCEvent) : bytes :=
  DualStageWhitening (events ≫= (λ event, le_bytes64 (TdcTimestampPs event))).

Lemma len_batch_raw events :
  len (events ≫= (λ event, le_bytes64 (TdcTimestampPs event))) = 8 * len events.
Proof.
  induction events as [|e events IH]; [done|]. cbn [mbind list_bind].
  rewrite len_app, IH, len_cons. change (len (le_bytes64 _)) with 8. lia.
Qed.

Lemma batch_bytes_ok events :
  events ≠ [] → len (batch_bytes events) = 32 ∧ bytes_ok (batch_bytes events).
Proof.
  intros Hne. apply DualStageWhitening_digest. rewrite len_batch_raw. destruct events as [|e events]; [done|].
  rewrite len_cons. pose proof (len_nonneg events). lia.
Qed.

Lemma append_trim_spec {A} (old new : list A) limit :
  0 ≤ limit →
  ∃ dropped, old ++ new = dropped ++ append_trim old new limit ∧
    len (append_trim old new limit) = Z.min limit (len (old ++ new)).
Proof.
  intros Hl. unfold append_trim. pose proof (len_nonneg (old ++ new)).
  destruct (Z.ltb_spec limit (len (old ++ new))).
  - exists (slice_to (len (old ++ new) - limit) (old ++ new)). rewrite slice_to_from.
    rewrite len_slice_from by lia. split; [done|lia].
  - exists []. split; [done|lia].
Qed.

(** [AddBatch] on a non-empty batch, as one state transformation. *)
Lemma AddBatch_state events p :
  run_state (AddBatch events) p =
    if decide (events = []) then p
    else set_whitened (append_trim (whitened p) (batch_bytes events) (maxPoolSize p))
           (set_rawEvents (append_trim (rawEvents p) events (maxRawEvents p)) p).
Proof.
  unfold AddBatch. destruct (Z.eqb_spec (len events) 0) as [->%len_zero_iff|Hne]; [done|].
  rewrite decide_False by (by intros ->).
  fold (batch_bytes events). destruct (batch_bytes_ok events) as [Hlen _]; [by intros ->|].
  rewrite Hlen. cbn [Z.ltb Z.eqb Z.compare].
  destruct (FrequencyTest (batch_bytes events)), (RunsTest (batch_bytes events)).
  unfold run_state, mbind, GoM_bind, call, modify, get. reflexivity.
Qed.

(** The result, the new state and the calls of [ExtractEntropy]. *)
Lemma ExtractEntropy_eq n p :
  ExtractEntropy n p =
    if (n <=? 0) || (len (whitened p) <? minPoolSize p) || (len (whitened p) <? n)
    then (None, p, [])
    else
      let output := slice_to n (whitened p) in
      match RepetitionCountTest.TestBlock (rct p) output with
      | (false, rct1) =>
          (None, set_rct (RepetitionCountTest.Reset rct1) p,
           RecordContinuousRCTFailure ++ RecordEventDropped "rct_failure")
      | (true, rct1) =>
          match AdaptiveProportionTest.TestBlock (apt p) output with
          | (false, apt1) =>
              (None, set_apt (AdaptiveProportionTest.Reset apt1) (set_rct rct1 p),
               RecordContinuousAPTFailure ++ RecordEventDropped "apt_failure")
          | (true, apt1) =>
              (Some output, set_whitened (slice_from n (whitened p)) (set_apt apt1 (set_rct rct1 p)),
               RecordEntropyExtraction n ++ SetEntropyPoolSize (len (slice_from n (whitened p))))
          end
      end.
Proof.
  unfold ExtractEntropy. destruct (n <=? 0); [done|].
  unfold mbind, GoM_bind, get, modify, call, mret, GoM_ret.
  destruct (len (whitened p) <? minPoolSize p); [done|].
  destruct (len (whitened p) <? n); [done|]. cbn [orb fst snd].
  destruct (RepetitionCountTest.TestBlock (rct p) _) as [[] rct1]; cbn [negb app]; [|done].
  destruct (AdaptiveProportionTest.TestBlock (apt p) _) as [[] apt1]; cbn [negb app]; [|done].
  by rewrite app_nil_r.
Qed.

(** ** Invariant *)

Record pool_ok (p : WhitenedPool) : Prop := {
  ok_min : 0 < minPoolSize p;
  ok_max : minPoolSize p ≤ maxPoolSize p;
  ok_whitened : len (whitened p) ≤ maxPoolSize p;
  ok_raw_max : maxRawEvents p = defaultMaxRawEventsStored;
  ok_raw : len (rawEvents p) ≤ defaultMaxRawEventsStored;
  ok_bytes : bytes_ok (whitened p);
  ok_rct : RepetitionCountTest.cutoff (rct p) = 40;
  ok_apt : AdaptiveProportionTest.cutoff (apt p) = 605 ∧ AdaptiveProportionTest.windowSize (apt p) = 4096;
}.

Inductive pool_op := OpAddBatch (events : list TDCEvent) | OpExtract (n : Z) | OpStatus | OpAvailable.

Definition exec (o : pool_op) : M (option bytes) :=
  match o with
  | OpAddBatch events => AddBatch events ;; mret None
  | OpExtract n => ExtractEntropy n
  | OpStatus => PoolStatus ;; mret None
  | OpAvailable => AvailableEntropy ;; mret None
  end.

(** The results of the extractions that succeeded, in order. *)
Fixpoint exec_all (os : list pool_op) : M (list bytes) :=
  match os with
  | [] => mret []
  | o :: os => r ← exec o; rs ← exec_all os; mret (match r with Some out => out :: rs | None => rs end)
  end.

Lemma exec_state o p :
  run_state (exec o) p =
    match o with
    | OpAddBatch events => run_state (AddBatch events) p
    | OpExtract n => run_state (ExtractEntropy n) p
    | _ => p
    end ∧
  run_val (exec o) p = match o with OpExtract n => run_val (ExtractEntropy n) p | _ => None end.
Proof.
  destruct o; try done; unfold exec, run_state, run_val, mbind, GoM_bind.
  - by destruct (AddBatch events p) as [[] ?].
  - unfold AvailableEntropy, mbind, GoM_bind, get. by destruct (len (whitened p) <=? _).
Qed.

Lemma bytes_ok_slice_from n l : bytes_ok l → bytes_ok (slice_from n l).
Proof. apply Forall_drop. Qed.

Lemma append_trim_ok old new limit : bytes_ok old → bytes_ok new → bytes_ok (append_trim old new limit).
Proof.
  intros Ho Hn. unfold append_trim. destruct (_ <? _); [apply Forall_drop|]; by apply Forall_app.
Qed.

Lemma AddBatch_ok events p : pool_ok p → pool_ok (run_state (AddBatch events) p).
Proof.
  intros Hp. rewrite AddBatch_state. case_decide as Hne; [done|].
  destruct (batch_bytes_ok events Hne) as [_ Hb]. destruct Hp.
  destruct (append_trim_spec (rawEvents p) events (maxRawEvents p)) as (? & _ & Hraw);
    [rewrite ok_raw_max0; done|].
  destruct (append_trim_spec (whitened p) (batch_bytes events) (maxPoolSize p)) as (? & _ & Hw); [lia|].
  split; cbn; try done; [lia|lia|by apply append_trim_ok].
Qed.

(** What is handed out was at the front of the pool, and has the length asked for. *)
Lemma extracted n p data p' w :
  ExtractEntropy n p = (Some data, p', w) → 0 < n ∧ len data = n ∧ data ++ whitened p' = whitened p.
Proof.
  rewrite ExtractEntropy_eq. cbv zeta. destruct (_ || _ || _) eqn:Hg; [done|].
  rewrite !orb_false_iff in Hg. destruct Hg as [[Hn _] Hlen]. bool_to_Z.
  destruct (RepetitionCountTest.TestBlock _ _) as [[] rct1]; [|done].
  destruct (AdaptiveProportionTest.TestBlock _ _) as [[] apt1]; [|done]. intros [= <- <- <-].
  split_and!; [done|apply len_slice_to; lia|apply slice_to_from].
Qed.

Lemma ExtractEntropy_ok n p : pool_ok p → pool_ok (run_state (ExtractEntropy n) p).
Proof.
  intros Hp. unfold run_state. rewrite ExtractEntropy_eq. cbv zeta.
  destruct (_ || _) eqn:Hg; [done|]. rewrite !orb_false_iff in Hg. destruct Hg as [[Hn Hmin] Hlen].
  bool_to_Z. destruct Hp.
  pose proof (RepetitionCountTest.cutoff_TestBlock (rct p) (slice_to n (whitened p))) as Hr.
  pose proof (AdaptiveProportionTest.params_TestBlock (apt p) (slice_to n (whitened p))) as Ha.
  destruct (RepetitionCountTest.TestBlock _ _) as [[] rct1]; cbn [fst snd] in *;
    [|by split; cbn; rewrite ?Hr].
  destruct (AdaptiveProportionTest.TestBlock _ _) as [[] apt1]; cbn [fst snd] in *;
    destruct Ha as [Ha1 Ha2].
  - split; cbn; rewrite ?Hr, ?Ha1, ?Ha2, ?len_slice_from by lia; try done; [lia|].
    by apply bytes_ok_slice_from.
  - by split; cbn; rewrite ?Hr, ?Ha1, ?Ha2.
Qed.

Lemma NewWhitenedPoolWithBounds_ok minSize maxSize : pool_ok (NewWhitenedPoolWithBounds minSize maxSize).
Proof.
  unfold NewWhitenedPoolWithBounds. set (mn := if minSize <=? 0 then _ else _).
  assert (0 < mn) by (subst mn; unfold defaultMinWhitenedBytes; destruct (Z.leb_spec minSize 0); lia).
  set (mx := if maxSize <=? 0 then _ else _).
  split; cbn; try done; destruct (Z.ltb_spec mx mn); rewrite ?len_nil; lia.
Qed.

Lemma NewWhitenedPoolWithBounds_sizes minSize maxSize :
  1 ≤ minSize ≤ maxSize →
  minPoolSize (NewWhitenedPoolWithBounds minSize maxSize) = minSize ∧
  maxPoolSize (NewWhitenedPoolWithBounds minSize maxSize) = maxSize.
Proof.
  intros Hb. unfold NewWhitenedPoolWithBounds. cbn.
  destruct (Z.leb_spec minSize 0), (Z.leb_spec maxSize 0), (Z.ltb_spec maxSize minSize); lia.
Qed.

Lemma exec_ok o p : pool_ok p → pool_ok (run_state (exec o) p).
Proof.
  intros Hp. rewrite (proj1 (exec_state o p)). destruct o; [by apply AddBatch_ok|by apply ExtractEntropy_ok|done..].
Qed.

Lemma exec_all_cons o os p :
  run_state (exec_all (o :: os)) p = run_state (exec_all os) (run_state (exec o) p) ∧
  run_val (exec_all (o :: os)) p =
    match run_val (exec o) p with
    | Some out => out :: run_val (exec_all os) (run_state (exec o) p)
    | None => run_val (exec_all os) (run_state (exec o) p)
    end ∧
  run_calls (exec_all (o :: os)) p =
    run_calls (exec o) p ++ run_calls (exec_all os) (run_state (exec o) p).
Proof.
  unfold run_state, run_val, run_calls. cbn [exec_all]. unfold mbind, GoM_bind, mret, GoM_ret.
  destruct (exec o p) as [[r p1] w1]. cbn [fst snd].
  destruct (exec_all os p1) as [[rs p2] w2]. cbn [fst snd]. rewrite app_nil_r. by destruct r.
Qed.

Lemma exec_all_app os1 os2 p :
  run_state (exec_all (os1 ++ os2)) p = run_state (exec_all os2) (run_state (exec_all os1) p) ∧
  run_val (exec_all (os1 ++ os2)) p =
    run_val (exec_all os1) p ++ run_val (exec_all os2) (run_state (exec_all os1) p).
Proof.
  revert p. induction os1 as [|o os1 IH]; intros p; [done|]. cbn [app].
  destruct (exec_all_cons o (os1 ++ os2) p) as (-> & -> & _).
  destruct (exec_all_cons o os1 p) as (-> & -> & _).
  destruct (IH (run_state (exec o) p)) as [-> ->]. split; [done|].
  by destruct (run_val (exec o) p).
Qed.

Lemma exec_all_ok os p : pool_ok p → pool_ok (run_state (exec_all os) p).
Proof.
  revert p. induction os as [|o os IH]; intros p Hp; [done|].
  rewrite (proj1 (exec_all_cons o os p)). by apply IH, exec_ok.
Qed.

(** ** The health tests of the extracted stream *)

Definition unhealthy_run (h : bytes) : Prop := RepetitionCountTest.has_run 40 h.
Definition unhealthy_window (g : bytes) : Prop := AdaptiveProportionTest.has_biased_window 605 4096 g.

(** The tests have seen the healthy streams [h] and [g] since their last resets. *)
Record monitored (p : WhitenedPool) (h g : bytes) : Prop := {
  mon_rct : RepetitionCountTest.follows (rct p) h;
  mon_run : ¬ unhealthy_run h;
  mon_apt : AdaptiveProportionTest.collects (apt p) g;
  mon_window : ¬ unhealthy_window g;
}.

Lemma unhealthy_run_nil : ¬ unhealthy_run [].
Proof. exact (RepetitionCountTest.no_run_nil (NewRepetitionCountTest 40)). Qed.

Lemma unhealthy_window_nil : ¬ unhealthy_window [].
Proof. by apply AdaptiveProportionTest.no_window_nil. Qed.

Lemma monitored_fresh minSize maxSize : monitored (NewWhitenedPoolWithBounds minSize maxSize) [] [].
Proof.
  split; [done|apply unhealthy_run_nil| |apply unhealthy_window_nil].
  by apply AdaptiveProportionTest.collects_start.
Qed.

Lemma rct_block p h g l :
  pool_ok p → monitored p h g →
  let r := RepetitionCountTest.TestBlock (rct p) l in
  (r.1 = false ↔ unhealthy_run (h ++ l)) ∧
  (r.1 = true → RepetitionCountTest.follows r.2 (h ++ l)).
Proof.
  intros [] [Hf Hr _ _] r. unfold unhealthy_run in *.
  assert (Hlim : RepetitionCountTest.run_limit (rct p) = 40%nat).
  { unfold RepetitionCountTest.run_limit. by rewrite ok_rct0. }
  rewrite <-Hlim in *. split.
  - exact (test_block_verdict RepetitionCountTest.Test (HealthMonitor0:=RepetitionCountTest.monitor) _ h l Hf Hr).
  - intros Hok.
    by destruct (test_block_pass RepetitionCountTest.Test (HealthMonitor0:=RepetitionCountTest.monitor) _ h l Hf Hr Hok).
Qed.

Lemma apt_block p h g l :
  pool_ok p → monitored p h g →
  let r := AdaptiveProportionTest.TestBlock (apt p) l in
  (r.1 = false ↔ unhealthy_window (g ++ l)) ∧
  (r.1 = true → AdaptiveProportionTest.collects r.2 (g ++ l)) ∧
  AdaptiveProportionTest.collects (AdaptiveProportionTest.Reset r.2) [].
Proof.
  intros [] [_ _ Hc Hw] r. unfold unhealthy_window in *. destruct ok_apt0 as [Hcut Hwin].
  destruct (AdaptiveProportionTest.params_TestBlock (apt p) l) as [_ Hwin'].
  rewrite <-Hcut, <-Hwin in *. split_and!.
  - exact (test_block_verdict AdaptiveProportionTest.Test (HealthMonitor0:=AdaptiveProportionTest.monitor) _ g l Hc Hw).
  - intros Hok.
    by destruct (test_block_pass AdaptiveProportionTest.Test (HealthMonitor0:=AdaptiveProportionTest.monitor) _ g l Hc Hw Hok).
  - apply AdaptiveProportionTest.collects_start; [|done]. subst r. cbn. rewrite Hwin', Hwin. done.
Qed.

Definition ready (n : Z) (p : WhitenedPool) : Prop :=
  0 < n ∧ minPoolSize p ≤ len (whitened p) ∧ n ≤ len (whitened p).

Lemma ready_guard n p :
  (n <=? 0) || (len (whitened p) <? minPoolSize p) || (len (whitened p) <? n) = false ↔ ready n p.
Proof. unfold ready. rewrite !orb_false_iff, Z.leb_gt, !Z.ltb_ge. tauto. Qed.

#[export] Instance ready_dec n p : Decision (ready n p).
Proof.
  destruct ((n <=? 0) || (len (whitened p) <? minPoolSize p) || (len (whitened p) <? n)) eqn:E.
  - right. rewrite <-ready_guard. congruence.
  - left. by apply ready_guard.
Defined.

(** The contract of [ExtractEntropy n] on a pool whose tests have seen [h] and
    [g]: the result, the new pool and the calls, case by case. *)
Definition extract_contract (n : Z) (p : WhitenedPool) (h g : bytes) : Prop :=
  let out := slice_to n (whitened p) in
  let r := run_val (ExtractEntropy n) p in
  let p' := run_state (ExtractEntropy n) p in
  let cs := run_calls (ExtractEntropy n) p in
  (¬ ready n p → r = None ∧ p' = p ∧ cs = []) ∧
  (ready n p → unhealthy_run (h ++ out) →
     r = None ∧ whitened p' = whitened p ∧ monitored p' [] g ∧
     cs = [Inc ContinuousRCTFailures []; Inc EventsDropped ["rct_failure"]]) ∧
  (ready n p → ¬ unhealthy_run (h ++ out) → unhealthy_window (g ++ out) →
     r = None ∧ whitened p' = whitened p ∧ monitored p' (h ++ out) [] ∧
     cs = [Inc ContinuousAPTFailures []; Inc EventsDropped ["apt_failure"]]) ∧
  (ready n p → ¬ unhealthy_run (h ++ out) → ¬ unhealthy_window (g ++ out) →
     r = Some out ∧ len out = n ∧ whitened p' = slice_from n (whitened p) ∧
     monitored p' (h ++ out) (g ++ out) ∧
     cs = [Inc EntropyExtractions []; Metrics.Add EntropyExtractedBytes [] (of_int n);
           Set_ EntropyPoolSize (of_int (len (whitened p')))]) ∧
  rawEvents p' = rawEvents p.

Lemma extract_contract_holds n p h g : pool_ok p → monitored p h g → extract_contract n p h g.
Proof.
  intros Hok Hmon. unfold extract_contract. set (out := slice_to n (whitened p)). unfold run_val, run_state, run_calls.
  rewrite ExtractEntropy_eq. cbv zeta. fold out.
  pose proof (rct_block p h g out Hok Hmon) as [Hr Hr']. cbv zeta in *.
  pose proof (apt_block p h g out Hok Hmon) as (Ha & Ha' & Ha''). cbv zeta in *.
  destruct (_ || _ || _) eqn:Hg.
  { assert (¬ ready n p) by (rewrite <-ready_guard; congruence). by split_and!. }
  apply ready_guard in Hg. destruct Hmon.
  destruct (RepetitionCountTest.TestBlock (rct p) out) as [[] rct1]; cbn [fst snd] in *.
  - assert (Hnr : ¬ unhealthy_run (h ++ out)) by (rewrite <-Hr; done).
    destruct (AdaptiveProportionTest.TestBlock (apt p) out) as [[] apt1]; cbn [fst snd] in *.
    + assert (Hnw : ¬ unhealthy_window (g ++ out)) by (rewrite <-Ha; done).
      split_and!; try done. intros [Hn Hm] _ _. split_and!; [done| |done|by split; auto|].
      * apply len_slice_to. lia.
      * unfold RecordEntropyExtraction. by destruct (Z.ltb_spec 0 n); [|lia].
    + assert (Hw : unhealthy_window (g ++ out)) by (by apply Ha).
      split_and!; try done. intros _ _ _. split_and!; try done.
      split; cbn; auto using unhealthy_window_nil.
  - assert (Hrun : unhealthy_run (h ++ out)) by (by apply Hr).
    split_and!; try done. intros _ _. split_and!; try done.
    split; cbn; auto using unhealthy_run_nil.
Qed.

Lemma monitored_ext p p' h g : rct p' = rct p → apt p' = apt p → monitored p h g → monitored p' h g.
Proof. intros E1 E2 []. split; by rewrite ?E1, ?E2. Qed.

Lemma AddBatch_tests events p :
  rct (run_state (AddBatch events) p) = rct p ∧ apt (run_state (AddBatch events) p) = apt p.
Proof. rewrite AddBatch_state. by case_decide. Qed.

(** ** Histories *)

(** The pool and what its tests have seen, after any operations. *)
Lemma exec_monitored o p h g :
  pool_ok p → monitored p h g → ∃ h' g', monitored (run_state (exec o) p) h' g'.
Proof.
  intros Hok Hmon. rewrite (proj1 (exec_state o p)).
  destruct o as [events|n| |]; [|..|by eauto|by eauto].
  - exists h, g. destruct (AddBatch_tests events p). by eapply monitored_ext.
  - destruct (extract_contract_holds n p h g Hok Hmon) as (H1 & H2 & H3 & H4 & _).
    destruct (decide (ready n p)) as [Hr|Hr]; [|destruct (H1 Hr) as (_ & -> & _); by eauto].
    destruct (rct_block p h g (slice_to n (whitened p)) Hok Hmon) as [Hrct _].
    destruct (apt_block p h g (slice_to n (whitened p)) Hok Hmon) as [Hapt _].
    destruct (RepetitionCountTest.TestBlock (rct p) _).1.
    + assert (Hn : ¬ unhealthy_run (h ++ slice_to n (whitened p))) by (by rewrite <-Hrct).
      destruct (AdaptiveProportionTest.TestBlock (apt p) _).1.
      * destruct (H4 Hr Hn) as (_ & _ & _ & ? & _); [by rewrite <-Hapt|by eauto].
      * destruct (H3 Hr Hn) as (_ & _ & ? & _); [by apply Hapt|by eauto].
    + destruct (H2 Hr) as (_ & _ & ? & _); [by apply Hrct|by eauto].
Qed.

Lemma exec_sizes o p :
  minPoolSize (run_state (exec o) p) = minPoolSize p ∧ maxPoolSize (run_state (exec o) p) = maxPoolSize p.
Proof.
  rewrite (proj1 (exec_state o p)). destruct o as [events|n| |]; try done.
  - rewrite AddBatch_state. by case_decide.
  - unfold run_state. rewrite ExtractEntropy_eq. cbv zeta. destruct (_ || _); [done|].
    destruct (RepetitionCountTest.TestBlock _ _) as [[] ?]; [|done].
    by destruct (AdaptiveProportionTest.TestBlock _ _) as [[] ?].
Qed.

Lemma exec_all_sizes os p :
  minPoolSize (run_state (exec_all os) p) = minPoolSize p ∧
  maxPoolSize (run_state (exec_all os) p) = maxPoolSize p.
Proof.
  revert p. induction os as [|o os IH]; intros p; [done|].
  rewrite (proj1 (exec_all_cons o os p)). destruct (IH (run_state (exec o) p)) as [-> ->].
  apply exec_sizes.
Qed.

(** Whatever the constructor arguments and the operations performed, the
    pool keeps the sizes it was built with, 0 < min <= max, stores at most [max]
    whitened bytes, each a byte, and at most 4096 raw events; a non-positive
    minimum is replaced by 32 and a maximum below the minimum by the minimum,
    and the available entropy it reports is what it holds above its minimum. *)
Theorem pool_invariant minSize maxSize os :
  let p0 := NewWhitenedPoolWithBounds minSize maxSize in
  let p := run_state (exec_all os) p0 in
  pool_ok p ∧
  minPoolSize p = (if minSize <=? 0 then 32 else minSize) ∧
  (0 < maxSize → maxPoolSize p = Z.max maxSize (minPoolSize p)) ∧
  run_val PoolStatus p = (len (rawEvents p), len (whitened p)) ∧
  run_val AvailableEntropy p = Z.max 0 (len (whitened p) - minPoolSize p).
Proof.
  intros p0 p. destruct (exec_all_sizes os p0) as [Hmin Hmax]. fold p in Hmin, Hmax.
  split_and!; [apply exec_all_ok, NewWhitenedPoolWithBounds_ok|by rewrite Hmin| |done|].
  - intros Hm. rewrite Hmin, Hmax. subst p0. unfold NewWhitenedPoolWithBounds. cbn [minPoolSize maxPoolSize].
    set (mn := if minSize <=? 0 then _ else _).
    destruct (Z.leb_spec maxSize 0); [lia|]. destruct (Z.ltb_spec maxSize mn); lia.
  - unfold AvailableEntropy, run_val, mbind, GoM_bind, get.
    destruct (Z.leb_spec (len (whitened p)) (minPoolSize p)); cbn; lia.
Qed.

Lemma exec_all_monitored os p h g :
  pool_ok p → monitored p h g → ∃ h' g', monitored (run_state (exec_all os) p) h' g'.
Proof.
  revert p h g. induction os as [|o os IH]; intros p h g Hok Hmon; [by exists h, g|].
  rewrite (proj1 (exec_all_cons o os p)). destruct (exec_monitored o p h g Hok Hmon) as (h' & g' & Hm).
  eapply IH; [by apply exec_ok|done].
Qed.

(** C18: [ExtractEntropy n], on a pool with any history, obeys this contract for
    the healthy streams [h] and [g] its Repetition Count and Adaptive Proportion
    tests have seen since their last resets.  It refuses, changing nothing, when
    [n] is not positive or the pool holds fewer than its minimum or fewer than
    [n] bytes.  Otherwise it looks at the first [n] bytes: if they complete a
    run of 40 equal bytes, or a biased window of 4096 bytes, it refuses, keeps
    the bytes, resets that test only and counts the failure; else it returns
    exactly these bytes, removes them and counts them. *)
Theorem ExtractEntropy_spec minSize maxSize os n :
  let p := run_state (exec_all os) (NewWhitenedPoolWithBounds minSize maxSize) in
  ∃ h g, monitored p h g ∧ extract_contract n p h g.
Proof.
  intros p. pose proof (exec_all_ok os _ (NewWhitenedPoolWithBounds_ok minSize maxSize)) as Hok.
  destruct (exec_all_monitored os _ [] [] (NewWhitenedPoolWithBounds_ok minSize maxSize)
    (monitored_fresh minSize maxSize)) as (h & g & Hm).
  exists h, g. split; [done|]. by apply extract_contract_holds.
Qed.

(** ** Conservation of bytes *)

(** What the batches among some operations contribute. *)
Fixpoint produced (os : list pool_op) : bytes :=
  match os with
  | [] => []
  | OpAddBatch events :: os => (if decide (events = []) then [] else batch_bytes events) ++ produced os
  | _ :: os => produced os
  end.

(** A segment leaves the front of the pool: extracted ([true]) or trimmed. *)
Lemma exec_conserves o p :
  pool_ok p →
  ∃ segs : list (bool * bytes),
    whitened p ++ produced [o] = concat (snd <$> segs) ++ whitened (run_state (exec o) p) ∧
    snd <$> filter (λ s, s.1 = true) segs = option_list (run_val (exec o) p).
Proof.
  intros Hok. destruct (exec_state o p) as [-> ->]. destruct o as [events|n| |]; cbn [produced].
  - rewrite AddBatch_state. case_decide as Hne.
    { exists []. by rewrite app_nil_r. }
    destruct (append_trim_spec (whitened p) (batch_bytes events) (maxPoolSize p))
      as (dropped & Heq & _); [destruct Hok; lia|].
    exists [(false, dropped)]. cbn. by rewrite !app_nil_r.
  - unfold run_state, run_val. rewrite ExtractEntropy_eq. cbv zeta.
    destruct (_ || _); [by exists []; rewrite app_nil_r|].
    destruct (RepetitionCountTest.TestBlock _ _) as [[] ?]; [|by exists []; rewrite app_nil_r].
    destruct (AdaptiveProportionTest.TestBlock _ _) as [[] ?]; [|by exists []; rewrite app_nil_r].
    exists [(true, slice_to n (whitened p))]. cbn. by rewrite !app_nil_r, slice_to_from.
  - exists []. by rewrite app_nil_r.
  - exists []. by rewrite app_nil_r.
Qed.

Lemma produced_cons o os : produced (o :: os) = produced [o] ++ produced os.
Proof. destruct o; cbn; by rewrite ?app_nil_r. Qed.

(** The same over a whole history. *)
Lemma exec_all_conserves os p :
  pool_ok p →
  ∃ segs : list (bool * bytes),
    whitened p ++ produced os = concat (snd <$> segs) ++ whitened (run_state (exec_all os) p) ∧
    snd <$> filter (λ s, s.1 = true) segs = run_val (exec_all os) p.
Proof.
  revert p. induction os as [|o os IH]; intros p Hok.
  { exists []. by rewrite app_nil_r. }
  destruct (exec_conserves o p Hok) as (s1 & E1 & F1).
  destruct (IH _ (exec_ok o p Hok)) as (s2 & E2 & F2).
  exists (s1 ++ s2). destruct (exec_all_cons o os p) as (-> & -> & _).
  rewrite produced_cons, (assoc_L (++)), E1, <-(assoc_L (++)), E2.
  rewrite fmap_app, concat_app, (assoc_L (++)), filter_app, fmap_app, F1, F2.
  split; [done|]. by destruct (run_val (exec o) p).
Qed.

(** C13: no whitened byte is handed out twice, lost unnoticed or reordered: the
    bytes in the pool followed by those the batches add are, in order, the
    segments that left the front of the pool followed by what it still holds;
    the successful extractions are some of these segments, in order, and the
    others are what the size bound trimmed. *)
Theorem pool_conserves_bytes os p :
  pool_ok p →
  ∃ segs : list (bool * bytes),
    whitened p ++ produced os = concat (snd <$> segs) ++ whitened (run_state (exec_all os) p) ∧
    snd <$> filter (λ s, s.1 = true) segs = run_val (exec_all os) p.
Proof. apply exec_all_conserves. Qed.

(** ** The extracted stream *)

Definition health_failure (c : prom_call) : Prop :=
  c = Inc ContinuousRCTFailures [] ∨ c = Inc ContinuousAPTFailures [].

Lemma exec_healthy o p h :
  pool_ok p → monitored p h h → Forall (λ c, ¬ health_failure c) (run_calls (exec o) p) →
  monitored (run_state (exec o) p) (h ++ default [] (run_val (exec o) p))
    (h ++ default [] (run_val (exec o) p)).
Proof.
  intros Hok Hmon Hc. destruct (exec_state o p) as [-> ->].
  destruct o as [events|n| |]; cbn [default from_option id]; rewrite ?app_nil_r; try done.
  - destruct (AddBatch_tests events p). by eapply monitored_ext.
  - cbn [exec] in Hc. destruct (extract_contract_holds n p h h Hok Hmon) as (H1 & H2 & H3 & H4 & _).
    destruct (decide (ready n p)) as [Hr|Hr];
      [|destruct (H1 Hr) as (-> & -> & _); by rewrite app_nil_r].
    destruct (rct_block p h h (slice_to n (whitened p)) Hok Hmon) as [Hrct _].
    destruct (apt_block p h h (slice_to n (whitened p)) Hok Hmon) as [Hapt _].
    destruct (RepetitionCountTest.TestBlock (rct p) _).1.
    + assert (Hn : ¬ unhealthy_run (h ++ slice_to n (whitened p))) by (by rewrite <-Hrct).
      destruct (AdaptiveProportionTest.TestBlock (apt p) _).1.
      * destruct (H4 Hr Hn) as (-> & _ & _ & ? & _); [by rewrite <-Hapt|done].
      * exfalso. destruct (H3 Hr Hn) as (_ & _ & _ & E); [by apply Hapt|]. rewrite E in Hc.
        apply Forall_cons in Hc as [Hc _]. apply Hc. by right.
    + exfalso. destruct (H2 Hr) as (_ & _ & _ & E); [by apply Hrct|]. rewrite E in Hc.
      apply Forall_cons in Hc as [Hc _]. apply Hc. by left.
Qed.

Lemma exec_all_healthy os p h :
  pool_ok p → monitored p h h → Forall (λ c, ¬ health_failure c) (run_calls (exec_all os) p) →
  monitored (run_state (exec_all os) p) (h ++ concat (run_val (exec_all os) p))
    (h ++ concat (run_val (exec_all os) p)).
Proof.
  revert p h. induction os as [|o os IH]; intros p h Hok Hmon Hc.
  { cbn. by rewrite app_nil_r. }
  destruct (exec_all_cons o os p) as (-> & -> & Ec). rewrite Ec in Hc. apply Forall_app in Hc as [Hc1 Hc2].
  pose proof (exec_healthy o p h Hok Hmon Hc1) as Hm.
  specialize (IH _ _ (exec_ok o p Hok) Hm Hc2).
  destruct (run_val (exec o) p) as [out|]; cbn [default from_option id concat] in *;
    by rewrite ?app_nil_r, <-?(assoc_L (++)) in IH.
Qed.

(** The stream of all bytes a new pool hands out, over any history in which
    no health failure is counted, never holds 40 equal consecutive bytes, and
    none of the windows of 4096 bytes it is cut into holds its first byte 605
    times, however the stream was cut into requests and whatever batches were
    added in between. *)
Theorem extracted_stream_healthy minSize maxSize os :
  let p := NewWhitenedPoolWithBounds minSize maxSize in
  Forall (λ c, ¬ health_failure c) (run_calls (exec_all os) p) →
  ¬ unhealthy_run (concat (run_val (exec_all os) p)) ∧
  ¬ unhealthy_window (concat (run_val (exec_all os) p)).
Proof.
  intros p Hc. pose proof (exec_all_healthy os p [] (NewWhitenedPoolWithBounds_ok _ _)
    (monitored_fresh _ _) Hc) as [_ Hr _ Hw]. done.
Qed.

Lemma short_window l : len l < 4096 → ¬ unhealthy_window l.
Proof.
  intros Hl (h0 & w & h1 & -> & Hw & _). rewrite !len_app in Hl.
  pose proof (len_nonneg h0). pose proof (len_nonneg h1). lia.
Qed.

Lemma fresh_healthy_run l :
  (RepetitionCountTest.TestBlock (NewRepetitionCountTest 40) l).1 = true → ¬ unhealthy_run l.
Proof.
  intros Hl Hr. pose proof (proj2 (RepetitionCountTest.fresh_verdict 40 l) Hr). congruence.
Qed.

(** ** Two behaviours worth knowing *)

Lemma unhealthy_run_app h l : unhealthy_run l → unhealthy_run (h ++ l).
Proof.
  intros (l1 & b & l2 & ->). exists (h ++ l1), b, l2. by rewrite (assoc_L (++)).
Qed.

Lemma unhealthy_run_longer n k l : n ≤ k → unhealthy_run (slice_to n l) → unhealthy_run (slice_to k l).
Proof.
  intros Hk (l1 & b & l2 & E). unfold slice_to in *.
  exists l1, b, (l2 ++ take (Z.to_nat k - Z.to_nat n) (drop (Z.to_nat n) l)).
  rewrite !(assoc_L (++)). rewrite (assoc_L (++)) in E. rewrite <-E, take_take_drop. f_equal. lia.
Qed.

(** When the first [n] bytes of the pool hold a run of 40 equal bytes, every
    later extraction of [n] or more bytes fails and leaves these bytes in place,
    although the test is reset after each failure: only newly added batches,
    pushing the bytes out, end this. *)
Theorem health_failure_persists n p h g os :
  pool_ok p → monitored p h g → unhealthy_run (slice_to n (whitened p)) →
  Forall (λ o, match o with OpAddBatch _ => False | OpExtract k => n ≤ k | _ => True end) os →
  run_val (exec_all os) p = [] ∧ whitened (run_state (exec_all os) p) = whitened p.
Proof.
  revert p h g. induction os as [|o os IH]; intros p h g Hok Hmon Hrun Hos; [done|].
  apply Forall_cons in Hos as [Ho Hos]. destruct (exec_all_cons o os p) as (-> & -> & _).
  assert (Hstep : run_val (exec o) p = None ∧ whitened (run_state (exec o) p) = whitened p).
  { destruct (exec_state o p) as [-> ->]. destruct o as [events|k| |]; [done| |done..].
    destruct (extract_contract_holds k p h g Hok Hmon) as (H1 & H2 & _).
    destruct (decide (ready k p)) as [Hr|Hr]; [|by destruct (H1 Hr) as (-> & -> & _)].
    destruct (H2 Hr) as (-> & -> & _); [|done]. by eapply unhealthy_run_app, unhealthy_run_longer. }
  destruct Hstep as [-> Hw]. destruct (exec_monitored o p h g Hok Hmon) as (h' & g' & Hmon').
  rewrite <-Hw. eapply (IH _ h' g'); [by apply exec_ok|done|by rewrite Hw|done].
Qed.

(** The minimum reserve is a threshold on what the pool holds before an
    extraction, not on what it leaves: a pool holding exactly its minimum
    reports no available entropy and yet hands out any number of healthy bytes
    up to all of it. *)
Theorem reserve_can_be_drained n p h g :
  pool_ok p → monitored p h g → len (whitened p) = minPoolSize p → 0 < n ≤ minPoolSize p →
  ¬ unhealthy_run (h ++ slice_to n (whitened p)) → ¬ unhealthy_window (g ++ slice_to n (whitened p)) →
  run_val AvailableEntropy p = 0 ∧
  run_val (ExtractEntropy n) p = Some (slice_to n (whitened p)) ∧
  len (whitened (run_state (ExtractEntropy n) p)) = minPoolSize p - n.
Proof.
  intros Hok Hmon Hlen Hn Hr Hw.
  destruct (extract_contract_holds n p h g Hok Hmon) as (_ & _ & _ & H4 & _).
  destruct H4 as (-> & _ & -> & _); [split_and!; lia|done|done|]. split_and!; [|done|].
  - unfold AvailableEntropy, run_val, mbind, GoM_bind, get.
    by destruct (Z.leb_spec (len (whitened p)) (minPoolSize p)); [|lia].
  - rewrite len_slice_from; lia.
Qed.
End pool.

(** ** Witnesses *)

Definition witness_pool (l : bytes) : WhitenedPool :=
  mkPool [] l 32 128 4096 (NewRepetitionCountTest 40) (NewAdaptiveProportionTest 605 4096).

Lemma witness_pool_ok l : bytes_ok l → len l ≤ 128 → pool_ok (witness_pool l).
Proof. intros. split; cbn; rewrite ?len_nil; unfold defaultMaxRawEventsStored; (done || lia). Qed.

Lemma witness_pool_monitored l : monitored (witness_pool l) [] [].
Proof. destruct (monitored_fresh 32 128). by split. Qed.

Definition witness_bytes : bytes := Z.of_nat <$> seq 0 32.

Lemma witness_bytes_ok : bytes_ok witness_bytes.
Proof. repeat constructor; vm_compute; congruence. Qed.

Lemma pool_conserves_bytes_witness :
  let H := witness_math in let R := witness_range in let p := witness_pool witness_bytes in
  let os := [OpExtract 7; OpAddBatch [mkTDCEvent 1 0 99 None None]; OpExtract 40] in
  pool_ok p ∧
  ∃ segs : list (bool * bytes),
    whitened p ++ produced os = concat (snd <$> segs) ++ whitened (run_state (exec_all os) p) ∧
    snd <$> filter (λ s, s.1 = true) segs = run_val (exec_all os) p.
Proof.
  intros H R p os. assert (H1 : pool_ok p) by (by apply witness_pool_ok; [apply witness_bytes_ok|]).
  exact (conj H1 (pool_conserves_bytes os p H1)).
Defined.

Lemma extracted_stream_healthy_witness :
  let H := witness_math in let R := witness_range in
  let os := [OpAddBatch [mkTDCEvent 1 0 99 None None]; OpExtract 32] in
  Forall (λ c, ¬ health_failure c) (run_calls (exec_all os) (NewWhitenedPoolWithBounds 32 0)) ∧
  ¬ unhealthy_run (concat (run_val (exec_all os) (NewWhitenedPoolWithBounds 32 0))).
Proof.
  intros H R os.
  assert (H1 : Forall (λ c, ¬ health_failure c)
    (run_calls (exec_all os) (NewWhitenedPoolWithBounds 32 0))).
  { vm_compute. repeat constructor; intros [?|?]; discriminate. }
  exact (conj H1 (proj1 (extracted_stream_healthy 32 0 os H1))).
Defined.

Lemma health_failure_persists_witness :
  let p := witness_pool (repeat 7 64) in
  pool_ok p ∧ monitored p [] [] ∧ unhealthy_run (slice_to 48 (whitened p)) ∧
  ∀ (ML : MathLib) (MR : MapRange), run_val (exec_all [OpExtract 48; OpStatus; OpExtract 64]) p = [].
Proof.
  intros p.
  assert (H1 : pool_ok p).
  { apply witness_pool_ok; [|by vm_compute]. repeat constructor; vm_compute; congruence. }
  assert (H2 : monitored p [] []) by apply witness_pool_monitored.
  assert (H3 : unhealthy_run (slice_to 48 (whitened p))) by (by exists [], 7, (repeat 7 8)).
  refine (conj H1 (conj H2 (conj H3 (λ M R, _)))).
  refine (proj1 (@health_failure_persists M R 48 p [] [] _ H1 H2 H3 _)).
  repeat constructor; lia.
Defined.

Lemma reserve_can_be_drained_witness :
  let H := witness_math in let R := witness_range in let p := witness_pool witness_bytes in
  pool_ok p ∧ monitored p [] [] ∧ len (whitened p) = minPoolSize p ∧
  run_val AvailableEntropy p = 0 ∧ len (whitened (run_state (ExtractEntropy 32) p)) = 0.
Proof.
  intros H R p. assert (H1 : pool_ok p) by (by apply witness_pool_ok; [apply witness_bytes_ok|]).
  assert (H2 : monitored p [] []) by apply witness_pool_monitored.
  assert (H3 : len (whitened p) = minPoolSize p) by (vm_compute; reflexivity).
  destruct (reserve_can_be_drained 32 p [] [] H1 H2 H3) as (H4 & _ & H5);
    [by vm_compute|by apply fresh_healthy_run|by apply short_window|].
  exact (conj H1 (conj H2 (conj H3 (conj H4 H5)))).
Defined.
