(* ===== verification/Collector.v ===== *)
(** * The batch collector (internal/collector/collector.go)

    [Add] and [flush] are the code run under the mutex [mu]; a flush ends in a
    send on the bounded channel [sendQueue], which may block while the mutex is
    held.  The goroutines (callers of [Add] and [Close], the auto-flush loop and
    the send loop) are interleaved by the step relation of [system]. *)

From S2P Require Import Prelude Float64 Clock Metrics MqttHandler.

Record sendRequest := mkRequest { batch : list TDCEvent; seq : Z }.

(** The interface [BatchSender]: both methods may change the sender. *)
Class BatchSender (F : Type) := {
  SendBatch : list TDCEvent → Z → GoM prom_call F (result unit);
  SenderIncrementDropped : Z → GoM prom_call F unit;
}.

(** How [append] grows a full slice: old capacity, needed length. *)
Class GoAppend := { grow : Z → Z → Z }.

Definition maxInt (a b : Z) : Z := if b <? a then a else b.

Section collector.
Context {F : Type} `{BatchSender F, GoAppend}.

(** The fields of the Go struct; the wait group of pending sends is a counter,
    the channel its contents, capacity and whether it is closed. *)
Record BatchCollector := mkCollector {
  events : list TDCEvent;
  eventsCap : Z;
  maxSize : Z;
  forwarder : F;
  flushInterval : Z;
  pendingSendGroup : Z;
  sendQueue : list sendRequest;
  queueCap : Z;
  queueClosed : bool;
  sequence : Z;
  cancelled : bool;
}.

(** Go's [make] panics on a negative capacity: the sizes used are positive (a
    loaded configuration has at least 1840). *)
Definition NewBatchCollectorWithFlush (maxSize flushInterval : Z) (fwd : F) : BatchCollector :=
  mkCollector [] maxSize maxSize fwd flushInterval 0 [] (maxInt 1 (Z.quot maxSize 2)) false 0 false.

Definition NewBatchCollector (maxSize : Z) (fwd : F) : BatchCollector :=
  NewBatchCollectorWithFlush maxSize (10 * Second) fwd.

Definition M : Type → Type := GoM prom_call BatchCollector.

Definition set_buffer (evs : list TDCEvent) (cap sq pending : Z) (bc : BatchCollector) : BatchCollector :=
  mkCollector evs cap (maxSize bc) (forwarder bc) (flushInterval bc) pending (sendQueue bc)
    (queueCap bc) (queueClosed bc) sq (cancelled bc).
Definition set_queue (q : list sendRequest) (bc : BatchCollector) : BatchCollector :=
  mkCollector (events bc) (eventsCap bc) (maxSize bc) (forwarder bc) (flushInterval bc)
    (pendingSendGroup bc) q (queueCap bc) (queueClosed bc) (sequence bc) (cancelled bc).
Definition set_closed (bc : BatchCollector) : BatchCollector :=
  mkCollector (events bc) (eventsCap bc) (maxSize bc) (forwarder bc) (flushInterval bc)
    (pendingSendGroup bc) (sendQueue bc) (queueCap bc) true (sequence bc) (cancelled bc).
Definition set_cancelled (bc : BatchCollector) : BatchCollector :=
  mkCollector (events bc) (eventsCap bc) (maxSize bc) (forwarder bc) (flushInterval bc)
    (pendingSendGroup bc) (sendQueue bc) (queueCap bc) (queueClosed bc) (sequence bc) true.
Definition set_sent (f : F) (bc : BatchCollector) : BatchCollector :=
  mkCollector (events bc) (eventsCap bc) (maxSize bc) f (flushInterval bc)
    (pendingSendGroup bc - 1) (sendQueue bc) (queueCap bc) (queueClosed bc) (sequence bc) (cancelled bc).

(** [flush] up to its last statement: the request it then sends on the queue,
    if any.  [start] and [stop] are its two readings of the clock. *)
Definition flush (start stop : Z) : M (option sendRequest) :=
  bc ← get;
  if len (events bc) =? 0 then mret None
  else
    let batch := events bc in
    let seq := u32 (sequence bc + 1) in
    call (SetCollectorPoolSize 0) ;;
    let cap :=
      if (mul_i64 (maxSize bc) 2 <? eventsCap bc) && (len batch <? Z.quot (maxSize bc) 4)
      then maxSize bc else eventsCap bc in
    modify (set_buffer [] cap seq (pendingSendGroup bc + 1)) ;;
    call (RecordCollectorFlush (Sub stop start)) ;;
    mret (Some (mkRequest batch seq)).

Definition Add (start stop : Z) (event : TDCEvent) : M (option sendRequest) :=
  bc ← get;
  let evs := events bc ++ [event] in
  let cap := if eventsCap bc <? len evs then grow (eventsCap bc) (len evs) else eventsCap bc in
  modify (set_buffer evs cap (sequence bc) (pendingSendGroup bc)) ;;
  call (SetCollectorPoolSize (len evs)) ;;
  if maxSize bc <=? len evs then flush start stop else mret None.

(** The method [IncrementDropped]; the sender is never nil in the gateway. *)
Definition IncrementDropped (count : Z) : M unit :=
  λ bc, match SenderIncrementDropped count (forwarder bc) with
        | (_, f, w) => (tt, mkCollector (events bc) (eventsCap bc) (maxSize bc) f (flushInterval bc)
            (pendingSendGroup bc) (sendQueue bc) (queueCap bc) (queueClosed bc) (sequence bc)
            (cancelled bc), w)
        end.

(** The period of [autoFlush]. *)
Definition autoFlushInterval (bc : BatchCollector) : Z :=
  if flushInterval bc <=? 0 then 10 * Second else flushInterval bc.

(** ** Goroutines *)

(** Where a call of [Close] is. *)
Inductive close_phase :=
| PFlush      (* cancelled, about to take the mutex and flush *)
| PSend       (* holds the mutex, sending the last batch *)
| PCloseQueue (* about to close the queue *)
| PWait       (* waiting for the goroutines *)
| PReturned (timeout : bool).

(** Who holds the mutex while sending on the queue. *)
Inductive holder := HAdd | HAuto | HClose (i : nat).

Record system := mkSystem {
  bc : BatchCollector;
  mu : option (holder * sendRequest);
  autoRunning : bool;
  inFlight : option sendRequest;
  workerDone : bool;
  closers : list close_phase;
}.

Definition start_system (bc : BatchCollector) : system := mkSystem bc None true None false [].

Inductive label :=
| LAdd (e : TDCEvent)
| LTick
| LEnqueue
| LTake
| LSend (r : sendRequest)
| LWorkerExit
| LAutoExit
| LClose
| LCloseFlush (i : nat)
| LCloseQueue (i : nat)
| LCloseReturn (i : nat) (timeout : bool).

(** The mutex after a critical section that leaves [r] to be sent. *)
Definition hold (h : holder) (r : option sendRequest) : option (holder * sendRequest) :=
  match r with Some r => Some (h, r) | None => None end.

Definition closers_after (s : system) (h : holder) : list close_phase :=
  match h with HClose i => <[i := PCloseQueue]> (closers s) | _ => closers s end.

Inductive step : system → label → system → Prop :=
| step_add s start stop e r bc' w :
    mu s = None → Add start stop e (bc s) = (r, bc', w) →
    step s (LAdd e)
      (mkSystem bc' (hold HAdd r) (autoRunning s) (inFlight s) (workerDone s) (closers s))
| step_tick s start stop r bc' w :
    (* the timer of the select may win even when the context is done *)
    mu s = None → autoRunning s = true → flush start stop (bc s) = (r, bc', w) →
    step s LTick (mkSystem bc' (hold HAuto r) true (inFlight s) (workerDone s) (closers s))
| step_enqueue s h r :
    mu s = Some (h, r) → queueClosed (bc s) = false → len (sendQueue (bc s)) < queueCap (bc s) →
    step s LEnqueue
      (mkSystem (set_queue (sendQueue (bc s) ++ [r]) (bc s)) None (autoRunning s) (inFlight s)
        (workerDone s) (closers_after s h))
| step_take s r q :
    inFlight s = None → workerDone s = false → sendQueue (bc s) = r :: q →
    step s LTake
      (mkSystem (set_queue q (bc s)) (mu s) (autoRunning s) (Some r) false (closers s))
| step_send s r :
    inFlight s = Some r →
    step s (LSend r)
      (mkSystem (set_sent (run_state (SendBatch (batch r) (seq r)) (forwarder (bc s))) (bc s))
        (mu s) (autoRunning s) None (workerDone s) (closers s))
| step_worker_exit s :
    inFlight s = None → workerDone s = false → queueClosed (bc s) = true → sendQueue (bc s) = [] →
    step s LWorkerExit (mkSystem (bc s) (mu s) (autoRunning s) None true (closers s))
| step_auto_exit s :
    (match mu s with Some (HAuto, _) => False | _ => True end) →
    autoRunning s = true → cancelled (bc s) = true →
    step s LAutoExit (mkSystem (bc s) (mu s) false (inFlight s) (workerDone s) (closers s))
| step_close s :
    step s LClose
      (mkSystem (set_cancelled (bc s)) (mu s) (autoRunning s) (inFlight s) (workerDone s)
        (closers s ++ [PFlush]))
| step_close_flush s i start stop r bc' w :
    closers s !! i = Some PFlush → mu s = None → flush start stop (bc s) = (r, bc', w) →
    step s (LCloseFlush i)
      (mkSystem bc' (hold (HClose i) r) (autoRunning s) (inFlight s) (workerDone s)
        (<[i := match r with Some _ => PSend | None => PCloseQueue end]> (closers s)))
| step_close_queue s i :
    closers s !! i = Some PCloseQueue →
    step s (LCloseQueue i)
      (mkSystem (set_closed (bc s)) (mu s) (autoRunning s) (inFlight s) (workerDone s)
        (<[i := PWait]> (closers s)))
| step_close_return s i timeout :
    closers s !! i = Some PWait →
    (timeout = false → workerDone s = true ∧ pendingSendGroup (bc s) = 0 ∧ autoRunning s = false) →
    step s (LCloseReturn i timeout)
      (mkSystem (bc s) (mu s) (autoRunning s) (inFlight s) (workerDone s)
        (<[i := PReturned timeout]> (closers s))).

(** A send on a closed channel panics. *)
Definition panics (s : system) : Prop := is_Some (mu s) ∧ queueClosed (bc s) = true.

Inductive steps : system → list label → system → Prop :=
| steps_nil s : steps s [] s
| steps_snoc s tr s' l s'' : steps s tr s' → step s' l s'' → steps s (tr ++ [l]) s''.

(** ** The critical sections *)

(** What [flush] leaves: an empty buffer, and a request unless it was empty already. *)
Lemma flush_eq start stop c :
  flush start stop c =
    if decide (events c = []) then (None, c, [])
    else
      (Some (mkRequest (events c) (u32 (sequence c + 1))),
       set_buffer []
         (if (mul_i64 (maxSize c) 2 <? eventsCap c) && (len (events c) <? Z.quot (maxSize c) 4)
          then maxSize c else eventsCap c)
         (u32 (sequence c + 1)) (pendingSendGroup c + 1) c,
       SetCollectorPoolSize 0 ++ RecordCollectorFlush (Sub stop start)).
Proof.
  unfold flush, mbind, GoM_bind, get, call, modify, mret, GoM_ret.
  destruct (Z.eqb_spec (len (events c)) 0) as [E|E].
  - apply len_zero_iff in E. by rewrite decide_True.
  - rewrite decide_False; [by rewrite ?app_nil_r|]. intros E'. by rewrite E' in E.
Qed.

Definition pushed (e : TDCEvent) (c : BatchCollector) : BatchCollector :=
  let evs := events c ++ [e] in
  set_buffer evs (if eventsCap c <? len evs then grow (eventsCap c) (len evs) else eventsCap c)
    (sequence c) (pendingSendGroup c) c.

Lemma Add_eq start stop e c :
  Add start stop e c =
    if maxSize c <=? len (events c) + 1 then
      let '(r, c', w) := flush start stop (pushed e c) in
      (r, c', SetCollectorPoolSize (len (events c) + 1) ++ w)
    else (None, pushed e c, SetCollectorPoolSize (len (events c) + 1)).
Proof.
  unfold Add, mbind, GoM_bind, get, call, modify, mret, GoM_ret, pushed.
  rewrite !len_app. change (len [e]) with 1. cbn [maxSize set_buffer].
  destruct (maxSize c <=? len (events c) + 1); cbn [fst snd app]; [|by rewrite ?app_nil_r].
  by destruct (flush _ _ _) as [[r c'] w].
Qed.

(** ** What a history of steps means *)

Definition added (tr : list label) : list TDCEvent :=
  omap (λ l, match l with LAdd e => Some e | _ => None end) tr.

Definition sent (tr : list label) : list sendRequest :=
  omap (λ l, match l with LSend r => Some r | _ => None end) tr.

(** Flushed and not yet sent, oldest first. *)
Definition outstanding (s : system) : list sendRequest :=
  option_list (inFlight s) ++ sendQueue (bc s) ++ option_list (snd <$> mu s).

(** The sender after some requests. *)
Definition forwarded (f : F) (rs : list sendRequest) : F :=
  foldl (λ f r, run_state (SendBatch (batch r) (seq r)) f) f rs.

Definition numbered (rs : list sendRequest) : Prop :=
  seq <$> rs = (λ n, u32 (Z.of_nat n)) <$> List.seq 1 (length rs).

Definition limit (c : BatchCollector) : Z := Z.max 1 (maxSize c).

Definition request_ok (c : BatchCollector) (r : sendRequest) : Prop := 0 < len (batch r) ≤ limit c.

(** The state [s] of a collector that has handed the batches [done] to the
    sender, started as [c0], with fewer than [b] events buffered; [evs] are all
    the events added. *)
Record inv_below (b : Z) (c0 : BatchCollector) (evs : list TDCEvent) (done : list sendRequest) (s : system) : Prop := {
  inv_events : evs = concat (batch <$> done ++ outstanding s) ++ events (bc s);
  inv_numbered : numbered (done ++ outstanding s);
  inv_sequence : sequence (bc s) = u32 (len (done ++ outstanding s));
  inv_forwarder : forwarder (bc s) = forwarded (forwarder c0) done;
  inv_pending : pendingSendGroup (bc s) = len (outstanding s);
  inv_requests : Forall (request_ok c0) (done ++ outstanding s);
  inv_queue : len (sendQueue (bc s)) ≤ queueCap (bc s);
  inv_buffer : len (events (bc s)) < b;
  inv_cap : 1 ≤ maxSize c0 → eventsCap (bc s) = maxSize c0;
  inv_worker : workerDone s = true → queueClosed (bc s) = true ∧ sendQueue (bc s) = [] ∧ inFlight s = None;
  inv_params : maxSize (bc s) = maxSize c0 ∧ queueCap (bc s) = queueCap c0 ∧
    flushInterval (bc s) = flushInterval c0;
}.

Definition inv (c0 : BatchCollector) := inv_below (limit c0) c0.

(** A freshly built collector. *)
Definition fresh (c : BatchCollector) : Prop :=
  ∃ maxSize flushInterval fwd, is_i64 maxSize ∧ c = NewBatchCollectorWithFlush maxSize flushInterval fwd.

Lemma inv_start c : fresh c → inv c [] [] (start_system c).
Proof.
  intros (m & fl & f & Hm & ->). split; cbn; rewrite ?len_nil; try done.
  - unfold maxInt. destruct (Z.ltb_spec (Z.quot m 2) 1); lia.
  - unfold limit. cbn. lia.
Qed.

Lemma numbered_snoc rs b :
  numbered rs → numbered (rs ++ [mkRequest b (u32 (u32 (len rs) + 1))]).
Proof.
  unfold numbered. intros Hn. rewrite length_app, Nat.add_1_r, seq_S, !fmap_app, Hn.
  cbn [fmap list_fmap seq]. do 2 f_equal. unfold u32, len. rewrite Z.add_mod_idemp_l by lia.
  f_equal. lia.
Qed.

Lemma numbered_prefix rs rs' : numbered (rs ++ rs') → numbered rs.
Proof.
  unfold numbered. rewrite length_app, seq_app, !fmap_app. intros Hn.
  by apply app_inj_1 in Hn as [Hn _]; [|rewrite !length_fmap, length_seq].
Qed.

(** Flushing moves the buffer to the end of the outstanding requests. *)
Lemma inv_flush c0 evs done s h start stop :
  inv_below (limit c0 + 1) c0 evs done s → mu s = None →
  let '(r, c', _) := flush start stop (bc s) in
  events c' = [] ∧ inv c0 evs done (mkSystem c' (hold h r) (autoRunning s) (inFlight s) (workerDone s) (closers s)).
Proof.
  intros Hi Hmu. rewrite flush_eq. destruct Hi as [I1 I2 I3 I4 I5 I6 I7 I8 I9 I10 I11].
  case_decide as He.
  - split; [done|]. destruct s; cbn in *; subst. split; try done. cbn. rewrite He, len_nil. unfold limit. lia.
  - split; [done|].
    set (r := mkRequest (events (bc s)) (u32 (sequence (bc s) + 1))).
    set (s' := mkSystem _ _ _ _ _ _).
    assert (Hout : outstanding s' = outstanding s ++ [r]).
    { unfold outstanding, s'. rewrite Hmu. cbn. by rewrite !app_nil_r, (assoc_L (++)). }
    assert (Hpos : 0 < len (events (bc s))).
    { pose proof (len_nonneg (events (bc s))). destruct (Z.eq_dec (len (events (bc s))) 0) as [E|]; [|lia].
      by apply len_zero_iff in E. }
    split; rewrite ?Hout, ?(assoc_L (++)); try done; subst s'; cbn [bc events sequence
      pendingSendGroup eventsCap set_buffer].
    + rewrite (fmap_app batch (done ++ outstanding s)), concat_app, I1. cbn. by rewrite !app_nil_r.
    + subst r. rewrite I3. by apply numbered_snoc.
    + rewrite len_app, I3. unfold u32. rewrite Z.add_mod_idemp_l by lia. done.
    + by rewrite len_app, I5.
    + apply Forall_app. split; [done|]. apply Forall_singleton. split; [done|]. cbn. lia.
    + rewrite len_nil. unfold limit. lia.
    + intros Hm. destruct I11 as [Hmax _]. case_match; [exact Hmax|by apply I9].
Qed.

Lemma inv_weaken c0 evs done s : inv c0 evs done s → inv_below (limit c0 + 1) c0 evs done s.
Proof. intros []. split; try done. lia. Qed.

Lemma inv_push c0 evs done s e :
  inv c0 evs done s → mu s = None →
  inv_below (if maxSize (bc s) <=? len (events (bc s)) + 1 then limit c0 + 1 else limit c0) c0
    (evs ++ [e]) done
    (mkSystem (pushed e (bc s)) None (autoRunning s) (inFlight s) (workerDone s) (closers s)).
Proof.
  intros [I1 I2 I3 I4 I5 I6 I7 I8 I9 I10 I11] Hmu.
  assert (Hout : outstanding (mkSystem (pushed e (bc s)) None (autoRunning s) (inFlight s)
    (workerDone s) (closers s)) = outstanding s) by (unfold outstanding; by rewrite Hmu).
  destruct I11 as [Hmax I11].
  split; rewrite ?Hout; try done; cbn [bc pushed set_buffer events eventsCap].
  - by rewrite I1, (assoc_L (++)).
  - rewrite len_app. change (len [e]) with 1. rewrite Hmax.
    destruct (Z.leb_spec (maxSize c0) (len (events (bc s)) + 1)); [lia|]. unfold limit. lia.
  - intros Hm. specialize (I9 Hm). rewrite I9, len_app. change (len [e]) with 1.
    unfold limit in I8. destruct (Z.ltb_spec (maxSize c0) (len (events (bc s)) + 1)); [lia|done].
Qed.

Lemma inv_closers c0 evs done s a cl :
  inv c0 evs done s → inv c0 evs done (mkSystem (bc s) (mu s) a (inFlight s) (workerDone s) cl).
Proof. intros []. by split. Qed.

(** The batch in flight goes through the sender. *)
Lemma inv_sent c0 evs done s r :
  inv c0 evs done s → inFlight s = Some r →
  inv c0 evs (done ++ [r])
    (mkSystem (set_sent (run_state (SendBatch (batch r) (seq r)) (forwarder (bc s))) (bc s))
      (mu s) (autoRunning s) None (workerDone s) (closers s)).
Proof.
  intros [I1 I2 I3 I4 I5 I6 I7 I8 I9 I10 I11] Hin.
  set (s' := mkSystem _ _ _ _ _ _).
  assert (Hout : outstanding s = r :: outstanding s') by (unfold outstanding, s'; by rewrite Hin).
  assert (E : done ++ r :: outstanding s' = (done ++ [r]) ++ outstanding s')
    by (by rewrite <-(assoc_L (++))).
  rewrite Hout in I1, I2, I3, I5, I6. rewrite E in I1, I2, I3, I6.
  split; try done; subst s'; cbn [bc set_sent forwarder pendingSendGroup].
  + rewrite I4. unfold forwarded. by rewrite foldl_app.
  + rewrite I5, len_cons. lia.
  + intros Hw. destruct (I10 Hw) as (_ & _ & Hx). congruence.
Qed.

(** Every step keeps the invariant. *)
Lemma step_inv c0 evs done s l s' :
  inv c0 evs done s → step s l s' → inv c0 (evs ++ added [l]) (done ++ sent [l]) s'.
Proof.
  intros Hi Hs. destruct Hs as [s start stop e r c' w Hmu HA|s start stop r c' w Hmu Hauto Hf
    |s h r Hmu Hc Hl|s r q Hin Hw Hq|s r Hin|s Hin Hw Hc Hq|s Hh Ha Hcan|s|s i start stop r c' w Hc Hmu Hf
    |s i Hc|s i timeout Hc Ht]; cbn [added sent omap list_omap]; rewrite ?app_nil_r.
  - pose proof (inv_push c0 evs done s e Hi Hmu) as Hp. rewrite Add_eq in HA.
    destruct (maxSize (bc s) <=? len (events (bc s)) + 1); [|by injection HA as <- <- <-].
    pose proof (inv_flush c0 _ _ _ HAdd start stop Hp eq_refl) as Hfl. cbn [bc autoRunning inFlight workerDone closers] in Hfl.
    destruct (flush start stop (pushed e (bc s))) as [[r' c''] w']. injection HA as <- <- <-. apply Hfl.
  - pose proof (inv_flush c0 _ _ _ HAuto start stop (inv_weaken _ _ _ _ Hi) Hmu) as Hfl.
    rewrite Hf, Hauto in Hfl. apply Hfl.
  - destruct Hi as [I1 I2 I3 I4 I5 I6 I7 I8 I9 I10 I11].
    assert (Hout : outstanding (mkSystem (set_queue (sendQueue (bc s) ++ [r]) (bc s)) None (autoRunning s)
      (inFlight s) (workerDone s) (closers_after s h)) = outstanding s).
    { unfold outstanding. rewrite Hmu. cbn. by rewrite app_nil_r. }
    split; rewrite ?Hout; try done.
    + cbn [bc set_queue sendQueue queueCap]. rewrite len_app. change (len [r]) with 1. lia.
    + intros Hw. destruct (I10 Hw) as (Hx & _). congruence.
  - destruct Hi as [I1 I2 I3 I4 I5 I6 I7 I8 I9 I10 I11].
    assert (Hout : outstanding (mkSystem (set_queue q (bc s)) (mu s) (autoRunning s) (Some r) false
      (closers s)) = outstanding s) by (unfold outstanding; by rewrite Hin, Hq).
    split; rewrite ?Hout; try done. cbn [bc set_queue sendQueue queueCap]. rewrite Hq, len_cons in I7. lia.
  - by apply inv_sent.
  - destruct Hi as [I1 I2 I3 I4 I5 I6 I7 I8 I9 I10 I11].
    assert (Hout : outstanding (mkSystem (bc s) (mu s) (autoRunning s) None true (closers s)) = outstanding s)
      by (unfold outstanding; by rewrite Hin).
    by split; rewrite ?Hout.
  - by apply inv_closers.
  - destruct Hi. by split.
  - pose proof (inv_flush c0 _ _ _ (HClose i) start stop (inv_weaken _ _ _ _ Hi) Hmu) as Hfl.
    rewrite Hf in Hfl. destruct Hfl as [_ Hfl]. destruct Hfl. by split.
  - destruct Hi as [I1 I2 I3 I4 I5 I6 I7 I8 I9 I10 I11]. split; try done.
    intros Hw. by destruct (I10 Hw) as (_ & ? & ?).
  - by apply inv_closers.
Qed.

Lemma steps_trans s1 tr1 s2 tr2 s3 : steps s1 tr1 s2 → steps s2 tr2 s3 → steps s1 (tr1 ++ tr2) s3.
Proof.
  intros H1 H2. induction H2 as [s|s tr s' l s'' H2 IH Hl]; [by rewrite app_nil_r|].
  rewrite (assoc_L (++)). by eapply steps_snoc; [apply IH|].
Qed.

Lemma steps_one s l s' : step s l s' → steps s [l] s'.
Proof. intros Hl. change [l] with ([] ++ [l]). eapply steps_snoc; [apply steps_nil|done]. Qed.

Lemma steps_cons s l s1 tr s2 : step s l s1 → steps s1 tr s2 → steps s (l :: tr) s2.
Proof. intros Hl Htr. by apply (steps_trans s [l] s1), Htr; apply steps_one. Qed.

Lemma added_app tr1 tr2 : added (tr1 ++ tr2) = added tr1 ++ added tr2.
Proof. apply omap_app. Qed.

Lemma sent_app tr1 tr2 : sent (tr1 ++ tr2) = sent tr1 ++ sent tr2.
Proof. apply omap_app. Qed.

Lemma steps_inv c0 evs done s tr s' :
  inv c0 evs done s → steps s tr s' → inv c0 (evs ++ added tr) (done ++ sent tr) s'.
Proof.
  intros Hi Hs. induction Hs as [s|s tr s' l s'' Hs IH Hl].
  - by rewrite !app_nil_r.
  - rewrite added_app, sent_app, !(assoc_L (++)). eapply step_inv; [by apply IH|done].
Qed.

Lemma reachable_inv c0 tr s :
  fresh c0 → steps (start_system c0) tr s → inv c0 (added tr) (sent tr) s.
Proof. intros Hf Hs. apply (steps_inv c0 [] [] _ _ _ (inv_start c0 Hf) Hs). Qed.

(** C14: under every interleaving of callers of [Add] and [Close], the auto-flush
    loop and the send loop, the events added are, in order, those of the batches
    given to the sender, those of the batches still queued, and those buffered:
    none is lost, duplicated or reordered.  The batches are numbered 1, 2, 3, ...
    modulo 2^32, are not empty, hold at most the maximum size, and the sender
    has seen exactly them in this order; the buffer stays below the maximum size
    and the queue within its capacity. *)
Theorem collector_conserves c0 tr s :
  fresh c0 → steps (start_system c0) tr s →
  added tr = concat (batch <$> sent tr ++ outstanding s) ++ events (bc s) ∧
  numbered (sent tr ++ outstanding s) ∧
  forwarder (bc s) = forwarded (forwarder c0) (sent tr) ∧
  Forall (λ r, 0 < len (batch r) ≤ Z.max 1 (maxSize c0)) (sent tr ++ outstanding s) ∧
  len (events (bc s)) < Z.max 1 (maxSize c0) ∧
  len (sendQueue (bc s)) ≤ queueCap c0.
Proof.
  intros Hf Hs. destruct (reachable_inv c0 tr s Hf Hs) as [? ? _ ? _ ? Hq ? _ _ (_ & Hcap & _)].
  rewrite Hcap in Hq. by split_and!.
Qed.

(** ** Progress *)

(** The steps by which flushed batches move towards the sender. *)
Definition internal (l : label) : Prop :=
  match l with LEnqueue | LTake | LSend _ => True | _ => False end.

Definition weight (s : system) : nat :=
  length (option_list (inFlight s)) + 2 * length (sendQueue (bc s)) + 3 * length (option_list (mu s)).

Lemma internal_decreases s l s' : internal l → step s l s' → (weight s' < weight s)%nat.
Proof.
  intros Hl Hs. unfold weight.
  destruct Hs as [| |s h r Hmu Hc Hlen|s r q Hin Hw Hq|s r Hin| | | | | |]; try done; cbn [inFlight bc mu set_queue set_sent sendQueue].
  - rewrite Hmu, length_app. simpl. lia.
  - rewrite Hin, Hq. simpl. lia.
  - rewrite Hin. simpl. lia.
Qed.

Lemma internal_panics s l s' : internal l → step s l s' → ¬ panics s → ¬ panics s'.
Proof.
  intros Hl Hs Hp. unfold panics in *.
  destruct Hs; try done; cbn. intros [[] ?]. done.
Qed.

Lemma fresh_capacity c0 : fresh c0 → 1 ≤ queueCap c0.
Proof.
  intros (m & fl & f & _ & ->). cbn. unfold maxInt. destruct (Z.ltb_spec (Z.quot m 2) 1); lia.
Qed.

Lemma internal_progress c0 evs done s :
  1 ≤ queueCap c0 → inv c0 evs done s → ¬ panics s →
  outstanding s = [] ∨ ∃ l s', internal l ∧ step s l s'.
Proof.
  intros Hcap [_ _ _ _ _ _ _ _ _ I10 (_ & Hc & _)] Hp. unfold outstanding.
  destruct (inFlight s) as [r|] eqn:Hin.
  { right. exists (LSend r). eexists. split; [done|]. by apply step_send. }
  destruct (sendQueue (bc s)) as [|r q] eqn:Hq.
  - destruct (mu s) as [[h r]|] eqn:Hmu; [|by left]. right. exists LEnqueue. eexists.
    split; [done|]. apply (step_enqueue s h r); [done| |rewrite Hq, len_nil; lia].
    destruct (queueClosed (bc s)) eqn:Hcl; [|done]. exfalso. apply Hp. split; [by rewrite Hmu|done].
  - right. exists LTake. eexists. split; [done|]. apply (step_take s r q); [done| |done].
    destruct (workerDone s) eqn:Hw; [|done]. by destruct (I10 eq_refl) as (_ & ? & _).
Qed.

(** C15: the collector never deadlocks: whenever no goroutine is about to send on
    the closed queue, the send loop and the holder of the mutex, left to
    themselves, can take only finitely many steps (at most [weight s]), and can
    always take one more until every flushed batch has been given to the sender,
    in the order of the flushes; in particular a caller of [Add] blocked on a
    full queue is always released. *)
Theorem collector_drains c0 tr s tr' s' :
  fresh c0 → steps (start_system c0) tr s → ¬ panics s → steps s tr' s' → Forall internal tr' →
  (length tr' ≤ weight s)%nat ∧
  sent tr' ++ outstanding s' = outstanding s ∧
  ((outstanding s' = [] ∧ sent tr' = outstanding s ∧ mu s' = None) ∨
   ∃ l s'', internal l ∧ step s' l s'').
Proof.
  intros Hf Hs Hp Hs' Hi. pose proof (reachable_inv c0 tr s Hf Hs) as Hinv.
  assert (Hrun : (length tr' + weight s' ≤ weight s)%nat ∧ ¬ panics s' ∧
    sent tr' ++ outstanding s' = outstanding s).
  { clear Hinv. induction Hs' as [s|s tr1 s' l s'' Hs' IH Hl].
    - split_and!; [simpl; lia|done|done].
    - apply Forall_app in Hi as [Hi1 [Hi2 _]%Forall_cons].
      destruct (IH Hs Hp Hi1) as (IH1 & IH2 & IH3).
      pose proof (internal_decreases _ _ _ Hi2 Hl). rewrite length_app. simpl.
      split_and!; [lia|by eapply internal_panics|].
      rewrite sent_app, <-IH3, <-(assoc_L (++)). f_equal. unfold outstanding.
      destruct Hl as [| |s0 h r Hmu Hc Hlen|s0 r q Hin Hw Hq|s0 r Hin| | | | | |]; try done.
      + rewrite Hmu. cbn. by rewrite app_nil_r.
      + by rewrite Hin, Hq.
      + by rewrite Hin. }
  destruct Hrun as (Hlen & Hp' & Hout). split_and!; [lia|done|].
  assert (Hinv' : inv c0 (added tr ++ added tr') (sent tr ++ sent tr') s') by (by eapply steps_inv).
  destruct (internal_progress c0 _ _ s' (fresh_capacity c0 Hf) Hinv' Hp') as [He|?]; [left|by right].
  rewrite He, app_nil_r in Hout. split_and!; [done|done|].
  unfold outstanding in He. destruct (mu s') as [[h r]|]; [|done].
  by apply app_nil in He as [_ [_ [=]]%app_nil].
Qed.

(** ** Closing *)

Lemma flush_empties start stop c r c' w : flush start stop c = (r, c', w) → events c' = [].
Proof. rewrite flush_eq. case_decide; by intros [= <- <- <-]. Qed.

Lemma flush_closed start stop c r c' w :
  flush start stop c = (r, c', w) → queueClosed c' = queueClosed c.
Proof. rewrite flush_eq. case_decide; by intros [= <- <- <-]. Qed.

Lemma flush_none start stop c r c' w : events c = [] → flush start stop c = (r, c', w) → r = None.
Proof. intros He. rewrite flush_eq, decide_True by done. by intros [= <- <- <-]. Qed.

Lemma step_empty s l s' : events (bc s) = [] → added [l] = [] → step s l s' → events (bc s') = [].
Proof. intros He Ha Hs. destruct Hs; try done; by eapply flush_empties. Qed.

Lemma steps_empty s tr s' : events (bc s) = [] → added tr = [] → steps s tr s' → events (bc s') = [].
Proof.
  intros He Ha Hs. induction Hs as [s|s tr s' l s'' Hs IH Hl]; [done|].
  rewrite added_app in Ha. apply app_nil in Ha as [Ha1 Ha2]. apply (step_empty s' l s''); [by apply IH|done|done].
Qed.

Lemma steps_last s tr l s' : steps s (tr ++ [l]) s' → ∃ s1, steps s tr s1 ∧ step s1 l s'.
Proof.
  intros Hs. remember (tr ++ [l]) as tr0 eqn:E. destruct Hs as [s|s tr0 s1 l0 s2 H1 Hl].
  - by destruct tr.
  - apply app_inj_tail in E as [-> ->]. by exists s1.
Qed.

Lemma steps_split s tr1 tr2 s' : steps s (tr1 ++ tr2) s' → ∃ s1, steps s tr1 s1 ∧ steps s1 tr2 s'.
Proof.
  revert s'. induction tr2 as [|l tr2 IH] using rev_ind; intros s' Hs.
  { exists s'. rewrite app_nil_r in Hs. split; [done|apply steps_nil]. }
  rewrite (assoc_L (++)) in Hs. apply steps_last in Hs as (s2 & Hs & Hl).
  destruct (IH _ Hs) as (s1 & ? & ?). exists s1. split; [done|by eapply steps_snoc].
Qed.

(** A [Close] that returned in time has had everything sent. *)
Lemma closed_all_sent c0 tr1 i tr2 s :
  fresh c0 →
  steps (start_system c0) (tr1 ++ [LCloseFlush i] ++ tr2 ++ [LCloseReturn i false]) s →
  added tr2 = [] →
  let tr := tr1 ++ [LCloseFlush i] ++ tr2 ++ [LCloseReturn i false] in
  concat (batch <$> sent tr) = added tr ∧ events (bc s) = [] ∧ outstanding s = [] ∧
  workerDone s = true ∧ autoRunning s = false.
Proof.
  intros Hf Hs Ha tr. pose proof (reachable_inv c0 _ _ Hf Hs) as [I1 _ _ _ I5 _ _ _ _ _ _].
  assert (He : events (bc s) = []).
  { apply steps_split in Hs as (s1 & _ & Hs). apply steps_split in Hs as (s2 & Hfl & Hs).
    change [LCloseFlush i] with ([] ++ [LCloseFlush i]) in Hfl.
    apply steps_last in Hfl as (s1' & _ & Hfl). inversion Hfl; subst.
    refine (steps_empty _ _ _ _ _ Hs); [by eapply flush_empties|]. rewrite added_app, Ha. done. }
  assert (Hret : outstanding s = [] ∧ workerDone s = true ∧ autoRunning s = false).
  { assert (Hs' := Hs). rewrite !(assoc_L (++)) in Hs'. apply steps_last in Hs' as (s1 & _ & Hl).
    inversion Hl as [| | | | | | | | | |s1' i' t Hc Ht]; subst.
    destruct (Ht eq_refl) as (Hw & Hp & Hau). split_and!; [|done|done].
    cbn [bc] in I5. rewrite Hp in I5. by apply len_zero_iff. }
  destruct Hret as (Ho & Hw & Hau). split_and!; try done.
  fold tr in I1. by rewrite I1, Ho, He, !app_nil_r.
Qed.

(** C16: when a call of [Close] returns without running into its timeout, and no
    event was added after its flush, every event ever added has been given to
    the sender: [Close] loses nothing. *)
Theorem close_sends_everything c0 tr1 i tr2 s :
  fresh c0 →
  steps (start_system c0) (tr1 ++ [LCloseFlush i] ++ tr2 ++ [LCloseReturn i false]) s →
  added tr2 = [] →
  let tr := tr1 ++ [LCloseFlush i] ++ tr2 ++ [LCloseReturn i false] in
  concat (batch <$> sent tr) = added tr ∧ events (bc s) = [] ∧ outstanding s = [] ∧
  workerDone s = true ∧ autoRunning s = false.
Proof. apply closed_all_sent. Qed.

(** Before any [Close] has flushed. *)
Record calm (s : system) : Prop := {
  calm_open : queueClosed (bc s) = false;
  calm_closers : Forall (eq PFlush) (closers s);
  calm_holder : ∀ i r, mu s ≠ Some (HClose i, r);
}.

(** The first [Close] to flush, the [i]th, is sending its batch. *)
Record flushing (i : nat) (s : system) : Prop := {
  flushing_open : queueClosed (bc s) = false;
  flushing_here : closers s !! i = Some PSend;
  flushing_others : ∀ j p, closers s !! j = Some p → j ≠ i → p = PFlush;
  flushing_holder : ∃ r, mu s = Some (HClose i, r);
  flushing_empty : events (bc s) = [];
}.

(** From then on nothing is buffered and nobody holds the mutex. *)
Definition quiet (s : system) : Prop := events (bc s) = [] ∧ mu s = None.

Lemma Add_closed start stop e c r c' w :
  Add start stop e c = (r, c', w) → queueClosed c' = queueClosed c.
Proof.
  rewrite Add_eq. destruct (_ <=? _); [|by intros [= <- <- <-]].
  destruct (flush start stop (pushed e c)) as [[r1 c1] w1] eqn:Hf. intros [= <- <- <-].
  by rewrite (flush_closed _ _ _ _ _ _ Hf).
Qed.

Lemma calm_step s l s' :
  calm s → step s l s' →
  match l with LCloseFlush i => flushing i s' ∨ quiet s' | _ => calm s' end.
Proof.
  intros [Ho Hc Hh] Hs.
  destruct Hs as [s start stop e r c' w Hmu HA|s start stop r c' w Hmu Hauto Hf
    |s h r Hmu Hcl Hl|s r q Hin Hw Hq|s r Hin|s Hin Hw Hcl Hq|s Hh' Ha Hcan|s|s i start stop r c' w Hci Hmu Hf
    |s i Hci|s i timeout Hci Ht]; try (by split).
  - split; cbn; [by rewrite (Add_closed _ _ _ _ _ _ _ HA)|done|]. intros i r'. by destruct r.
  - split; cbn; [by rewrite (flush_closed _ _ _ _ _ _ Hf)|done|]. intros i r'. by destruct r.
  - split; cbn; [done| |done]. destruct h; try done. by destruct (Hh i r).
  - split; cbn; [done| |done]. apply Forall_app. split; [done|by apply Forall_singleton].
  - destruct r as [r|].
    + left. split; cbn; [by rewrite (flush_closed _ _ _ _ _ _ Hf)| | |by exists r|by eapply flush_empties].
      * apply list_lookup_insert_eq. by eapply lookup_lt_Some.
      * intros j p Hj Hd. rewrite list_lookup_insert_ne in Hj by done.
        by rewrite <-(Forall_lookup_1 _ _ _ _ Hc Hj).
    + right. split; [by eapply flush_empties|done].
  - by pose proof (Forall_lookup_1 _ _ _ _ Hc Hci).
  - by pose proof (Forall_lookup_1 _ _ _ _ Hc Hci).
Qed.

Lemma flushing_step i s l s' :
  flushing i s → added [l] = [] → step s l s' → flushing i s' ∨ quiet s'.
Proof.
  intros [Ho Hi Hc [r0 Hh] He] Ha Hs.
  assert (Hnot : ∀ j p, closers s !! j = Some p → p = PFlush ∨ p = PSend).
  { intros j p Hj. destruct (decide (j = i)) as [->|]; [right; congruence|left; by eapply Hc]. }
  destruct Hs as [s start stop e r c' w Hmu HA|s start stop r c' w Hmu Hauto Hf
    |s h r Hmu Hcl Hl|s r q Hin Hw Hq|s r Hin|s Hin Hw Hcl Hq|s Hh' Ha' Hcan|s|s j start stop r c' w Hci Hmu Hf
    |s j Hci|s j timeout Hci Ht]; try done; try congruence; try (left; split; cbn; by eauto).
  - by right.
  - left. split; cbn; [done| | |by eauto|done].
    + by apply lookup_app_l_Some.
    + intros j p [Hj|[_ Hj]]%lookup_app_Some Hd; [by eapply Hc|].
      by apply list_lookup_singleton_Some in Hj as [_ <-].
  - by destruct (Hnot j _ Hci).
  - by destruct (Hnot j _ Hci).
Qed.

Lemma quiet_step s l s' : quiet s → added [l] = [] → step s l s' → quiet s'.
Proof.
  intros [He Hmu] Ha Hs. split; [by eapply step_empty|].
  destruct Hs as [| |s h r Hmu' Hcl Hl| | | | | | | |]; try done.
  - by rewrite (flush_none _ _ _ _ _ _ He H3).
  - by rewrite (flush_none _ _ _ _ _ _ He H3).
Qed.

(** C17: the gateway's shutdown order is safe: as long as no event is added after
    the first flush made by a call of [Close], no goroutine ever sends on the
    closed queue, however many calls of [Close] there are and however the
    auto-flush loop is scheduled. *)
Theorem close_never_panics c0 tr s :
  fresh c0 → steps (start_system c0) tr s →
  (∀ tr1 i tr2, tr = tr1 ++ [LCloseFlush i] ++ tr2 → added tr2 = []) →
  ¬ panics s.
Proof.
  intros Hf Hs Hadd.
  assert (Hinv : ((∀ i, LCloseFlush i ∉ tr) ∧ calm s) ∨
    ((∃ i, LCloseFlush i ∈ tr) ∧ ((∃ i, flushing i s) ∨ quiet s))).
  { remember (start_system c0) as s0 eqn:E. induction Hs as [s|s tr s' l s'' Hs IH Hl].
    - left. subst. split; [intros i; apply not_elem_of_nil|]. destruct Hf as (? & ? & ? & ? & ->).
      split; [done|by constructor|done].
    - assert (Hprev : ∀ tr1 i tr2, tr = tr1 ++ [LCloseFlush i] ++ tr2 → added tr2 = []).
      { intros tr1 i tr2 ->. specialize (Hadd tr1 i (tr2 ++ [l])). rewrite added_app in Hadd.
        rewrite <-!(assoc_L (++)) in Hadd. specialize (Hadd eq_refl). by apply app_nil in Hadd as [? ?]. }
      specialize (IH E Hprev). destruct IH as [[Hno Hcalm]|[[i Hin] Hrest]].
      + pose proof (calm_step _ _ _ Hcalm Hl) as Hstep.
        destruct l; try (left; split; [|done]; intros k [Hk|Hk%list_elem_of_singleton]%elem_of_app;
          [by apply (Hno k)|done]).
        right. split; [exists i; apply elem_of_app; right; left|]. destruct Hstep; [left; by eauto|by right].
      + right. split; [exists i; apply elem_of_app; by left|].
        assert (Hl0 : added [l] = []).
        { apply list_elem_of_split in Hin as (tr1 & tr2 & ->).
          specialize (Hadd tr1 i (tr2 ++ [l])). rewrite added_app in Hadd.
          rewrite <-(assoc_L (++)) in Hadd. specialize (Hadd eq_refl). by apply app_nil in Hadd as [? ?]. }
        destruct Hrest as [[j Hj]|Hq].
        * destruct (flushing_step j _ _ _ Hj Hl0 Hl); [left; by eauto|by right].
        * right. by eapply quiet_step. }
  unfold panics. destruct Hinv as [[_ []]|[_ [[i []]|[_ Hmu]]]]; intros [Hp Hc]; [congruence..|].
  rewrite Hmu in Hp. by destruct Hp.
Qed.

(** ** Adding after closing *)

Lemma adds_panic e k s :
  mu s = None → queueClosed (bc s) = true → maxSize (bc s) ≤ len (events (bc s)) + Z.of_nat (S k) →
  ∃ n s', (n ≤ S k)%nat ∧ steps s (replicate n (LAdd e)) s' ∧ panics s'.
Proof.
  revert s. induction k as [|k IH]; intros s Hmu Hcl Hlen;
    destruct (Add 0 0 e (bc s)) as [[r c'] w] eqn:HA;
    pose proof (step_add s 0 0 e r c' w Hmu HA) as Hstep;
    pose proof (Add_closed _ _ _ _ _ _ _ HA) as Hc; rewrite Hcl in Hc;
    rewrite Add_eq in HA; destruct (Z.leb_spec (maxSize (bc s)) (len (events (bc s)) + 1)); try lia.
  all: try (rewrite flush_eq, decide_False in HA by (cbn; by destruct (events (bc s))); injection HA as <- <- <-;
    eexists 1%nat, _; split; [lia|]; split; [by apply steps_one|]; split; [by eexists|done]).
  injection HA as <- <- <-.
  destruct (IH (mkSystem (pushed e (bc s)) None (autoRunning s) (inFlight s) (workerDone s) (closers s))
    eq_refl Hc) as (n & s' & Hn & Hs & Hp).
  { cbn. rewrite len_app. change (len [e]) with 1. lia. }
  exists (S n), s'. split; [lia|]. split; [|done]. by eapply steps_cons.
Qed.

(** C40: adding events after [Close] crashes the program: from any new collector,
    after a complete call of [Close], at most [max 1 maxSize] further events
    make [Add] send on the closed queue, which panics. *)
Theorem add_after_close_panics c0 e :
  fresh c0 →
  ∃ n s, (1 ≤ n)%nat ∧ Z.of_nat n ≤ Z.max 1 (maxSize c0) ∧
    steps (start_system c0)
      ([LClose; LCloseFlush 0; LCloseQueue 0; LWorkerExit; LAutoExit; LCloseReturn 0 false] ++
       replicate n (LAdd e)) s ∧
    panics s.
Proof.
  intros Hf. assert (Hshape : ∃ m fl f, c0 = NewBatchCollectorWithFlush m fl f) by (destruct Hf; naive_solver).
  destruct Hshape as (m & fl & f & Hc0).
  set (c1 := set_closed (set_cancelled c0)).
  assert (Hclose : steps (start_system c0)
    [LClose; LCloseFlush 0; LCloseQueue 0; LWorkerExit; LAutoExit; LCloseReturn 0 false]
    (mkSystem c1 None false None true [PReturned false])).
  { subst c0 c1. eapply steps_cons; [apply step_close|]. cbn.
    eapply steps_cons; [by eapply (step_close_flush _ 0 0 0 None)|]. cbn.
    eapply steps_cons; [by apply (step_close_queue _ 0)|]. cbn.
    eapply steps_cons; [by apply step_worker_exit|]. cbn.
    eapply steps_cons; [by apply step_auto_exit|]. cbn.
    apply steps_one. by refine (step_close_return (mkSystem _ None false None true [PWait]) 0 false eq_refl _). }
  destruct (adds_panic e (Z.to_nat (Z.max 1 (maxSize c0) - 1))
    (mkSystem c1 None false None true [PReturned false]) eq_refl eq_refl) as (n & s & Hn & Hs & Hp).
  { subst c0. cbn. rewrite len_nil. lia. }
  exists n, s. split_and!; [|lia|by eapply steps_trans|done].
  destruct n; [|lia]. exfalso. inversion Hs as [? E|? tr ? ? ? ? ? E]; [|by destruct tr]. subst s. by destruct Hp as [[? ?] _].
Qed.
End collector.

(** ** Witnesses *)

(** A sender that remembers the sequence numbers, and a growth policy for slices. *)
Definition witness_sender : BatchSender (list Z) := {|
  SendBatch := λ events sequence f, (Ok tt, f ++ [sequence], []);
  SenderIncrementDropped := λ _ f, (tt, f, []);
|}.

Definition witness_append : GoAppend := {| grow := λ cap needed, Z.max needed (2 * cap) |}.

Section witnesses.
#[local] Existing Instance witness_sender.
#[local] Existing Instance witness_append.

Definition witness_event : TDCEvent := mkTDCEvent 1 0 7 None None.

Definition witness_collector : BatchCollector := NewBatchCollectorWithFlush 2 0 ([] : list Z).

Lemma witness_fresh : fresh witness_collector.
Proof. exists 2, 0, []. split; [by split|done]. Qed.

Definition witness_trace : list label :=
  [LAdd witness_event; LAdd witness_event; LEnqueue; LAdd witness_event; LClose].

Lemma witness_steps :
  ∃ s, steps (start_system witness_collector) witness_trace s ∧ queueClosed (bc s) = false.
Proof.
  eexists. unfold witness_trace. split; [|shelve].
  eapply steps_cons; [by eapply (step_add _ 0 0)|]. cbn.
  eapply steps_cons; [by eapply (step_add _ 0 0)|]. cbn.
  eapply steps_cons; [by eapply step_enqueue|]. cbn.
  eapply steps_cons; [by eapply (step_add _ 0 0)|]. cbn.
  apply steps_one, step_close.
  Unshelve. reflexivity.
Qed.

Lemma witness_close_steps :
  ∃ s, steps (start_system witness_collector)
    (witness_trace ++ [LCloseFlush 0] ++ [LTake; LSend (mkRequest [witness_event; witness_event] 1);
      LEnqueue; LTake; LSend (mkRequest [witness_event] 2); LCloseQueue 0; LWorkerExit; LAutoExit] ++
      [LCloseReturn 0 false]) s.
Proof.
  eexists. unfold witness_trace. cbn [app].
  eapply steps_cons; [by eapply (step_add _ 0 0)|]. cbn.
  eapply steps_cons; [by eapply (step_add _ 0 0)|]. cbn.
  eapply steps_cons; [by eapply step_enqueue|]. cbn.
  eapply steps_cons; [by eapply (step_add _ 0 0)|]. cbn.
  eapply steps_cons; [apply step_close|]. cbn.
  eapply steps_cons; [by eapply (step_close_flush _ 0 0 0)|]. cbn.
  eapply steps_cons; [by eapply step_take|]. cbn.
  eapply steps_cons; [by eapply step_send|]. cbn.
  eapply steps_cons; [by eapply step_enqueue|]. cbn.
  eapply steps_cons; [by eapply step_take|]. cbn.
  eapply steps_cons; [by eapply step_send|]. cbn.
  eapply steps_cons; [by eapply step_close_queue|]. cbn.
  eapply steps_cons; [by eapply step_worker_exit|]. cbn.
  eapply steps_cons; [by eapply step_auto_exit|]. cbn.
  apply steps_one. by eapply step_close_return.
Qed.

Lemma collector_conserves_witness :
  fresh witness_collector ∧
  ∃ s, steps (start_system witness_collector) witness_trace s ∧
    added witness_trace = concat (batch <$> sent witness_trace ++ outstanding s) ++ events (bc s).
Proof.
  destruct witness_steps as (s & Hs & _). refine (conj witness_fresh (ex_intro _ s (conj Hs _))).
  exact (proj1 (collector_conserves _ _ s witness_fresh Hs)).
Defined.

Lemma collector_drains_witness :
  fresh witness_collector ∧
  ∃ s, steps (start_system witness_collector) witness_trace s ∧ ¬ panics s ∧
    sent [] ++ outstanding s = outstanding s.
Proof.
  destruct witness_steps as (s & Hs & Hcl).
  assert (Hp : ¬ panics s) by (intros [_ ?]; congruence).
  refine (conj witness_fresh (ex_intro _ s (conj Hs (conj Hp _)))).
  exact (proj1 (proj2 (collector_drains _ _ s [] s witness_fresh Hs Hp (steps_nil s) (Forall_nil_2 _)))).
Defined.

Lemma close_sends_everything_witness :
  fresh witness_collector ∧
  ∃ tr2 s, steps (start_system witness_collector)
      (witness_trace ++ [LCloseFlush 0] ++ tr2 ++ [LCloseReturn 0 false]) s ∧
    added tr2 = [] ∧ events (bc s) = [] ∧ outstanding s = [].
Proof.
  destruct witness_close_steps as [s Hs]. refine (conj witness_fresh (ex_intro _ _ (ex_intro _ s (conj Hs _)))).
  assert (Ha : added [LTake; LSend (mkRequest [witness_event; witness_event] 1);
      LEnqueue; LTake; LSend (mkRequest [witness_event] 2); LCloseQueue 0; LWorkerExit; LAutoExit] = [])
    by reflexivity.
  pose proof (close_sends_everything _ _ 0 _ s witness_fresh Hs Ha) as (_ & He & Ho & _).
  exact (conj Ha (conj He Ho)).
Defined.

Lemma close_never_panics_witness :
  fresh witness_collector ∧ ∃ s, steps (start_system witness_collector) [LClose; LTick] s ∧ ¬ panics s.
Proof.
  assert (Hs : ∃ s, steps (start_system witness_collector) [LClose; LTick] s).
  { eexists. eapply steps_cons; [apply step_close|]. apply steps_one. by eapply (step_tick _ 0 0). }
  destruct Hs as [s Hs]. refine (conj witness_fresh (ex_intro _ s (conj Hs _))).
  apply (close_never_panics _ _ s witness_fresh Hs). intros [|? [|? [|? ?]]] i tr2 E; try discriminate E.
Defined.

Lemma add_after_close_panics_witness :
  fresh witness_collector ∧
  ∃ n s, (1 ≤ n)%nat ∧ Z.of_nat n ≤ Z.max 1 (maxSize witness_collector) ∧
    steps (start_system witness_collector)
      ([LClose; LCloseFlush 0; LCloseQueue 0; LWorkerExit; LAutoExit; LCloseReturn 0 false] ++
       replicate n (LAdd witness_event)) s ∧ panics s.
Proof. exact (conj witness_fresh (add_after_close_panics _ witness_event witness_fresh)). Defined.
End witnesses.
