(* ===== verification/TokenBucket.v ===== *)
(** * The token bucket (internal/entropy/http_entropy_server.go)

    The rate limiter of the entropy endpoint, in floating point as in the code.
    Each call reads the clock once; the reading is an argument.  The mutex
    makes [Allow] atomic. *)

From S2P Require Import Prelude Float64 Clock.

Record tokenBucket := mkBucket {
  capacity : f64;
  tokens : f64;
  refillRate : f64;
  lastRefill : Z;
}.

Definition newTokenBucket (rate burst : f64) (now : Z) : tokenBucket :=
  let rate := if fle rate fzero then of_int 1 else rate in
  let burst := if fle burst fzero then rate else burst in
  mkBucket burst burst rate now.

(** The first half of [Allow]: the refill for the time elapsed. *)
Definition refill (now : Z) (b : tokenBucket) : tokenBucket :=
  let elapsed := Sub now (lastRefill b) in
  if 0 <? elapsed then
    let amount := fmul (Seconds elapsed) (refillRate b) in
    let tokens' :=
      if flt fzero amount then fmin (capacity b) (fadd (tokens b) amount) else tokens b in
    mkBucket (capacity b) tokens' (refillRate b) now
  else b.

Definition Allow (now : Z) (b : tokenBucket) : bool * Z * tokenBucket :=
  let b := refill now b in
  if fle (of_int 1) (tokens b) then
    (true, 0, mkBucket (capacity b) (fsub (tokens b) (of_int 1)) (refillRate b) (lastRefill b))
  else
    let deficit := fsub (of_int 1) (tokens b) in
    let deficit := if flt deficit fzero then fzero else deficit in
    let waitSeconds := fdiv deficit (refillRate b) in
    let waitSeconds := if flt waitSeconds fzero then fzero else waitSeconds in
    let waitDuration := to_int64 (fmul waitSeconds (of_int Second)) in
    let waitDuration := if waitDuration <? Second then Second else waitDuration in
    (false, waitDuration, b).

(** Calls at successive clock readings: which are allowed, and the final bucket. *)
Fixpoint Allow_all (times : list Z) (b : tokenBucket) : list bool * tokenBucket :=
  match times with
  | [] => ([], b)
  | now :: times =>
      let '(ok, _, b) := Allow now b in
      let '(oks, b) := Allow_all times b in (ok :: oks, b)
  end.

(** ** The bucket stays within its bounds *)

(** The tokens are a number between zero and the capacity. *)
Record bucket_ok (b : tokenBucket) : Prop := {
  ok_capacity : ∃ C T, repr (capacity b) C ∧ repr (tokens b) T ∧ 0 ≤ T ≤ C ∧ 0 < C ≤ 2 ^ 53 * funit;
  ok_rate : ∃ R, repr (refillRate b) R ∧ 0 < R;
}.

Lemma repr_pos_int n : 0 < n ≤ 2 ^ 53 → repr (of_int n) (n * funit) ∧ 0 < n * funit.
Proof. intros. split; [apply repr_of_int; lia|apply Z.mul_pos_pos; [lia|done]]. Qed.

Lemma Seconds_nonneg d : 0 ≤ d ≤ maxInt64 → nonneg (Seconds d).
Proof.
  intros Hd. unfold maxInt64 in Hd. unfold Seconds. change Second with 1000000000.
  rewrite Z.quot_div_nonneg, Z.rem_mod_nonneg by lia.
  pose proof (Z.mod_pos_bound d 1000000000 ltac:(lia)).
  apply fadd_nonneg; [apply nonneg_of_int|apply fdiv_int_nonneg; lia].
  split; [apply Z.div_pos; lia|]. apply Z.div_le_upper_bound; lia.
Qed.

Lemma newTokenBucket_ok rate burst now :
  rate ≤ 2 ^ 53 → burst ≤ 2 ^ 53 → 0 ≤ rate → 0 ≤ burst →
  bucket_ok (newTokenBucket (of_int rate) (of_int burst) now).
Proof.
  intros Hr Hb Hr0 Hb0. unfold newTokenBucket. change fzero with (of_int 0).
  rewrite !fle_int by lia.
  assert (Hpos : ∃ r, 0 < r ≤ 2 ^ 53 ∧ (if rate <=? 0 then of_int 1 else of_int rate) = of_int r).
  { destruct (Z.leb_spec rate 0); [exists 1|exists rate]; (split; [lia|done]). }
  destruct Hpos as (r & Hr1 & ->).
  assert (Hpos : ∃ c, 0 < c ≤ 2 ^ 53 ∧ (if burst <=? 0 then of_int r else of_int burst) = of_int c).
  { destruct (Z.leb_spec burst 0); [exists r|exists burst]; (split; [lia|done]). }
  destruct Hpos as (c & Hc1 & ->).
  destruct (repr_pos_int r Hr1), (repr_pos_int c Hc1) as [? Hc2]. split; cbn.
  - exists (c * funit), (c * funit). split_and!; try done; [lia|].
    apply Z.mul_le_mono_nonneg_r; [by apply Z.lt_le_incl|lia].
  - by exists (r * funit).
Qed.

Lemma refill_ok now b : bucket_ok b → bucket_ok (refill now b).
Proof.
  intros [(C & T & HC & HT & HTC & HC0) (R & HR & HR0)]. unfold refill.
  pose proof (Sub_range now (lastRefill b)) as Hs. unfold is_i64 in Hs.
  destruct (Z.ltb_spec 0 (Sub now (lastRefill b))); [|by split; [exists C, T|exists R]].
  split; cbn; [|by exists R]. exists C. destruct (flt fzero _); [|by exists T].
  destruct (fmin_bound (capacity b) (fadd (tokens b) (fmul (Seconds (Sub now (lastRefill b))) (refillRate b))) C)
    as (W & HW & HWC & _); [done|lia| |by exists W].
  apply fadd_nonneg; [eapply nonneg_repr; [|done]; lia|].
  eapply fmul_nonneg; [|done|done]. apply Seconds_nonneg. unfold maxInt64. lia.
Qed.

Lemma Allow_ok now b : bucket_ok b → bucket_ok (Allow now b).2.
Proof.
  intros Hb%(refill_ok now). unfold Allow. destruct (fle (of_int 1) _) eqn:Hle; [|done].
  destruct Hb as [(C & T & HC & HT & HTC & HC0) Hr]. split; cbn; [|done].
  pose proof (repr_of_int 1 ltac:(lia)) as H1. rewrite (fle_repr _ _ _ _ H1 HT), Z.mul_1_l in Hle.
  apply Z.leb_le in Hle. pose proof funit_pos.
  exists C, (T - funit). split_and!; [done| |lia..]. apply fsub_one; [done|lia].
Qed.

(** What a decision says of the bucket it is made on. *)
Lemma Allow_decision now b :
  let '(ok, wait, b') := Allow now b in
  ok = fle (of_int 1) (tokens (refill now b)) ∧
  (ok = true → wait = 0 ∧ tokens b' = fsub (tokens (refill now b)) (of_int 1)) ∧
  (ok = false → Second ≤ wait ≤ maxInt64 ∧ b' = refill now b).
Proof.
  unfold Allow. destruct (fle (of_int 1) _) eqn:Hle; [done|]. split_and!; [done|done|].
  intros _. set (w := to_int64 _). assert (Hr : is_i64 w) by apply to_int64_range.
  unfold is_i64, maxInt64 in *. split; [|done].
  destruct (Z.ltb_spec w Second); unfold Second, Millisecond, Microsecond in *; lia.
Qed.

Lemma Allow_all_ok times b : bucket_ok b → bucket_ok (Allow_all times b).2.
Proof.
  revert b. induction times as [|now times IH]; intros b Hb; [done|]. cbn [Allow_all].
  pose proof (Allow_ok now b Hb). destruct (Allow now b) as [[ok w] b1]. cbn [snd] in *.
  specialize (IH b1 H). by destruct (Allow_all times b1).
Qed.

(** For any positive rate and burst up to 2^53 and any readings of the clock,
    even one that jumps or runs backwards, the tokens stay a number between zero
    and the burst, never a NaN or an infinity; a call is allowed exactly when a
    whole token is there, and then does not wait; a refused call takes nothing
    and is told to wait at least one second. *)
Theorem token_bucket_bounds rate burst start times now :
  0 < rate ≤ 2 ^ 53 → 0 < burst ≤ 2 ^ 53 →
  let b := (Allow_all times (newTokenBucket (of_int rate) (of_int burst) start)).2 in
  bucket_ok b ∧
  let '(ok, wait, b') := Allow now b in
  ok = fle (of_int 1) (tokens (refill now b)) ∧
  (ok = true → wait = 0 ∧ tokens b' = fsub (tokens (refill now b)) (of_int 1)) ∧
  (ok = false → Second ≤ wait ≤ maxInt64 ∧ b' = refill now b).
Proof.
  intros Hr Hb b. split; [|apply Allow_decision].
  apply Allow_all_ok, newTokenBucket_ok; lia.
Qed.

(** ** Whole seconds: the bucket is an integer bucket *)

Record ibucket := mkIBucket { icap : Z; itok : Z; irate : Z; ilast : Z }.

Definition irefill (s : Z) (b : ibucket) : ibucket :=
  if ilast b <? s then
    mkIBucket (icap b) (Z.min (icap b) (itok b + (s - ilast b) * irate b)) (irate b) s
  else b.

Definition iallow (s : Z) (b : ibucket) : bool * ibucket :=
  let b := irefill s b in
  if 1 <=? itok b then (true, mkIBucket (icap b) (itok b - 1) (irate b) (ilast b)) else (false, b).

Fixpoint iallow_all (times : list Z) (b : ibucket) : list bool * ibucket :=
  match times with
  | [] => ([], b)
  | s :: times => let '(ok, b) := iallow s b in let '(oks, b) := iallow_all times b in (ok :: oks, b)
  end.

(** The float bucket that stands for an integer bucket. *)
Definition embed (b : ibucket) : tokenBucket :=
  mkBucket (of_int (icap b)) (of_int (itok b)) (of_int (irate b)) (ilast b * Second).

Definition in_bounds (b : ibucket) : Prop :=
  0 < icap b ≤ 2 ^ 52 ∧ 0 ≤ itok b ≤ icap b ∧ 0 < irate b ≤ 2 ^ 19 ∧ 0 ≤ ilast b ≤ 2 ^ 33.

Lemma fmin_int a b : 0 < a ≤ 2 ^ 53 → 0 ≤ b ≤ 2 ^ 53 → fmin (of_int a) (of_int b) = of_int (Z.min a b).
Proof.
  intros Ha Hb. pose proof (flt_int a b ltac:(lia) ltac:(lia)) as Hlt.
  destruct (of_int_pos_form a Ha) as (c & E & Ea & _). rewrite Ea in *.
  assert (Hmin : fmin (S754_finite false c E) (of_int b) =
    if flt (S754_finite false c E) (of_int b) then S754_finite false c E else of_int b).
  { destruct (Z.eq_dec b 0) as [->|]; [done|].
    by destruct (of_int_pos_form b ltac:(lia)) as (d & F & -> & _). }
  rewrite Hmin, Hlt, <-Ea. destruct (Z.ltb_spec a b); f_equal; lia.
Qed.

Lemma embed_refill s b :
  in_bounds b → 0 ≤ s ≤ 2 ^ 33 → refill (s * Second) (embed b) = embed (irefill s b) ∧ in_bounds (irefill s b).
Proof.
  intros (Hc & Ht & Hr & Hl) Hs. unfold refill, irefill. cbv zeta.
  change (lastRefill (embed b)) with (ilast b * Second). rewrite Sub_id by (unfold is_i64, Second, Millisecond, Microsecond; lia).
  destruct (Z.ltb_spec (ilast b) s) as [Hlt|Hge].
  - destruct (Z.ltb_spec 0 (s * Second - ilast b * Second));
      [|unfold Second, Millisecond, Microsecond in *; lia].
    rewrite <-Z.mul_sub_distr_r, Seconds_whole by lia. cbn [refillRate embed capacity tokens].
    assert (0 < (s - ilast b) * irate b ≤ 2 ^ 52) by nia.
    rewrite fmul_int by lia. change fzero with (of_int 0).
    rewrite flt_int by lia. destruct (Z.ltb_spec 0 ((s - ilast b) * irate b)); [|lia].
    rewrite fadd_int by lia. rewrite fmin_int by lia.
    split; [done|]. unfold in_bounds. cbn. lia.
  - destruct (Z.ltb_spec 0 (s * Second - ilast b * Second));
      [unfold Second, Millisecond, Microsecond in *; lia|]. done.
Qed.

Lemma embed_allow s b :
  in_bounds b → 0 ≤ s ≤ 2 ^ 33 →
  let '(ok, _, fb) := Allow (s * Second) (embed b) in
  let '(iok, ib) := iallow s b in
  ok = iok ∧ fb = embed ib ∧ in_bounds ib.
Proof.
  intros Hb Hs. destruct (embed_refill s b Hb Hs) as [Hf Hb']. unfold Allow, iallow. rewrite Hf.
  set (b1 := irefill s b) in *. destruct Hb' as (Hc & Ht & Hr & Hl).
  assert (Hle : fle (of_int 1) (tokens (embed b1)) = (1 <=? itok b1)) by (apply fle_int; lia).
  rewrite Hle. destruct (Z.leb_spec 1 (itok b1)).
  - cbn [embed capacity tokens refillRate lastRefill]. rewrite fsub_int by lia.
    split_and!; [done|done|]. unfold in_bounds. cbn. lia.
  - split_and!; [done|done|]. split_and!; lia.
Qed.

Lemma embed_allow_all times b :
  in_bounds b → Forall (λ s, 0 ≤ s ≤ 2 ^ 33) times →
  (Allow_all ((λ s, s * Second) <$> times) (embed b)).1 = (iallow_all times b).1.
Proof.
  intros Hb Ht. revert b Hb. induction Ht as [|s times Hs Ht IH]; intros b Hb; [done|].
  rewrite fmap_cons. cbn [Allow_all iallow_all]. pose proof (embed_allow s b Hb Hs) as Ha.
  destruct (Allow (s * Second) (embed b)) as [[ok w] fb]. destruct (iallow s b) as [iok ib].
  destruct Ha as (-> & -> & Hb1). specialize (IH ib Hb1).
  destruct (Allow_all _ (embed ib)), (iallow_all times ib). cbn in *. by rewrite IH.
Qed.

Definition allowed (oks : list bool) : Z := Z.of_nat (length (filter (λ ok, ok = true) oks)).

(** What is allowed comes out of the tokens and the refills. *)
Lemma iallow_all_bound times b :
  0 ≤ icap b → 0 ≤ itok b → 0 ≤ irate b →
  let '(oks, b') := iallow_all times b in
  allowed oks + itok b' ≤ itok b + irate b * (ilast b' - ilast b) ∧
  0 ≤ itok b' ∧ irate b' = irate b ∧ ilast b' = foldl Z.max (ilast b) times.
Proof.
  revert b. induction times as [|s times IH]; intros b Hc Ht Hr; cbn [iallow_all].
  { unfold allowed. cbn. split_and!; lia. }
  unfold iallow, irefill. cbn [foldl].
  destruct (Z.ltb_spec (ilast b) s) as [Hlt|Hge]; cbn [itok irate ilast icap].
  - set (k := Z.min (icap b) (itok b + (s - ilast b) * irate b)).
    destruct (Z.leb_spec 1 k).
    + specialize (IH (mkIBucket (icap b) (k - 1) (irate b) s) Hc ltac:(cbn; lia) Hr).
      destruct (iallow_all times _) as [oks b'].
      cbn [icap itok irate ilast] in IH. destruct IH as (IH & ? & ? & IHl).
      rewrite Z.max_r by lia. unfold allowed in *. rewrite filter_cons_True by done.
      cbn [length]. split_and!; [nia|done|done|done].
    + specialize (IH (mkIBucket (icap b) k (irate b) s)).
      cbn [icap itok irate ilast] in IH. assert (0 ≤ (s - ilast b) * irate b) by nia.
      destruct (Z.le_gt_cases 0 k) as [Hk|Hk].
      * specialize (IH Hc Hk Hr). destruct (iallow_all times _) as [oks b']. destruct IH as (IH & ? & ? & IHl).
        rewrite Z.max_r by lia. unfold allowed in *. rewrite filter_cons_False by done.
        split_and!; [nia|done|done|done].
      * exfalso. lia.
  - rewrite Z.max_l by lia. destruct (Z.leb_spec 1 (itok b)).
    + specialize (IH (mkIBucket (icap b) (itok b - 1) (irate b) (ilast b)) Hc ltac:(cbn; lia) Hr).
      destruct (iallow_all times _) as [oks b']. cbn [icap itok irate ilast] in IH.
      destruct IH as (IH & ? & ? & IHl). unfold allowed in *. rewrite filter_cons_True by done.
      cbn [length]. split_and!; [lia|done|done|done].
    + specialize (IH b Hc Ht Hr). destruct (iallow_all times b) as [oks b'].
      destruct IH as (IH & ? & ? & IHl). unfold allowed in *. rewrite filter_cons_False by done.
      by split_and!.
Qed.

(** A call made later than all others is allowed. *)
Lemma iallow_all_last times s b :
  1 ≤ icap b → 1 ≤ irate b → 0 ≤ itok b → foldl Z.max (ilast b) times < s →
  last (iallow_all (times ++ [s]) b).1 = Some true.
Proof.
  revert b. induction times as [|t ts IH]; intros b Hc Hr Ht Hl; cbn [app iallow_all foldl] in *.
  - unfold iallow, irefill. destruct (Z.ltb_spec (ilast b) s); [|lia]. cbn [itok].
    destruct (Z.leb_spec 1 (Z.min (icap b) (itok b + (s - ilast b) * irate b))); [done|].
    assert (1 ≤ (s - ilast b) * irate b) by nia. lia.
  - destruct (iallow t b) as [ok b1] eqn:Ha.
    assert (Hb1 : icap b1 = icap b ∧ irate b1 = irate b ∧ 0 ≤ itok b1 ∧ ilast b1 = Z.max (ilast b) t).
    { unfold iallow, irefill in Ha. destruct (Z.ltb_spec (ilast b) t); cbn [itok] in Ha.
      - assert (0 ≤ (t - ilast b) * irate b) by nia.
        destruct (Z.leb_spec 1 (Z.min (icap b) (itok b + (t - ilast b) * irate b)));
          injection Ha as <- <-; cbn; lia.
      - destruct (Z.leb_spec 1 (itok b)); injection Ha as <- <-; cbn; lia. }
    destruct Hb1 as (E1 & E2 & E3 & E4). specialize (IH b1).
    rewrite E1, E2, E4 in IH. specialize (IH Hc Hr E3 Hl).
    destruct (iallow_all (ts ++ [s]) b1) as [oks b2]. cbn [fst] in *.
    by rewrite last_cons, IH.
Qed.

Lemma newTokenBucket_embed rate burst start :
  0 < rate ≤ 2 ^ 19 → 0 < burst ≤ 2 ^ 52 → 0 ≤ start ≤ 2 ^ 33 →
  let ib := mkIBucket burst burst rate start in
  newTokenBucket (of_int rate) (of_int burst) (start * Second) = embed ib ∧ in_bounds ib.
Proof.
  intros Hr Hb Hs ib. split; [|unfold in_bounds; cbn; lia].
  unfold newTokenBucket. change fzero with (of_int 0). rewrite !fle_int by lia.
  destruct (Z.leb_spec rate 0), (Z.leb_spec burst 0); (lia || done).
Qed.

(** What a bucket read at whole seconds allows. *)
Lemma Allow_all_rate rate burst start times :
  0 < rate ≤ 2 ^ 19 → 0 < burst ≤ 2 ^ 52 → 0 ≤ start ≤ 2 ^ 33 →
  Forall (λ s, 0 ≤ s ≤ 2 ^ 33) times →
  allowed (Allow_all ((λ s, s * Second) <$> times)
    (newTokenBucket (of_int rate) (of_int burst) (start * Second))).1 ≤
  burst + rate * (foldl Z.max start times - start).
Proof.
  intros Hr Hb Hs Ht. destruct (newTokenBucket_embed rate burst start Hr Hb Hs) as [-> Hin].
  rewrite embed_allow_all by done.
  pose proof (iallow_all_bound times (mkIBucket burst burst rate start) ltac:(cbn; lia) ltac:(cbn; lia) ltac:(cbn; lia)) as Hbd.
  destruct (iallow_all times _) as [oks b']. cbn in *. destruct Hbd as (Hbd & ? & ? & <-). lia.
Qed.

Lemma Allow_all_snoc times now b :
  Allow_all (times ++ [now]) b =
    let '(oks, b1) := Allow_all times b in
    let '(ok, _, b2) := Allow now b1 in (oks ++ [ok], b2).
Proof.
  revert b. induction times as [|t times IH]; intros b; cbn [Allow_all app].
  - by destruct (Allow now b) as [[ok w] b1].
  - destruct (Allow t b) as [[ok w] b1]. rewrite IH. destruct (Allow_all times b1) as [oks b2].
    by destruct (Allow now b2) as [[ok' w'] b3].
Qed.

(** C38: when the clock is read at whole seconds (up to 2^33 seconds, with a rate
    up to 2^19 and a burst up to 2^52) the floating-point bucket behaves exactly
    as a bucket of integers: it makes the same decisions.  So, over any sequence
    of calls, it allows at most the burst plus the rate times the seconds from
    its creation to the latest reading, and a call made at least a second after
    every earlier one is always allowed. *)
Theorem token_bucket_rate rate burst start times :
  0 < rate ≤ 2 ^ 19 → 0 < burst ≤ 2 ^ 52 → 0 ≤ start ≤ 2 ^ 33 →
  Forall (λ s, 0 ≤ s ≤ 2 ^ 33) times →
  let run ts := (Allow_all ((λ s, s * Second) <$> ts)
    (newTokenBucket (of_int rate) (of_int burst) (start * Second))).1 in
  run times = (iallow_all times (mkIBucket burst burst rate start)).1 ∧
  allowed (run times) ≤ burst + rate * (foldl Z.max start times - start) ∧
  (∀ s, foldl Z.max start times < s ≤ 2 ^ 33 → last (run (times ++ [s])) = Some true).
Proof.
  intros Hr Hb Hs Ht run. set (ib := mkIBucket burst burst rate start).
  destruct (newTokenBucket_embed rate burst start Hr Hb Hs) as [Hnew Hin].
  assert (Hrun : ∀ ts, Forall (λ s, 0 ≤ s ≤ 2 ^ 33) ts → run ts = (iallow_all ts ib).1).
  { intros ts Hts. subst run. cbv beta. rewrite Hnew. by apply embed_allow_all. }
  split_and!; [by apply Hrun|by apply Allow_all_rate|].
  - intros s Hlt. rewrite Hrun.
    2: { apply Forall_app. split; [done|]. apply Forall_singleton. split; [|lia].
         assert (start ≤ foldl Z.max start times); [|lia]. clear.
         revert start. induction times as [|t ts IH]; intros start; cbn; [lia|].
         specialize (IH (start `max` t)). lia. }
    apply iallow_all_last; cbn; lia.
Qed.

Lemma token_bucket_bounds_witness :
  (0 < 25 ≤ 2 ^ 53) ∧ (0 < 3 ≤ 2 ^ 53) ∧
  bucket_ok (Allow_all [5; 9; 1] (newTokenBucket (of_int 25) (of_int 3) 0)).2.
Proof.
  assert (H1 : 0 < 25 ≤ 2 ^ 53) by (split; [reflexivity|vm_compute; discriminate]).
  assert (H2 : 0 < 3 ≤ 2 ^ 53) by (split; [reflexivity|vm_compute; discriminate]).
  pose proof (token_bucket_bounds 25 3 0 [5; 9; 1] 7 H1 H2) as Hb. cbv zeta in Hb.
  destruct Hb as [Hok _]. exact (conj H1 (conj H2 Hok)).
Defined.

Lemma token_bucket_rate_witness :
  (0 < 2 ≤ 2 ^ 19) ∧ (0 < 3 ≤ 2 ^ 52) ∧ (0 ≤ 10 ≤ 2 ^ 33) ∧
  Forall (λ s, 0 ≤ s ≤ 2 ^ 33) [10; 10; 10; 10; 11] ∧
  (Allow_all ((λ s, s * Second) <$> [10; 10; 10; 10; 11])
    (newTokenBucket (of_int 2) (of_int 3) (10 * Second))).1 = [true; true; true; false; true].
Proof.
  assert (H1 : 0 < 2 ≤ 2 ^ 19) by (split; [reflexivity|vm_compute; discriminate]).
  assert (H2 : 0 < 3 ≤ 2 ^ 52) by (split; [reflexivity|vm_compute; discriminate]).
  assert (H3 : 0 ≤ 10 ≤ 2 ^ 33) by (split; vm_compute; discriminate).
  assert (H4 : Forall (λ s, 0 ≤ s ≤ 2 ^ 33) [10; 10; 10; 10; 11])
    by (repeat constructor; vm_compute; discriminate).
  pose proof (token_bucket_rate 2 3 10 _ H1 H2 H3 H4) as Hr. cbv zeta beta in Hr.
  destruct Hr as [Hrun _]. rewrite Hrun. refine (conj H1 (conj H2 (conj H3 (conj H4 _)))).
  vm_compute. reflexivity.
Defined.
