(* ===== verification/GoNet.v ===== *)
(** * Host and address parsing (Go's package net)

    [SplitHostPort], [JoinHostPort], [ParseIP], [IsLoopback] and the printing of
    addresses, as far as the gateway uses them.  An [IP] is a list of 16 bytes. *)

From S2P Require Import Prelude GoStrings.

Definition char_is (n : Z) (c : ascii) : bool := byte_of c =? n.

(** Error values of [SplitHostPort]; the address is the argument of the message. *)
Definition addr_error (what addr : string) : goerror := Errorf ("address %s: " +:+ what) [addr].

Definition LastIndexByte (s : string) (c : ascii) : Z :=
  let l := String.list_ascii_of_string s in
  let i := IndexByte (String.string_of_list_ascii (rev l)) c in
  if i <? 0 then -1 else slen s - 1 - i.

Definition str_slice (a b : Z) (s : string) : string := str_to (b - a) (str_from a s).

Definition SplitHostPort (hostport : string) : result (string * string) :=
  let missingPort := Err (addr_error "missing port in address" hostport) in
  let tooManyColons := Err (addr_error "too many colons in address" hostport) in
  let i := LastIndexByte hostport ":"%char in
  if i <? 0 then missingPort
  else
    let finish (host : string) (j k : Z) : result (string * string) :=
      if 0 <=? IndexByte (str_from j hostport) "["%char then
        Err (addr_error "unexpected '[' in address" hostport)
      else if 0 <=? IndexByte (str_from k hostport) "]"%char then
        Err (addr_error "unexpected ']' in address" hostport)
      else Ok (host, str_from (i + 1) hostport) in
    if HasPrefix hostport "[" then
      let e := IndexByte hostport "]"%char in
      if e <? 0 then Err (addr_error "missing ']' in address" hostport)
      else if e + 1 =? slen hostport then missingPort
      else if e + 1 =? i then finish (str_slice 1 e hostport) 1 (e + 1)
      else if HasPrefix (str_from (e + 1) hostport) ":" then tooManyColons
      else missingPort
    else
      let host := str_to i hostport in
      if 0 <=? IndexByte host ":"%char then tooManyColons else finish host 0 0.

Definition JoinHostPort (host port : string) : string :=
  if 0 <=? IndexByte host ":"%char then "[" +:+ host +:+ "]:" +:+ port
  else host +:+ ":" +:+ port.

(** ** ParseIP *)

(** The loop of [parseIPv4Fields]: the fields read so far, the value and the
    number of digits of the current field, the previous character, the rest. *)
Fixpoint ipv4_loop (fields : list Z) (val digLen : Z) (prev : option ascii) (s : string)
    : option (list Z) :=
  match s with
  | EmptyString => if len fields <? 3 then None else Some (fields ++ [val])
  | String c s =>
      if is_digit c then
        if (digLen =? 1) && (val =? 0) then None
        else
          let val := val * 10 + (byte_of c - 48) in
          if 255 <? val then None else ipv4_loop fields val (digLen + 1) (Some c) s
      else if char_is 46 c then
        if match prev with None => true | Some p => char_is 46 p end || String.eqb s EmptyString
        then None
        else if len fields =? 3 then None
        else ipv4_loop (fields ++ [val]) 0 0 (Some c) s
      else None
  end.

Definition parseIPv4Fields (s : string) : option (list Z) := ipv4_loop [] 0 0 None s.

Definition hex_digit (c : ascii) : option Z :=
  if in_range 48 57 c then Some (byte_of c - 48)
  else if in_range 97 102 c then Some (byte_of c - 87)
  else if in_range 65 70 c then Some (byte_of c - 55)
  else None.

(** One group of hexadecimal digits: how many, their value, the rest; [None]
    when there are more than four or the value is too large. *)
Fixpoint hex_group (off acc : Z) (s : string) : option (Z * Z * string) :=
  match s with
  | String c rest =>
      match hex_digit c with
      | Some d =>
          if 3 <? off then None
          else let acc := acc * 16 + d in
            if 65535 <? acc then None else hex_group (off + 1) acc rest
      | None => Some (off, acc, s)
      end
  | EmptyString => Some (off, acc, s)
  end.

(** The loop over the groups; [ip] holds the bytes written, [ell] the position
    of the ellipsis.  Sixteen bytes make eight rounds at most. *)
Fixpoint ipv6_loop (fuel : nat) (ip : list Z) (ell : option Z) (s : string)
    : option (list Z * option Z * string) :=
  match fuel with
  | O => Some (ip, ell, s)
  | S fuel =>
      if 16 <=? len ip then Some (ip, ell, s)
      else
        '(off, acc, rest) ← hex_group 0 0 s;
        if off =? 0 then None
        else if HasPrefix rest "." then
          if (match ell with None => true | _ => false end) && negb (len ip =? 12) then None
          else if 16 <? len ip + 4 then None
          else v4 ← parseIPv4Fields s; Some (ip ++ v4, ell, EmptyString)
        else
          let ip := ip ++ [acc / 256; acc mod 256] in
          match rest with
          | EmptyString => Some (ip, ell, rest)
          | String c rest1 =>
              if negb (char_is 58 c) then None
              else
                match rest1 with
                | EmptyString => None
                | String c2 rest2 =>
                    if char_is 58 c2 then
                      match ell with
                      | Some _ => None
                      | None =>
                          match rest2 with
                          | EmptyString => Some (ip, Some (len ip), rest2)
                          | _ => ipv6_loop fuel ip (Some (len ip)) rest2
                          end
                      end
                    else ipv6_loop fuel ip ell rest1
                end
          end
  end.

Definition parseIPv6 (s : string) : option (list Z) :=
  let '(ell, s) := if HasPrefix s "::" then (Some 0, str_from 2 s) else (None, s) in
  match ell, s with
  | Some _, EmptyString => Some (replicate 16 0)
  | _, _ =>
      '(ip, ell, s) ← ipv6_loop 8 [] ell s;
      if negb (String.eqb s EmptyString) then None
      else if len ip <? 16 then
        match ell with
        | None => None
        | Some e =>
            Some (take (Z.to_nat e) ip ++ replicate (Z.to_nat (16 - len ip)) 0 ++ drop (Z.to_nat e) ip)
        end
      else match ell with Some _ => None | None => Some ip end
  end.

Definition v4InV6Prefix : list Z := replicate 10 0 ++ [255; 255].

(** [net.ParseIP]: [None] is the nil address.  An address with a zone is not
    an [IP].  The first of '.', ':' and '%' decides the syntax. *)
Fixpoint ip_syntax (s : string) : option ascii :=
  match s with
  | EmptyString => None
  | String c s => if char_is 46 c || char_is 58 c || char_is 37 c then Some c else ip_syntax s
  end.

Definition ParseIP (s : string) : option (list Z) :=
  match ip_syntax s with
  | Some c =>
      if char_is 46 c then v4 ← parseIPv4Fields s; Some (v4InV6Prefix ++ v4)
      else if char_is 58 c then
        if 0 <=? IndexByte s "%"%char then None else parseIPv6 s
      else None
  | None => None
  end.

Definition To4 (ip : list Z) : option (list Z) :=
  if decide (take 12 ip = v4InV6Prefix) then Some (drop 12 ip) else None.

Definition IsLoopback (ip : list Z) : bool :=
  match To4 ip with
  | Some v4 => bool_decide (head v4 = Some 127)
  | None => bool_decide (ip = replicate 15 0 ++ [1])
  end.

(** ** Printing *)

Definition hex_char (d : Z) : ascii := char_of (if d <? 10 then 48 + d else 87 + d).

(** A 16-bit field without leading zeros. *)
Definition hex_field (x : Z) : string :=
  let d3 := x / 4096 in let d2 := x / 256 mod 16 in let d1 := x / 16 mod 16 in let d0 := x mod 16 in
  let s0 := String (hex_char d0) EmptyString in
  if x <? 16 then s0
  else let s1 := String (hex_char d1) s0 in
    if x <? 256 then s1
    else let s2 := String (hex_char d2) s1 in
      if x <? 4096 then s2 else String (hex_char d3) s2.

Fixpoint fields16 (ip : list Z) : list Z :=
  match ip with a :: b :: ip => (a * 256 + b) :: fields16 ip | _ => [] end.

Fixpoint zero_run (l : list Z) : nat :=
  match l with x :: l => if x =? 0 then S (zero_run l) else O | [] => O end.

(** The first longest run of at least two zero fields: its start and length. *)
Fixpoint longest_zeros (i : nat) (l : list Z) (best : nat * nat) : nat * nat :=
  match l with
  | [] => best
  | _ :: l' =>
      let n := zero_run l in
      longest_zeros (S i) l' (if (2 <=? n)%nat && (best.2 <? n)%nat then (i, n) else best)
  end.

Fixpoint join_fields (l : list Z) : string :=
  match l with
  | [] => EmptyString
  | [x] => hex_field x
  | x :: l => hex_field x +:+ ":" +:+ join_fields l
  end.

Definition ipv6_string (ip : list Z) : string :=
  let fs := fields16 ip in
  match longest_zeros 0 fs (O, O) with
  | (_, O) => join_fields fs
  | (start, n) => join_fields (take start fs) +:+ "::" +:+ join_fields (drop (start + n) fs)
  end.

(** [ip.String()]. *)
Definition IP_String (ip : list Z) : string :=
  match To4 ip with
  | Some v4 => Join (Itoa <$> v4) "."%char
  | None => ipv6_string ip
  end.

(** ** Examples *)

Definition parse_print (s : string) : option (string * bool) :=
  ip ← ParseIP s; Some (IP_String ip, IsLoopback ip).

Example ParseIP_ex :
  parse_print <$> ["127.0.0.1"; "127.255.0.3"; "0.0.0.0"; "::1"; "0:0:0:0:0:0:0:1"; "::ffff:127.0.0.1";
    "2001:DB8::1:0:0:1"; "::"; "1::"; "fe80::1%eth0"; "127.0.0.01"; "256.1.1.1"; "1.2.3"; "localhost";
    "1:2:3:4:5:6:7:8:9"; "1:2:3:4:5:6:7::"; ":::1"; "0:0:1::"] =
  [Some ("127.0.0.1", true); Some ("127.255.0.3", true); Some ("0.0.0.0", false); Some ("::1", true);
   Some ("::1", true); Some ("127.0.0.1", true); Some ("2001:db8::1:0:0:1", false); Some ("::", false);
   Some ("1::", false); None; None; None; None; None; None; Some ("1:2:3:4:5:6:7:0", false); None;
   Some ("0:0:1::", false)].
Proof. vm_compute. reflexivity. Qed.

Example SplitHostPort_ex :
  is_ok <$> (SplitHostPort <$> ["127.0.0.1:9797"; "[::1]:80"; ":80"; "host"; "::1:80"; "[::1]80"; "[a]:b:c"]) =
  [true; true; true; false; false; false; false].
Proof. vm_compute. reflexivity. Qed.

Example SplitHostPort_ex2 :
  SplitHostPort "[::1]:80" = Ok ("::1", "80") ∧ SplitHostPort ":80" = Ok (EmptyString, "80").
Proof. vm_compute. done. Qed.

(** ** Round trips *)

(** [s] does not hold [c]. *)
Definition lacks (c : ascii) (s : string) : Prop := IndexByte s c = -1.

Lemma IndexByte_ge s c : -1 ≤ IndexByte s c.
Proof.
  induction s as [|a s IH]; cbn [IndexByte]; [lia|].
  destruct (Ascii.eqb a c); [lia|]. cbv zeta. destruct (Z.ltb_spec (IndexByte s c) 0); lia.
Qed.

Lemma IndexByte_absent s c : (0 <=? IndexByte s c) = false → lacks c s.
Proof. intros H%Z.leb_gt. pose proof (IndexByte_ge s c). unfold lacks. lia. Qed.

Lemma lacks_cons c a s : lacks c (String a s) ↔ a ≠ c ∧ lacks c s.
Proof.
  unfold lacks. cbn [IndexByte]. destruct (Ascii.eqb_spec a c) as [->|Hne]; [split; [lia|tauto]|].
  pose proof (IndexByte_ge s c). cbv zeta. destruct (Z.ltb_spec (IndexByte s c) 0); split; intros; intuition lia.
Qed.

Lemma lacks_app c s t : lacks c (s +:+ t) ↔ lacks c s ∧ lacks c t.
Proof.
  induction s as [|a s IH].
  - change (EmptyString +:+ t) with t. unfold lacks at 2. cbn. tauto.
  - change (String a s +:+ t) with (String a (s +:+ t)). rewrite !lacks_cons, IH. tauto.
Qed.

Lemma slen_app s t : slen (s +:+ t) = slen s + slen t.
Proof.
  unfold slen. induction s as [|a s IH]; [done|].
  change (String a s +:+ t) with (String a (s +:+ t)). cbn [String.length]. lia.
Qed.

Lemma IndexByte_app s c t : lacks c s → IndexByte (s +:+ String c t) c = slen s.
Proof.
  induction s as [|a s IH].
  - intros _. change (EmptyString +:+ String c t) with (String c t). cbn [IndexByte]. by rewrite Ascii.eqb_refl.
  - change (String a s +:+ String c t) with (String a (s +:+ String c t)). cbn [IndexByte].
    intros [Hne Hs]%lacks_cons. destruct (Ascii.eqb_spec a c); [done|]. rewrite (IH Hs). cbv zeta.
    unfold slen. cbn [String.length]. destruct (Z.ltb_spec (Z.of_nat (String.length s)) 0); lia.
Qed.

Definition rev_str (s : string) : string := String.string_of_list_ascii (rev (String.list_ascii_of_string s)).

Lemma list_ascii_app s t :
  String.list_ascii_of_string (s +:+ t) = String.list_ascii_of_string s ++ String.list_ascii_of_string t.
Proof.
  induction s as [|a s IH]; [done|]. change (String a s +:+ t) with (String a (s +:+ t)). cbn. by rewrite IH.
Qed.

Lemma string_of_list_app l k :
  String.string_of_list_ascii (l ++ k) = String.string_of_list_ascii l +:+ String.string_of_list_ascii k.
Proof. induction l as [|a l IH]; [done|]. cbn. by rewrite IH. Qed.

Lemma rev_str_app s t : rev_str (s +:+ t) = rev_str t +:+ rev_str s.
Proof. unfold rev_str. by rewrite list_ascii_app, rev_app_distr, string_of_list_app. Qed.

Lemma rev_str_cons c s : rev_str (String c s) = rev_str s +:+ String c EmptyString.
Proof. exact (rev_str_app (String c EmptyString) s). Qed.

Lemma slen_rev_str s : slen (rev_str s) = slen s.
Proof.
  induction s as [|c s IH]; [done|]. rewrite rev_str_cons, slen_app, IH.
  unfold slen. cbn [String.length]. lia.
Qed.

Lemma lacks_rev_str c s : lacks c (rev_str s) ↔ lacks c s.
Proof.
  induction s as [|a s IH]; [done|]. rewrite rev_str_cons, lacks_app, lacks_cons, IH, lacks_cons.
  assert (lacks c EmptyString) by done. tauto.
Qed.

Lemma str_app_assoc (s t u : string) : (s +:+ t) +:+ u = s +:+ (t +:+ u).
Proof.
  induction s as [|a s IH]; [done|]. change (String a s +:+ t) with (String a (s +:+ t)).
  change (String a (s +:+ t) +:+ u) with (String a ((s +:+ t) +:+ u)). by rewrite IH.
Qed.

Lemma LastIndexByte_app s c t : lacks c t → LastIndexByte (s +:+ String c t) c = slen s.
Proof.
  intros Ht. unfold LastIndexByte. fold (rev_str (s +:+ String c t)).
  change (String c t) with (String c EmptyString +:+ t).
  rewrite rev_str_app, rev_str_app, str_app_assoc.
  change (rev_str (String c EmptyString) +:+ rev_str s) with (String c (rev_str s)).
  rewrite IndexByte_app by (by apply lacks_rev_str). rewrite slen_rev_str, !slen_app.
  change (slen (String c EmptyString)) with 1. unfold slen. destruct (Z.ltb_spec (Z.of_nat (String.length t)) 0); lia.
Qed.

Lemma str_to_app s t : str_to (slen s) (s +:+ t) = s.
Proof.
  unfold str_to, slen. rewrite Nat2Z.id. induction s as [|a s IH]; [by destruct t|].
  change (String a s +:+ t) with (String a (s +:+ t)). cbn. by rewrite IH.
Qed.

Lemma str_from_0 s : str_from 0 s = s.
Proof. unfold str_from. change (Z.to_nat 0) with O. rewrite Nat.sub_0_r.
  induction s as [|a s IH]; [done|]. cbn. by rewrite IH. Qed.

Lemma str_from_app s t : str_from (slen s) (s +:+ t) = t.
Proof.
  unfold str_from, slen. rewrite Nat2Z.id.
  induction s as [|a s IH]; [change (EmptyString +:+ t) with t; apply (str_from_0 t)|].
  change (String a s +:+ t) with (String a (s +:+ t)). cbn in *. done.
Qed.

(** ** SplitHostPort *)

Definition plain (s : string) : Prop := lacks ":" s ∧ lacks "[" s ∧ lacks "]" s.

Lemma lacks_index c s : lacks c s → (0 <=? IndexByte s c) = false.
Proof. intros ->. done. Qed.

Lemma HasPrefix_lacks c s t : lacks c s → s ≠ EmptyString → HasPrefix (s +:+ t) (String c EmptyString) = false.
Proof.
  destruct s as [|a s]; [done|]. intros [Hne _]%lacks_cons _.
  change (String a s +:+ t) with (String a (s +:+ t)). unfold HasPrefix. cbn.
  destruct (ascii_dec c a); congruence.
Qed.

(** A host and a port without colons or brackets. *)
Lemma SplitHostPort_plain host port :
  plain host → plain port → SplitHostPort (host +:+ String ":" port) = Ok (host, port).
Proof.
  intros (Hc & Hl & Hr) (Pc & Pl & Pr). unfold SplitHostPort. rewrite LastIndexByte_app by done.
  rewrite str_to_app. assert (0 <= slen host) by (unfold slen; lia).
  destruct (Z.ltb_spec (slen host) 0); [lia|].
  assert (HasPrefix (host +:+ String ":" port) "[" = false) as ->.
  { destruct host as [|a host]; [done|]. by apply HasPrefix_lacks. }
  rewrite (lacks_index _ _ Hc). cbv zeta. rewrite str_from_0, !lacks_index.
  - change (String ":" port) with (":" +:+ port). rewrite <-str_app_assoc.
    change 1 with (slen ":"). rewrite <-slen_app, str_from_app. done.
  - apply lacks_app. split; [done|]. by apply lacks_cons.
  - apply lacks_app. split; [done|]. by apply lacks_cons.
Qed.

Lemma str_slice_app s t u v :
  str_slice (slen s) (slen s + slen t) (s +:+ t +:+ u +:+ v) = t.
Proof.
  unfold str_slice. rewrite str_from_app. replace (slen s + slen t - slen s) with (slen t) by lia.
  apply str_to_app.
Qed.

(** The same for the IPv6 loopback address. *)
Lemma SplitHostPort_v6 port : plain port → SplitHostPort ("[::1]:" +:+ port) = Ok ("::1", port).
Proof.
  intros (Pc & Pl & Pr). unfold SplitHostPort. change ("[::1]:" +:+ port) with ("[::1]" +:+ String ":" port).
  rewrite LastIndexByte_app by done. cbv zeta.
  assert (IndexByte ("[::1]" +:+ String ":" port) "]" = 4) as -> by done.
  assert (slen ("[::1]" +:+ String ":" port) = slen port + 6) as ->.
  { rewrite slen_app. unfold slen. cbn [String.length]. lia. }
  change (slen "[::1]") with 5. change (HasPrefix ("[::1]" +:+ String ":" port) "[") with true.
  assert (4 + 1 =? slen port + 6 = false) as -> by (apply Z.eqb_neq; unfold slen; lia).
  change (4 + 1 =? 5) with true. change (5 <? 0) with false. change (4 <? 0) with false.
  change (4 + 1) with 5. change (5 + 1) with 6. cbv iota. rewrite !lacks_index.
  - change ("[::1]" +:+ String ":" port) with ("[::1]:" +:+ port). change 6 with (slen "[::1]:").
    rewrite str_from_app.
    change (str_slice 1 4 ("[::1]:" +:+ port)) with
      (str_slice (slen "[") (slen "[" + slen "::1") ("[" +:+ "::1" +:+ "]:" +:+ port)).
    by rewrite str_slice_app.
  - change 5 with (slen "[::1]"). rewrite str_from_app. by apply lacks_cons.
  - change ("[::1]" +:+ String ":" port) with ("[" +:+ ("::1]:" +:+ port)). change 1 with (slen "[").
    rewrite str_from_app. by apply lacks_app.
Qed.

Lemma rev_str_involutive s : rev_str (rev_str s) = s.
Proof.
  unfold rev_str. rewrite String.list_ascii_of_string_of_list_ascii, rev_involutive.
  apply String.string_of_list_ascii_of_string.
Qed.

Lemma IndexByte_split s c : 0 ≤ IndexByte s c → ∃ p q, s = p +:+ String c q ∧ lacks c p.
Proof.
  induction s as [|a s IH]; cbn [IndexByte]; [lia|].
  destruct (Ascii.eqb_spec a c) as [->|Hne]; [by exists EmptyString, s|]. cbv zeta.
  destruct (Z.ltb_spec (IndexByte s c) 0); [lia|]. intros _. destruct IH as (p & q & -> & Hp); [lia|].
  exists (String a p), q. split; [done|]. by apply lacks_cons.
Qed.

Lemma LastIndexByte_split s c :
  0 ≤ LastIndexByte s c → ∃ p q, s = p +:+ String c q ∧ lacks c q ∧ LastIndexByte s c = slen p.
Proof.
  unfold LastIndexByte at 1. fold (rev_str s). cbv zeta.
  destruct (Z.ltb_spec (IndexByte (rev_str s) c) 0); [lia|]. intros _.
  destruct (IndexByte_split (rev_str s) c) as (p & q & E & Hp); [lia|].
  apply (f_equal rev_str) in E. rewrite rev_str_involutive, rev_str_app, rev_str_cons, str_app_assoc in E.
  change (String c EmptyString +:+ rev_str p) with (String c (rev_str p)) in E.
  exists (rev_str q), (rev_str p). split; [done|]. rewrite E. apply (lacks_rev_str c p) in Hp. split; [done|].
  by apply LastIndexByte_app.
Qed.

Lemma str_from_past s t j : 0 ≤ j ≤ slen s → ∃ u, str_from j (s +:+ t) = u +:+ t.
Proof.
  revert j. induction s as [|a s IH]; intros j Hj.
  { exists EmptyString. assert (j = 0) as -> by (unfold slen in Hj; cbn in Hj; lia). apply str_from_0. }
  destruct (decide (j = 0)) as [->|Hne]; [exists (String a s); by rewrite str_from_0|].
  destruct (IH (j - 1)) as [u Hu]; [unfold slen in *; cbn [String.length] in Hj; lia|].
  exists u. rewrite <-Hu. unfold str_from. replace (Z.to_nat j) with (S (Z.to_nat (j - 1))) by lia. done.
Qed.

Lemma SplitHostPort_port a h p : SplitHostPort a = Ok (h, p) → plain p.
Proof.
  unfold SplitHostPort. destruct (Z.ltb_spec (LastIndexByte a ":") 0); [done|].
  destruct (LastIndexByte_split a ":") as (s & t & -> & Ht & Hi); [done|].
  assert (Hs : s +:+ String ":" t = (s +:+ ":") +:+ t) by (by rewrite str_app_assoc).
  rewrite Hi. cbv zeta.
  assert (Hfin : ∀ host j k e1 e2, 0 ≤ j ≤ slen s + 1 → 0 ≤ k ≤ slen s + 1 →
    (if 0 <=? IndexByte (str_from j (s +:+ String ":" t)) "[" then Err e1
     else if 0 <=? IndexByte (str_from k (s +:+ String ":" t)) "]" then Err e2
     else Ok (host, str_from (slen s + 1) (s +:+ String ":" t))) = Ok (h, p) → plain p).
  { intros host j k e1 e2 Hj Hk. rewrite Hs.
    assert (slen (s +:+ ":") = slen s + 1) as Hlen by (by rewrite slen_app).
    destruct (0 <=? IndexByte (str_from j _) _) eqn:E1; [done|].
    destruct (0 <=? IndexByte (str_from k _) _) eqn:E2; [done|].
    rewrite <-Hlen, str_from_app. intros [= <- <-]. apply IndexByte_absent in E1, E2.
    destruct (str_from_past (s +:+ ":") t j) as [u1 Hu1]; [lia|].
    destruct (str_from_past (s +:+ ":") t k) as [u2 Hu2]; [lia|].
    rewrite Hu1 in E1. rewrite Hu2 in E2. apply lacks_app in E1, E2. unfold plain. tauto. }
  assert (0 ≤ slen s) by (unfold slen; lia).
  pose proof (IndexByte_ge (s +:+ String ":" t) "]").
  destruct (HasPrefix _ _).
  - destruct (Z.ltb_spec (IndexByte (s +:+ String ":" t) "]") 0); [done|].
    destruct (_ =? _); [done|]. destruct (Z.eqb_spec (IndexByte (s +:+ String ":" t) "]" + 1) (slen s)) as [->|].
    + intros Hf. eapply Hfin in Hf; try done; lia.
    + by destruct (HasPrefix _ _).
  - destruct (0 <=? IndexByte _ ":"); [done|]. intros Hf. eapply Hfin in Hf; try done; lia.
Qed.

(** ** Addresses *)

Definition ip_ok (ip : list Z) : Prop := len ip = 16 ∧ bytes_ok ip.

Lemma ipv4_loop_ok fields val digLen prev s v4 :
  bytes_ok fields → len fields ≤ 3 → is_byte val →
  ipv4_loop fields val digLen prev s = Some v4 → len v4 = 4 ∧ bytes_ok v4.
Proof.
  revert fields val digLen prev. induction s as [|c s IH]; intros fields val digLen prev Hf Hl Hv; cbn [ipv4_loop].
  - destruct (Z.ltb_spec (len fields) 3); [done|]. intros [= <-]. autorewrite with len. split; [lia|].
    apply Forall_app. split; [done|]. by apply Forall_singleton.
  - destruct (is_digit c) eqn:Hd.
    + apply digit_range in Hd. destruct (_ && _); [done|]. cbv zeta. destruct (Z.ltb_spec 255 (val * 10 + (byte_of c - 48))); [done|].
      apply IH; try done. unfold is_byte in *. lia.
    + destruct (char_is 46 c); [|done]. destruct (_ || _); [done|].
      destruct (Z.eqb_spec (len fields) 3); [done|].
      apply IH; try done; [|autorewrite with len; lia].
      apply Forall_app. split; [done|]. by apply Forall_singleton.
Qed.

Lemma hex_group_range off acc s o a r :
  0 ≤ acc ≤ 65535 → hex_group off acc s = Some (o, a, r) → 0 ≤ a ≤ 65535.
Proof.
  revert off acc. induction s as [|c s IH]; intros off acc Ha; cbn [hex_group]; [by intros [= <- <- <-]|].
  destruct (hex_digit c) as [d|] eqn:Hd; [|by intros [= <- <- <-]].
  assert (0 ≤ d).
  { unfold hex_digit, in_range in Hd. pose proof (byte_of_range c).
    repeat (case_match; simplify_eq); repeat match goal with H : _ && _ = true |- _ => apply andb_true_iff in H as [??] end;
      bool_to_Z; lia. }
  destruct (3 <? off); [done|]. cbv zeta. destruct (Z.ltb_spec 65535 (acc * 16 + d)); [done|]. apply IH. lia.
Qed.

Lemma bytes_of_field ip a : bytes_ok ip → 0 ≤ a ≤ 65535 → bytes_ok (ip ++ [a / 256; a mod 256]).
Proof.
  intros Hip Ha. apply Forall_app. split; [done|].
  pose proof (Z.mod_pos_bound a 256). assert (a / 256 < 256) by (apply Z.div_lt_upper_bound; lia).
  assert (0 ≤ a / 256) by (apply Z.div_pos; lia). repeat constructor; unfold is_byte; lia.
Qed.

Definition groups_ok (ip : list Z) (ell : option Z) : Prop :=
  len ip ≤ 16 ∧ len ip mod 2 = 0 ∧ bytes_ok ip ∧ (∀ e, ell = Some e → 0 ≤ e ≤ len ip).

Lemma ipv6_loop_ok fuel ip ell s ip' ell' s' :
  groups_ok ip ell → ipv6_loop fuel ip ell s = Some (ip', ell', s') → groups_ok ip' ell'.
Proof.
  revert ip ell s. induction fuel as [|fuel IH]; intros ip ell s Hg; cbn [ipv6_loop]; [by intros [= <- <- <-]|].
  destruct (Z.leb_spec 16 (len ip)); [by intros [= <- <- <-]|].
  destruct (hex_group 0 0 s) as [[[off acc] rest]|] eqn:Hh; [|done]. cbn [mbind option_bind].
  apply hex_group_range in Hh; [|lia]. destruct Hg as (Hl & Hm & Hb & He).
  destruct (off =? 0); [done|]. destruct (HasPrefix rest ".").
  { destruct (_ && _); [done|]. destruct (Z.ltb_spec 16 (len ip + 4)); [done|].
    destruct (parseIPv4Fields s) as [v4|] eqn:H4; [|done]. intros [= <- <- <-].
    apply ipv4_loop_ok in H4 as [H4 H4b]; [|done..].
    split_and!; [rewrite len_app; lia| |by apply Forall_app|].
    - rewrite len_app, H4, Z.add_mod, Hm; done.
    - intros e E. specialize (He e E). rewrite len_app. lia. }
  assert (Hlen : len (ip ++ [acc / 256; acc mod 256]) = len ip + 2) by (autorewrite with len; lia).
  assert (Hg : ∀ e, groups_ok ip e → groups_ok (ip ++ [acc / 256; acc mod 256]) e).
  { intros e (_ & _ & _ & Hee). split_and!; [| |by apply bytes_of_field|].
    - rewrite Hlen. destruct (decide (len ip = 15)) as [E|]; [by rewrite E in Hm|lia].
    - rewrite Hlen, Z.add_mod, Hm; done.
    - intros e' E. specialize (Hee e' E). lia. }
  assert (Hg1 := Hg ell ltac:(by split_and!)). cbv zeta.
  destruct rest as [|c rest1]; [by intros [= <- <- <-]|]. destruct (negb _); [done|].
  destruct rest1 as [|c2 rest2]; [done|]. destruct (char_is 58 c2); [|by apply IH].
  destruct ell as [|]; [done|].
  assert (Hg2 : groups_ok (ip ++ [acc / 256; acc mod 256]) (Some (len (ip ++ [acc / 256; acc mod 256])))).
  { destruct Hg1 as (? & ? & ? & _). split_and!; try done. intros e [= <-]. pose proof (len_nonneg ip). lia. }
  destruct rest2; [by intros [= <- <- <-]|]. by apply IH.
Qed.

Lemma parseIPv6_ok s ip : parseIPv6 s = Some ip → ip_ok ip.
Proof.
  unfold parseIPv6. set (es := if HasPrefix s "::" then _ else _).
  assert (Hes : ∀ e, es.1 = Some e → e = 0) by (subst es; by destruct (HasPrefix s "::"); intros ? [= <-]).
  destruct es as [ell s0]. cbn [fst] in Hes.
  assert (Hrest : ('(ip, ell, s) ← ipv6_loop 8 [] ell s0;
      if negb (String.eqb s EmptyString) then None
      else if len ip <? 16 then
        match ell with
        | None => None
        | Some e =>
            Some (take (Z.to_nat e) ip ++ replicate (Z.to_nat (16 - len ip)) 0 ++ drop (Z.to_nat e) ip)
        end
      else match ell with Some _ => None | None => Some ip end) = Some ip → ip_ok ip).
  { destruct (ipv6_loop 8 [] ell s0) as [[[ip1 ell1] s1]|] eqn:Hloop; [|done]. cbn [mbind option_bind].
    apply ipv6_loop_ok in Hloop as (Hl & _ & Hb & He); [|split_and!; try done; by intros e ->%Hes].
    destruct (negb _); [done|]. destruct (Z.ltb_spec (len ip1) 16).
    - destruct ell1 as [e|]; [|done]. intros [= <-]. specialize (He e eq_refl). split.
      + unfold len in *. rewrite !length_app, length_replicate, length_take, length_drop. lia.
      + apply Forall_app; split; [by apply Forall_take|]. apply Forall_app; split; [|by apply Forall_drop].
        by apply Forall_replicate.
    - destruct ell1; [done|]. intros [= <-]. split; [lia|done]. }
  destruct ell; [|exact Hrest]. destruct s0; [|exact Hrest]. intros [= <-].
  split; [done|]. by apply (Forall_replicate _ 16).
Qed.

(** A parsed address is 16 bytes. *)
Lemma ParseIP_ok s ip : ParseIP s = Some ip → ip_ok ip.
Proof.
  unfold ParseIP. destruct (ip_syntax s) as [c|]; [|done]. destruct (char_is 46 c).
  - destruct (parseIPv4Fields s) as [v4|] eqn:H; [|done]. intros [= <-].
    apply ipv4_loop_ok in H as [Hl Hb]; [|done..]. split.
    + change (len (v4InV6Prefix ++ v4) = 16). rewrite len_app, Hl. done.
    + change (bytes_ok (v4InV6Prefix ++ v4)). apply Forall_app. split; [|done]. repeat constructor; done.
  - destruct (char_is 58 c); [|done]. destruct (0 <=? _); [done|]. apply parseIPv6_ok.
Qed.

Lemma str_app_nil s : s +:+ EmptyString = s.
Proof. induction s as [|a s IH]; [done|]. change (String a s +:+ EmptyString) with (String a (s +:+ EmptyString)). by rewrite IH. Qed.

Definition byte_step (x : Z) : Prop :=
  (∀ rest, ∃ dl p, char_is 46 p = false ∧ ∀ fields prev,
     ipv4_loop fields 0 0 prev (Itoa x +:+ rest) = ipv4_loop fields x dl (Some p) rest) ∧
  (∀ rest, ip_syntax (Itoa x +:+ rest) = ip_syntax rest) ∧ Itoa x ≠ EmptyString ∧ plain (Itoa x).

Lemma byte_steps x : is_byte x → byte_step x.
Proof.
  intros Hx. assert (H : Forall byte_step (seqZ 0 256)).
  { repeat (constructor; [split_and!; [intros rest; eexists _, _; split; [|intros; reflexivity]; reflexivity|done..]|]).
    constructor. }
  rewrite Forall_forall in H. apply H, elem_of_seqZ. unfold is_byte in Hx. lia.
Qed.

Lemma ipv4_dot fields x dl p rest :
  char_is 46 p = false → rest ≠ EmptyString → len fields < 3 →
  ipv4_loop fields x dl (Some p) (String "." rest) = ipv4_loop (fields ++ [x]) 0 0 (Some "."%char) rest.
Proof.
  intros Hp Hr Hl. cbn -[len]. rewrite Hp. destruct rest; [done|]. cbn [String.eqb orb].
  destruct (Z.eqb_spec (len fields) 3); [lia|done].
Qed.

Definition dotted (a b c d : Z) : string :=
  Itoa a +:+ String "." (Itoa b +:+ String "." (Itoa c +:+ String "." (Itoa d))).

Lemma ParseIP_dotted a b c d :
  is_byte a → is_byte b → is_byte c → is_byte d →
  ParseIP (dotted a b c d) = Some (v4InV6Prefix ++ [a; b; c; d]) ∧ plain (dotted a b c d).
Proof.
  intros Ha Hb Hc Hd. destruct (byte_steps a Ha) as (Sa & Ya & ? & ? & ? & ?), (byte_steps b Hb) as (Sb & Yb & ? & ? & ? & ?),
    (byte_steps c Hc) as (Sc & Yc & ? & ? & ? & ?), (byte_steps d Hd) as (Sd & Yd & ? & ? & ? & ?). split.
  - assert (Hne : ∀ s, ip_syntax s = ip_syntax "." → s ≠ EmptyString) by (by intros s E ->).
    unfold ParseIP. unfold dotted at 1. rewrite Ya. cbn [ip_syntax].
    change (char_is 46 ".") with true. cbn [orb]. unfold parseIPv4Fields, dotted.
    destruct (Sa (String "." (Itoa b +:+ String "." (Itoa c +:+ String "." (Itoa d))))) as (? & ? & ? & ->).
    rewrite ipv4_dot; [|done|apply Hne; by rewrite Yb|done].
    destruct (Sb (String "." (Itoa c +:+ String "." (Itoa d)))) as (? & ? & ? & ->).
    rewrite ipv4_dot; [|done|apply Hne; by rewrite Yc|done].
    destruct (Sc (String "." (Itoa d))) as (? & ? & ? & ->). rewrite ipv4_dot; [|done|done|done].
    destruct (Sd EmptyString) as (? & ? & ? & Sd'). specialize (Sd' (([] ++ [a]) ++ [b] ++ [c]) (Some "."%char)).
    assert (Itoa d +:+ EmptyString = Itoa d) as E by apply str_app_nil. rewrite E in Sd'.
    rewrite <-(assoc_L (++) ([] ++ [a]) [b] [c]). rewrite Sd'. reflexivity.
  - unfold dotted, plain. rewrite !lacks_app, !lacks_cons, !lacks_app, !lacks_cons, !lacks_app, !lacks_cons.
    by split_and!.
Qed.

(** ** The loopback addresses *)

Definition is_loopback_host (host : string) : Prop :=
  host = "localhost" ∨ ∃ ip, ParseIP host = Some ip ∧ IsLoopback ip = true.

(** A loopback address prints as an address that reads back as a loopback one. *)
Lemma loopback_listens ip port :
  ip_ok ip → IsLoopback ip = true → plain port →
  is_loopback_host (IP_String ip) ∧ SplitHostPort (JoinHostPort (IP_String ip) port) = Ok (IP_String ip, port).
Proof.
  intros [Hl Hb] Hlo Hp. unfold IsLoopback, IP_String, To4 in *. case_decide as Hpre.
  - assert (Hb4 : bytes_ok (drop 12 ip)) by (by apply Forall_drop).
    assert (Hl4 : length (drop 12 ip) = 4%nat) by (rewrite length_drop; unfold len in Hl; lia).
    destruct (drop 12 ip) as [|a [|b [|c [|d [|]]]]]; try done. apply bool_decide_eq_true in Hlo.
    rewrite !Forall_cons in Hb4. destruct Hb4 as (Ha & Hbb & Hc & Hd & _). injection Hlo as ->.
    destruct (ParseIP_dotted 127 b c d Ha Hbb Hc Hd) as [Hparse Hplain].
    change (Join (Itoa <$> [127; b; c; d]) ".") with (dotted 127 b c d). split.
    + right. eexists. split; [exact Hparse|]. done.
    + unfold JoinHostPort. rewrite lacks_index by apply Hplain. by apply SplitHostPort_plain.
  - apply bool_decide_eq_true in Hlo as ->. split; [|by apply (SplitHostPort_v6 port)].
    right. exists (replicate 15 0 ++ [1]). split; vm_compute; reflexivity.
Qed.
