(* ===== verification/EntropyHTTP.v ===== *)
(** * The entropy HTTP server (internal/entropy/http_entropy_server.go)

    The handlers are computations on the server object that emit what they
    write on the response and on the metrics.  Between the two calls a handler
    makes on the pool other goroutines may use the pool: their operations are
    an argument. *)

From S2P Require Import Prelude Float64 GoStrings GoNet Clock Metrics.
From S2P Require Import HealthTests QuickTests MinEntropy MqttHandler Pool TokenBucket.

Definition defaultHTTPAddress : string := "127.0.0.1:9797".
Definition defaultRequestBytes : Z := 32.
Definition minRequestBytes : Z := 1.
Definition maxRequestBytes : Z := 4096.
Definition defaultRateLimitRPS : Z := 25.
Definition defaultRateLimitBurst : Z := 25.
Definition defaultRetryAfterSeconds : Z := 1.

Definition defaultShutdownTimeout : Z := 5 * Second.

Definition StatusOK : Z := 200.
Definition StatusBadRequest : Z := 400.
Definition StatusServiceUnavailable : Z := 503.

(** A socket, by number, bare or wrapped by [tls.NewListener]. *)
Inductive net_listener := TCPListener (socket : Z) | TLSListener (socket : Z).

(** What the server does on the network, on a response writer and on the metrics. *)
Inductive srv_call :=
| Prom (c : prom_call)
| Listen (addr : string)
| ConfigureTLS (certFile keyFile caFile : string) (clientAuth : Z)
| Serve (l : net_listener)
| ShutdownServer (deadline : option Z)
| SetHeader (key value : string)
| DelHeader (key : string)
| WriteHeader (code : Z)
| Write (body : bytes).

Record HTTPServer := mkServer {
  pool : option WhitenedPool;
  listener : option net_listener;
  address : string;
  readyThreshold : Z;
  rateLimiter : option tokenBucket;
  retryAfterSeconds : Z;
}.

Definition M : Type → Type := GoM srv_call HTTPServer.

Definition set_pool (p : option WhitenedPool) (s : HTTPServer) : HTTPServer :=
  mkServer p (listener s) (address s) (readyThreshold s) (rateLimiter s) (retryAfterSeconds s).
Definition set_listener (l : net_listener) (s : HTTPServer) : HTTPServer :=
  mkServer (pool s) (Some l) (address s) (readyThreshold s) (rateLimiter s) (retryAfterSeconds s).
Definition set_limiter (b : option tokenBucket) (s : HTTPServer) : HTTPServer :=
  mkServer (pool s) (listener s) (address s) (readyThreshold s) b (retryAfterSeconds s).

(** A method of the pool, called on the pool of the server. *)
Definition on_pool {A} (p : WhitenedPool) (m : GoM prom_call WhitenedPool A) : M A :=
  λ s, match m p with (a, p', w) => (a, set_pool (Some p') s, Prom <$> w) end.

(** [http.Error]. *)
Definition http_Error (error : string) (code : Z) : M unit :=
  call [DelHeader "Content-Length"; SetHeader "Content-Type" "text/plain; charset=utf-8";
    SetHeader "X-Content-Type-Options" "nosniff"; WriteHeader code;
    Write (bytes_of_string error ++ [10])].

Definition setNoStoreHeaders : M unit :=
  call [SetHeader "Cache-Control" "no-store"; SetHeader "Pragma" "no-cache"].

Definition retry_seconds (base wait : Z) : Z :=
  let seconds :=
    if 0 <? wait then
      let calc := to_int64 (fceil (Seconds wait)) in if base <? calc then calc else base
    else base in
  if seconds <? 1 then defaultRetryAfterSeconds else seconds.

Definition setRetryAfter (wait : Z) : M unit :=
  s ← get;
  call [SetHeader "Retry-After" (Itoa (retry_seconds (retryAfterSeconds s) wait))].

(** ** Construction *)

Section construction.
Context `{GoUnicode}.

Definition enforceLoopbackAddr (addr : string) (allowPublic : bool) : result string :=
  let addr := TrimSpace addr in
  let addr := if String.eqb addr EmptyString then defaultHTTPAddress else addr in
  match SplitHostPort addr with
  | Err e => Err (wrap "entropy http server: invalid address %q: " [addr] e)
  | Ok (host, port) =>
      if String.eqb host EmptyString then Err (Errorf "entropy http server: host must be specified" [])
      else if String.eqb (ToLower host) "localhost" then Ok (JoinHostPort "localhost" port)
      else
        match ParseIP host with
        | None =>
            if allowPublic then Ok addr
            else Err (Errorf "entropy http server: host %q is not loopback" [host])
        | Some ip =>
            if negb (IsLoopback ip) then
              if allowPublic then Ok (JoinHostPort (IP_String ip) port)
              else Err (Errorf "entropy http server: host %q must be loopback" [host])
            else Ok (JoinHostPort (IP_String ip) port)
        end
  end.

Definition NewHTTPServer (addr : string) (pool : option WhitenedPool) (readyThreshold : Z)
    (allowPublic : bool) (retryAfterSeconds rateLimitRPS rateLimitBurst now : Z) : result HTTPServer :=
  let addr := if String.eqb addr EmptyString then defaultHTTPAddress else addr in
  let readyThreshold := if readyThreshold <? 0 then 0 else readyThreshold in
  let retryAfterSeconds :=
    if retryAfterSeconds <=? 0 then defaultRetryAfterSeconds else retryAfterSeconds in
  let rateLimitRPS := if rateLimitRPS <=? 0 then defaultRateLimitRPS else rateLimitRPS in
  let rateLimitBurst := if rateLimitBurst <=? 0 then defaultRateLimitBurst else rateLimitBurst in
  canonicalAddr ← enforceLoopbackAddr addr allowPublic;
  mret (mkServer pool None canonicalAddr readyThreshold
    (Some (newTokenBucket (of_int rateLimitRPS) (of_int rateLimitBurst) now)) retryAfterSeconds).
End construction.

(** ** Starting and stopping

    [net_Listen] is the outcome of binding the socket, [configure] the one of the
    TLS helper of go-authx: the [Serve] call stands for the goroutine that serves. *)

Section lifecycle.
Context (net_Listen : string → result Z) (configure : string → string → string → Z → result unit).

Definition Start : M (result unit) :=
  s ← get;
  match pool s with
  | None => mret (Err (Errorf "entropy http server: pool is nil" []))
  | Some _ =>
      call [Listen (address s)] ;;
      match net_Listen (address s) with
      | Err e => mret (Err (wrap "entropy http server: listen: " [] e))
      | Ok socket =>
          modify (set_listener (TCPListener socket)) ;;
          call [Serve (TCPListener socket)] ;;
          mret (Ok tt)
      end
  end.

Definition StartTLS (certFile keyFile caFile : string) (clientAuth : Z) : M (result unit) :=
  s ← get;
  match pool s with
  | None => mret (Err (Errorf "entropy http server: pool is nil" []))
  | Some _ =>
      call [ConfigureTLS certFile keyFile caFile clientAuth] ;;
      match configure certFile keyFile caFile clientAuth with
      | Err e => mret (Err (wrap "entropy http server: configure TLS: " [] e))
      | Ok _ =>
          call [Listen (address s)] ;;
          match net_Listen (address s) with
          | Err e => mret (Err (wrap "entropy http server: listen: " [] e))
          | Ok socket =>
              modify (set_listener (TLSListener socket)) ;;
              call [Serve (TLSListener socket)] ;;
              mret (Ok tt)
          end
      end
  end.
End lifecycle.

(** [ctx] is the caller's context, nil or with its deadline if any; [outcome]
    what [http.Server.Shutdown] returns: [None] stands for nil and [Some None]
    for [http.ErrServerClosed]. *)
Definition Shutdown (ctx : option (option Z)) (outcome : option (option goerror)) : M (option goerror) :=
  call [ShutdownServer (match ctx with None => Some defaultShutdownTimeout | Some deadline => deadline end)] ;;
  mret (match outcome with Some None => None | Some (Some e) => Some e | None => None end).

(** ** Handlers *)

Section handlers.
Context `{MathLib, MapRange}.

(** Operations of other goroutines on the pool. *)
Definition interference (os : list pool_op) : M unit :=
  s ← get;
  match pool s with
  | Some p => on_pool p (exec_all os) ;; mret tt
  | None => mret tt
  end.

(** [handleEntropy] until it has read the number of available bytes: the request
    is answered, with the status of the response and whether [rateLimited] is
    set, or goes on with the numbers of bytes requested and available.  [value]
    is the query parameter "bytes", [now] the time the rate limiter reads. *)
Definition entropy_admit (value : string) (now : Z) : M ((Z * bool) + (Z * Z)) :=
  match (if String.eqb value EmptyString then Ok defaultRequestBytes else Atoi value) with
  | Err _ =>
      call [SetHeader "Cache-Control" "no-store"] ;;
      http_Error "invalid bytes parameter" StatusBadRequest ;;
      mret (inl (StatusBadRequest, false))
  | Ok requestBytes =>
      if (requestBytes <? minRequestBytes) || (maxRequestBytes <? requestBytes) then
        call [SetHeader "Cache-Control" "no-store"] ;;
        http_Error ("bytes must be between " +:+ Itoa minRequestBytes +:+ " and " +:+ Itoa maxRequestBytes)
          StatusBadRequest ;;
        mret (inl (StatusBadRequest, false))
      else
        s ← get;
        let '(allowed, wait, limiter) :=
          match rateLimiter s with
          | Some b => let '(ok, wait, b) := Allow now b in (ok, wait, Some b)
          | None => (true, 0, None)
          end in
        modify (set_limiter limiter) ;;
        if negb allowed then
          setNoStoreHeaders ;;
          setRetryAfter wait ;;
          http_Error "rate limit exceeded" StatusServiceUnavailable ;;
          mret (inl (StatusServiceUnavailable, true))
        else
          s ← get;
          available ← match pool s with Some p => on_pool p AvailableEntropy | None => mret 0 end;
          setNoStoreHeaders ;;
          call [SetHeader "Content-Type" "application/octet-stream";
            SetHeader "X-Entropy-Available" (Itoa available);
            SetHeader "X-Entropy-Request" (Itoa requestBytes)] ;;
          mret (inr (requestBytes, available))
  end.

(** The rest of [handleEntropy], from the extraction on. *)
Definition entropy_serve (requestBytes available : Z) : M (Z * bool) :=
  s ← get;
  match pool s with
  | None =>
      setRetryAfter 0 ;;
      http_Error "entropy pool unavailable" StatusServiceUnavailable ;;
      mret (StatusServiceUnavailable, false)
  | Some p =>
      data ← on_pool p (ExtractEntropy requestBytes);
      match data with
      | None =>
          setRetryAfter 0 ;;
          http_Error ("insufficient entropy: requested " +:+ Itoa requestBytes +:+
            ", available " +:+ Itoa available) StatusServiceUnavailable ;;
          mret (StatusServiceUnavailable, false)
      | Some data => call [Write data] ;; mret (StatusOK, false)
      end
  end.

(** The body of [handleEntropy]: the status it leaves in [status] and whether it
    set [rateLimited]; [others] is what happens on the pool in between. *)
Definition entropy_body (value : string) (now : Z) (others : list pool_op) : M (Z * bool) :=
  r ← entropy_admit value now;
  match r with
  | inl answered => mret answered
  | inr (requestBytes, available) => interference others ;; entropy_serve requestBytes available
  end.

(** The deferred metrics; [duration] is the time the request took. *)
Definition entropy_metrics (status : Z) (rateLimited : bool) (duration : Z) : M unit :=
  call (Prom <$> RecordEntropyHTTPRequest status duration) ;;
  if status =? StatusServiceUnavailable then
    call (Prom <$> RecordEntropyHTTP503) ;;
    if rateLimited then call (Prom <$> RecordEntropyHTTPRateLimited) else mret tt
  else mret tt.

Definition handleEntropy (value : string) (now duration : Z) (others : list pool_op) : M unit :=
  '(status, rateLimited) ← entropy_body value now others;
  entropy_metrics status rateLimited duration.

(** [handleHealth] until it has read the status of the pool, and from there on. *)
Definition health_read : M (Z * Z) :=
  s ← get;
  match pool s with Some p => on_pool p PoolStatus | None => mret (0, 0) end.

Definition health_answer (rawEvents whitened : Z) : M unit :=
  s ← get;
  available ← match pool s with Some p => on_pool p AvailableEntropy | None => mret 0 end;
  setNoStoreHeaders ;;
  call [SetHeader "Content-Type" "text/plain; charset=utf-8"; WriteHeader StatusOK;
    Write (bytes_of_string ("raw_events=" +:+ Itoa rawEvents +:+ newline +:+
      "whitened_bytes=" +:+ Itoa whitened +:+ newline +:+
      "available_bytes=" +:+ Itoa available +:+ newline))].

Definition handleHealth (others : list pool_op) : M unit :=
  '(rawEvents, whitened) ← health_read;
  interference others ;;
  health_answer rawEvents whitened.

Definition handleReady : M unit :=
  s ← get;
  available ← match pool s with Some p => on_pool p AvailableEntropy | None => mret 0 end;
  setNoStoreHeaders ;;
  call [SetHeader "Content-Type" "text/plain; charset=utf-8";
    SetHeader "X-Entropy-Available" (Itoa available);
    SetHeader "X-Ready-Threshold" (Itoa (readyThreshold s))] ;;
  if available <? readyThreshold s then
    call [WriteHeader StatusServiceUnavailable; Write (bytes_of_string ("ready=false" +:+ newline))]
  else call [WriteHeader StatusOK; Write (bytes_of_string ("ready=true" +:+ newline))].

(** [spec] is the embedded OpenAPI document. *)
Definition handleOpenAPI (spec : bytes) : M unit :=
  call [SetHeader "Content-Type" "application/yaml"; SetHeader "Access-Control-Allow-Origin" "*";
    SetHeader "Cache-Control" "public, max-age=3600"; WriteHeader StatusOK; Write spec].

(** ** What the client sees *)

(** The response: headers as they were at the first [WriteHeader] or [Write],
    the status (200 when none was written first) and the body. *)
Record response := mkResponse {
  headers : gmap string string;
  status : option (Z * gmap string string);
  body : bytes;
}.

Definition respond (r : response) (c : srv_call) : response :=
  match c with
  | SetHeader k v => mkResponse (<[k := v]> (headers r)) (status r) (body r)
  | DelHeader k => mkResponse (delete k (headers r)) (status r) (body r)
  | WriteHeader code =>
      mkResponse (headers r) (match status r with None => Some (code, headers r) | st => st end) (body r)
  | Write b =>
      mkResponse (headers r) (match status r with None => Some (StatusOK, headers r) | st => st end)
        (body r ++ b)
  | _ => r
  end.

Definition response_of (cs : list srv_call) : response := foldl respond (mkResponse ∅ None []) cs.

Definition code_of (r : response) : option Z := fst <$> status r.
Definition header_of (r : response) (k : string) : option string := st ← status r; st.2 !! k.

Definition proms (cs : list srv_call) : list prom_call :=
  omap (λ c, match c with Prom c => Some c | _ => None end) cs.

(** ** What the handlers do *)

(** The number of bytes a request asks for, when it is acceptable. *)
Definition requested (value : string) : option Z :=
  match (if String.eqb value EmptyString then Ok defaultRequestBytes else Atoi value) with
  | Ok n => if (n <? minRequestBytes) || (maxRequestBytes <? n) then None else Some n
  | Err _ => None
  end.

(** The decision of the rate limiter, if any. *)
Definition admission (now : Z) (s : HTTPServer) : bool * Z * option tokenBucket :=
  match rateLimiter s with
  | Some b => let '(ok, wait, b) := Allow now b in (ok, wait, Some b)
  | None => (true, 0, None)
  end.

(** The pool when the handler extracts from it. *)
Definition pool_at (others : list pool_op) (p : WhitenedPool) : WhitenedPool :=
  run_state (exec_all others) p.

Definition not_cached (r : response) : Prop := header_of r "Cache-Control" = Some "no-store".

(** A 503 that tells when to come back: not before [base] seconds, nor before [wait]. *)
Definition come_back (r : response) (base wait : Z) : Prop :=
  code_of r = Some StatusServiceUnavailable ∧ not_cached r ∧
  ∃ k, header_of r "Retry-After" = Some (Itoa k) ∧ 1 ≤ k ∧ base ≤ k ∧
    (0 < wait → to_int64 (fceil (Seconds wait)) ≤ k).

Lemma requested_range value n : requested value = Some n → 1 ≤ n ≤ 4096.
Proof.
  unfold requested. destruct (if String.eqb value _ then _ else _) as [m|]; [|done].
  destruct (_ || _) eqn:E; [done|]. intros [= <-]. apply orb_false_iff in E as [??]. bool_to_Z.
  unfold minRequestBytes, maxRequestBytes in *. lia.
Qed.

Lemma retry_seconds_spec base wait :
  1 ≤ retry_seconds base wait ∧ base ≤ retry_seconds base wait ∧
  (0 < wait → to_int64 (fceil (Seconds wait)) ≤ retry_seconds base wait).
Proof.
  unfold retry_seconds, defaultRetryAfterSeconds. destruct (Z.ltb_spec 0 wait).
  - set (calc := to_int64 _). destruct (Z.ltb_spec base calc).
    + destruct (Z.ltb_spec calc 1); lia.
    + destruct (Z.ltb_spec base 1); lia.
  - destruct (Z.ltb_spec base 1); lia.
Qed.

(** The calls made by an error response, and by the refusals of [handleEntropy]. *)
Definition error_calls (error : string) (code : Z) : list srv_call :=
  [DelHeader "Content-Length"; SetHeader "Content-Type" "text/plain; charset=utf-8";
   SetHeader "X-Content-Type-Options" "nosniff"; WriteHeader code; Write (bytes_of_string error ++ [10])].
Definition no_store : list srv_call := [SetHeader "Cache-Control" "no-store"; SetHeader "Pragma" "no-cache"].
Definition entropy_headers (available n : Z) : list srv_call :=
  no_store ++ [SetHeader "Content-Type" "application/octet-stream";
    SetHeader "X-Entropy-Available" (Itoa available); SetHeader "X-Entropy-Request" (Itoa n)].
Definition retry (base wait : Z) : list srv_call :=
  [SetHeader "Retry-After" (Itoa (retry_seconds base wait))].

(** The first part of [handleEntropy] in each case. *)
Lemma entropy_admit_bad value now s :
  requested value = None →
  ∃ msg, entropy_admit value now s =
    (inl (StatusBadRequest, false), s, [SetHeader "Cache-Control" "no-store"] ++ error_calls msg StatusBadRequest).
Proof.
  unfold requested, entropy_admit. destruct (if String.eqb value _ then _ else _) as [n|]; [|by eexists].
  destruct (_ || _); [by eexists|done].
Qed.

Lemma entropy_admit_limited value now s n wait lim :
  requested value = Some n → admission now s = (false, wait, lim) →
  entropy_admit value now s =
    (inl (StatusServiceUnavailable, true), set_limiter lim s,
     no_store ++ retry (retryAfterSeconds s) wait ++ error_calls "rate limit exceeded" StatusServiceUnavailable).
Proof.
  unfold requested, entropy_admit, admission. destruct (if String.eqb value _ then _ else _) as [m|]; [|done].
  destruct (_ || _); [done|]. intros _ Ha.
  unfold mbind, GoM_bind, get, modify, call, mret, GoM_ret, setNoStoreHeaders, setRetryAfter, http_Error. cbn -[retry_seconds].
  by rewrite Ha.
Qed.

Definition available_of (s : HTTPServer) : Z :=
  match pool s with Some p => run_val AvailableEntropy p | None => 0 end.

Lemma AvailableEntropy_eq p : AvailableEntropy p = (run_val AvailableEntropy p, p, []).
Proof.
  unfold AvailableEntropy, run_val, mbind, GoM_bind, get. by destruct (len (whitened p) <=? _).
Qed.

Lemma AvailableEntropy_val p : run_val AvailableEntropy p = Z.max 0 (len (whitened p) - minPoolSize p).
Proof.
  unfold AvailableEntropy, run_val, mbind, GoM_bind, get.
  destruct (Z.leb_spec (len (whitened p)) (minPoolSize p)); cbn; lia.
Qed.

Lemma set_pool_id p s : pool s = Some p → set_pool (Some p) s = s.
Proof. destruct s. cbn. by intros ->. Qed.

Lemma entropy_admit_ok value now s n wait lim :
  requested value = Some n → admission now s = (true, wait, lim) →
  entropy_admit value now s =
    (inr (n, available_of s), set_limiter lim s, entropy_headers (available_of s) n).
Proof.
  unfold requested, entropy_admit, admission, available_of.
  destruct (if String.eqb value _ then _ else _) as [m|]; [|done].
  destruct (_ || _); [done|]. intros [= ->] Ha.
  unfold on_pool, mbind, GoM_bind, get, modify, call, mret, GoM_ret, setNoStoreHeaders.
  cbn -[AvailableEntropy]. rewrite Ha. cbn -[AvailableEntropy]. destruct (pool s) as [p|] eqn:Hp; [|done].
  rewrite AvailableEntropy_eq. cbn -[AvailableEntropy]. by rewrite set_pool_id.
Qed.

(** The second part. *)
Lemma entropy_serve_nopool n available s :
  pool s = None →
  entropy_serve n available s =
    (StatusServiceUnavailable, false, s,
     retry (retryAfterSeconds s) 0 ++ error_calls "entropy pool unavailable" StatusServiceUnavailable).
Proof.
  intros Hp. unfold entropy_serve, mbind, GoM_bind, get, call, mret, GoM_ret, setRetryAfter, http_Error.
  cbn -[retry_seconds]. by rewrite Hp.
Qed.

(** The calls that answer with the outcome [d] of the extraction. *)
Definition served_calls (base n available : Z) (d : option bytes) : list srv_call :=
  match d with
  | Some data => [Write data]
  | None => retry base 0 ++ error_calls ("insufficient entropy: requested " +:+ Itoa n +:+
      ", available " +:+ Itoa available) StatusServiceUnavailable
  end.

Lemma entropy_serve_pool n available s p d p2 w2 :
  pool s = Some p → ExtractEntropy n p = (d, p2, w2) →
  entropy_serve n available s =
    (match d with Some _ => StatusOK | None => StatusServiceUnavailable end, false, set_pool (Some p2) s,
     (Prom <$> w2) ++ served_calls (retryAfterSeconds s) n available d).
Proof.
  intros Hp Hx. unfold entropy_serve, on_pool, mbind, GoM_bind, get, call, mret, GoM_ret, setRetryAfter, http_Error.
  cbn -[retry_seconds]. rewrite Hp, Hx. by destruct d.
Qed.

(** The body of [handleEntropy] in each case. *)
Lemma entropy_body_bad value now others s :
  requested value = None →
  ∃ msg, entropy_body value now others s =
    (StatusBadRequest, false, s, [SetHeader "Cache-Control" "no-store"] ++ error_calls msg StatusBadRequest).
Proof.
  intros Hr. destruct (entropy_admit_bad value now s Hr) as [msg E]. exists msg.
  unfold entropy_body. rewrite (bind_run _ _ _ _ _ _ E). unfold run_calls. by rewrite app_nil_r.
Qed.

Lemma entropy_body_limited value now others s n wait lim :
  requested value = Some n → admission now s = (false, wait, lim) →
  entropy_body value now others s =
    (StatusServiceUnavailable, true, set_limiter lim s,
     no_store ++ retry (retryAfterSeconds s) wait ++ error_calls "rate limit exceeded" StatusServiceUnavailable).
Proof.
  intros Hr Ha. unfold entropy_body. rewrite (bind_run _ _ _ _ _ _ (entropy_admit_limited _ _ _ _ _ _ Hr Ha)).
  unfold run_calls. by rewrite app_nil_r.
Qed.

Lemma interference_eq others s p :
  pool s = Some p →
  interference others s = (tt, set_pool (Some (pool_at others p)) s, Prom <$> run_calls (exec_all others) p).
Proof.
  intros Hp. unfold interference, pool_at, on_pool, run_state, run_calls, mbind, GoM_bind, get. rewrite Hp.
  destruct (exec_all others p) as [[rs p1] w1]. cbn. by rewrite app_nil_r.
Qed.

Lemma entropy_body_nopool value now others s n wait lim :
  requested value = Some n → admission now s = (true, wait, lim) → pool s = None →
  entropy_body value now others s =
    (StatusServiceUnavailable, false, set_limiter lim s,
     entropy_headers 0 n ++ retry (retryAfterSeconds s) 0 ++
     error_calls "entropy pool unavailable" StatusServiceUnavailable).
Proof.
  intros Hr Ha Hp. pose proof (entropy_admit_ok value now s n wait lim Hr Ha) as E. unfold available_of in E. rewrite Hp in E.
  assert (Hi : interference others (set_limiter lim s) = (tt, set_limiter lim s, [])).
  { unfold interference, mbind, GoM_bind, get. cbn [pool set_limiter]. by rewrite Hp. }
  apply (bind_eq _ _ _ _ _ _ _ _ _ E), (bind_eq _ _ _ _ _ _ _ _ _ Hi). by rewrite entropy_serve_nopool.
Qed.

Lemma entropy_body_pool value now others s n wait lim p d p2 w2 :
  requested value = Some n → admission now s = (true, wait, lim) → pool s = Some p →
  ExtractEntropy n (pool_at others p) = (d, p2, w2) →
  entropy_body value now others s =
    (match d with Some _ => StatusOK | None => StatusServiceUnavailable end, false,
     set_pool (Some p2) (set_limiter lim s),
     entropy_headers (available_of s) n ++ (Prom <$> run_calls (exec_all others) p) ++ (Prom <$> w2) ++
     served_calls (retryAfterSeconds s) n (available_of s) d).
Proof.
  intros Hr Ha Hp Hx. apply (bind_eq _ _ _ _ _ _ _ _ _ (entropy_admit_ok _ _ _ _ _ _ Hr Ha)).
  apply (bind_eq _ _ _ _ _ _ _ _ _ (interference_eq others (set_limiter lim s) p Hp)).
  by rewrite (entropy_serve_pool n _ (set_pool (Some (pool_at others p)) (set_limiter lim s)) (pool_at others p) d p2 w2 eq_refl Hx).
Qed.

Lemma respond_proms r l : foldl respond r (Prom <$> l) = r.
Proof. by induction l. Qed.

Lemma response_tail cs l : response_of (cs ++ (Prom <$> l)) = response_of cs.
Proof. unfold response_of. by rewrite foldl_app, respond_proms. Qed.

Lemma proms_app l k : proms (l ++ k) = proms l ++ proms k.
Proof. unfold proms. apply omap_app. Qed.

Lemma proms_fmap l : proms (Prom <$> l) = l.
Proof.
  induction l as [|c l IH]; [done|].
  change (proms (Prom <$> c :: l)) with (c :: proms (Prom <$> l)). by rewrite IH.
Qed.

(** The metrics recorded when [handleEntropy] returns. *)
Definition request_metrics (code : Z) (limited : bool) (duration : Z) : list prom_call :=
  RecordEntropyHTTPRequest code duration ++
  (if code =? StatusServiceUnavailable then
     RecordEntropyHTTP503 ++ (if limited then RecordEntropyHTTPRateLimited else []) else []).

Lemma handleEntropy_eq value now duration others s code limited s' cs :
  entropy_body value now others s = (code, limited, s', cs) →
  handleEntropy value now duration others s =
    (tt, s', cs ++ (Prom <$> request_metrics code limited duration)).
Proof.
  intros E. unfold handleEntropy, entropy_metrics, request_metrics, mbind, GoM_bind, call, mret, GoM_ret. rewrite E.
  destruct (code =? _), limited; by rewrite ?fmap_app, ?app_nil_r, <-?(assoc_L (++)).
Qed.

(** C20: [handleEntropy], whatever other goroutines do on the pool between its two
    accesses.  A parameter that is not a number between 1 and 4096 gets a 400 and
    changes nothing, the rate limiter included.  Otherwise one token is asked
    for: without it the answer is a 503 and the pool is untouched; with it, the
    answer is either a 503, when there is no pool or the extraction is refused,
    the buffer keeping its bytes, or a 200 whose body is exactly the [n] bytes
    that were at the front of the pool and are no longer in it.  No answer may be
    cached, and every 503 tells when to come back: at least one second, the
    configured delay and the limiter's estimate. *)
Theorem handleEntropy_spec value now duration others s :
  let m := handleEntropy value now duration others in
  let r := response_of (run_calls m s) in
  let s' := run_state m s in
  let '(ok, wait, lim) := admission now s in
  not_cached r ∧
  match requested value with
  | None => code_of r = Some 400 ∧ s' = s
  | Some n =>
      rateLimiter s' = lim ∧
      if negb ok then come_back r (retryAfterSeconds s) wait ∧ pool s' = pool s
      else match pool s with
      | None => come_back r (retryAfterSeconds s) 0 ∧ pool s' = None
      | Some p =>
          let p1 := pool_at others p in
          let p2 := run_state (ExtractEntropy n) p1 in
          pool s' = Some p2 ∧
          match run_val (ExtractEntropy n) p1 with
          | None => come_back r (retryAfterSeconds s) 0 ∧ whitened p2 = whitened p1
          | Some data =>
              code_of r = Some 200 ∧ header_of r "Content-Type" = Some "application/octet-stream" ∧
              body r = data ∧ len data = n ∧ 1 ≤ n ≤ 4096 ∧ data ++ whitened p2 = whitened p1
          end
      end
  end.
Proof.
  intros m r s'. destruct (admission now s) as [[ok wait] lim] eqn:Ha.
  assert (Hret : ∀ wait, ∃ k, Some (Itoa (retry_seconds (retryAfterSeconds s) wait)) = Some (Itoa k) ∧ 1 ≤ k ∧
    retryAfterSeconds s ≤ k ∧ (0 < wait → to_int64 (fceil (Seconds wait)) ≤ k)).
  { intros w. eexists. split; [done|apply retry_seconds_spec]. }
  destruct (requested value) as [n|] eqn:Hr; cycle 1.
  { destruct (entropy_body_bad value now others s Hr) as [msg E]. apply (handleEntropy_eq _ _ duration) in E.
    subst m r s'. unfold run_calls, run_state. rewrite E. cbn [fst snd]. rewrite response_tail. by split_and!. }
  destruct ok; cbn [negb]; cycle 1.
  { pose proof (entropy_body_limited value now others s n wait lim Hr Ha) as E.
    apply (handleEntropy_eq _ _ duration) in E. subst m r s'. unfold run_calls, run_state.
    rewrite E. cbn [fst snd]. rewrite response_tail. split_and!; try done. by split_and!; [| |apply Hret]. }
  destruct (pool s) as [p|] eqn:Hp; cycle 1.
  { pose proof (entropy_body_nopool value now others s n wait lim Hr Ha Hp) as E.
    apply (handleEntropy_eq _ _ duration) in E. subst m r s'. unfold run_calls, run_state.
    rewrite E. cbn [fst snd]. rewrite response_tail. split_and!; try done. by split_and!; [| |apply Hret]. }
  destruct (ExtractEntropy n (pool_at others p)) as [[d p2] w2] eqn:Hx.
  pose proof (entropy_body_pool value now others s n wait lim p d p2 w2 Hr Ha Hp Hx) as E.
  apply (handleEntropy_eq _ _ duration) in E. subst m r s'. unfold run_calls, run_state, run_val.
  cbv zeta. rewrite E. cbn [fst snd]. rewrite response_tail, Hx. unfold response_of. rewrite !foldl_app, !respond_proms. cbn [fst snd].
  pose proof (requested_range value n Hr) as Hn. rewrite ExtractEntropy_eq in Hx. cbv zeta in Hx.
  destruct (_ || _ || _) eqn:Hg.
  { injection Hx as <- <- <-. split_and!; try done. by split_and!; [| |apply Hret]. }
  apply ready_guard in Hg as (_ & _ & Hlen).
  destruct (RepetitionCountTest.TestBlock _ _) as [[] rct1].
  2: { injection Hx as <- <- <-. split_and!; try done. by split_and!; [| |apply Hret]. }
  destruct (AdaptiveProportionTest.TestBlock _ _) as [[] apt1]; injection Hx as <- <- <-.
  - split_and!; try done; [by apply len_slice_to; lia|lia|lia|apply slice_to_from].
  - split_and!; try done. by split_and!; [| |apply Hret].
Qed.

(** Every call of [handleEntropy] counts one request, with the status code the
    client receives, after whatever the pool counted; a 503 also counts as
    refused, and as rate limited exactly when the limiter refused it. *)
Theorem handleEntropy_accounting value now duration others s :
  let m := handleEntropy value now duration others in
  ∃ code limited pool_calls,
    code_of (response_of (run_calls m s)) = Some code ∧ (code = 200 ∨ code = 400 ∨ code = 503) ∧
    proms (run_calls m s) = pool_calls ++ request_metrics code limited duration ∧
    (limited = true ↔ requested value ≠ None ∧ (admission now s).1.1 = false) ∧
    (limited = true → code = 503 ∧ pool_calls = []).
Proof.
  intros m. assert (Hm : ∀ code limited s' cs, entropy_body value now others s = (code, limited, s', cs) →
    run_calls m s = cs ++ (Prom <$> request_metrics code limited duration)).
  { intros * E. unfold run_calls, m. by rewrite (handleEntropy_eq _ _ duration _ _ _ _ _ _ E). }
  destruct (requested value) as [n|] eqn:Hr; cycle 1.
  { destruct (entropy_body_bad value now others s Hr) as [msg E]. rewrite (Hm _ _ _ _ E).
    exists 400, false, []. rewrite response_tail, proms_app, proms_fmap. split_and!; try done; [tauto|].
    split; [done|by intros [? _]]. }
  destruct (admission now s) as [[[] wait] lim] eqn:Ha; cycle 1.
  { pose proof (entropy_body_limited value now others s n wait lim Hr Ha) as E. rewrite (Hm _ _ _ _ E).
    exists 503, true, []. rewrite response_tail, proms_app, proms_fmap. split_and!; try done; tauto. }
  assert (Hno : ∀ A, false = true ↔ A ∧ true = false) by (intros; split; [done|by intros [_ ?]]).
  destruct (pool s) as [p|] eqn:Hp; cycle 1.
  { pose proof (entropy_body_nopool value now others s n wait lim Hr Ha Hp) as E. rewrite (Hm _ _ _ _ E).
    exists 503, false, []. rewrite response_tail, proms_app, proms_fmap. split_and!; [done|tauto|done|apply Hno|done]. }
  destruct (ExtractEntropy n (pool_at others p)) as [[d p2] w2] eqn:Hx.
  pose proof (entropy_body_pool value now others s n wait lim p d p2 w2 Hr Ha Hp Hx) as E.
  rewrite (Hm _ _ _ _ E). exists (if d is Some _ then 200 else 503), false, (run_calls (exec_all others) p ++ w2).
  rewrite response_tail, !proms_app, !proms_fmap. unfold response_of. rewrite !foldl_app, !respond_proms.
  assert (Hw : proms (served_calls (retryAfterSeconds s) n (available_of s) d) = []) by (by destruct d).
  rewrite Hw, (assoc_L (++)).
  split_and!; [by destruct d|destruct d; tauto| |apply Hno|done]. by destruct d; rewrite <-?(assoc_L (++)).
Qed.

Lemma on_pool_available p s :
  pool s = Some p → on_pool p AvailableEntropy s = (available_of s, s, []).
Proof. intros Hp. unfold on_pool, available_of. by rewrite AvailableEntropy_eq, Hp, set_pool_id. Qed.

Lemma handleReady_eq s :
  handleReady s =
    (tt, s, no_store ++ [SetHeader "Content-Type" "text/plain; charset=utf-8";
       SetHeader "X-Entropy-Available" (Itoa (available_of s));
       SetHeader "X-Ready-Threshold" (Itoa (readyThreshold s))] ++
     (if available_of s <? readyThreshold s
      then [WriteHeader StatusServiceUnavailable; Write (bytes_of_string ("ready=false" +:+ newline))]
      else [WriteHeader StatusOK; Write (bytes_of_string ("ready=true" +:+ newline))])).
Proof.
  unfold handleReady, mbind, GoM_bind, get. destruct (pool s) as [p|] eqn:Hp.
  - rewrite (on_pool_available p s Hp). cbn -[available_of]. by destruct (_ <? _).
  - unfold available_of. rewrite Hp. cbn. by destruct (_ <? _).
Qed.

(** The server once other goroutines have used its pool. *)
Definition disturbed (others : list pool_op) (s : HTTPServer) : HTTPServer :=
  match pool s with Some p => set_pool (Some (pool_at others p)) s | None => s end.

Lemma disturbed_nil s : disturbed [] s = s.
Proof. unfold disturbed. destruct (pool s) as [p|] eqn:Hp; [|done]. by apply set_pool_id. Qed.

Lemma interference_run others s :
  ∃ w, interference others s = (tt, disturbed others s, Prom <$> w).
Proof.
  unfold disturbed. destruct (pool s) as [p|] eqn:Hp; [rewrite (interference_eq others s p Hp); by eexists|].
  exists []. unfold interference, mbind, GoM_bind, get. by rewrite Hp.
Qed.

Lemma health_read_eq s : ∃ raw whitened, health_read s = (raw, whitened, s, []).
Proof.
  unfold health_read, mbind, GoM_bind, get. destruct (pool s) as [p|] eqn:Hp; [|by do 2 eexists].
  unfold on_pool, PoolStatus, mbind, GoM_bind, get, mret, GoM_ret. cbn. rewrite set_pool_id by done. by do 2 eexists.
Qed.

Lemma health_answer_eq raw whitened s :
  ∃ body, health_answer raw whitened s =
    (tt, s, no_store ++ [SetHeader "Content-Type" "text/plain; charset=utf-8"; WriteHeader StatusOK; Write body]).
Proof.
  unfold health_answer, mbind, GoM_bind, get. destruct (pool s) as [p|] eqn:Hp; [|by eexists].
  rewrite (on_pool_available p s Hp). by eexists.
Qed.

Lemma handleHealth_run others s :
  ∃ w body, handleHealth others s =
    (tt, disturbed others s, (Prom <$> w) ++ no_store ++
       [SetHeader "Content-Type" "text/plain; charset=utf-8"; WriteHeader StatusOK; Write body]).
Proof.
  destruct (health_read_eq s) as (raw & whitened & E1). destruct (interference_run others s) as (w & E2).
  destruct (health_answer_eq raw whitened (disturbed others s)) as (body & E3). exists w, body. unfold handleHealth.
  exact (bind_eq _ _ _ _ _ _ _ _ _ E1 (bind_eq _ _ _ _ _ _ _ _ _ E2 E3)).
Qed.

(** The two probes change nothing.  [/health] always answers 200 with the
    sizes of the pool; [/ready] answers 200 exactly when the available entropy
    reaches the threshold, 503 otherwise, and after a 200 an extraction of up to
    the available number of bytes is not refused for want of bytes. *)
Theorem probes_spec s :
  let r := response_of (run_calls handleReady s) in
  let h := response_of (run_calls (handleHealth []) s) in
  run_state handleReady s = s ∧ run_state (handleHealth []) s = s ∧
  code_of r = Some (if available_of s <? readyThreshold s then 503 else 200) ∧
  header_of r "X-Entropy-Available" = Some (Itoa (available_of s)) ∧
  code_of h = Some 200 ∧ not_cached r ∧ not_cached h ∧
  (∀ n p, pool s = Some p → code_of r = Some 200 → 1 ≤ n ≤ available_of s →
     0 ≤ minPoolSize p → ready n p).
Proof.
  destruct (handleHealth_run [] s) as (w & b & Hh). rewrite disturbed_nil in Hh.
  unfold run_calls, run_state, response_of. rewrite handleReady_eq, Hh. cbn [fst snd].
  rewrite (foldl_app respond (Prom <$> w)), respond_proms.
  destruct (Z.ltb_spec (available_of s) (readyThreshold s)); split_and!; try done.
  intros n p Hp _. unfold available_of, ready. rewrite Hp, AvailableEntropy_val. lia.
Qed.
End handlers.

(** ** What the server listens on *)

Ltac start_tac :=
  intros; simplify_eq/=;
  first [ done | by repeat constructor
        | by split; [intros; destruct_and?; first [done | by split_and!; eauto]
                    |intros; destruct_and?; first [done | by exfalso; eapply is_Some_None; eauto]] ].

(** A server without a pool is refused before anything is opened; a TLS
    server binds its socket only once its certificates are configured, and
    serves only through the TLS listener; each failure is reported under its own
    message and leaves the server without a listener, and success means that
    the socket bound at the server's address is being served. *)
Theorem start_spec (net_Listen : string → result Z) configure cert key ca auth s :
  let a := Start net_Listen s in
  let t := StartTLS net_Listen configure cert key ca auth s in
  (pool s = None → a.1.2 = s ∧ t.1.2 = s ∧ is_ok a.1.1 = false ∧ is_ok t.1.1 = false ∧ a.2 = [] ∧ t.2 = []) ∧
  (is_ok a.1.1 = true ↔ is_Some (pool s) ∧ is_ok (net_Listen (address s)) = true) ∧
  (is_ok t.1.1 = true ↔
     is_Some (pool s) ∧ is_ok (configure cert key ca auth) = true ∧ is_ok (net_Listen (address s)) = true) ∧
  (is_ok (configure cert key ca auth) = false → Forall (λ c, c ≠ Listen (address s)) t.2 ∧ t.1.2 = s) ∧
  (is_ok a.1.1 = false → a.1.2 = s) ∧ (is_ok t.1.1 = false → t.1.2 = s) ∧
  (∀ socket, Forall (λ c, c ≠ Serve (TCPListener socket)) t.2) ∧
  (∀ socket, is_ok t.1.1 = true → net_Listen (address s) = Ok socket →
     listener t.1.2 = Some (TLSListener socket) ∧ last t.2 = Some (Serve (TLSListener socket))) ∧
  (∀ socket, is_ok a.1.1 = true → net_Listen (address s) = Ok socket →
     listener a.1.2 = Some (TCPListener socket) ∧ last a.2 = Some (Serve (TCPListener socket))).
Proof.
  intros a t. subst a t. unfold Start, StartTLS, mbind, GoM_bind, get, call, modify, mret, GoM_ret.
  destruct s as [[p|] lst addr thr lim ra]; cbn.
  - destruct (net_Listen addr) as [k|]; destruct (configure cert key ca auth) as [[]|]; cbn;
      split_and!; start_tac.
  - split_and!; start_tac.
Qed.

Lemma localhost_listens port :
  plain port → SplitHostPort (JoinHostPort "localhost" port) = Ok ("localhost", port).
Proof. intros Hp. exact (SplitHostPort_plain "localhost" port ltac:(by split_and!) Hp). Qed.

Section listening.
Context `{GoUnicode}.

Lemma NewHTTPServer_ok addr pool readyThreshold0 retry rps burst now s :
  NewHTTPServer addr pool readyThreshold0 false retry rps burst now = Ok s →
  (∃ host port, SplitHostPort (address s) = Ok (host, port) ∧ is_loopback_host host) ∧
  0 ≤ readyThreshold s ∧ 1 ≤ retryAfterSeconds s ∧ is_Some (rateLimiter s).
Proof.
  unfold NewHTTPServer. cbv zeta. set (a := if String.eqb addr EmptyString then _ else _).
  destruct (enforceLoopbackAddr a false) as [ca|] eqn:E; [|done]. intros [= <-]. cbn. split_and!.
  - clearbody a. unfold enforceLoopbackAddr in E. cbv zeta in E. set (b := if String.eqb (TrimSpace a) _ then _ else _) in E.
    destruct (SplitHostPort b) as [[host port]|] eqn:Hs; [|done]. apply SplitHostPort_port in Hs.
    destruct (String.eqb host EmptyString); [done|]. destruct (String.eqb (ToLower host) "localhost").
    + injection E as <-. exists "localhost", port. split; [by apply localhost_listens|by left].
    + destruct (ParseIP host) as [ip|] eqn:Hip; [|done]. apply ParseIP_ok in Hip.
      destruct (IsLoopback ip) eqn:Hlo; [|done]. injection E as <-.
      destruct (loopback_listens ip port Hip Hlo Hs). by exists (IP_String ip), port.
  - destruct (Z.ltb_spec readyThreshold0 0); lia.
  - unfold defaultRetryAfterSeconds. destruct (Z.leb_spec retry 0); lia.
  - done.
Qed.

(** C21: without ALLOW_PUBLIC_HTTP the server never listens on a public address:
    whatever string it is given, the address the constructor keeps splits, the
    way package net splits it, into a port and a host that is "localhost" or
    parses as a loopback IP address.  The other parameters are made usable and
    a rate limiter is always installed. *)
Theorem NewHTTPServer_loopback addr pool readyThreshold0 retry rps burst now s :
  NewHTTPServer addr pool readyThreshold0 false retry rps burst now = Ok s →
  (∃ host port, SplitHostPort (address s) = Ok (host, port) ∧ is_loopback_host host) ∧
  0 ≤ readyThreshold s ∧ 1 ≤ retryAfterSeconds s ∧ is_Some (rateLimiter s).
Proof. apply NewHTTPServer_ok. Qed.
End listening.

Lemma NewHTTPServer_loopback_witness :
  let U := witness_unicode in
  is_ok (NewHTTPServer " LocalHost:80 " None 0 false 0 0 0 0) = true ∧
  ∃ s, NewHTTPServer "127.1.2.3:9797" None 100 false 1 10 20 0 = Ok s ∧ address s = "127.1.2.3:9797" ∧
    1 ≤ retryAfterSeconds s.
Proof.
  intros U. split; [vm_compute; reflexivity|]. eexists. split; [reflexivity|]. split; [vm_compute; reflexivity|].
  refine (proj1 (proj2 (proj2 (@NewHTTPServer_loopback U "127.1.2.3:9797" None 100 1 10 20 0 _ _)))). reflexivity.
Defined.

Example enforceLoopbackAddr_ex :
  let U := witness_unicode in
  (λ a, match enforceLoopbackAddr a false with Ok a => a | Err _ => "refused" end) <$>
    [EmptyString; "localhost:80"; "[::1]:80"; "[::ffff:127.0.0.1]:80"; "0.0.0.0:80"; ":80"; "example.org:80";
     "127.0.0.1"; "2130706433:80"] =
  ["127.0.0.1:9797"; "localhost:80"; "[::1]:80"; "127.0.0.1:80"; "refused"; "refused"; "refused";
   "refused"; "refused"].
Proof. vm_compute. reflexivity. Qed.
