(* ===== verification/GoStd.v ===== *)
(** * Durations and file paths (Go's time.ParseDuration and path/filepath)

    The parts of the standard library that reading the configuration uses, on
    Unix; [os.Getwd] and the file system are parameters. *)

From S2P Require Import Prelude Float64 GoStrings Clock.

(** ** time.ParseDuration *)

Definition Minute : Z := 60 * Second.
Definition Hour : Z := 60 * Minute.

(** [leadingInt]: the digits at the front, [None] on overflow. *)
Fixpoint leadingInt (x : Z) (s : string) : option (Z * string) :=
  match s with
  | String c rest =>
      if is_digit c then
        if 2 ^ 63 / 10 <? x then None
        else
          let x := x * 10 + (byte_of c - 48) in
          if 2 ^ 63 <? x then None else leadingInt x rest
      else Some (x, s)
  | EmptyString => Some (x, s)
  end.

(** [leadingFraction]: digits that would overflow are skipped. *)
Fixpoint leadingFraction (x : Z) (scale : f64) (overflow : bool) (s : string) : Z * f64 * string :=
  match s with
  | String c rest =>
      if is_digit c then
        if overflow : bool then leadingFraction x scale overflow rest
        else if (2 ^ 63 - 1) / 10 <? x then leadingFraction x scale true rest
        else
          let y := x * 10 + (byte_of c - 48) in
          if 2 ^ 63 <? y then leadingFraction x scale true rest
          else leadingFraction y (fmul scale (of_int 10)) false rest
      else (x, scale, s)
  | EmptyString => (x, scale, s)
  end.

Definition number_char (c : ascii) : bool := (byte_of c =? 46) || is_digit c.

(** The unit: everything up to the next digit or period. *)
Fixpoint unit_span (s : string) : string * string :=
  match s with
  | String c rest =>
      if number_char c then (EmptyString, s)
      else let '(u, r) := unit_span rest in (String c u, r)
  | EmptyString => (EmptyString, EmptyString)
  end.

Definition unitMap (u : string) : option Z :=
  let mu1 := string_of_bytes [0xC2; 0xB5; 115] in
  let mu2 := string_of_bytes [0xCE; 0xBC; 115] in
  if String.eqb u "ns" then Some Nanosecond
  else if String.eqb u "us" || String.eqb u mu1 || String.eqb u mu2 then Some Microsecond
  else if String.eqb u "ms" then Some Millisecond
  else if String.eqb u "s" then Some Second
  else if String.eqb u "m" then Some Minute
  else if String.eqb u "h" then Some Hour
  else None.

(** [uint64(f)] of a float between 0 and 2^63. *)
Definition to_uint64 (f : f64) : Z := u64 (to_int64 f).

(** The loop over the terms; every term takes at least one character, so the
    length of the string is enough fuel. *)
Fixpoint duration_loop (fuel : nat) (d : Z) (s : string) : option Z :=
  match fuel with
  | O => None
  | S fuel =>
      match s with
      | EmptyString => Some d
      | String c _ =>
          if negb (number_char c) then None
          else
            '(v, s1) ← leadingInt 0 s;
            let pre := negb (slen s =? slen s1) in
            let '(f, scale, s2, post) :=
              match s1 with
              | String c1 r =>
                  if byte_of c1 =? 46 then
                    let '(f, scale, s2) := leadingFraction 0 (of_int 1) false r in
                    (f, scale, s2, negb (slen r =? slen s2))
                  else (0, of_int 1, s1, false)
              | EmptyString => (0, of_int 1, s1, false)
              end in
            if negb pre && negb post then None
            else
              let '(u, s3) := unit_span s2 in
              if String.eqb u EmptyString then None
              else
                unit ← unitMap u;
                if 2 ^ 63 / unit <? v then None
                else
                  let v := v * unit in
                  let v := if 0 <? f then
                      u64 (v + to_uint64 (fmul (of_int f) (fdiv (of_int unit) scale))) else v in
                  if (0 <? f) && (2 ^ 63 <? v) then None
                  else
                    let d := u64 (d + v) in
                    if 2 ^ 63 <? d then None else duration_loop fuel d s3
      end
  end.

(** [time.ParseDuration]; its callers only look at whether it failed. *)
Definition ParseDuration (s : string) : option Z :=
  let '(neg, s) :=
    match s with
    | String c r =>
        if (byte_of c =? 45) || (byte_of c =? 43) then (byte_of c =? 45, r) else (false, s)
    | EmptyString => (false, s)
    end in
  if String.eqb s "0" then Some 0
  else if String.eqb s EmptyString then None
  else
    d ← duration_loop (S (String.length s)) 0 s;
    if neg : bool then Some (i64 (- i64 d))
    else if maxInt64 <? d then None else Some d.

Example ParseDuration_ex :
  ParseDuration <$> ["500ms"; "5m"; "1h15m30.918273645s"; "-1.5h"; "0"; ".5s"; "5"; "s"; "1.s"; "1d";
    "9223372036854775807ns"; "9223372036854775808ns"; "-9223372036854775808ns"; "3us"; "+2h"] =
  [Some 500000000; Some 300000000000; Some 4530918273645; Some (-5400000000000); Some 0; Some 500000000;
   None; None; Some 1000000000; None; Some 9223372036854775807; None; Some (-9223372036854775808);
   Some 3000; Some 7200000000000].
Proof. vm_compute. reflexivity. Qed.

Lemma duration_loop_nonneg fuel d s x : 0 ≤ d → duration_loop fuel d s = Some x → 0 ≤ x.
Proof.
  revert d s. induction fuel as [|fuel IH]; intros d s Hd; [done|]. cbn [duration_loop].
  destruct s as [|c s]; [by intros [= <-]|]. destruct (negb _); [done|].
  destruct (leadingInt 0 (String c s)) as [[v s1]|]; [|done]. cbn [mbind option_bind]. cbv zeta.
  destruct (match s1 with String _ _ => _ | _ => _ end) as [[[f scale] s2] post].
  destruct (_ && _); [done|]. destruct (unit_span s2) as [u s3]. destruct (String.eqb u _); [done|].
  destruct (unitMap u) as [unit|]; [|done]. cbn [mbind option_bind]. destruct (_ <? v); [done|].
  destruct (_ && _); [done|]. destruct (_ <? u64 _); [done|]. apply IH. apply u64_range.
Qed.

Lemma ParseDuration_range s d : ParseDuration s = Some d → is_i64 d.
Proof.
  unfold ParseDuration. destruct (match s with String _ _ => _ | _ => _ end) as [neg t].
  destruct (String.eqb t "0"); [by intros [= <-]|]. destruct (String.eqb t _); [done|].
  destruct (duration_loop _ 0 t) as [x|] eqn:E; [|done]. cbn [mbind option_bind].
  apply duration_loop_nonneg in E; [|done]. destruct neg.
  - intros [= <-]. unfold i64, is_i64.
    pose proof (Z.mod_pos_bound (- ((x + 2 ^ 63) mod 2 ^ 64 - 2 ^ 63) + 2 ^ 63) (2 ^ 64)). lia.
  - destruct (Z.ltb_spec maxInt64 x); [done|]. intros [= <-]. unfold maxInt64, is_i64 in *. lia.
Qed.

(** ** path/filepath *)

Definition slash : ascii := "/"%char.

(** The elements of a path as [Clean] keeps them, last first. *)
Definition clean_step (rooted : bool) (stack : list string) (e : string) : list string :=
  if String.eqb e EmptyString || String.eqb e "." then stack
  else if String.eqb e ".." then
    match stack with
    | top :: rest => if String.eqb top ".." then e :: stack else rest
    | [] => if rooted then [] else [e]
    end
  else e :: stack.

Definition clean_elements (path : string) : list string :=
  rev (foldl (clean_step (HasPrefix path "/")) [] (Split path slash)).

Definition Clean (path : string) : string :=
  let body := Join (clean_elements path) slash in
  if HasPrefix path "/" then "/" +:+ body
  else if String.eqb body EmptyString then "." else body.

(** [filepath.Abs] in the working directory [wd], which is not empty. *)
Definition Abs (wd : result string) (path : string) : result string :=
  if HasPrefix path "/" then Ok (Clean path)
  else wd ← wd; Ok (Clean (wd +:+ "/" +:+ path)).

(** The position after the last slash. *)
Definition after_slash (path : string) : Z :=
  let i := IndexByte (String.string_of_list_ascii (rev (String.list_ascii_of_string path))) slash in
  if i <? 0 then 0 else slen path - i.

Definition Dir (path : string) : string := Clean (str_to (after_slash path) path).

Fixpoint strip_slashes_rev (l : list ascii) : list ascii :=
  match l with c :: r => if Ascii.eqb c slash then strip_slashes_rev r else l | [] => [] end.

Definition Base (path : string) : string :=
  if String.eqb path EmptyString then "."
  else
    let p := String.string_of_list_ascii
      (rev (strip_slashes_rev (rev (String.list_ascii_of_string path)))) in
    let p := str_from (after_slash p) p in
    if String.eqb p EmptyString then "/" else p.

Example Clean_ex :
  Clean <$> ["/a//b/./c/../d"; "a/../.."; "/.."; EmptyString; "./x/"; "/"; "../../a"; "a/b/../../.."] =
  ["/a/b/d"; ".."; "/"; "."; "x"; "/"; "../../a"; ".."].
Proof. vm_compute. reflexivity. Qed.

Example Dir_Base_ex :
  (λ p, (Dir p, Base p)) <$> ["/run/secrets/mqtt"; "/x"; "/"; "x"] =
  [("/run/secrets", "mqtt"); ("/", "x"); ("/", "/"); (".", "x")].
Proof. vm_compute. reflexivity. Qed.
