(* ===== verification/GoURL.v ===== *)
(** * URLs: what package net/http makes of a request's query and path

    The parts of [net/url] and of [http.ServeMux] the entropy server depends on:
    [Query().Get], and the lookup of a path among patterns that name neither a
    method nor a host and have neither wildcards nor a trailing slash. *)

From S2P Require Import Prelude GoStrings GoNet GoStd.

Definition percent : ascii := "%"%char.
Definition plus_sign : ascii := "+"%char.
Definition blank : ascii := " "%char.
Definition ampersand : ascii := "&"%char.
Definition equals : ascii := "="%char.
Definition semicolon : ascii := ";"%char.

(** [strings.Cut] around a one-byte separator. *)
Fixpoint Cut (s : string) (c : ascii) : string * string * bool :=
  match s with
  | EmptyString => (EmptyString, EmptyString, false)
  | String a s =>
      if Ascii.eqb a c then (EmptyString, s, true)
      else let '(before, after, found) := Cut s c in (String a before, after, found)
  end.

(** [strings.Contains(s, c)] for a one-byte [c]. *)
Definition Contains (s : string) (c : ascii) : bool := 0 <=? IndexByte s c.

(** ** Escapes *)

Definition unhex (c : ascii) : option Z :=
  if is_digit c then Some (byte_of c - 48)
  else if in_range 97 102 c then Some (byte_of c - 87)
  else if in_range 65 70 c then Some (byte_of c - 55)
  else None.

(** [url.unescape]; [query] tells the query mode, where '+' is a space.  [None] is
    an error: a '%' without two hexadecimal digits. *)
Fixpoint unescape (query : bool) (s : string) : option string :=
  match s with
  | EmptyString => Some EmptyString
  | String c rest =>
      if Ascii.eqb c percent then
        match rest with
        | String h (String l rest) =>
            h ← unhex h; l ← unhex l; r ← unescape query rest; Some (String (char_of (16 * h + l)) r)
        | _ => None
        end
      else r ← unescape query rest; Some (String (if query && Ascii.eqb c plus_sign then blank else c) r)
  end.

Definition QueryUnescape : string → option string := unescape true.
Definition PathUnescape : string → option string := unescape false.

(** ** Query strings *)

(** [url.Values]. *)
Abbreviation Values := (gmap string (list string)).

Definition add_value (m : Values) (kv : string * string) : Values :=
  <[kv.1 := default [] (m !! kv.1) ++ [kv.2]]> m.

(** One round of the loop of [url.parseQuery] on the text before the next '&':
    [None] when it is skipped. *)
Definition query_pair (piece : string) : option (string * string) :=
  if Contains piece semicolon then None
  else if String.eqb piece EmptyString then None
  else
    let '(key, value, _) := Cut piece equals in
    key ← QueryUnescape key; value ← QueryUnescape value; Some (key, value).

(** The loop; every round takes at least one character off a query that is not
    empty, so its length is enough fuel. *)
Fixpoint parseQuery (fuel : nat) (m : Values) (query : string) : Values :=
  match fuel with
  | O => m
  | S fuel =>
      if String.eqb query EmptyString then m
      else
        let '(key, query, _) := Cut query ampersand in
        parseQuery fuel (match query_pair key with Some kv => add_value m kv | None => m end) query
  end.

(** [URL.Query], which drops the error, and [Values.Get]. *)
Definition Query (rawQuery : string) : Values := parseQuery (String.length rawQuery) ∅ rawQuery.

Definition Get (m : Values) (key : string) : string :=
  match m !! key with Some (v :: _) => v | _ => EmptyString end.

(** ** Paths *)

(** [http.cleanPath]; on Unix [path.Clean] is [filepath.Clean]. *)
Definition cleanPath (p : string) : string :=
  if String.eqb p EmptyString then "/"
  else
    let p := if HasPrefix p "/" then p else "/" +:+ p in
    let np := Clean p in
    if HasSuffix p "/" && negb (String.eqb np "/") then np +:+ "/" else np.

(** The segments of a clean path as the multiplexer compares them: one whose
    escapes are malformed stands for itself. *)
Definition path_segments (p : string) : list string :=
  (λ seg, default seg (PathUnescape seg)) <$> Split (str_from 1 p) slash.

(** ** Cutting and splitting *)

Lemma Cut_app s c t : lacks c s → Cut (s +:+ String c t) c = (s, t, true).
Proof.
  induction s as [|a s IH].
  - intros _. change (EmptyString +:+ String c t) with (String c t). cbn. by rewrite Ascii.eqb_refl.
  - intros [Hne Hs]%lacks_cons. change (String a s +:+ String c t) with (String a (s +:+ String c t)). cbn [Cut].
    destruct (Ascii.eqb_spec a c); [done|]. by rewrite (IH Hs).
Qed.

Lemma Split_Cut s c :
  Split s c = let '(before, after, found) := Cut s c in if found : bool then before :: Split after c else [before].
Proof.
  induction s as [|a s IH]; [done|]. cbn [Split Cut]. destruct (Ascii.eqb a c); [done|].
  rewrite IH. by destruct (Cut s c) as [[before after] []].
Qed.

(** What is left after a cut: less than the string, or nothing. *)
Lemma Cut_after s c :
  let '(_, after, found) := Cut s c in
  (String.length after ≤ pred (String.length s))%nat ∧ (found = false → after = EmptyString).
Proof.
  induction s as [|a s IH]; [done|]. cbn [Cut String.length Nat.pred]. destruct (Ascii.eqb a c); [done|].
  destruct (Cut s c) as [[before after] found]. split; [lia|]. by apply IH.
Qed.

Lemma Split_lacks s c : lacks c s → Split s c = [s].
Proof.
  induction s as [|a s IH]; [done|]. intros [Hne Hs]%lacks_cons. cbn [Split].
  destruct (Ascii.eqb_spec a c); [done|]. by rewrite (IH Hs).
Qed.

Lemma Split_app s c t : lacks c s → Split (s +:+ String c t) c = s :: Split t c.
Proof. intros Hs. rewrite Split_Cut. by rewrite Cut_app. Qed.

Lemma Split_Join l c : l ≠ [] → Forall (lacks c) l → Split (Join l c) c = l.
Proof.
  intros Hne Hl. induction Hl as [|s l Hs Hl IH]; [done|]. cbn [Join]. destruct l as [|t l].
  - by apply Split_lacks.
  - rewrite Split_app by done. f_equal. by apply IH.
Qed.

(** ** The query, piece by piece *)

(** The pairs of a query, in order: those of its pieces that are not skipped. *)
Definition query_pairs (rawQuery : string) : list (string * string) := omap query_pair (Split rawQuery ampersand).

Lemma parseQuery_eq fuel m q :
  (String.length q ≤ fuel)%nat → parseQuery fuel m q = foldl add_value m (query_pairs q).
Proof.
  revert m q. induction fuel as [|fuel IH]; intros m q Hq.
  - destruct q; [done|cbn in Hq; lia].
  - cbn [parseQuery]. destruct (String.eqb_spec q EmptyString) as [->|Hne]; [done|].
    unfold query_pairs. rewrite Split_Cut. pose proof (Cut_after q ampersand) as Ha.
    destruct (Cut q ampersand) as [[key after] found]. destruct Ha as [Ha Hn].
    assert (Hf : (String.length after ≤ fuel)%nat) by lia. rewrite (IH _ _ Hf).
    destruct found; cbn [omap list_omap].
    + unfold query_pairs. by destruct (query_pair key).
    + rewrite (Hn eq_refl). by destruct (query_pair key).
Qed.

Definition values_of (key : string) (l : list (string * string)) : list string :=
  omap (λ kv, if String.eqb kv.1 key then Some kv.2 else None) l.

Lemma values_collected l m key :
  default [] (foldl add_value m l !! key) = default [] (m !! key) ++ values_of key l.
Proof.
  revert m. induction l as [|[k v] l IH]; intros m; cbn [foldl]; [by rewrite app_nil_r|]. rewrite IH.
  unfold add_value, values_of. cbn [fst snd omap list_omap]. destruct (String.eqb_spec k key) as [->|Hne].
  - rewrite lookup_insert_eq. cbn. by rewrite <-(assoc_L (++)).
  - by rewrite lookup_insert_ne.
Qed.

(** [Query().Get] gives the first value of the parameter, or nothing. *)
Lemma Get_Query rawQuery key : Get (Query rawQuery) key = default EmptyString (head (values_of key (query_pairs rawQuery))).
Proof.
  unfold Query, Get. rewrite parseQuery_eq by done. pose proof (values_collected (query_pairs rawQuery) ∅ key) as H.
  rewrite lookup_empty in H. cbn in H. rewrite <-H. by destruct (foldl _ _ _ !! key) as [[|v l]|].
Qed.

(** ** Building a query, as [url.Values.Encode] does *)

Definition unreserved (c : ascii) : bool :=
  is_digit c || in_range 65 90 c || in_range 97 122 c ||
  (byte_of c =? 45) || (byte_of c =? 46) || (byte_of c =? 95) || (byte_of c =? 126).

Definition upperhex (d : Z) : ascii := char_of (if d <? 10 then 48 + d else 55 + d).

Definition escape_char (c : ascii) : string :=
  if unreserved c then String c EmptyString
  else if Ascii.eqb c blank then String plus_sign EmptyString
  else String percent (String (upperhex (byte_of c / 16)) (String (upperhex (byte_of c mod 16)) EmptyString)).

(** [url.QueryEscape]. *)
Fixpoint QueryEscape (s : string) : string :=
  match s with EmptyString => EmptyString | String c s => escape_char c +:+ QueryEscape s end.

(** The parameters in the order given. *)
Definition encode_query (l : list (string * string)) : string :=
  Join ((λ kv, QueryEscape kv.1 +:+ String equals (QueryEscape kv.2)) <$> l) ampersand.

Lemma unescape_escape_char c r :
  unescape true (escape_char c +:+ r) = (s ← unescape true r; Some (String c s)).
Proof. by destruct c as [[] [] [] [] [] [] [] []]. Qed.

Lemma unescape_escape s r :
  unescape true (QueryEscape s +:+ r) = (t ← unescape true r; Some (s +:+ t)).
Proof.
  induction s as [|c s IH]; cbn [QueryEscape].
  - change (EmptyString +:+ r) with r. by destruct (unescape true r).
  - rewrite str_app_assoc, unescape_escape_char, IH. by destruct (unescape true r).
Qed.

Lemma QueryUnescape_Escape s : QueryUnescape (QueryEscape s) = Some s.
Proof.
  unfold QueryUnescape. rewrite <-(str_app_nil (QueryEscape s)), unescape_escape. cbn. by rewrite str_app_nil.
Qed.

(** No separator is left in what has been escaped. *)
Definition separator (c : ascii) : Prop := c = ampersand ∨ c = equals ∨ c = semicolon.

Lemma QueryEscape_lacks c s : separator c → lacks c (QueryEscape s).
Proof.
  intros Hc. induction s as [|a s IH]; [done|]. cbn [QueryEscape]. apply lacks_app. split; [|done].
  destruct Hc as [->|[->| ->]]; by destruct a as [[] [] [] [] [] [] [] []].
Qed.

Lemma query_pair_escaped k v : query_pair (QueryEscape k +:+ String equals (QueryEscape v)) = Some (k, v).
Proof.
  unfold query_pair, Contains.
  rewrite lacks_index by (apply lacks_app; split; [|apply lacks_cons; split; [done|]]; by apply QueryEscape_lacks; right; right).
  assert (String.eqb (QueryEscape k +:+ String equals (QueryEscape v)) EmptyString = false) as ->
    by (by destruct (QueryEscape k)).
  rewrite Cut_app by (apply QueryEscape_lacks; right; by left). by rewrite !QueryUnescape_Escape.
Qed.

(** Every query built this way is read back as it was meant. *)
Lemma query_pairs_encode l : query_pairs (encode_query l) = l.
Proof.
  unfold query_pairs, encode_query. destruct l as [|kv l]; [done|].
  rewrite Split_Join; [|done|].
  - induction (kv :: l) as [|[k v] l' IH]; [done|]. cbn [fmap list_fmap omap list_omap fst snd].
    by rewrite query_pair_escaped, IH.
  - apply Forall_fmap, Forall_true. intros [k v]. cbn. apply lacks_app. split; [|apply lacks_cons; split; [done|]];
      apply QueryEscape_lacks; by left.
Qed.

(** Digits stand for themselves. *)
Lemma QueryEscape_digits n s v : decimal_from n s = Some v → QueryEscape s = s.
Proof.
  revert n. induction s as [|c s IH]; intros n Hd; [done|]. cbn in Hd. destruct (is_digit c) eqn:Hc; [|done].
  cbn [QueryEscape]. unfold escape_char, unreserved. rewrite Hc. cbn [orb].
  change (String c (QueryEscape s) = String c s). f_equal. by eapply IH.
Qed.

(** A piece with a malformed escape or a semicolon is skipped. *)
Example query_pair_ex :
  (query_pair <$> ["bytes=64"; "bytes=%36%34"; "b%79tes=6+4"; "bytes"; "bytes=%zz"; "bytes=64;"; "=1"; EmptyString]) =
  [Some ("bytes", "64"); Some ("bytes", "64"); Some ("bytes", "6 4"); Some ("bytes", EmptyString); None; None;
   Some (EmptyString, "1"); None].
Proof. reflexivity. Qed.

Example cleanPath_ex :
  (cleanPath <$> [EmptyString; "/a/b"; "//a/./b/"; "/a/../b"; "a"]) = ["/"; "/a/b"; "/a/b/"; "/b"; "/a"].
Proof. reflexivity. Qed.
