(* ===== verification/Routes.v ===== *)
(** * The routes of the entropy HTTP server

    [NewHTTPServer] (internal/entropy/http_entropy_server.go) registers four
    handlers on a multiplexer of net/http; [handleEntropy] reads the number of
    bytes from the query.  Here a request comes with the path and the query as
    they are in its URL, for every method but CONNECT. *)

From S2P Require Import Prelude Float64 GoStrings GoNet GoStd GoURL Clock Metrics.
From S2P Require Import HealthTests QuickTests MinEntropy MqttHandler Pool TokenBucket EntropyHTTP.

Definition baseUrlV1 : string := "/api/v1".

Inductive handler := HandleEntropy | HandleHealth | HandleReady | HandleOpenAPI.

#[export] Instance handler_eq_dec : EqDecision handler.
Proof. solve_decision. Defined.

Definition routes : list (string * handler) :=
  [(baseUrlV1 +:+ "/entropy/binary", HandleEntropy);
   (baseUrlV1 +:+ "/health", HandleHealth);
   (baseUrlV1 +:+ "/ready", HandleReady);
   (baseUrlV1 +:+ "/openapi", HandleOpenAPI)].

(** What [ServeMux] does with a path: a path that is not clean is redirected to
    its clean form before anything is looked up. *)
Inductive route := To (h : handler) | MovedTo (path : string) | NotFound.

Definition lookup_route (path : string) : option handler :=
  snd <$> List.find (λ r, bool_decide (path_segments r.1 = path_segments path)) routes.

Definition find_handler (path : string) : route :=
  if String.eqb (cleanPath path) path then
    match lookup_route path with Some h => To h | None => NotFound end
  else MovedTo (cleanPath path).

Definition StatusNotFound : Z := 404.
Definition StatusMovedPermanently : Z := 301.

(** [request.URL.Query().Get("bytes")]. *)
Definition bytes_parameter (rawQuery : string) : string := Get (Query rawQuery) "bytes".

Section routes.
Context `{MathLib, MapRange}.

(** The embedded document, and what [http.Redirect] writes for a path and query. *)
Context (spec : bytes) (redirect : string → string → list srv_call).

Definition ServeHTTP (path rawQuery : string) (now duration : Z) (others : list pool_op) : M unit :=
  match find_handler path with
  | To HandleEntropy => handleEntropy (bytes_parameter rawQuery) now duration others
  | To HandleHealth => handleHealth others
  | To HandleReady => handleReady
  | To HandleOpenAPI => handleOpenAPI spec
  | MovedTo clean => call (redirect clean rawQuery)
  | NotFound => http_Error "404 page not found" StatusNotFound
  end.
End routes.

(** ** Which paths reach which handler *)

Lemma lookup_route_iff path h :
  lookup_route path = Some h ↔ ∃ p, (p, h) ∈ routes ∧ path_segments path = path_segments p.
Proof.
  unfold lookup_route. split.
  - destruct (List.find _ routes) as [[p h']|] eqn:E; [|done]. intros [= <-]. apply List.find_some in E as [Hin Heq].
    apply bool_decide_eq_true in Heq. exists p. split; [by apply list_elem_of_In|done].
  - intros (p & Hin & ->). unfold routes in *. rewrite !elem_of_cons, elem_of_nil in Hin.
    destruct Hin as [[= -> ->]|[[= -> ->]|[[= -> ->]|[[= -> ->]|[]]]]]; reflexivity.
Qed.

Lemma find_handler_iff path h :
  find_handler path = To h ↔
  cleanPath path = path ∧ ∃ p, (p, h) ∈ routes ∧ path_segments path = path_segments p.
Proof.
  rewrite <-lookup_route_iff. unfold find_handler. destruct (String.eqb_spec (cleanPath path) path) as [Hc|Hc].
  - destruct (lookup_route path) as [h'|]; split; [by intros [= ->]|by intros [_ [= ->]]|done|by intros [_ ?]].
  - split; [done|]. by intros [? _].
Qed.

Example find_handler_ex :
  (find_handler <$> ["/api/v1/entropy/binary"; "/api/v1/%72eady"; "/api/v1/health/"; "/api/v1//health"; "/"; EmptyString]) =
  [To HandleEntropy; To HandleReady; NotFound; MovedTo "/api/v1/health"; NotFound; MovedTo "/"].
Proof. vm_compute. reflexivity. Qed.

(** ** What each request does *)

Section requests.
Context `{MathLib, MapRange} (spec : bytes) (redirect : string → string → list srv_call).
#[local] Abbreviation serve := (ServeHTTP spec redirect).

(** What [http.Redirect] answers. *)
Hypothesis redirect_301 : ∀ path query, code_of (response_of (redirect path query)) = Some StatusMovedPermanently.

(** The rate limiter and the pool are untouched, but for what others do. *)
Definition untouched (others : list pool_op) (s s' : HTTPServer) : Prop := s' = s ∨ s' = disturbed others s.

Lemma entropy_code value now duration others s :
  ∃ c, code_of (response_of (run_calls (handleEntropy value now duration others) s)) = Some c ∧
    (c = StatusOK ∨ c = StatusBadRequest ∨ c = StatusServiceUnavailable).
Proof.
  assert (Hcase : ∀ code limited s' cs, entropy_body value now others s = (code, limited, s', cs) →
    code_of (response_of (run_calls (handleEntropy value now duration others) s)) = code_of (response_of cs)).
  { intros code limited s' cs E. unfold run_calls. rewrite (handleEntropy_eq _ _ duration _ _ _ _ _ _ E). cbn [snd].
    by rewrite response_tail. }
  destruct (requested value) as [n|] eqn:Hr; cycle 1.
  { destruct (entropy_body_bad value now others s Hr) as [msg E]. rewrite (Hcase _ _ _ _ E). by eauto. }
  destruct (admission now s) as [[[] wait] lim] eqn:Ha; cycle 1.
  { rewrite (Hcase _ _ _ _ (entropy_body_limited _ _ others _ _ _ _ Hr Ha)). by eauto. }
  destruct (pool s) as [p|] eqn:Hp; cycle 1.
  { rewrite (Hcase _ _ _ _ (entropy_body_nopool _ _ others _ _ _ _ Hr Ha Hp)). by eauto. }
  destruct (ExtractEntropy n (pool_at others p)) as [[d p2] w2] eqn:Hx.
  rewrite (Hcase _ _ _ _ (entropy_body_pool _ _ _ _ _ _ _ _ _ _ _ Hr Ha Hp Hx)).
  unfold response_of. rewrite !foldl_app, !respond_proms. destruct d; by eauto.
Qed.

(** What is answered in one step leaves the server as it is. *)
Lemma ServeHTTP_state path rawQuery now duration others s :
  match find_handler path with
  | To HandleEntropy => True
  | To HandleHealth => run_state (serve path rawQuery now duration others) s = disturbed others s
  | _ => run_state (serve path rawQuery now duration others) s = s
  end.
Proof.
  unfold ServeHTTP. destruct (find_handler path) as [[]|clean|]; try done.
  - destruct (handleHealth_run others s) as (w & body & E). unfold run_state. by rewrite E.
  - unfold run_state. by rewrite handleReady_eq.
Qed.

(** C23: the routes.  A request is answered 404 exactly when its path is clean and
    is none of the four registered ones, compared segment by segment after
    unescaping; a path that is not clean is redirected, never served.  Whatever
    the path, only a request that reaches [handleEntropy] can take a token or
    bytes: every other one leaves the rate limiter and the pool as they are. *)
Theorem ServeHTTP_spec path rawQuery now duration others s :
  let m := serve path rawQuery now duration others in
  let code := code_of (response_of (run_calls m s)) in
  (code = Some 404 ↔ cleanPath path = path ∧ ∀ p h, (p, h) ∈ routes → path_segments path ≠ path_segments p) ∧
  (code = Some 301 ↔ cleanPath path ≠ path) ∧
  (cleanPath path = path ∧ path_segments path = ["api"; "v1"; "entropy"; "binary"] ∨
   untouched others s (run_state m s)).
Proof.
  cbv zeta. unfold ServeHTTP. pose proof (find_handler_iff path) as Hh. destruct (find_handler path) as [h|clean|] eqn:Hf.
  - destruct (proj1 (Hh h) eq_refl) as (Hc & p & Hp & Hseg).
    assert (Hno : ∀ k, (k = Some 404 → False) → (k = Some 301 → False) →
      (k = Some 404 ↔ cleanPath path = path ∧ ∀ p h, (p, h) ∈ routes → path_segments path ≠ path_segments p) ∧
      (k = Some 301 ↔ cleanPath path ≠ path)).
    { intros k H4 H3. split; split; try by intros ?; exfalso; auto. intros [_ Hall]. by destruct (Hall p h). }
    destruct h.
    + destruct (entropy_code (bytes_parameter rawQuery) now duration others s) as (c & -> & Hcode).
      destruct (Hno (Some c)) as [H4 H3]; [by intros [= ->]; destruct Hcode as [?|[?|?]]..|]. split_and!; [done|done|].
      left. split; [done|]. rewrite Hseg. unfold routes in Hp. rewrite !elem_of_cons, elem_of_nil in Hp.
      by destruct Hp as [[= ->]|[[=]|[[=]|[[=]|[]]]]].
    + destruct (handleHealth_run others s) as (w & body & E). unfold run_calls, run_state. rewrite E. cbn [fst snd].
      unfold response_of. rewrite foldl_app, respond_proms. destruct (Hno (Some 200)) as [H4 H3]; [done..|].
      split_and!; [exact H4|exact H3|by right; right].
    + unfold run_calls, run_state. rewrite handleReady_eq. cbn [fst snd].
      destruct (available_of s <? readyThreshold s);
        [destruct (Hno (Some 503)) as [H4 H3]; [done..|]|destruct (Hno (Some 200)) as [H4 H3]; [done..|]];
        split_and!; (exact H4 || exact H3 || by right; left).
    + destruct (Hno (Some 200)) as [H4 H3]; [done..|]. split_and!; [exact H4|exact H3|by right; left].
  - unfold find_handler in Hf. destruct (String.eqb_spec (cleanPath path) path) as [Hc|Hc]; [by destruct (lookup_route path)|].
    unfold run_calls, run_state, call. cbn [fst snd]. rewrite redirect_301.
    split_and!; [split; [done|by intros [? _]]|done|by right; left].
  - unfold find_handler in Hf. destruct (String.eqb_spec (cleanPath path) path) as [Hc|Hc]; [|done].
    destruct (lookup_route path) as [h|] eqn:Hl; [done|]. split_and!.
    + split; [|done]. intros _. split; [done|]. intros p h Hp Hs.
      assert (Hr : lookup_route path = Some h) by (apply lookup_route_iff; by exists p). congruence.
    + split; [done|by intros ?].
    + by right; left.
Qed.

(** ** What a request asks for *)

(** A query whose "bytes" pieces are all skipped asks for the default number. *)
Lemma no_bytes_parameter rawQuery :
  values_of "bytes" (query_pairs rawQuery) = [] → requested (bytes_parameter rawQuery) = Some 32.
Proof. intros Hv. unfold bytes_parameter. by rewrite Get_Query, Hv. Qed.

Lemma requested_Itoa n : 1 ≤ n ≤ 4096 → requested (Itoa n) = Some n.
Proof.
  intros Hn. unfold requested. destruct (String.eqb_spec (Itoa n) EmptyString) as [E|_].
  { pose proof (decimal_Itoa n ltac:(lia)) as Hd. by rewrite E in Hd. }
  rewrite Atoi_Itoa by lia. unfold minRequestBytes, maxRequestBytes.
  destruct (Z.ltb_spec n 1), (Z.ltb_spec 4096 n); (lia || done).
Qed.

Lemma values_of_app key l k : values_of key (l ++ k) = values_of key l ++ values_of key k.
Proof. apply omap_app. Qed.

Lemma values_of_others key l : Forall (λ kv, kv.1 ≠ key) l → values_of key l = [].
Proof.
  induction 1 as [|[k v] l Hne _ IH]; [done|]. unfold values_of in *. cbn in *.
  by destruct (String.eqb_spec k key).
Qed.

(** The first parameter of that name counts. *)
Lemma bytes_parameter_encode pre v post :
  Forall (λ kv, kv.1 ≠ "bytes") pre → bytes_parameter (encode_query (pre ++ ("bytes", v) :: post)) = v.
Proof.
  intros Hpre. unfold bytes_parameter. by rewrite Get_Query, query_pairs_encode, values_of_app, (values_of_others _ pre).
Qed.

(** C22: a client gets what it asks for.  A query built as [url.Values.Encode]
    builds it, with any other parameters, that asks for [n] bytes, 1 to 4096,
    under the first parameter "bytes", makes the handler ask the pool for exactly
    [n]; when the limiter and the pool grant them, the answer is a 200 with these
    [n] bytes, taken from the front of the pool, and says [n] in its header. *)
Theorem request_roundtrip pre n post now duration others s p data wait lim :
  1 ≤ n ≤ 4096 → Forall (λ kv, kv.1 ≠ "bytes") pre →
  admission now s = (true, wait, lim) → pool s = Some p → run_val (ExtractEntropy n) (pool_at others p) = Some data →
  let m := serve "/api/v1/entropy/binary" (encode_query (pre ++ ("bytes", Itoa n) :: post)) now duration others in
  let r := response_of (run_calls m s) in
  code_of r = Some 200 ∧ body r = data ∧ len data = n ∧ header_of r "X-Entropy-Request" = Some (Itoa n) ∧
  ∃ p', pool (run_state m s) = Some p' ∧ data ++ whitened p' = whitened (pool_at others p).
Proof.
  intros Hn Hpre Ha Hp Hx. cbv zeta.
  destruct (ExtractEntropy n (pool_at others p)) as [[d p'] w] eqn:E. unfold run_val in Hx. rewrite E in Hx. cbn in Hx. subst d.
  pose proof (entropy_body_pool _ now others s n wait lim p _ p' w (requested_Itoa n Hn) Ha Hp E) as Hb.
  apply (handleEntropy_eq _ _ duration) in Hb. unfold ServeHTTP.
  assert (find_handler "/api/v1/entropy/binary" = To HandleEntropy) as -> by (vm_compute; reflexivity).
  rewrite bytes_parameter_encode by done. unfold run_calls, run_state. rewrite Hb. cbn [fst snd].
  rewrite response_tail. unfold response_of. rewrite !foldl_app, !respond_proms.
  apply extracted in E as (_ & Hlen & Hd). split_and!; [done|done|done|done|by exists p'].
Qed.
End requests.

(** Malformed parameters are not refused: these queries get 32 bytes. *)
Lemma malformed_parameter_ignored rawQuery :
  rawQuery ∈ ["bytes=%zz"; "bytes=64;"; "bytes=64%"; "%62ytes%=64"] → requested (bytes_parameter rawQuery) = Some 32.
Proof.
  intros Hq. apply no_bytes_parameter. rewrite !elem_of_cons, elem_of_nil in Hq.
  by destruct Hq as [->|[->|[->|[->|[]]]]].
Qed.

(** ** Witnesses *)

Section witnesses.
#[local] Existing Instance witness_math.
#[local] Existing Instance witness_range.

Definition witness_redirect (path query : string) : list srv_call :=
  [SetHeader "Location" path; WriteHeader StatusMovedPermanently].

Definition witness_server : HTTPServer :=
  mkServer (Some (witness_pool witness_bytes)) None "127.0.0.1:9797" 0 None 1.

Lemma ServeHTTP_spec_witness :
  (∀ path query, code_of (response_of (witness_redirect path query)) = Some StatusMovedPermanently) ∧
  untouched [] witness_server
    (run_state (ServeHTTP [] witness_redirect "/api/v1/entropy" EmptyString 0 0 []) witness_server).
Proof.
  assert (H1 : ∀ path query, code_of (response_of (witness_redirect path query)) = Some StatusMovedPermanently)
    by reflexivity.
  refine (conj H1 _).
  destruct (ServeHTTP_spec [] witness_redirect H1 "/api/v1/entropy" EmptyString 0 0 [] witness_server)
    as (_ & _ & [[_ H2]|H2]); [|exact H2].
  exfalso. revert H2. vm_compute. discriminate.
Defined.

Lemma request_roundtrip_witness :
  let s := witness_server in
  ∃ data, run_val (ExtractEntropy 2) (pool_at [] (witness_pool witness_bytes)) = Some data ∧
    body (response_of (run_calls (ServeHTTP [] witness_redirect "/api/v1/entropy/binary"
      (encode_query [("a b", "%"); ("bytes", "2"); ("bytes", "3")]) 0 0 []) s)) = data ∧ len data = 2.
Proof.
  intros s. assert (H1 : 1 ≤ 2 ≤ 4096) by lia.
  assert (H2 : Forall (λ kv : string * string, kv.1 ≠ "bytes") [("a b", "%")]) by (apply Forall_singleton; discriminate).
  assert (H3 : admission 0 s = (true, 0, None)) by reflexivity.
  assert (H4 : pool s = Some (witness_pool witness_bytes)) by reflexivity.
  assert (H5 : ∃ data, run_val (ExtractEntropy 2) (pool_at [] (witness_pool witness_bytes)) = Some data)
    by (eexists; vm_compute; reflexivity).
  destruct H5 as [data H5].
  destruct (request_roundtrip [] witness_redirect _ 2 [("bytes", "3")] 0 0 [] s _ data 0 None H1 H2 H3 H4 H5)
    as (_ & Hb & Hl & _).
  exact (ex_intro _ data (conj H5 (conj Hb Hl))).
Defined.
End witnesses.
