(* ===== verification/Config.v ===== *)
(** * Configuration (internal/config/config.go)

    The environment is a finite map, the files holding secrets a parameter.
    [Load] applies defaults, reads the environment component by component and
    validates the outcome; log lines are left out. *)

From S2P Require Import Prelude Float64 GoStrings GoNet Clock GoStd.

Definition EnvironmentDevelopment : string := "dev".
Definition EnvironmentProduction : string := "prod".
Definition defaultHTTPAddr : string := "127.0.0.1:9797".
Definition defaultPoolMinBytes : Z := 512.
Definition defaultPoolMaxBytes : Z := 16384.
Definition defaultReadyMinBytes : Z := 1024.
Definition defaultRetryAfterSeconds : Z := 1.
Definition defaultMetricsPort : Z := 8000.
Definition defaultBatchSize : Z := 1840.
Definition minBatchSize : Z := 1840.
Definition maxBatchSize : Z := 184000.

(** ** Data *)

Module MQTT.
Record MQTT := mk {
  BrokerURL : string;
  ClientID : string;
  Topics : list string;
  QoS : Z;
  Username : string;
  Password : string;
  TLSCAFile : string;
}.
End MQTT.

Module EntropyPool.
Record EntropyPool := mk {
  PoolMinBytes : Z;
  PoolMaxBytes : Z;
  ReadyMinBytes : Z;
  HTTPAddr : string;
  RetryAfterSec : Z;
  AllowPublic : bool;
  RateLimitRPS : Z;
  RateLimitBurst : Z;
  TLSEnabled : bool;
  TLSCertFile : string;
  TLSKeyFile : string;
  TLSCAFile : string;
  TLSClientAuth : string;
}.
End EntropyPool.

Module Collector.
Record Collector := mk { BatchSize : Z }.
End Collector.

Module Metrics.
Record Metrics := mk {
  Port : Z;
  Bind : string;
  Enabled : bool;
  TLSEnabled : bool;
  TLSCertFile : string;
  TLSKeyFile : string;
  TLSCAFile : string;
  TLSClientAuth : string;
}.
End Metrics.

Module Entropy.
Record Entropy := mk { Bind : string }.
End Entropy.

Module GRPC.
Record GRPC := mk {
  Enabled : bool;
  Bind : string;
  TLSEnabled : bool;
  TLSCertFile : string;
  TLSKeyFile : string;
  TLSCAFile : string;
  TLSClientAuth : string;
}.
End GRPC.

Module CloudForwarder.
Record CloudForwarder := mk {
  Enabled : bool;
  ServerAddr : string;
  TLSEnabled : bool;
  TLSCAFile : string;
  TLSCertFile : string;
  TLSKeyFile : string;
  TLSServerName : string;
  ConnectTimeout : Z;
  ReconnectDelay : Z;
  MaxReconnectSec : Z;
  StreamRotateInterval : Z;
  OAuth2Enabled : bool;
  OAuth2TokenURL : string;
  OAuth2ClientID : string;
  OAuth2ClientSecret : string;
  OAuth2Scopes : string;
}.
End CloudForwarder.

Record Config := mkConfig {
  MQTT : MQTT.MQTT;
  EntropyPool : EntropyPool.EntropyPool;
  Collector : Collector.Collector;
  Metrics : Metrics.Metrics;
  Entropy : Entropy.Entropy;
  GRPC : GRPC.GRPC;
  CloudForwarder : CloudForwarder.CloudForwarder;
  Environment : string;
}.

Definition IsProduction (c : Config) : bool := String.eqb (Environment c) EnvironmentProduction.
Definition IsDevelopment (c : Config) : bool := String.eqb (Environment c) EnvironmentDevelopment.

(** The method [String]. *)
Definition String_ (c : Config) : string :=
  "Config{" +:+ "Environment=" +:+ Environment c +:+ ", MQTT.BrokerURL=" +:+ MQTT.BrokerURL (MQTT c) +:+
  ", MQTT.Topics=" +:+ Join (MQTT.Topics (MQTT c)) "," +:+ "}".

(** ** Reading the environment *)

Abbreviation environ := (gmap string string).

(** The working directory and [os.OpenInRoot(dir, base)] with the contents of the file. *)
Class GoFS := { Getwd : result string; OpenInRoot : string → string → result string }.

Definition Getenv (env : environ) (key : string) : string := default EmptyString (env !! key).

Definition is_set (v : string) : bool := negb (String.eqb v EmptyString).

Definition before_comment (s : string) : string :=
  let idx := IndexByte s "#"%char in
  if 0 <=? idx then TrimSpace (str_to idx s) else s.

Definition cleanEnvValue (value : string) : string :=
  let cleaned := TrimSpace value in before_comment cleaned.

Definition GetEnvDefault (env : environ) (key fallback : string) : string :=
  match env !! key with
  | Some value =>
      let cleaned := cleanEnvValue value in if is_set cleaned then cleaned else fallback
  | None => fallback
  end.

Definition ParsePositiveEnvInt (env : environ) (key : string) (fallback : Z) : Z :=
  match env !! key with
  | None => fallback
  | Some value =>
      let cleaned := cleanEnvValue value in
      if negb (is_set cleaned) then fallback
      else
        match Atoi cleaned with
        | Err _ => fallback
        | Ok parsed => if parsed <=? 0 then fallback else parsed
        end
  end.

Fixpoint has_letter (s : string) : bool :=
  match s with
  | EmptyString => false
  | String ch s => if in_range 97 122 ch || in_range 65 90 ch then true else has_letter s
  end.

Definition ParseDurationEnv (env : environ) (key : string) (fallback : Z) : Z :=
  match env !! key with
  | None => fallback
  | Some value =>
      let cleaned := cleanEnvValue value in
      if negb (is_set cleaned) then fallback
      else if negb (has_letter cleaned) then fallback
      else
        match ParseDuration cleaned with
        | None => fallback
        | Some parsed => if parsed <? 0 then fallback else parsed
        end
  end.

Definition one_of (s : string) (l : list string) : bool := existsb (String.eqb s) l.

Section load.
Context `{GoUnicode, GoFS}.

Definition ParseBoolEnv (env : environ) (key : string) (fallback : bool) : bool :=
  match env !! key with
  | None => fallback
  | Some value =>
      let cleaned := cleanEnvValue value in
      if negb (is_set cleaned) then fallback
      else
        let trimmed := ToLower cleaned in
        if one_of trimmed ["1"; "true"; "yes"; "y"; "on"] then true
        else if one_of trimmed ["0"; "false"; "no"; "n"; "off"] then false
        else fallback
  end.

Definition sanitizeAbsolutePath (path : string) : result string :=
  if String.eqb (TrimSpace path) EmptyString then Err (Errorf "config: empty file path" [])
  else
    let clean := Clean path in
    match Abs Getwd clean with
    | Err e => Err (wrap "config: resolve path %q: " [path] e)
    | Ok abs => Ok abs
    end.

Definition readFileWithinRoot (absPath : string) : result string :=
  let dir := Dir absPath in
  let base := Base absPath in
  OpenInRoot dir base.

Definition readSecretFile (path : string) : result string :=
  absPath ← sanitizeAbsolutePath path; readFileWithinRoot absPath.

(** [if v := os.Getenv(key); v != "" { field = v }]. *)
Definition override (env : environ) (key old : string) : string :=
  let v := Getenv env key in if is_set v then v else old.

(** The same for a field read from the file that [key] names. *)
Definition override_file (env : environ) (key old : string) : result string :=
  let file := Getenv env key in
  if is_set file then
    match readSecretFile file with
    | Err e => Err (wrap ("config: failed to read " +:+ key +:+ ": ") [] e)
    | Ok secret => Ok (TrimSpace secret)
    end
  else Ok old.

Definition client_auth (env : environ) (key : string) : string :=
  let v := Getenv env key in if is_set v then ToLower (TrimSpace v) else "none".

Definition set_MQTT (m : MQTT.MQTT) (c : Config) : Config :=
  mkConfig m (EntropyPool c) (Collector c) (Metrics c) (Entropy c) (GRPC c) (CloudForwarder c) (Environment c).
Definition set_EntropyPool (p : EntropyPool.EntropyPool) (c : Config) : Config :=
  mkConfig (MQTT c) p (Collector c) (Metrics c) (Entropy c) (GRPC c) (CloudForwarder c) (Environment c).
Definition set_Collector (k : Collector.Collector) (c : Config) : Config :=
  mkConfig (MQTT c) (EntropyPool c) k (Metrics c) (Entropy c) (GRPC c) (CloudForwarder c) (Environment c).
Definition set_Metrics (m : Metrics.Metrics) (c : Config) : Config :=
  mkConfig (MQTT c) (EntropyPool c) (Collector c) m (Entropy c) (GRPC c) (CloudForwarder c) (Environment c).
Definition set_Entropy (e : Entropy.Entropy) (c : Config) : Config :=
  mkConfig (MQTT c) (EntropyPool c) (Collector c) (Metrics c) e (GRPC c) (CloudForwarder c) (Environment c).
Definition set_GRPC (g : GRPC.GRPC) (c : Config) : Config :=
  mkConfig (MQTT c) (EntropyPool c) (Collector c) (Metrics c) (Entropy c) g (CloudForwarder c) (Environment c).
Definition set_CloudForwarder (f : CloudForwarder.CloudForwarder) (c : Config) : Config :=
  mkConfig (MQTT c) (EntropyPool c) (Collector c) (Metrics c) (Entropy c) (GRPC c) f (Environment c).
Definition set_Environment (e : string) (c : Config) : Config :=
  mkConfig (MQTT c) (EntropyPool c) (Collector c) (Metrics c) (Entropy c) (GRPC c) (CloudForwarder c) e.

Definition clean_topics (v : string) : list string :=
  filter (λ t, is_set t = true) (TrimSpace <$> Split v ","%char).

(** [MQTT_QOS], clamped; [None] when it is not a number. *)
Definition read_qos (v : string) : option Z :=
  let cleaned := TrimSpace v in
  let cleaned := before_comment cleaned in
  match Atoi cleaned with
  | Err _ => None
  | Ok qos =>
      let qos := if qos <? 0 then 0 else qos in
      let qos := if 1 <? qos then 1 else qos in
      Some (u8 qos)
  end.

Definition applyMQTTEnvVars (env : environ) (c : Config) : result Config :=
  let m := MQTT c in
  let topics :=
    let v := Getenv env "MQTT_TOPICS" in
    if is_set v then
      let clean := clean_topics v in if 0 <? len clean then clean else MQTT.Topics m
    else MQTT.Topics m in
  let v := Getenv env "MQTT_QOS" in
  qos ← (if is_set v then
           match read_qos v with
           | None => Err (Errorf "config: MQTT_QOS must be a number (0 or 1)" [])
           | Some qos => Ok qos
           end
         else Ok (MQTT.QoS m));
  password ← override_file env "MQTT_PASSWORD_FILE" (override env "MQTT_PASSWORD" (MQTT.Password m));
  Ok (set_MQTT {|
    MQTT.BrokerURL := override env "MQTT_BROKER_URL" (MQTT.BrokerURL m);
    MQTT.ClientID := override env "MQTT_CLIENT_ID" (MQTT.ClientID m);
    MQTT.Topics := topics;
    MQTT.QoS := qos;
    MQTT.Username := override env "MQTT_USERNAME" (MQTT.Username m);
    MQTT.Password := password;
    MQTT.TLSCAFile := override env "MQTT_TLS_CA_FILE" (MQTT.TLSCAFile m) |} c).

Definition applyEntropyPoolEnvVars (env : environ) (c : Config) : result Config :=
  let p := EntropyPool c in
  let min := ParsePositiveEnvInt env "ENTROPY_POOL_MIN_BYTES" (EntropyPool.PoolMinBytes p) in
  let max := ParsePositiveEnvInt env "ENTROPY_POOL_MAX_BYTES" (EntropyPool.PoolMaxBytes p) in
  Ok (set_EntropyPool {|
    EntropyPool.PoolMinBytes := min;
    EntropyPool.PoolMaxBytes := if max <? min then min else max;
    EntropyPool.ReadyMinBytes := ParsePositiveEnvInt env "ENTROPY_READY_MIN_BYTES" (EntropyPool.ReadyMinBytes p);
    EntropyPool.HTTPAddr := GetEnvDefault env "ENTROPY_HTTP_ADDR" (EntropyPool.HTTPAddr p);
    EntropyPool.RetryAfterSec := ParsePositiveEnvInt env "ENTROPY_RETRY_AFTER_SEC" (EntropyPool.RetryAfterSec p);
    EntropyPool.AllowPublic := ParseBoolEnv env "ALLOW_PUBLIC_HTTP" (EntropyPool.AllowPublic p);
    EntropyPool.RateLimitRPS := ParsePositiveEnvInt env "ENTROPY_RATE_LIMIT_RPS" 25;
    EntropyPool.RateLimitBurst := ParsePositiveEnvInt env "ENTROPY_RATE_LIMIT_BURST" 25;
    EntropyPool.TLSEnabled := ParseBoolEnv env "ENTROPY_TLS_ENABLED" (EntropyPool.TLSEnabled p);
    EntropyPool.TLSCertFile := GetEnvDefault env "ENTROPY_TLS_CERT_FILE" (Getenv env "TLS_CERT_FILE");
    EntropyPool.TLSKeyFile := GetEnvDefault env "ENTROPY_TLS_KEY_FILE" (Getenv env "TLS_KEY_FILE");
    EntropyPool.TLSCAFile := GetEnvDefault env "ENTROPY_TLS_CA_FILE" (Getenv env "TLS_CA_FILE");
    EntropyPool.TLSClientAuth := client_auth env "ENTROPY_TLS_CLIENT_AUTH" |} c).

Definition applyCollectorEnvVars (env : environ) (c : Config) : result Config :=
  let v := Getenv env "COLLECTOR_BATCH_SIZE" in
  if is_set v then
    match Atoi (TrimSpace v) with
    | Err _ => Ok (set_Collector (Collector.mk defaultBatchSize) c)
    | Ok parsed =>
        if parsed <? minBatchSize then Ok (set_Collector (Collector.mk minBatchSize) c)
        else if maxBatchSize <? parsed then Ok (set_Collector (Collector.mk maxBatchSize) c)
        else Ok (set_Collector (Collector.mk parsed) c)
    end
  else Ok c.

Definition applyMetricsEnvVars (env : environ) (c : Config) : result Config :=
  let m := Metrics c in
  Ok (set_Metrics {|
    Metrics.Port := ParsePositiveEnvInt env "METRICS_PORT" (Metrics.Port m);
    Metrics.Bind := GetEnvDefault env "METRICS_BIND" (Metrics.Bind m);
    Metrics.Enabled := ParseBoolEnv env "METRICS_ENABLED" (Metrics.Enabled m);
    Metrics.TLSEnabled := ParseBoolEnv env "METRICS_TLS_ENABLED" (Metrics.TLSEnabled m);
    Metrics.TLSCertFile := GetEnvDefault env "METRICS_TLS_CERT_FILE" (Getenv env "TLS_CERT_FILE");
    Metrics.TLSKeyFile := GetEnvDefault env "METRICS_TLS_KEY_FILE" (Getenv env "TLS_KEY_FILE");
    Metrics.TLSCAFile := GetEnvDefault env "METRICS_TLS_CA_FILE" (Getenv env "TLS_CA_FILE");
    Metrics.TLSClientAuth := client_auth env "METRICS_TLS_CLIENT_AUTH" |} c).

Definition applyEntropyEnvVars (env : environ) (c : Config) : result Config :=
  Ok (set_Entropy (Entropy.mk (GetEnvDefault env "ENTROPY_BIND" (Entropy.Bind (Entropy c)))) c).

Definition applyGRPCEnvVars (env : environ) (c : Config) : result Config :=
  let g := GRPC c in
  Ok (set_GRPC {|
    GRPC.Enabled := ParseBoolEnv env "GRPC_ENABLED" (GRPC.Enabled g);
    GRPC.Bind := GetEnvDefault env "GRPC_BIND" (GRPC.Bind g);
    GRPC.TLSEnabled := ParseBoolEnv env "GRPC_TLS_ENABLED" (GRPC.TLSEnabled g);
    GRPC.TLSCertFile := override env "GRPC_TLS_CERT_FILE" (GRPC.TLSCertFile g);
    GRPC.TLSKeyFile := override env "GRPC_TLS_KEY_FILE" (GRPC.TLSKeyFile g);
    GRPC.TLSCAFile := override env "GRPC_TLS_CA_FILE" (GRPC.TLSCAFile g);
    GRPC.TLSClientAuth := client_auth env "GRPC_TLS_CLIENT_AUTH" |} c).

Definition applyCloudForwarderEnvVars (env : environ) (c : Config) : result Config :=
  let f := CloudForwarder c in
  secret ← override_file env "CLOUD_FORWARDER_OAUTH2_CLIENT_SECRET_FILE"
    (override env "CLOUD_FORWARDER_OAUTH2_CLIENT_SECRET" (CloudForwarder.OAuth2ClientSecret f));
  Ok (set_CloudForwarder {|
    CloudForwarder.Enabled := ParseBoolEnv env "CLOUD_FORWARDER_ENABLED" (CloudForwarder.Enabled f);
    CloudForwarder.ServerAddr := GetEnvDefault env "CLOUD_FORWARDER_SERVER_ADDR" (CloudForwarder.ServerAddr f);
    CloudForwarder.TLSEnabled := ParseBoolEnv env "CLOUD_FORWARDER_TLS_ENABLED" (CloudForwarder.TLSEnabled f);
    CloudForwarder.TLSCAFile := GetEnvDefault env "CLOUD_FORWARDER_TLS_CA_FILE" (Getenv env "TLS_CA_FILE");
    CloudForwarder.TLSCertFile := GetEnvDefault env "CLOUD_FORWARDER_TLS_CERT_FILE" (Getenv env "TLS_CERT_FILE");
    CloudForwarder.TLSKeyFile := GetEnvDefault env "CLOUD_FORWARDER_TLS_KEY_FILE" (Getenv env "TLS_KEY_FILE");
    CloudForwarder.TLSServerName :=
      override env "CLOUD_FORWARDER_TLS_SERVER_NAME" (CloudForwarder.TLSServerName f);
    CloudForwarder.ConnectTimeout :=
      ParsePositiveEnvInt env "CLOUD_FORWARDER_CONNECT_TIMEOUT" (CloudForwarder.ConnectTimeout f);
    CloudForwarder.ReconnectDelay :=
      ParsePositiveEnvInt env "CLOUD_FORWARDER_RECONNECT_DELAY" (CloudForwarder.ReconnectDelay f);
    CloudForwarder.MaxReconnectSec :=
      ParsePositiveEnvInt env "CLOUD_FORWARDER_MAX_RECONNECT" (CloudForwarder.MaxReconnectSec f);
    CloudForwarder.StreamRotateInterval :=
      ParseDurationEnv env "CLOUD_FORWARDER_STREAM_ROTATE_INTERVAL" (CloudForwarder.StreamRotateInterval f);
    CloudForwarder.OAuth2Enabled :=
      ParseBoolEnv env "CLOUD_FORWARDER_OAUTH2_ENABLED" (CloudForwarder.OAuth2Enabled f);
    CloudForwarder.OAuth2TokenURL :=
      override env "CLOUD_FORWARDER_OAUTH2_TOKEN_URL" (CloudForwarder.OAuth2TokenURL f);
    CloudForwarder.OAuth2ClientID :=
      override env "CLOUD_FORWARDER_OAUTH2_CLIENT_ID" (CloudForwarder.OAuth2ClientID f);
    CloudForwarder.OAuth2ClientSecret := secret;
    CloudForwarder.OAuth2Scopes :=
      override env "CLOUD_FORWARDER_OAUTH2_SCOPES" (CloudForwarder.OAuth2Scopes f) |} c).

Definition applyEnvironmentEnvVars (env : environ) (c : Config) : result Config :=
  let v := Getenv env "ENVIRONMENT" in
  if is_set v then
    let e := ToLower (TrimSpace v) in
    if one_of e ["dev"; "development"] then Ok (set_Environment EnvironmentDevelopment c)
    else if one_of e ["prod"; "production"] then Ok (set_Environment EnvironmentProduction c)
    else Err (Errorf "config: ENVIRONMENT must be 'dev' or 'prod'" [])
  else Ok c.

(** ** Validation: [Some] is the error *)

(** [if bad { return errors.New(msg) }]. *)
Definition reject (bad : bool) (msg : string) : option goerror :=
  if bad then Some (Errorf msg []) else None.

(** The first of several checks that fails. *)
Fixpoint first_error (checks : list (option goerror)) : option goerror :=
  match checks with
  | [] => None
  | Some e :: _ => Some e
  | None :: checks => first_error checks
  end.

Definition validClientAuthModes : list string := ["none"; "request"; "require"].

(** The checks of a TLS server whose variables start with [prefix]. *)
Definition tls_checks (prefix cert key ca auth : string) : list (option goerror) :=
  [reject (negb (is_set cert))
     ("config: " +:+ prefix +:+ "_TLS_CERT_FILE is required when " +:+ prefix +:+ "_TLS_ENABLED=true");
   reject (negb (is_set key))
     ("config: " +:+ prefix +:+ "_TLS_KEY_FILE is required when " +:+ prefix +:+ "_TLS_ENABLED=true");
   (if negb (one_of auth validClientAuthModes) then
      Some (Errorf ("config: " +:+ prefix +:+
        "_TLS_CLIENT_AUTH must be 'none', 'request', or 'require', got %q") [auth])
    else None);
   reject (String.eqb auth "require" && negb (is_set ca))
     ("config: " +:+ prefix +:+ "_TLS_CA_FILE is required when " +:+ prefix +:+ "_TLS_CLIENT_AUTH=require")].

Definition validate (c : Config) : option goerror :=
  let p := EntropyPool c in let m := Metrics c in let g := GRPC c in let f := CloudForwarder c in
  first_error (
    [reject (negb (is_set (MQTT.BrokerURL (MQTT c)))) "config: MQTT_BROKER_URL is required";
     reject (len (MQTT.Topics (MQTT c)) =? 0) "config: MQTT_TOPICS is required (at least one topic)";
     reject (negb (String.eqb (Environment c) EnvironmentDevelopment) &&
             negb (String.eqb (Environment c) EnvironmentProduction))
       "config: environment must be 'dev' or 'prod'"] ++
    (if EntropyPool.TLSEnabled p then
       tls_checks "ENTROPY" (EntropyPool.TLSCertFile p) (EntropyPool.TLSKeyFile p)
         (EntropyPool.TLSCAFile p) (EntropyPool.TLSClientAuth p)
     else []) ++
    [reject (EntropyPool.AllowPublic p && negb (EntropyPool.TLSEnabled p) && IsProduction c)
       "config: SECURITY: TLS is required when ALLOW_PUBLIC_HTTP=true in production mode"] ++
    (if Metrics.TLSEnabled m then
       tls_checks "METRICS" (Metrics.TLSCertFile m) (Metrics.TLSKeyFile m) (Metrics.TLSCAFile m)
         (Metrics.TLSClientAuth m)
     else []) ++
    (if GRPC.Enabled g && GRPC.TLSEnabled g then
       tls_checks "GRPC" (GRPC.TLSCertFile g) (GRPC.TLSKeyFile g) (GRPC.TLSCAFile g) (GRPC.TLSClientAuth g)
     else []) ++
    (if CloudForwarder.Enabled f then
       [reject (negb (is_set (CloudForwarder.ServerAddr f)))
          "config: CLOUD_FORWARDER_SERVER_ADDR is required when CLOUD_FORWARDER_ENABLED=true"] ++
       (if CloudForwarder.TLSEnabled f then
          [reject (negb (is_set (CloudForwarder.TLSCAFile f)))
             "config: CLOUD_FORWARDER_TLS_CA_FILE is required when CLOUD_FORWARDER_TLS_ENABLED=true";
           (let hasCert := is_set (CloudForwarder.TLSCertFile f) in
            let hasKey := is_set (CloudForwarder.TLSKeyFile f) in
            reject (negb (Bool.eqb hasCert hasKey))
              "config: CLOUD_FORWARDER_TLS_CERT_FILE and CLOUD_FORWARDER_TLS_KEY_FILE must both be set or both be empty")]
        else []) ++
       (if CloudForwarder.OAuth2Enabled f then
          [reject (negb (is_set (CloudForwarder.OAuth2TokenURL f)))
             "config: CLOUD_FORWARDER_OAUTH2_TOKEN_URL is required when CLOUD_FORWARDER_OAUTH2_ENABLED=true";
           reject (negb (is_set (CloudForwarder.OAuth2ClientID f)))
             "config: CLOUD_FORWARDER_OAUTH2_CLIENT_ID is required when CLOUD_FORWARDER_OAUTH2_ENABLED=true";
           reject (negb (is_set (CloudForwarder.OAuth2ClientSecret f)))
             "config: CLOUD_FORWARDER_OAUTH2_CLIENT_SECRET is required when CLOUD_FORWARDER_OAUTH2_ENABLED=true"]
        else [])
     else [])).

Definition defaultConfig : Config := {|
  MQTT := {|
    MQTT.BrokerURL := "tcp://127.0.0.1:1883"; MQTT.ClientID := EmptyString;
    MQTT.Topics := ["timestamps/channel/#"]; MQTT.QoS := 0; MQTT.Username := EmptyString;
    MQTT.Password := EmptyString; MQTT.TLSCAFile := EmptyString |};
  EntropyPool := {|
    EntropyPool.PoolMinBytes := defaultPoolMinBytes; EntropyPool.PoolMaxBytes := defaultPoolMaxBytes;
    EntropyPool.ReadyMinBytes := defaultReadyMinBytes; EntropyPool.HTTPAddr := defaultHTTPAddr;
    EntropyPool.RetryAfterSec := defaultRetryAfterSeconds; EntropyPool.AllowPublic := false;
    EntropyPool.RateLimitRPS := 0; EntropyPool.RateLimitBurst := 0; EntropyPool.TLSEnabled := false;
    EntropyPool.TLSCertFile := EmptyString; EntropyPool.TLSKeyFile := EmptyString;
    EntropyPool.TLSCAFile := EmptyString; EntropyPool.TLSClientAuth := EmptyString |};
  Collector := Collector.mk defaultBatchSize;
  Metrics := {|
    Metrics.Port := defaultMetricsPort; Metrics.Bind := "127.0.0.1:8080"; Metrics.Enabled := true;
    Metrics.TLSEnabled := false; Metrics.TLSCertFile := EmptyString; Metrics.TLSKeyFile := EmptyString;
    Metrics.TLSCAFile := EmptyString; Metrics.TLSClientAuth := EmptyString |};
  Entropy := Entropy.mk "127.0.0.1:8081";
  GRPC := {|
    GRPC.Enabled := false; GRPC.Bind := "127.0.0.1:9090"; GRPC.TLSEnabled := false;
    GRPC.TLSCertFile := EmptyString; GRPC.TLSKeyFile := EmptyString; GRPC.TLSCAFile := EmptyString;
    GRPC.TLSClientAuth := EmptyString |};
  CloudForwarder := {|
    CloudForwarder.Enabled := false; CloudForwarder.ServerAddr := EmptyString;
    CloudForwarder.TLSEnabled := false; CloudForwarder.TLSCAFile := EmptyString;
    CloudForwarder.TLSCertFile := EmptyString; CloudForwarder.TLSKeyFile := EmptyString;
    CloudForwarder.TLSServerName := EmptyString; CloudForwarder.ConnectTimeout := 10;
    CloudForwarder.ReconnectDelay := 5; CloudForwarder.MaxReconnectSec := 60;
    CloudForwarder.StreamRotateInterval := 0; CloudForwarder.OAuth2Enabled := false;
    CloudForwarder.OAuth2TokenURL := EmptyString; CloudForwarder.OAuth2ClientID := EmptyString;
    CloudForwarder.OAuth2ClientSecret := EmptyString; CloudForwarder.OAuth2Scopes := EmptyString |};
  Environment := EnvironmentDevelopment;
|}.

(** On an error the configuration is returned too; its only caller drops it. *)
Definition Load (env : environ) : result Config :=
  c ← applyMQTTEnvVars env defaultConfig;
  c ← applyEntropyPoolEnvVars env c;
  c ← applyCollectorEnvVars env c;
  c ← applyMetricsEnvVars env c;
  c ← applyEntropyEnvVars env c;
  c ← applyGRPCEnvVars env c;
  c ← applyCloudForwarderEnvVars env c;
  c ← applyEnvironmentEnvVars env c;
  match validate c with Some e => Err e | None => Ok c end.

(** ** Lemmas on the readers *)

Lemma is_set_true s : is_set s = true ↔ s ≠ EmptyString.
Proof. unfold is_set. destruct (String.eqb_spec s EmptyString); cbn; split; congruence. Qed.

Lemma ParsePositiveEnvInt_pos env key fb : 1 ≤ fb → 1 ≤ ParsePositiveEnvInt env key fb.
Proof.
  intros Hfb. unfold ParsePositiveEnvInt. destruct (env !! key) as [v|]; [|done]. cbv zeta.
  destruct (negb _); [done|]. destruct (Atoi _) as [n|]; [|done]. destruct (Z.leb_spec n 0); lia.
Qed.

Lemma ParseDurationEnv_nonneg env key fb : 0 ≤ fb → 0 ≤ ParseDurationEnv env key fb.
Proof.
  intros Hfb. unfold ParseDurationEnv. destruct (env !! key) as [v|]; [|done]. cbv zeta.
  destruct (negb _); [done|]. destruct (negb _); [done|]. destruct (ParseDuration _) as [n|]; [|done].
  destruct (Z.ltb_spec n 0); lia.
Qed.

Lemma clean_topics_set v : Forall (λ t, t ≠ EmptyString) (clean_topics v).
Proof.
  unfold clean_topics. apply Forall_forall. intros t [Ht _]%list_elem_of_filter. by apply is_set_true.
Qed.

Lemma read_qos_range v q : read_qos v = Some q → q = 0 ∨ q = 1.
Proof.
  unfold read_qos. cbv zeta. destruct (Atoi _) as [n|]; [|done]. intros [= <-].
  destruct (Z.ltb_spec n 0).
  - change (1 <? 0) with false. by left.
  - destruct (Z.ltb_spec 1 n); [by right|]. assert (n = 0 ∨ n = 1) as [-> | ->] by lia; auto.
Qed.

Lemma reject_none b msg : reject b msg = None ↔ b = false.
Proof. unfold reject. by destruct b. Qed.

Lemma first_error_none l : first_error l = None ↔ Forall (λ c, c = None) l.
Proof.
  induction l as [|[e|] l IH]; cbn; [done| |].
  - split; [done|]. by intros [[=] _]%Forall_cons.
  - rewrite Forall_cons, IH. tauto.
Qed.

Lemma one_of_in s l : one_of s l = true ↔ s ∈ l.
Proof.
  unfold one_of. rewrite existsb_exists. setoid_rewrite String.eqb_eq. split.
  - intros (x & Hx & ->). by apply list_elem_of_In.
  - intros Hs. exists s. split; [by apply list_elem_of_In|done].
Qed.

(** ** What a loaded configuration satisfies *)

Record tls_server_ok (cert key ca auth : string) : Prop := {
  tls_cert : cert ≠ EmptyString;
  tls_key : key ≠ EmptyString;
  tls_auth : auth ∈ validClientAuthModes;
  tls_ca : auth = "require" → ca ≠ EmptyString;
}.

Record forwarder_ok (f : CloudForwarder.CloudForwarder) : Prop := {
  fwd_addr : CloudForwarder.ServerAddr f ≠ EmptyString;
  fwd_tls : CloudForwarder.TLSEnabled f = true →
    CloudForwarder.TLSCAFile f ≠ EmptyString ∧
    (CloudForwarder.TLSCertFile f ≠ EmptyString ↔ CloudForwarder.TLSKeyFile f ≠ EmptyString);
  fwd_oauth : CloudForwarder.OAuth2Enabled f = true →
    CloudForwarder.OAuth2TokenURL f ≠ EmptyString ∧ CloudForwarder.OAuth2ClientID f ≠ EmptyString ∧
    CloudForwarder.OAuth2ClientSecret f ≠ EmptyString;
}.

(** What [validate] checks. *)
Record valid_config (c : Config) : Prop := {
  ok_broker : MQTT.BrokerURL (MQTT c) ≠ EmptyString;
  ok_topics : MQTT.Topics (MQTT c) ≠ [];
  ok_environment : Environment c = "dev" ∨ Environment c = "prod";
  ok_public : EntropyPool.AllowPublic (EntropyPool c) = true → Environment c = "prod" →
    EntropyPool.TLSEnabled (EntropyPool c) = true;
  ok_entropy_tls : EntropyPool.TLSEnabled (EntropyPool c) = true →
    tls_server_ok (EntropyPool.TLSCertFile (EntropyPool c)) (EntropyPool.TLSKeyFile (EntropyPool c))
      (EntropyPool.TLSCAFile (EntropyPool c)) (EntropyPool.TLSClientAuth (EntropyPool c));
  ok_metrics_tls : Metrics.TLSEnabled (Metrics c) = true →
    tls_server_ok (Metrics.TLSCertFile (Metrics c)) (Metrics.TLSKeyFile (Metrics c))
      (Metrics.TLSCAFile (Metrics c)) (Metrics.TLSClientAuth (Metrics c));
  ok_grpc_tls : GRPC.Enabled (GRPC c) = true → GRPC.TLSEnabled (GRPC c) = true →
    tls_server_ok (GRPC.TLSCertFile (GRPC c)) (GRPC.TLSKeyFile (GRPC c)) (GRPC.TLSCAFile (GRPC c))
      (GRPC.TLSClientAuth (GRPC c));
  ok_forwarder : CloudForwarder.Enabled (CloudForwarder c) = true → forwarder_ok (CloudForwarder c);
}.

(** What the readers guarantee. *)
Record bounded_config (c : Config) : Prop := {
  ok_qos : MQTT.QoS (MQTT c) = 0 ∨ MQTT.QoS (MQTT c) = 1;
  ok_topic_names : Forall (λ t, t ≠ EmptyString) (MQTT.Topics (MQTT c));
  ok_pool : 1 ≤ EntropyPool.PoolMinBytes (EntropyPool c) ≤ EntropyPool.PoolMaxBytes (EntropyPool c);
  ok_ready : 1 ≤ EntropyPool.ReadyMinBytes (EntropyPool c);
  ok_retry : 1 ≤ EntropyPool.RetryAfterSec (EntropyPool c);
  ok_rate : 1 ≤ EntropyPool.RateLimitRPS (EntropyPool c) ∧ 1 ≤ EntropyPool.RateLimitBurst (EntropyPool c);
  ok_batch : 1840 ≤ Collector.BatchSize (Collector c) ≤ 184000;
  ok_delays : 1 ≤ CloudForwarder.ConnectTimeout (CloudForwarder c) ∧
    1 ≤ CloudForwarder.ReconnectDelay (CloudForwarder c) ∧ 1 ≤ CloudForwarder.MaxReconnectSec (CloudForwarder c);
  ok_rotate : 0 ≤ CloudForwarder.StreamRotateInterval (CloudForwarder c);
}.

Lemma tls_checks_ok prefix cert key ca auth :
  Forall (λ c, c = None) (tls_checks prefix cert key ca auth) → tls_server_ok cert key ca auth.
Proof.
  unfold tls_checks. rewrite !Forall_cons, !reject_none, !negb_false_iff, !is_set_true, andb_false_iff, negb_false_iff.
  rewrite is_set_true, String.eqb_neq. intros (? & ? & Hauth & Hca & _). split; try done.
  - apply one_of_in. by destruct (one_of auth _).
  - intros ->. by destruct Hca.
Qed.

Lemma forall_if (b : bool) (l : list (option goerror)) :
  Forall (λ c, c = None) (if b then l else []) → b = true → Forall (λ c, c = None) l.
Proof. by intros ? ->. Qed.

Lemma validate_ok c : validate c = None → valid_config c.
Proof.
  unfold validate. cbv zeta. rewrite first_error_none, !Forall_app, !Forall_cons, !reject_none, !negb_false_iff.
  intros ((Hb & Ht & He & _) & Hp & (Hpub & _) & Hm & Hg & Hf).
  assert (Henv : Environment c = "dev" ∨ Environment c = "prod").
  { destruct (String.eqb_spec (Environment c) EnvironmentDevelopment) as [->|]; [by left|].
    destruct (String.eqb_spec (Environment c) EnvironmentProduction) as [->|]; [by right|done]. }
  split; try done.
  - by apply is_set_true.
  - intros E. by rewrite E in Ht.
  - intros Ha Hprod. unfold IsProduction in Hpub. rewrite Ha, Hprod in Hpub. cbn in Hpub.
    by destruct (EntropyPool.TLSEnabled _).
  - intros Htls. by eapply tls_checks_ok, forall_if.
  - intros Htls. by eapply tls_checks_ok, forall_if.
  - intros Hen Htls. eapply tls_checks_ok, forall_if; [exact Hg|]. by rewrite Hen, Htls.
  - intros Hen. apply (forall_if _ _ Hf) in Hen. apply Forall_app in Hen as [Ha [Htls Ho]%Forall_app].
    split.
    + apply Forall_cons in Ha as [Ha _]. by rewrite reject_none, negb_false_iff, is_set_true in Ha.
    + intros Hen. apply (forall_if _ _ Htls) in Hen. apply Forall_cons in Hen as [H1 [H2 _]%Forall_cons].
      rewrite reject_none, negb_false_iff, is_set_true in H1. split; [done|].
      rewrite reject_none, negb_false_iff in H2. apply Bool.eqb_prop in H2. by rewrite <-!is_set_true, H2.
    + intros Hen. apply (forall_if _ _ Ho) in Hen. rewrite !Forall_cons, !reject_none, !negb_false_iff, !is_set_true in Hen.
      tauto.
Qed.

Lemma applyMQTT_spec env c c' :
  applyMQTTEnvVars env c = Ok c' →
  ∃ m, c' = set_MQTT m c ∧
    ((MQTT.QoS (MQTT c) = 0 ∨ MQTT.QoS (MQTT c) = 1) → MQTT.QoS m = 0 ∨ MQTT.QoS m = 1) ∧
    (Forall (λ t, t ≠ EmptyString) (MQTT.Topics (MQTT c)) → Forall (λ t, t ≠ EmptyString) (MQTT.Topics m)).
Proof.
  unfold applyMQTTEnvVars. cbv zeta. intros (qos & Hq & (pw & _ & [= <-])%bind_ok)%bind_ok.
  eexists. split; [reflexivity|]. cbn. split.
  - intros Hold. destruct (is_set (Getenv env "MQTT_QOS")); [|by injection Hq as <-].
    destruct (read_qos (Getenv env "MQTT_QOS")) as [q|] eqn:E; [|done]. injection Hq as <-. by eapply read_qos_range.
  - intros Hold. destruct (is_set (Getenv env "MQTT_TOPICS")); [|done]. destruct (0 <? _); [apply clean_topics_set|done].
Qed.

Lemma applyCollector_spec env c c' :
  applyCollectorEnvVars env c = Ok c' →
  1840 ≤ Collector.BatchSize (Collector c) ≤ 184000 →
  ∃ k, c' = set_Collector k c ∧ 1840 ≤ Collector.BatchSize k ≤ 184000.
Proof.
  unfold applyCollectorEnvVars, defaultBatchSize, minBatchSize, maxBatchSize. intros H1 H2. revert H1. cbv zeta.
  destruct (is_set _).
  - destruct (Atoi _) as [n|]; [|intros [= <-]; by eexists].
    destruct (Z.ltb_spec n 1840); [intros [= <-]; by eexists|].
    destruct (Z.ltb_spec 184000 n); intros [= <-]; (eexists; split; [done|cbn; lia]).
  - intros [= <-]. exists (Collector c). by destruct c.
Qed.

Lemma applyEnvironment_spec env c c' :
  applyEnvironmentEnvVars env c = Ok c' → ∃ e, c' = set_Environment e c.
Proof.
  unfold applyEnvironmentEnvVars. cbv zeta. destruct (is_set _).
  - destruct (one_of _ _); [intros [= <-]; by eexists|]. destruct (one_of _ _); [intros [= <-]; by eexists|done].
  - intros [= <-]. exists (Environment c). by destruct c.
Qed.

Lemma Load_ok env c : Load env = Ok c → valid_config c ∧ bounded_config c.
Proof.
  unfold Load. intros (c1 & H1 & (c2 & [= <-] & (c3 & H3 & (c4 & [= <-] & (c5 & [= <-] & (c6 & [= <-] &
    (c7 & H7 & (c8 & H8 & Hv)%bind_ok)%bind_ok)%bind_ok)%bind_ok)%bind_ok)%bind_ok)%bind_ok)%bind_ok.
  destruct (validate c8) as [|] eqn:Hval; [done|]. injection Hv as <-. split; [by apply validate_ok|]. clear Hval.
  apply applyMQTT_spec in H1 as (m & -> & Hq & Ht). apply applyCollector_spec in H3 as (k & -> & Hk); [|cbn; unfold defaultBatchSize; lia].
  unfold applyCloudForwarderEnvVars in H7. cbv zeta in H7. apply bind_ok in H7 as (secret & _ & [= <-]).
  apply applyEnvironment_spec in H8 as (e & ->). split; cbn; try done.
  - apply Hq. by left.
  - apply Ht. by apply Forall_singleton.
  - pose proof (ParsePositiveEnvInt_pos env "ENTROPY_POOL_MIN_BYTES" defaultPoolMinBytes ltac:(done)).
    destruct (Z.ltb_spec (ParsePositiveEnvInt env "ENTROPY_POOL_MAX_BYTES" defaultPoolMaxBytes)
      (ParsePositiveEnvInt env "ENTROPY_POOL_MIN_BYTES" defaultPoolMinBytes)); lia.
  - by apply ParsePositiveEnvInt_pos.
  - by apply ParsePositiveEnvInt_pos.
  - split; by apply ParsePositiveEnvInt_pos.
  - split_and!; by apply ParsePositiveEnvInt_pos.
  - by apply ParseDurationEnv_nonneg.
Qed.

(** C34: a configuration that [Load] returns, whatever the environment and the
    files, is valid and bounded: QoS 0 or 1, at least one topic and none empty,
    1 <= pool minimum <= pool maximum, a batch size between 1840 and 184000,
    positive rates, delays and timeouts, environment "dev" or "prod"; a TLS
    server has certificate, key, a known client authentication mode and, when
    it requires client certificates, a CA; production never exposes the entropy
    server publicly without TLS; an enabled forwarder has an address, with TLS
    a CA and both or neither of certificate and key, with OAuth2 all three of
    its credentials. *)
Theorem Load_valid env c : Load env = Ok c → valid_config c ∧ bounded_config c.
Proof. apply Load_ok. Qed.

(** The configuration of an empty environment. *)
Example Load_default :
  Load ∅ = Ok (set_Metrics (Metrics.mk 8000 "127.0.0.1:8080" true false EmptyString EmptyString EmptyString "none")
    (set_EntropyPool (EntropyPool.mk 512 16384 1024 "127.0.0.1:9797" 1 false 25 25 false EmptyString EmptyString
      EmptyString "none")
    (set_GRPC (GRPC.mk false "127.0.0.1:9090" false EmptyString EmptyString EmptyString "none") defaultConfig))).
Proof. reflexivity. Qed.

(** ** Inline comments *)

(** A numeral followed by something else is not a number. *)
Lemma Atoi_trailing s v t c :
  decimal s = Some v → is_digit c = false → is_ok (Atoi (s +:+ String c t)) = false.
Proof.
  intros Hd Hc. destruct s as [|a s]; [done|].
  assert (Ha : is_digit a = true) by (cbn in Hd; by destruct (is_digit a)).
  apply digit_range in Ha as Ha'. change (String a s +:+ String c t) with (String a (s +:+ String c t)).
  unfold Atoi. destruct (Z.eqb_spec (byte_of a) 45); [lia|]. destruct (Z.eqb_spec (byte_of a) 43); [lia|].
  destruct (ParseUint_as "Atoi" (String a (s +:+ String c t)) 64) as [un|[fmt args]] eqn:E; [|done].
  apply ParseUint_as_ok in E as [E _]; [|lia]. exfalso.
  assert (Hnone : ∀ s m, decimal_from m (s +:+ String c t) = None).
  { intros r. induction r as [|b r IH]; intros m.
    - change (EmptyString +:+ String c t) with (String c t). cbn. by rewrite Hc.
    - change (String b r +:+ String c t) with (String b (r +:+ String c t)). cbn. destruct (is_digit b); [apply IH|done]. }
  cbn in E. rewrite Ha in E. congruence.
Qed.

Section comments.
(** A value as written in an environment file: white space, a positive number,
    white space, a comment that ends in a visible character. *)
Context (ws ws' text : list ascii) (n : Z).
Context (Hws : forallb space1 ws = true) (Hws' : forallb space1 ws' = true).
Context (Hn : 0 < n < 2 ^ 63) (Htext : ∃ l c, "#"%char :: text = l ++ [c] ∧ solid c = true).

Let digits := String.list_ascii_of_string (Itoa n).
Let value := String.string_of_list_ascii (ws ++ digits ++ ws' ++ "#"%char :: text).
Let body := Itoa n +:+ String.string_of_list_ascii ws' +:+ String "#" (String.string_of_list_ascii text).

Lemma comment_decimal : decimal (Itoa n) = Some n.
Proof. apply decimal_Itoa. lia. Qed.

Lemma comment_digits : forallb is_digit digits = true.
Proof.
  subst digits. pose proof comment_decimal as Hd. destruct (Itoa n) as [|c s]; [done|].
  exact (decimal_from_digits 0 (String c s) n Hd).
Qed.

Lemma comment_trim : TrimSpace value = body.
Proof.
  subst value body. replace (ws ++ digits ++ ws' ++ "#"%char :: text)
    with (ws ++ (digits ++ ws' ++ "#"%char :: text) ++ []) by (by rewrite app_nil_r).
  rewrite TrimSpace_pad; [|done|done|..].
  - subst digits. by rewrite !string_of_list_app, String.string_of_list_ascii_of_string.
  - pose proof comment_digits as Hd. subst digits. pose proof comment_decimal as Hdec.
    destruct (Itoa n) as [|c s]; [done|]. cbn in Hd |- *. apply andb_true_iff in Hd as [Hc _].
    eexists c, _. split; [done|]. by apply digit_solid.
  - destruct Htext as (l & c & -> & Hc). exists (digits ++ ws' ++ l), c. split; [|done].
    by rewrite <-!(assoc_L (++)).
Qed.

Lemma lacks_forallb (f : ascii → bool) c l :
  f c = false → forallb f l = true → lacks c (String.string_of_list_ascii l).
Proof.
  intros Hc. induction l as [|a l IH]; [done|]. cbn. intros [Ha Hl]%andb_true_iff.
  apply lacks_cons. split; [by intros ->; congruence|by apply IH].
Qed.

Lemma comment_clean : cleanEnvValue value = Itoa n.
Proof.
  unfold cleanEnvValue. rewrite comment_trim. subst body. unfold before_comment. rewrite <-str_app_assoc.
  rewrite IndexByte_app; cycle 1.
  { apply lacks_app. split; [|by apply (lacks_forallb space1)].
    rewrite <-(String.string_of_list_ascii_of_string (Itoa n)).
    apply (lacks_forallb is_digit); [done|apply comment_digits]. }
  cbv zeta. destruct (Z.leb_spec 0 (slen (Itoa n +:+ String.string_of_list_ascii ws'))); [|unfold slen in *; lia].
  rewrite str_to_app.
  replace (Itoa n +:+ String.string_of_list_ascii ws')
    with (String.string_of_list_ascii ([] ++ digits ++ ws')).
  - by apply (TrimSpace_digits [] (Itoa n) ws' n); [..|apply comment_decimal].
  - subst digits. cbn [app]. by rewrite string_of_list_app, String.string_of_list_ascii_of_string.
Qed.

(** A positive number written with surrounding white space and an inline
    comment, as systemd passes it, is read back by [ParsePositiveEnvInt]; the
    batch size, which is read without removing the comment, is silently
    replaced by the default when its value is written that way. *)
Theorem env_int_comments env key fallback c :
  env !! key = Some value →
  ParsePositiveEnvInt env key fallback = n ∧
  (key = "COLLECTOR_BATCH_SIZE" → applyCollectorEnvVars env c = Ok (set_Collector (Collector.mk 1840) c)).
Proof.
  intros Hkey. unfold ParsePositiveEnvInt. rewrite Hkey, comment_clean. cbv zeta.
  pose proof comment_decimal as Hd. rewrite (Atoi_decimal _ _ Hd) by lia. split.
  - destruct (Itoa n); [done|]. cbn [is_set String.eqb negb]. destruct (Z.leb_spec n 0); [lia|done].
  - intros ->. unfold applyCollectorEnvVars, Getenv. rewrite Hkey. cbn [default from_option id].
    assert (Hset : is_set value = true).
    { apply is_set_true. intros E. pose proof comment_trim as Ht. rewrite E in Ht. subst body.
      destruct (Itoa n); [done|]. discriminate Ht. }
    rewrite Hset, comment_trim. subst body.
    assert (Hbad : is_ok (Atoi (Itoa n +:+ String.string_of_list_ascii ws' +:+
      String "#" (String.string_of_list_ascii text))) = false).
    { destruct ws' as [|w wl]; [by apply (Atoi_trailing _ n)|]. cbn [String.string_of_list_ascii].
      apply (Atoi_trailing _ n); [done|]. cbn in Hws'. apply andb_true_iff in Hws' as [Hw _].
      unfold space1, is_digit, in_range in *. apply orb_true_iff in Hw. rewrite andb_true_iff, !Z.leb_le, Z.eqb_eq in Hw.
      apply andb_false_iff. rewrite !Z.leb_gt. lia. }
    by destruct (Atoi _).
Qed.
End comments.
End load.

(** ** Witnesses *)

Definition witness_lower : GoUnicode := {| unicode_lower := λ s, s |}.
Definition witness_fs : GoFS :=
  {| Getwd := Ok "/srv";
     OpenInRoot := λ dir base,
       if String.eqb dir "/run/secrets" && String.eqb base "mqtt" then Ok ("s3cret" +:+ newline)
       else Err (Errorf "open %s: no such file or directory" [base]) |}.

Definition witness_env : environ :=
  list_to_map [("MQTT_PASSWORD_FILE", "/run/secrets/./mqtt"); ("MQTT_TOPICS", " a/1, ,b/2 ");
    ("ENTROPY_POOL_MIN_BYTES", "700 # more"); ("ENTROPY_POOL_MAX_BYTES", "600"); ("MQTT_QOS", "7");
    ("COLLECTOR_BATCH_SIZE", "500000"); ("ENVIRONMENT", "Production");
    ("CLOUD_FORWARDER_STREAM_ROTATE_INTERVAL", "1.5h")].

Lemma Load_valid_witness :
  let U := witness_lower in let FS := witness_fs in
  ∃ c, Load witness_env = Ok c ∧ Collector.BatchSize (Collector c) = 184000 ∧
    EntropyPool.PoolMaxBytes (EntropyPool c) = 700 ∧ MQTT.Password (MQTT c) = "s3cret" ∧
    CloudForwarder.StreamRotateInterval (CloudForwarder c) = 5400000000000 ∧ valid_config c.
Proof.
  intros U FS. eexists. split; [vm_compute; reflexivity|]. split; [vm_compute; reflexivity|].
  split; [vm_compute; reflexivity|]. split; [vm_compute; reflexivity|]. split; [vm_compute; reflexivity|].
  refine (proj1 (@Load_valid U FS witness_env _ _)). vm_compute. reflexivity.
Defined.

Lemma env_int_comments_witness :
  let U := witness_lower in
  let env : environ := {["COLLECTOR_BATCH_SIZE" := " 20000 # events"]} in
  ParsePositiveEnvInt env "COLLECTOR_BATCH_SIZE" 1 = 20000 ∧
  applyCollectorEnvVars env defaultConfig = Ok (set_Collector (Collector.mk 1840) defaultConfig).
Proof.
  intros U env.
  assert (H1 : forallb space1 [" "%char] = true) by (vm_compute; reflexivity).
  assert (H2 : 0 < 20000 < 2 ^ 63) by lia.
  assert (H3 : ∃ l c, "#"%char :: String.list_ascii_of_string " events" = l ++ [c] ∧ solid c = true).
  { exists (String.list_ascii_of_string "# event"), "s"%char. split; vm_compute; reflexivity. }
  destruct (env_int_comments [" "%char] [" "%char] (String.list_ascii_of_string " events") 20000 H1 H1 H2 H3
    env "COLLECTOR_BATCH_SIZE" 1 defaultConfig) as [H4 H5]; [vm_compute; reflexivity|].
  exact (conj H4 (H5 eq_refl)).
Defined.
