(* ===== verification/GrpcClient.v ===== *)
(** * The gRPC client (internal/grpc/client.go)

    Each method is a computation on the fields of [Client] that emits the calls
    it makes: on the gRPC library, on the metrics and to start goroutines.  The
    goroutines (callers, acknowledgement receivers, reconnection loops, rotation
    timers, [Close]) are interleaved by [step], which splits the methods where
    the code gives up its mutex or writes a field without holding it.

    The outcome of a library call is an argument: a connection or a stream is a
    number, an error a [goerror], a missing error [None]. *)

From S2P Require Import Prelude Float64 Clock Metrics Proto Config.
Import CloudForwarder(CloudForwarder).

(** What [builder] was given when it builds a connection; no TLS means
    [insecure.NewCredentials]. *)
Record dial_options := mkDial {
  address : string;
  oauth2 : option (string * string * string * string);
  tls : option (string * string * string * string);
}.

Inductive grpc_call :=
| Prom (c : prom_call)
| Build (o : dial_options)
| OpenStream (conn : nat)
| CloseConn (conn : nat)
| SendOn (stream : nat) (batch : EntropyBatch) (sent : option goerror)
| Sleep (d : Z)
| Cancel
| GoReceive
| GoReconnect
| GoRotate (timer : nat) (interval : Z)
| CancelRotate (timer : nat).

(** The fields of the Go struct but [client], the stub of [conn]; [cancelled]
    is the state of [ctx], [wg] the counter of the wait group, [rotateCancel] the
    timer it cancels, [timers] the number of timers started so far. *)
Record Client := mkClient {
  cfg : CloudForwarder;
  conn : option nat;
  stream : option nat;
  connected : bool;
  cancelled : bool;
  rotateCancel : option nat;
  reconnecting : bool;
  wg : Z;
  timers : nat;
}.

Definition M : Type → Type := GoM grpc_call Client.

Definition set_conn (v : option nat) (c : Client) : Client :=
  mkClient (cfg c) v (stream c) (connected c) (cancelled c) (rotateCancel c) (reconnecting c) (wg c) (timers c).
Definition set_stream (v : option nat) (c : Client) : Client :=
  mkClient (cfg c) (conn c) v (connected c) (cancelled c) (rotateCancel c) (reconnecting c) (wg c) (timers c).
Definition set_connected (v : bool) (c : Client) : Client :=
  mkClient (cfg c) (conn c) (stream c) v (cancelled c) (rotateCancel c) (reconnecting c) (wg c) (timers c).
Definition set_cancelled (v : bool) (c : Client) : Client :=
  mkClient (cfg c) (conn c) (stream c) (connected c) v (rotateCancel c) (reconnecting c) (wg c) (timers c).
Definition set_rotate (v : option nat) (n : nat) (c : Client) : Client :=
  mkClient (cfg c) (conn c) (stream c) (connected c) (cancelled c) v (reconnecting c) (wg c) n.
Definition set_reconnecting (v : bool) (c : Client) : Client :=
  mkClient (cfg c) (conn c) (stream c) (connected c) (cancelled c) (rotateCancel c) v (wg c) (timers c).
Definition set_wg (v : Z) (c : Client) : Client :=
  mkClient (cfg c) (conn c) (stream c) (connected c) (cancelled c) (rotateCancel c) (reconnecting c) v (timers c).

Definition metrics (l : list prom_call) : M unit := call (Prom <$> l).
Definition wg_Add (n : Z) : M unit := modify (λ c, set_wg (wg c + n) c).

(** ** Rotation timer *)

Definition stopRotationTimer : M unit :=
  c ← get;
  match rotateCancel c with
  | Some t => call [CancelRotate t] ;; modify (set_rotate None (timers c))
  | None => mret tt
  end.

Definition resetRotationTimer : M unit :=
  stopRotationTimer ;;
  c ← get;
  let interval := CloudForwarder.StreamRotateInterval (cfg c) in
  if interval <=? 0 then mret tt
  else
    modify (set_rotate (Some (timers c)) (S (timers c))) ;;
    wg_Add 1 ;;
    call [GoRotate (timers c) interval].

(** ** Connecting *)

Definition dial (f : CloudForwarder) : dial_options :=
  mkDial (CloudForwarder.ServerAddr f)
    (if CloudForwarder.OAuth2Enabled f then
       Some (CloudForwarder.OAuth2TokenURL f, CloudForwarder.OAuth2ClientID f,
         CloudForwarder.OAuth2ClientSecret f, CloudForwarder.OAuth2Scopes f)
     else None)
    (if CloudForwarder.TLSEnabled f then
       Some (CloudForwarder.TLSCAFile f, CloudForwarder.TLSCertFile f,
         CloudForwarder.TLSKeyFile f, CloudForwarder.TLSServerName f)
     else None).

(** [connect], cut where its unsynchronised writes can be observed. *)
Definition connect_build (built : result nat) : M (result nat) :=
  c ← get;
  call [Build (dial (cfg c))] ;;
  match built with
  | Err e => mret (Err (wrap "grpc: build client failed: " [] e))
  | Ok k => modify (set_conn (Some k)) ;; mret (Ok k)
  end.

Definition connect_stream (k : nat) (opened : result nat) : M (result nat) :=
  call [OpenStream k] ;;
  match opened with
  | Err e => call [CloseConn k] ;; mret (Err (wrap "grpc: stream creation failed: " [] e))
  | Ok s => modify (set_stream (Some s)) ;; mret (Ok s)
  end.

Definition connect_publish : M unit :=
  modify (set_connected true) ;;
  metrics (SetGRPCConnected true) ;;
  wg_Add 1 ;;
  call [GoReceive].

Definition connect (built opened : result nat) : M (result unit) :=
  r ← connect_build built;
  match r with
  | Err e => mret (Err e)
  | Ok k =>
      r ← connect_stream k opened;
      match r with
      | Err e => mret (Err e)
      | Ok _ => connect_publish ;; resetRotationTimer ;; mret (Ok tt)
      end
  end.

Definition NewClient (f : CloudForwarder) (built opened : result nat) : result Client * list grpc_call :=
  if negb (CloudForwarder.Enabled f) then (Err (Errorf "grpc: cloud forwarder is disabled" []), [])
  else if String.eqb (CloudForwarder.ServerAddr f) EmptyString then
    (Err (Errorf "grpc: server address is required" []), [])
  else
    match connect built opened (mkClient f None None false false None false 0 0) with
    | (Err e, _, w) => (Err (wrap "grpc: initial connection failed: " [] e), w ++ [Cancel])
    | (Ok _, c, w) => (Ok c, w)
    end.

(** ** Sending and receiving *)

(** [SendBatch] up to [stream.Send], with [now] for [time.Now().UnixMicro()]:
    the stream and the message, or no message when the client is disconnected;
    sending on a nil stream panics, [None] is the panic. *)
Definition send_begin (events : list Proto.TDCEvent) (sequence now : Z) : M (option (option (nat * EntropyBatch))) :=
  c ← get;
  if negb (connected c) then mret (Some None)
  else
    let batch := mkEntropyBatch events None (u64 now) sequence EmptyString 0 0 [] CHECKSUM_ALGO_UNSPECIFIED []
      None COMPRESSION_NONE 0 None None None in
    match stream c with
    | None => mret None
    | Some s => mret (Some (Some (s, batch)))
    end.

(** [stream.Send], which may block and returns [sent], and what follows it. *)
Definition send_end (s : nat) (batch : EntropyBatch) (sent : option goerror) : M (result unit) :=
  call [SendOn s batch sent] ;;
  match sent with
  | Some e =>
      modify (set_connected false) ;;
      metrics (SetGRPCConnected false) ;;
      metrics (RecordGRPCError "send_failed") ;;
      call [GoReconnect] ;;
      mret (Err (wrap "grpc: send batch failed: " [] e))
  | None => mret (Ok tt)
  end.

Definition SendBatch (events : list Proto.TDCEvent) (sequence now : Z) (sent : option goerror)
    : M (option (result unit)) :=
  r ← send_begin events sequence now;
  match r with
  | None => mret None
  | Some None => mret (Some (Err (Errorf "grpc: not connected" [])))
  | Some (Some (s, batch)) => r ← send_end s batch sent; mret (Some r)
  end.

Definition handleAck (ack : option Ack) : M unit :=
  match ack with
  | None => mret tt
  | Some ack =>
      metrics (RecordCloudAck (Success ack) (Message ack)) ;;
      (if GetBackpressure ack then metrics RecordBackpressure else mret tt) ;;
      (if 0 <? len (MissingSequences ack) then metrics (RecordMissingSequence (len (MissingSequences ack)))
       else mret tt)
  end.

(** [receiveAcks] after a failed [Recv]: the metric, then the locked section. *)
Definition receive_error (eof : bool) : M unit :=
  if eof then mret tt else metrics (RecordGRPCError "recv_failed").

Definition receive_disconnect : M unit :=
  modify (set_connected false) ;;
  metrics (SetGRPCConnected false) ;;
  call [GoReconnect].

Definition receive_exit : M unit := wg_Add (-1).

(** ** Reconnecting *)

(** The test and set of [reconnecting]: whether this loop may run. *)
Definition reconnect_enter : M bool :=
  c ← get;
  if reconnecting c then mret false
  else modify (set_reconnecting true) ;; mret true.

Definition reconnect_exit : M unit := modify (set_reconnecting false).

Definition first_delay (f : CloudForwarder) : Z := mul_i64 (CloudForwarder.ReconnectDelay f) Second.
Definition max_delay (f : CloudForwarder) : Z := mul_i64 (CloudForwarder.MaxReconnectSec f) Second.

Definition next_delay (f : CloudForwarder) (delay : Z) : Z :=
  let delay := mul_i64 delay 2 in
  if max_delay f <? delay then max_delay f else delay.

(** The old connection is closed when the delay is over. *)
Definition reconnect_close : M unit :=
  c ← get;
  match conn c with Some k => call [CloseConn k] | None => mret tt end.

Definition IsConnected : M bool := c ← get; mret (connected c).

(** ** Closing: before and after [wg.Wait()] *)

Definition close_cancel : M unit :=
  stopRotationTimer ;;
  modify (set_cancelled true) ;;
  call [Cancel].

(** [closed] is what closing the connection returns. *)
Definition close_conn (closed : option goerror) : M (result unit) :=
  metrics (SetGRPCConnected false) ;;
  c ← get;
  match conn c with
  | Some k =>
      call [CloseConn k] ;;
      match closed with
      | Some e => mret (Err (wrap "grpc: close connection: " [] e))
      | None => mret (Ok tt)
      end
  | None => mret (Ok tt)
  end.

(** ** Goroutines *)

Inductive receiver :=
| RTop            (* about to look at the context and the stream *)
| RRecv (s : nat) (* in [stream.Recv()] *)
| RFail           (* [Recv] failed, about to take the mutex *)
| RDone.

Inductive reconnector :=
| QStart
| QLoop (delay : Z)  (* at the head of the loop *)
| QWait (delay : Z)  (* sleeping *)
| QBuild (delay : Z)
| QStream (delay : Z) (k : nat)
| QPublish
| QTimer
| QExit              (* about to clear [reconnecting] *)
| QDone.

Inductive timer := TArmed (cancelled : bool) | TDone.

Inductive closer := CWait | CReturned.

(** [sending] is the stream and the message of the caller of [SendBatch] that is
    inside [stream.Send], where it holds [c.mu]. *)
Record system := mkSystem {
  client : Client;
  receivers : list receiver;
  reconnectors : list reconnector;
  rotations : list timer;
  closers : list closer;
  sending : option (nat * EntropyBatch);
  log : list grpc_call;
}.

(** A call is logged; a new goroutine appears, a cancelled timer is marked. *)
Definition spawn (s : system) (c : grpc_call) : system :=
  let log := log s ++ [c] in
  match c with
  | GoReceive => mkSystem (client s) (receivers s ++ [RTop]) (reconnectors s) (rotations s) (closers s) (sending s) log
  | GoReconnect => mkSystem (client s) (receivers s) (reconnectors s ++ [QStart]) (rotations s) (closers s) (sending s) log
  | GoRotate _ _ =>
      mkSystem (client s) (receivers s) (reconnectors s) (rotations s ++ [TArmed false]) (closers s) (sending s) log
  | CancelRotate t =>
      mkSystem (client s) (receivers s) (reconnectors s)
        (match rotations s !! t with Some (TArmed _) => <[t := TArmed true]> (rotations s) | _ => rotations s end)
        (closers s) (sending s) log
  | _ => mkSystem (client s) (receivers s) (reconnectors s) (rotations s) (closers s) (sending s) log
  end.

Definition with_client (c : Client) (s : system) : system :=
  mkSystem c (receivers s) (reconnectors s) (rotations s) (closers s) (sending s) (log s).

(** Run a computation of some goroutine. *)
Definition exec {A} (m : M A) (s : system) : A * system :=
  match m (client s) with (a, c, w) => (a, foldl spawn (with_client c s) w) end.

Definition set_receiver (i : nat) (r : receiver) (s : system) : system :=
  mkSystem (client s) (<[i := r]> (receivers s)) (reconnectors s) (rotations s) (closers s) (sending s) (log s).
Definition set_reconnector (i : nat) (q : reconnector) (s : system) : system :=
  mkSystem (client s) (receivers s) (<[i := q]> (reconnectors s)) (rotations s) (closers s) (sending s) (log s).
Definition set_rotation (i : nat) (t : timer) (s : system) : system :=
  mkSystem (client s) (receivers s) (reconnectors s) (<[i := t]> (rotations s)) (closers s) (sending s) (log s).
Definition set_closer (i : nat) (p : closer) (s : system) : system :=
  mkSystem (client s) (receivers s) (reconnectors s) (rotations s) (<[i := p]> (closers s)) (sending s) (log s).
Definition add_closer (s : system) : system :=
  mkSystem (client s) (receivers s) (reconnectors s) (rotations s) (closers s ++ [CWait]) (sending s) (log s).
Definition set_sending (j : option (nat * EntropyBatch)) (s : system) : system :=
  mkSystem (client s) (receivers s) (reconnectors s) (rotations s) (closers s) j (log s).

(** What happens next: a goroutine moves, with the outcome of the library call it makes. *)
Inductive label :=
| LSend (events : list Proto.TDCEvent) (sequence now : Z)
| LSent (sent : option goerror)
| LReceive (i : nat)
| LAck (i : nat) (ack : option Ack)
| LRecvError (i : nat) (eof : bool)
| LDisconnect (i : nat)
| LReconnect (i : nat)
| LLoop (i : nat)
| LWake (i : nat) (timeout : bool)
| LBuild (i : nat) (built : result nat)
| LStream (i : nat) (opened : result nat)
| LPublish (i : nat)
| LTimer (i : nat)
| LExit (i : nat)
| LRotate (t : nat) (fired : bool)
| LClose
| LCloseWait (i : nat) (closed : option goerror).

(** What takes [c.mu]; a receiver only after it has found the context alive. *)
Definition takes_mu (l : label) (s : system) : bool :=
  match l with
  | LSend _ _ _ | LDisconnect _ | LWake _ true | LCloseWait _ _ => true
  | LReceive _ => negb (cancelled (client s))
  | _ => false
  end.

Definition mu_held (s : system) : bool := match sending s with Some _ => true | None => false end.

(** What a goroutine does that is not waiting for the mutex. *)
Definition move (l : label) (s : system) : option system :=
  match l with
  | LSend events sequence now =>
      match exec (send_begin events sequence now) s with
      | (Some j, s) => Some (set_sending j s)
      | (None, _) => None
      end
  | LSent sent =>
      match sending s with
      | Some (k, batch) => Some (exec (send_end k batch sent) (set_sending None s)).2
      | None => None
      end
  | LReceive i =>
      match receivers s !! i with
      | Some RTop =>
          if cancelled (client s) then Some (exec receive_exit (set_receiver i RDone s)).2
          else
            match stream (client s) with
            | None => Some s
            | Some k => Some (set_receiver i (RRecv k) s)
            end
      | _ => None
      end
  | LAck i ack =>
      match receivers s !! i with
      | Some (RRecv _) => Some (exec (handleAck ack) (set_receiver i RTop s)).2
      | _ => None
      end
  | LRecvError i eof =>
      match receivers s !! i with
      | Some (RRecv _) => Some (exec (receive_error eof) (set_receiver i RFail s)).2
      | _ => None
      end
  | LDisconnect i =>
      match receivers s !! i with
      | Some RFail => Some (exec (receive_disconnect ;; receive_exit) (set_receiver i RDone s)).2
      | _ => None
      end
  | LReconnect i =>
      match reconnectors s !! i with
      | Some QStart =>
          match exec reconnect_enter s with
          | (true, s) => Some (set_reconnector i (QLoop (first_delay (cfg (client s)))) s)
          | (false, s) => Some (set_reconnector i QDone s)
          end
      | _ => None
      end
  | LLoop i =>
      match reconnectors s !! i with
      | Some (QLoop delay) =>
          if cancelled (client s) then Some (set_reconnector i QExit s)
          else Some (exec (call [Sleep delay]) (set_reconnector i (QWait delay) s)).2
      | _ => None
      end
  | LWake i timeout =>
      match reconnectors s !! i with
      | Some (QWait delay) =>
          if timeout : bool then Some (exec reconnect_close (set_reconnector i (QBuild delay) s)).2
          else if cancelled (client s) then Some (set_reconnector i QExit s)
          else None
      | _ => None
      end
  | LBuild i built =>
      match reconnectors s !! i with
      | Some (QBuild delay) =>
          match exec (connect_build built) s with
          | (Ok k, s) => Some (set_reconnector i (QStream delay k) s)
          | (Err _, s) =>
              Some (set_reconnector i (QLoop (next_delay (cfg (client s)) delay)) (exec (metrics RecordGRPCReconnect) s).2)
          end
      | _ => None
      end
  | LStream i opened =>
      match reconnectors s !! i with
      | Some (QStream delay k) =>
          match exec (connect_stream k opened) s with
          | (Ok _, s) => Some (set_reconnector i QPublish s)
          | (Err _, s) =>
              Some (set_reconnector i (QLoop (next_delay (cfg (client s)) delay)) (exec (metrics RecordGRPCReconnect) s).2)
          end
      | _ => None
      end
  | LPublish i =>
      match reconnectors s !! i with
      | Some QPublish => Some (exec connect_publish (set_reconnector i QTimer s)).2
      | _ => None
      end
  | LTimer i =>
      match reconnectors s !! i with
      | Some QTimer =>
          Some (exec (resetRotationTimer ;; metrics RecordGRPCReconnect) (set_reconnector i QExit s)).2
      | _ => None
      end
  | LExit i =>
      match reconnectors s !! i with
      | Some QExit => Some (exec reconnect_exit (set_reconnector i QDone s)).2
      | _ => None
      end
  | LRotate t fired =>
      match rotations s !! t with
      | Some (TArmed c) =>
          if fired : bool then Some (exec (call [GoReconnect] ;; wg_Add (-1)) (set_rotation t TDone s)).2
          else if c || cancelled (client s) then Some (exec (wg_Add (-1)) (set_rotation t TDone s)).2
          else None
      | _ => None
      end
  | LClose => Some (add_closer (exec close_cancel s).2)
  | LCloseWait i closed =>
      match closers s !! i with
      | Some CWait =>
          if wg (client s) =? 0 then Some (exec (close_conn closed) (set_closer i CReturned s)).2 else None
      | _ => None
      end
  end.

(** One step; [None] when the label does not apply. *)
Definition step (l : label) (s : system) : option system :=
  if takes_mu l s && mu_held s then None else move l s.

Fixpoint run (ls : list label) (s : system) : option system :=
  match ls with
  | [] => Some s
  | l :: ls => s ← step l s; run ls s
  end.

(** The system of a client that [NewClient] has just returned. *)
Definition start (f : CloudForwarder) (built opened : result nat) : option system :=
  match NewClient f built opened with
  | (Ok c, w) => Some (foldl spawn (mkSystem c [] [] [] [] None []) w)
  | (Err _, _) => None
  end.

(** ** Invariant *)

Definition active (q : reconnector) : bool :=
  match q with QStart | QDone => false | _ => true end.
Definition live (r : receiver) : bool := match r with RDone => false | _ => true end.
Definition armed (t : timer) : bool := match t with TArmed _ => true | TDone => false end.

(** The flag [reconnecting] counts the running loops, the wait group the receivers
    and timers; in the middle of a step they are off by [dl] and [dw]. *)
Record inv_off (dl dw : Z) (s : system) : Prop := {
  inv_loop : count active (reconnectors s) = Z.b2z (reconnecting (client s)) + dl;
  inv_wg : wg (client s) = count live (receivers s) + count armed (rotations s) + dw;
  inv_stream : stream (client s) ≠ None;
  inv_timers : timers (client s) = length (rotations s);
  inv_rotate : ∀ t, rotations s !! t = Some (TArmed false) → rotateCancel (client s) = Some t;
}.

Definition invariant : system → Prop := inv_off 0 0.

(** Moving one goroutine, all else equal. *)
Lemma inv_receiver i r r' dl dw s :
  receivers s !! i = Some r → inv_off dl (dw + Z.b2z (live r') - Z.b2z (live r)) s →
  inv_off dl dw (set_receiver i r' s).
Proof. intros Hi []. split; cbn; try done. rewrite (count_insert _ _ _ _ _ Hi). lia. Qed.

Lemma inv_reconnector i q q' dl dw s :
  reconnectors s !! i = Some q → inv_off (dl + Z.b2z (active q) - Z.b2z (active q')) dw s →
  inv_off dl dw (set_reconnector i q' s).
Proof. intros Hi []. split; cbn; try done. rewrite (count_insert _ _ _ _ _ Hi). lia. Qed.

Lemma inv_rotation i b dl dw s :
  rotations s !! i = Some (TArmed b) → inv_off dl (dw - 1) s → inv_off dl dw (set_rotation i TDone s).
Proof.
  intros Hi []. split; cbn; try done.
  - rewrite (count_insert _ _ _ _ _ Hi). cbn. lia.
  - by rewrite length_insert.
  - intros t Ht. apply list_lookup_insert_Some in Ht as [(_ & [=] & _)|[_ Ht]]. by apply inv_rotate0.
Qed.

(** Calls other than starting a goroutine or cancelling a timer only extend the log. *)
Definition quiet (c : grpc_call) : bool :=
  match c with GoReceive | GoReconnect | GoRotate _ _ | CancelRotate _ => false | _ => true end.

Definition same_goroutines (s s' : system) : Prop :=
  client s' = client s ∧ receivers s' = receivers s ∧ reconnectors s' = reconnectors s ∧
  rotations s' = rotations s ∧ closers s' = closers s ∧ sending s' = sending s.

Lemma spawn_quiet w s : forallb quiet w = true → same_goroutines s (foldl spawn s w).
Proof.
  revert s. induction w as [|c w IH]; intros s; [done|]. cbn. intros [Hc Hw]%andb_true_iff.
  destruct (IH (spawn s c) Hw) as (E1 & E2 & E3 & E4 & E5 & E6). unfold same_goroutines.
  rewrite E1, E2, E3, E4, E5, E6. by destruct c.
Qed.

Lemma inv_same dl dw s s' : same_goroutines s s' → inv_off dl dw s → inv_off dl dw s'.
Proof. intros (E1 & E2 & E3 & E4 & E5) []. split; by rewrite ?E1, ?E2, ?E3, ?E4. Qed.

(** A new reconnection attempt is not active yet. *)
Lemma inv_spawn_reconnect dl dw s : inv_off dl dw s → inv_off dl dw (spawn s GoReconnect).
Proof. intros []. split; cbn; try done. rewrite count_app. cbn. lia. Qed.

Lemma inv_spawn_receive dl dw s : inv_off dl (dw + 1) s → inv_off dl dw (spawn s GoReceive).
Proof. intros []. split; cbn; try done. rewrite count_app. cbn. lia. Qed.

Lemma inv_connected b dl dw s : inv_off dl dw s → inv_off dl dw (with_client (set_connected b (client s)) s).
Proof. intros []. by split. Qed.

Lemma inv_set_wg n dl dw s :
  inv_off dl (dw - n) s → inv_off dl dw (with_client (set_wg (wg (client s) + n) (client s)) s).
Proof. intros []. split; cbn; try done. lia. Qed.

Lemma inv_stop dl dw s :
  inv_off dl dw s →
  inv_off dl dw (exec stopRotationTimer s).2 ∧ rotateCancel (client (exec stopRotationTimer s).2) = None.
Proof.
  intros []. unfold exec, stopRotationTimer, mbind, GoM_bind, get.
  destruct (rotateCancel (client s)) as [t|] eqn:Ht; cbn.
  - split; [|done]. split; cbn; try done.
    + destruct (rotations s !! t) as [[]|] eqn:Hr; [|done..]. rewrite (count_insert _ _ _ _ _ Hr). cbn. lia.
    + destruct (rotations s !! t) as [[]|] eqn:Hr; by rewrite ?length_insert.
    + intros u Hu. exfalso. destruct (rotations s !! t) as [[b|]|] eqn:Hr.
      * apply list_lookup_insert_Some in Hu as [(_ & [=] & _)|[Hne Hu]].
        apply inv_rotate0 in Hu. congruence.
      * apply inv_rotate0 in Hu as E. congruence.
      * apply inv_rotate0 in Hu as E. congruence.
  - split; [split; cbn; rewrite ?Ht; done|done].
Qed.

(** Computations run one after the other. *)
Lemma spawn_with_client c w s : foldl spawn (with_client c s) w = with_client c (foldl spawn s w).
Proof.
  revert s. induction w as [|x w IH]; intros s; [done|]. cbn. rewrite <-IH. f_equal. by destruct x.
Qed.

Lemma exec_bind {A B} (m : M A) (f : A → M B) s :
  exec (m ≫= f) s = exec (f (exec m s).1) (exec m s).2.
Proof.
  unfold exec, mbind, GoM_bind. destruct (m (client s)) as [[a c] w]. cbn.
  assert (client (foldl spawn (with_client c s) w) = c) as ->.
  { rewrite spawn_with_client. done. }
  destruct (f a c) as [[b c2] w2]. rewrite foldl_app, !spawn_with_client. done.
Qed.

Lemma exec_get s : exec get s = (client s, s).
Proof. by destruct s. Qed.

Lemma exec_modify f s : exec (modify f) s = (tt, with_client (f (client s)) s).
Proof. done. Qed.

Lemma exec_call w s : exec (call w) s = (tt, foldl spawn s w).
Proof. by destruct s. Qed.

Lemma exec_ret {A} (a : A) s : exec (mret a) s = (a, s).
Proof. by destruct s. Qed.

Lemma exec_metrics l s : same_goroutines s (exec (metrics l) s).2.
Proof. unfold metrics. rewrite exec_call. apply spawn_quiet. by induction l. Qed.

Create Rewrite HintDb exec.
Hint Rewrite @exec_bind exec_get exec_modify exec_call @exec_ret : exec.

Lemma inv_metrics l dl dw s : inv_off dl dw s → inv_off dl dw (exec (metrics l) s).2.
Proof. apply inv_same, exec_metrics. Qed.

Lemma inv_call w dl dw s : forallb quiet w = true → inv_off dl dw s → inv_off dl dw (foldl spawn s w).
Proof. intros Hw. by apply inv_same, spawn_quiet. Qed.

Lemma inv_spawn_quiet c dl dw s : quiet c = true → inv_off dl dw s → inv_off dl dw (spawn s c).
Proof. intros Hc. apply (inv_call [c]). cbn. by rewrite Hc. Qed.

Lemma inv_reset dl dw s : inv_off dl dw s → inv_off dl dw (exec resetRotationTimer s).2.
Proof.
  intros Hi. destruct (inv_stop dl dw s Hi) as [Hs Hr]. unfold resetRotationTimer. rewrite exec_bind.
  set (s1 := (exec stopRotationTimer s).2) in *. clearbody s1. rewrite exec_bind, exec_get. cbn [fst snd]. cbv zeta.
  destruct (_ <=? 0); [by rewrite exec_ret|]. unfold wg_Add. rewrite !exec_bind, !exec_modify. cbn [fst snd].
  rewrite exec_call. destruct Hs. split; cbn; try done.
  - rewrite count_app. cbn. lia.
  - rewrite length_app. cbn. lia.
  - intros t Ht. apply lookup_app_Some in Ht as [Ht|[Hle Ht]].
    + apply inv_rotate0 in Ht. congruence.
    + destruct (t - length (rotations s1))%nat as [|[|]] eqn:E; try done. f_equal. lia.
Qed.

Lemma inv_handleAck ack dl dw s : inv_off dl dw s → inv_off dl dw (exec (handleAck ack) s).2.
Proof.
  intros Hi. unfold handleAck. destruct ack as [a|]; [|by rewrite exec_ret]. rewrite !exec_bind.
  assert (Hif : ∀ (b : bool) l s, inv_off dl dw s → inv_off dl dw (exec (if b then metrics l else mret tt) s).2).
  { intros b l s' Hs. destruct b; [by apply inv_metrics|by rewrite exec_ret]. }
  by apply Hif, Hif, inv_metrics.
Qed.

Lemma inv_disconnect dl dw s : inv_off dl dw s → inv_off dl dw (exec receive_disconnect s).2.
Proof.
  intros Hi. unfold receive_disconnect. rewrite !exec_bind, exec_modify, exec_call.
  cbn [fst snd foldl]. by apply inv_spawn_reconnect, inv_metrics, inv_connected.
Qed.

(** What [send_begin] finds, when the stream is there. *)
Lemma send_begin_eq events sequence now s :
  exec (send_begin events sequence now) s = (run_val (send_begin events sequence now) (client s), s).
Proof.
  unfold send_begin. rewrite exec_bind, exec_get. cbn [fst snd]. unfold run_val, mbind, GoM_bind, get.
  destruct (negb (connected (client s))); [by rewrite exec_ret|]. by destruct (stream (client s)); rewrite exec_ret.
Qed.

Lemma begin_stream events sequence now dl dw s :
  inv_off dl dw s → is_Some (run_val (send_begin events sequence now) (client s)).
Proof.
  intros []. unfold run_val, send_begin, mbind, GoM_bind, get. cbn. destruct (connected _); [|by eexists].
  destruct (stream (client s)); [by eexists|done].
Qed.

Lemma inv_sending j dl dw s : inv_off dl dw s → inv_off dl dw (set_sending j s).
Proof. intros []. by split. Qed.

Lemma inv_end k batch sent dl dw s : inv_off dl dw s → inv_off dl dw (exec (send_end k batch sent) s).2.
Proof.
  intros Hi. unfold send_end. rewrite exec_bind, exec_call. cbn [fst snd foldl]. destruct sent as [e|].
  - rewrite !exec_bind, exec_modify, exec_call, exec_ret. cbn [fst snd foldl].
    apply inv_spawn_reconnect, inv_metrics, inv_metrics, inv_connected. by apply inv_spawn_quiet.
  - rewrite exec_ret. by apply inv_spawn_quiet.
Qed.

Lemma inv_send events sequence now sent dl dw s :
  inv_off dl dw s →
  (exec (SendBatch events sequence now sent) s).1 ≠ None ∧
  inv_off dl dw (exec (SendBatch events sequence now sent) s).2.
Proof.
  intros Hi. unfold SendBatch. rewrite exec_bind, send_begin_eq. cbn [fst snd].
  destruct (begin_stream events sequence now dl dw s Hi) as [[[k batch]|] ->]; [|by rewrite exec_ret].
  rewrite exec_bind, exec_ret. split; [done|]. by apply inv_end.
Qed.

Lemma inv_publish dl dw s : inv_off dl dw s → inv_off dl dw (exec connect_publish s).2.
Proof.
  intros Hi. unfold connect_publish, wg_Add. rewrite !exec_bind, !exec_modify, exec_call.
  cbn [fst snd foldl]. apply inv_spawn_receive, inv_set_wg.
  replace (dw + 1 - 1) with dw by lia. by apply inv_metrics, inv_connected.
Qed.

Lemma inv_build built dl dw s : inv_off dl dw s → inv_off dl dw (exec (connect_build built) s).2.
Proof.
  intros Hi. unfold connect_build. rewrite exec_bind, exec_get, exec_bind, exec_call. cbn [fst snd].
  destruct built as [k|e].
  - rewrite exec_bind, exec_modify, exec_ret. apply (inv_call [Build (dial (cfg (client s)))]) in Hi as []; [|done].
    by split.
  - rewrite exec_ret. by apply inv_call.
Qed.

Lemma inv_open k opened dl dw s : inv_off dl dw s → inv_off dl dw (exec (connect_stream k opened) s).2.
Proof.
  intros Hi. unfold connect_stream. rewrite exec_bind, exec_call. cbn [fst snd].
  apply (inv_call [OpenStream k]) in Hi; [|done]. destruct opened as [n|e].
  - rewrite exec_bind, exec_modify, exec_ret. destruct Hi. by split.
  - rewrite exec_bind, exec_call, exec_ret. by apply inv_call.
Qed.

Lemma inv_reconnect_close dl dw s : inv_off dl dw s → inv_off dl dw (exec reconnect_close s).2.
Proof.
  intros Hi. unfold reconnect_close. rewrite exec_bind, exec_get. cbn [fst snd].
  destruct (conn (client s)); [rewrite exec_call; by apply inv_spawn_quiet|by rewrite exec_ret].
Qed.

Lemma inv_close_conn closed dl dw s : inv_off dl dw s → inv_off dl dw (exec (close_conn closed) s).2.
Proof.
  intros Hi. unfold close_conn. rewrite !exec_bind, exec_get. cbn [fst snd].
  apply (inv_metrics (SetGRPCConnected false)) in Hi. set (s1 := (exec _ s).2) in *. clearbody s1.
  destruct (conn (client s1)); [|by rewrite exec_ret]. rewrite exec_bind, exec_call. cbn [fst snd].
  destruct closed; rewrite exec_ret; by apply inv_spawn_quiet.
Qed.

Lemma inv_close_cancel dl dw s : inv_off dl dw s → inv_off dl dw (exec close_cancel s).2.
Proof.
  intros Hi. unfold close_cancel. rewrite !exec_bind, exec_modify, exec_call.
  destruct (inv_stop dl dw s Hi) as [Hs _]. apply inv_spawn_quiet; [done|]. destruct Hs. by split.
Qed.

Lemma inv_add_closer dl dw s : inv_off dl dw s → inv_off dl dw (add_closer s).
Proof. intros []. by split. Qed.

Lemma inv_set_closer i p dl dw s : inv_off dl dw s → inv_off dl dw (set_closer i p s).
Proof. intros []. by split. Qed.

(** The phase of a goroutine is still there after a computation. *)
Lemma reconnectors_exec {A} (m : M A) s i q :
  reconnectors s !! i = Some q → reconnectors (exec m s).2 !! i = Some q.
Proof.
  intros Hi. unfold exec. destruct (m (client s)) as [[a c] w]. cbn. rewrite spawn_with_client. cbn.
  revert s Hi. induction w as [|x w IH]; intros s Hi; [done|]. cbn. apply IH.
  destruct x; cbn; try done. by apply lookup_app_l_Some.
Qed.

Lemma Some_inj {A} (x y : A) : Some x = Some y → x = y.
Proof. congruence. Qed.

(** The goroutine of the client that a label moves. *)
Definition receiver_label (l : label) : bool :=
  match l with LReceive _ | LAck _ _ | LRecvError _ _ | LDisconnect _ => true | _ => false end.
Definition reconnector_label (l : label) : bool :=
  match l with
  | LReconnect _ | LLoop _ | LWake _ _ | LBuild _ _ | LStream _ _ | LPublish _ | LTimer _ | LExit _ => true
  | _ => false
  end.

Lemma receiver_invariant l s s' :
  receiver_label l = true → move l s = Some s' → invariant s → invariant s'.
Proof.
  unfold invariant. intros Hl Hstep Hi. destruct l; try done; cbn [move] in Hstep.
  - destruct (receivers s !! i) as [[]|] eqn:Hr; try done. destruct (cancelled _).
    + apply Some_inj in Hstep as <-. unfold receive_exit, wg_Add. rewrite exec_modify. cbn [snd].
      apply inv_set_wg. by apply (inv_receiver i RTop).
    + destruct (stream _); apply Some_inj in Hstep as <-; [by apply (inv_receiver i RTop)|done].
  - destruct (receivers s !! i) as [[]|] eqn:Hr; try done. apply Some_inj in Hstep as <-.
    apply inv_handleAck. by apply (inv_receiver i (RRecv s0)).
  - destruct (receivers s !! i) as [[]|] eqn:Hr; try done. apply Some_inj in Hstep as <-. unfold receive_error.
    assert (inv_off 0 0 (set_receiver i RFail s)) by (by apply (inv_receiver i (RRecv s0))).
    destruct eof; [by rewrite exec_ret|by apply inv_metrics].
  - destruct (receivers s !! i) as [[]|] eqn:Hr; try done. apply Some_inj in Hstep as <-. rewrite exec_bind.
    unfold receive_exit, wg_Add. rewrite exec_modify. cbn [snd]. apply inv_set_wg, inv_disconnect.
    by apply (inv_receiver i RFail).
Qed.

Lemma reconnector_invariant l s s' :
  reconnector_label l = true → move l s = Some s' → invariant s → invariant s'.
Proof.
  unfold invariant. intros Hl Hstep Hi. destruct l; try done; cbn [move] in Hstep.
  - destruct (reconnectors s !! i) as [[]|] eqn:Hq; try done. unfold reconnect_enter in Hstep.
    rewrite exec_bind, exec_get in Hstep. cbn [fst snd] in Hstep. destruct (reconnecting (client s)) eqn:Hrec.
    + rewrite exec_ret in Hstep. apply Some_inj in Hstep as <-. by apply (inv_reconnector i QStart).
    + rewrite exec_bind, exec_modify, exec_ret in Hstep. apply Some_inj in Hstep as <-.
      apply (inv_reconnector i QStart); [done|]. destruct Hi. rewrite Hrec in *. by split.
  - destruct (reconnectors s !! i) as [[]|] eqn:Hq; try done. destruct (cancelled _); apply Some_inj in Hstep as <-.
    + by apply (inv_reconnector i (QLoop delay)).
    + rewrite exec_call. apply inv_call; [done|]. by apply (inv_reconnector i (QLoop delay)).
  - destruct (reconnectors s !! i) as [[]|] eqn:Hq; try done. destruct timeout.
    + apply Some_inj in Hstep as <-. apply inv_reconnect_close. by apply (inv_reconnector i (QWait delay)).
    + destruct (cancelled _); [|done]. apply Some_inj in Hstep as <-. by apply (inv_reconnector i (QWait delay)).
  - destruct (reconnectors s !! i) as [[]|] eqn:Hq; try done. pose proof (inv_build built 0 0 s Hi) as Hb.
    pose proof (reconnectors_exec (connect_build built) s i _ Hq) as Hq1.
    destruct (exec (connect_build built) s) as [[k|e] s1]; apply Some_inj in Hstep as <-; cbn [snd] in *.
    + by apply (inv_reconnector i (QBuild delay)).
    + apply (inv_reconnector i (QBuild delay)); [by apply reconnectors_exec|by apply inv_metrics].
  - destruct (reconnectors s !! i) as [[]|] eqn:Hq; try done. pose proof (inv_open k opened 0 0 s Hi) as Hb.
    pose proof (reconnectors_exec (connect_stream k opened) s i _ Hq) as Hq1.
    destruct (exec (connect_stream k opened) s) as [[n|e] s1]; apply Some_inj in Hstep as <-; cbn [snd] in *.
    + by apply (inv_reconnector i (QStream delay k)).
    + apply (inv_reconnector i (QStream delay k)); [by apply reconnectors_exec|by apply inv_metrics].
  - destruct (reconnectors s !! i) as [[]|] eqn:Hq; try done. apply Some_inj in Hstep as <-.
    apply inv_publish. by apply (inv_reconnector i QPublish).
  - destruct (reconnectors s !! i) as [[]|] eqn:Hq; try done. apply Some_inj in Hstep as <-. rewrite exec_bind.
    apply inv_metrics, inv_reset. by apply (inv_reconnector i QTimer).
  - destruct (reconnectors s !! i) as [[]|] eqn:Hq; try done. apply Some_inj in Hstep as <-.
    unfold reconnect_exit. rewrite exec_modify. cbn [snd].
    assert (Hi1 : inv_off (-1) 0 (set_reconnector i QDone s)) by (by apply (inv_reconnector i QExit)).
    destruct Hi1. split; try done. cbn in *. pose proof (count_nonneg active (<[i:=QDone]> (reconnectors s))).
    destruct (reconnecting (client s)); cbn in *; lia.
Qed.

Lemma step_move l s s' : step l s = Some s' → move l s = Some s'.
Proof. unfold step. by destruct (_ && _). Qed.

Lemma step_invariant l s s' : step l s = Some s' → invariant s → invariant s'.
Proof.
  intros Hstep%step_move Hi. destruct (receiver_label l) eqn:Hr; [by eapply receiver_invariant|].
  destruct (reconnector_label l) eqn:Hq; [by eapply reconnector_invariant|].
  unfold invariant in *. destruct l; try done; cbn [move] in Hstep.
  - rewrite send_begin_eq in Hstep. destruct (run_val _ _) as [j|]; [|done].
    apply Some_inj in Hstep as <-. by apply inv_sending.
  - destruct (sending s) as [[k batch]|]; [|done]. apply Some_inj in Hstep as <-. by apply inv_end, inv_sending.
  - destruct (rotations s !! t) as [[b|]|] eqn:Ht; try done. destruct fired.
    + apply Some_inj in Hstep as <-. unfold wg_Add. rewrite exec_bind, exec_call, exec_modify. cbn [fst snd].
      apply inv_set_wg, inv_spawn_reconnect. by apply (inv_rotation t b).
    + destruct (_ || _); [|done]. apply Some_inj in Hstep as <-. unfold wg_Add. rewrite exec_modify. cbn [snd].
      apply inv_set_wg. by apply (inv_rotation t b).
  - apply Some_inj in Hstep as <-. by apply inv_add_closer, inv_close_cancel.
  - destruct (closers s !! i) as [[]|]; try done. destruct (_ =? 0); [|done]. apply Some_inj in Hstep as <-.
    by apply inv_close_conn, inv_set_closer.
Qed.

Lemma run_invariant ls s s' : run ls s = Some s' → invariant s → invariant s'.
Proof.
  revert s. induction ls as [|l ls IH]; intros s; [by intros [= <-]|]. cbn [run].
  destruct (step l s) as [s1|] eqn:E; [|done]. cbn [mbind option_bind]. intros Hr Hi.
  by eapply IH, step_invariant.
Qed.

(** The client as [NewClient] builds it, seen through [exec]. *)
Lemma start_eq f built opened s :
  start f built opened = Some s →
  ∃ k n, built = Ok k ∧ opened = Ok n ∧
    s = (exec (connect (Ok k) (Ok n)) (mkSystem (mkClient f None None false false None false 0 0) [] [] [] [] None [])).2.
Proof.
  unfold start, NewClient. destruct (negb _); [done|]. destruct (String.eqb _ _); [done|].
  destruct built as [k|e]; [|by unfold connect, mbind, GoM_bind; cbn].
  destruct opened as [n|e]; [|by unfold connect, mbind, GoM_bind; cbn].
  intros Hs. exists k, n. split_and!; [done..|]. unfold exec. cbn [client].
  destruct (connect (Ok k) (Ok n) _) as [[[u|e] c] w] eqn:E; [|done]. by injection Hs as <-.
Qed.

Lemma start_invariant f built opened s : start f built opened = Some s → invariant s.
Proof.
  intros (k & n & -> & -> & ->)%start_eq. unfold connect. rewrite exec_bind.
  unfold connect_build. rewrite exec_bind, exec_get, exec_bind, exec_call, exec_bind, exec_modify, exec_ret.
  cbn [fst snd]. unfold connect_stream. rewrite exec_bind, exec_bind, exec_call, exec_bind, exec_modify, exec_ret.
  cbn [fst snd]. rewrite !exec_bind, exec_ret. cbn [fst snd]. apply inv_reset, inv_publish. by split.
Qed.

(** C25: whatever the goroutines of a client do and in whatever order, as long as it
    exists: at most one reconnection loop runs; sending never dereferences a nil
    stream; at most one rotation is pending; and the wait group that [Close]
    waits for is zero exactly when every receiver and every rotation timer
    started so far has returned. *)
Theorem client_goroutines f built opened ls s0 s :
  start f built opened = Some s0 → run ls s0 = Some s →
  count active (reconnectors s) = Z.b2z (reconnecting (client s)) ∧
  (∀ events sequence now sent, is_Some (run_val (SendBatch events sequence now sent) (client s))) ∧
  (∀ t1 t2, rotations s !! t1 = Some (TArmed false) → rotations s !! t2 = Some (TArmed false) → t1 = t2) ∧
  (wg (client s) = 0 ↔ Forall (λ r, r = RDone) (receivers s) ∧ Forall (λ t, t = TDone) (rotations s)).
Proof.
  intros H0 Hr. apply start_invariant in H0. pose proof (run_invariant ls s0 s Hr H0) as Hi. split_and!.
  - destruct Hi. lia.
  - intros events sequence now sent. destruct (inv_send events sequence now sent 0 0 s Hi) as [Hs _].
    unfold exec in Hs. unfold run_val. destruct (SendBatch _ _ _ _ _) as [[[r|] c] w]; [by eexists|done].
  - intros t1 t2 H1 H2. destruct Hi. apply inv_rotate0 in H1, H2. congruence.
  - destruct Hi as [_ Hw _ _ _]. pose proof (count_nonneg live (receivers s)). pose proof (count_nonneg armed (rotations s)).
    assert (Forall (λ r, r = RDone) (receivers s) ↔ count live (receivers s) = 0) as ->.
    { rewrite count_zero. apply Forall_iff. by intros []. }
    assert (Forall (λ t, t = TDone) (rotations s) ↔ count armed (rotations s) = 0) as ->.
    { rewrite count_zero. apply Forall_iff. by intros []. }
    lia.
Qed.

(** ** Sending *)

(** [SendBatch] on a connected client sends exactly one message on the current
    stream, carrying the events and the sequence number it was given, and nothing
    else happens when that succeeds; when it fails the client is disconnected,
    the gauge says so, the failure is counted, a reconnection is started and the
    error reported; a disconnected client refuses without any effect. *)
Theorem SendBatch_spec events sequence now sent c :
  let r := SendBatch events sequence now sent c in
  (connected c = false → r = (Some (Err (Errorf "grpc: not connected" [])), c, [])) ∧
  (∀ s, connected c = true → stream c = Some s →
     ∃ b, Events b = events ∧ BatchSequence b = sequence ∧ BatchTimestampUs b = u64 now ∧
       match sent with
       | None => r = (Some (Ok tt), c, [SendOn s b sent])
       | Some e =>
           r = (Some (Err (wrap "grpc: send batch failed: " [] e)), set_connected false c,
                [SendOn s b sent; Prom (Set_ GRPCConnected (of_int 0)); Prom (Inc GRPCStreamErrors ["send_failed"]);
                 GoReconnect])
       end).
Proof.
  unfold SendBatch, send_begin, send_end, metrics, mbind, GoM_bind, get, call, modify, mret, GoM_ret. split.
  - by intros ->.
  - intros s -> ->. eexists (mkEntropyBatch _ _ _ _ _ _ _ _ _ _ _ _ _ _ _ _). split; [reflexivity|].
    split; [reflexivity|]. split; [reflexivity|]. by destruct sent.
Qed.

(** ** Reconnecting *)

(** The delay before attempt [n], counted from 0. *)
Definition nth_delay (f : CloudForwarder) (n : nat) : Z := Nat.iter n (next_delay f) (first_delay f).

(** Doubled at each attempt up to the maximum; only the first delay may exceed it. *)
Lemma nth_delay_spec f n :
  let d := CloudForwarder.ReconnectDelay f in let m := CloudForwarder.MaxReconnectSec f in
  1 ≤ d ≤ 2 ^ 32 → 1 ≤ m ≤ 2 ^ 32 →
  nth_delay f n = (if decide (n = O) then d else Z.min (d * 2 ^ Z.of_nat n) m) * Second.
Proof.
  intros d m Hd Hm. change Second with 1000000000.
  assert (H0 : first_delay f = d * 1000000000) by (apply i64_id; change Second with 1000000000; unfold is_i64; lia).
  assert (Hmax : max_delay f = m * 1000000000) by (apply i64_id; change Second with 1000000000; unfold is_i64; lia).
  assert (Hnext : ∀ x, 1 ≤ x ≤ 2 ^ 32 → next_delay f (x * 1000000000) = Z.min (x * 2) m * 1000000000).
  { intros x Hx. unfold next_delay, mul_i64. rewrite Hmax. cbv zeta. rewrite i64_id by (unfold is_i64; lia).
    destruct (Z.ltb_spec (m * 1000000000) (x * 1000000000 * 2)); lia. }
  induction n as [|n IH]; [exact H0|].
  change (nth_delay f (S n)) with (next_delay f (nth_delay f n)). rewrite IH.
  rewrite (decide_False (P := S n = O)) by done. rewrite Nat2Z.inj_succ, Z.pow_succ_r by lia.
  pose proof (Z.pow_pos_nonneg 2 (Z.of_nat n) ltac:(lia) ltac:(lia)).
  case_decide as Hn; rewrite Hnext by lia; f_equal; [subst; cbn|]; lia.
Qed.

(** One failed attempt of loop [i], and one that succeeds. *)
Inductive failure := BuildFails (e : goerror) | StreamFails (k : nat) (e : goerror).

Definition failed_attempt (i : nat) (x : failure) : list label :=
  [LLoop i; LWake i true] ++
  match x with
  | BuildFails e => [LBuild i (Err e)]
  | StreamFails k e => [LBuild i (Ok k); LStream i (Err e)]
  end.

Definition good_attempt (i k n : nat) : list label :=
  [LLoop i; LWake i true; LBuild i (Ok k); LStream i (Ok n); LPublish i; LTimer i; LExit i].

Definition slept (l : list grpc_call) : list Z := omap (λ c, match c with Sleep d => Some d | _ => None end) l.

Lemma slept_app l k : slept (l ++ k) = slept l ++ slept k.
Proof. apply omap_app. Qed.

Lemma run_app ls ks s : run (ls ++ ks) s = (s' ← run ls s; run ks s').
Proof.
  revert s. induction ls as [|l ls IH]; intros s; [done|]. cbn [app run].
  destruct (step l s) as [s1|]; [apply IH|done].
Qed.

Lemma log_exec {A} (m : M A) s : log (exec m s).2 = log s ++ run_calls m (client s).
Proof.
  unfold exec, run_calls. destruct (m (client s)) as [[a c] w]. cbn. rewrite spawn_with_client. cbn.
  revert s. induction w as [|x w IH]; intros s; cbn; [by rewrite app_nil_r|].
  rewrite IH. assert (log (spawn s x) = log s ++ [x]) as -> by (by destruct x).
  by rewrite <-(assoc_L (++)).
Qed.

Lemma client_exec {A} (m : M A) s : client (exec m s).2 = run_state m (client s).
Proof.
  unfold exec, run_state. destruct (m (client s)) as [[a c] w]. cbn. by rewrite spawn_with_client.
Qed.

Lemma val_exec {A} (m : M A) s : (exec m s).1 = run_val m (client s).
Proof. unfold exec, run_val. by destruct (m (client s)) as [[a c] w]. Qed.

Lemma sending_exec {A} (m : M A) s : sending (exec m s).2 = sending s.
Proof.
  unfold exec. destruct (m (client s)) as [[a c] w]. cbn. rewrite spawn_with_client. cbn.
  revert s. induction w as [|x w IH]; intros s; [done|]. cbn. rewrite IH. by destruct x.
Qed.

(** Nobody waits for a free mutex. *)
Lemma step_free l s : sending s = None → step l s = move l s.
Proof. intros Hs. unfold step, mu_held. by rewrite Hs, andb_false_r. Qed.

Lemma exec_cases {A} (m : M A) s : exec m s = (run_val m (client s), (exec m s).2).
Proof. rewrite <-val_exec. by destruct (exec m s). Qed.

Lemma set_reconnector_here i q q' s :
  reconnectors s !! i = Some q → reconnectors (set_reconnector i q' s) !! i = Some q'.
Proof. intros Hi. cbn. apply list_lookup_insert_eq. by eapply lookup_lt_Some. Qed.

Definition receives (c : grpc_call) : bool := match c with GoReceive => true | _ => false end.

Lemma receivers_exec {A} (m : M A) s :
  len (receivers (exec m s).2) = len (receivers s) + count receives (run_calls m (client s)).
Proof.
  unfold exec, run_calls. destruct (m (client s)) as [[a c] w]. cbn. rewrite spawn_with_client. cbn.
  revert s. induction w as [|x w IH]; intros s; cbn; [lia|]. rewrite IH.
  destruct x; cbn [spawn receivers receives Z.b2z]; rewrite ?len_app, ?len_cons, ?len_nil; lia.
Qed.

(** The loop that a label moves, and the computations that a label runs. *)
Definition loop_of (l : label) : option nat :=
  match l with
  | LReconnect i | LLoop i | LWake i _ | LBuild i _ | LStream i _ | LPublish i | LTimer i | LExit i => Some i
  | _ => None
  end.

Definition is_send (l : label) : bool := match l with LSend _ _ _ | LSent _ => true | _ => false end.

Definition may_idle (l : label) : bool :=
  match l with LSend _ _ _ | LReceive _ | LLoop _ | LWake _ false => true | _ => false end.

Inductive runs : label → ∀ {A}, M A → Prop :=
| runs_end k batch sent : runs (LSent sent) (send_end k batch sent)
| runs_leave i : runs (LReceive i) receive_exit
| runs_ack i ack : runs (LAck i ack) (handleAck ack)
| runs_error i eof : runs (LRecvError i eof) (receive_error eof)
| runs_disconnect i : runs (LDisconnect i) (receive_disconnect ;; receive_exit)
| runs_enter i : runs (LReconnect i) reconnect_enter
| runs_sleep i d : runs (LLoop i) (call [Sleep d])
| runs_wake i : runs (LWake i true) reconnect_close
| runs_built i k : runs (LBuild i (Ok k)) (connect_build (Ok k))
| runs_not_built i e : runs (LBuild i (Err e)) (connect_build (Err e) ;; metrics RecordGRPCReconnect)
| runs_opened i k n : runs (LStream i (Ok n)) (connect_stream k (Ok n))
| runs_not_opened i k e : runs (LStream i (Err e)) (connect_stream k (Err e) ;; metrics RecordGRPCReconnect)
| runs_publish i : runs (LPublish i) connect_publish
| runs_timer i : runs (LTimer i) (resetRotationTimer ;; metrics RecordGRPCReconnect)
| runs_exit i : runs (LExit i) reconnect_exit
| runs_rotate t : runs (LRotate t true) (call [GoReconnect] ;; wg_Add (-1))
| runs_no_rotation t : runs (LRotate t false) (wg_Add (-1))
| runs_cancel : runs LClose close_cancel
| runs_close i closed : runs (LCloseWait i closed) (close_conn closed)
| runs_nothing l : may_idle l = true → runs l (mret tt).

(** The same client, log and number of receivers, and the loops but the one that [l] moves. *)
Record like (l : label) (s s' : system) : Prop := {
  like_client : client s' = client s;
  like_log : log s' = log s;
  like_receivers : len (receivers s') = len (receivers s);
  like_loops : ∀ j q, loop_of l ≠ Some j → reconnectors s !! j = Some q → reconnectors s' !! j = Some q;
  like_sender : is_send l = false → sending s' = sending s;
}.

Lemma like_refl l s : like l s s.
Proof. by split. Qed.

Lemma like_receiver l i r s : like l s (set_receiver i r s).
Proof. split; try done. unfold len. cbn. by rewrite length_insert. Qed.

Lemma like_reconnector l i q s : loop_of l = Some i → like l s (set_reconnector i q s).
Proof.
  intros Hl. split; try done. intros j q' Hj Hq. cbn. rewrite list_lookup_insert_ne; [done|]. congruence.
Qed.

Lemma like_rotation l t x s : like l s (set_rotation t x s).
Proof. by split. Qed.

Lemma like_closer l i p s : like l s (set_closer i p s).
Proof. by split. Qed.

Lemma like_add_closer l s : like l s (add_closer s).
Proof. by split. Qed.

Lemma like_sending l j s : is_send l = true → like l s (set_sending j s).
Proof. intros Hl. split; try done. by rewrite Hl. Qed.

Create HintDb like.
#[export] Hint Resolve like_refl like_receiver like_rotation like_closer like_add_closer like_sending : like.
#[export] Hint Extern 1 (like _ _ (set_reconnector _ _ _)) => apply like_reconnector; reflexivity : like.

(** What running [m] in a step labelled [l] does to the client, the log and the goroutines. *)
Record ran (l : label) {A} (m : M A) (s s' : system) : Prop := {
  ran_client : client s' = run_state m (client s);
  ran_log : log s' = log s ++ run_calls m (client s);
  ran_receivers : len (receivers s') = len (receivers s) + count receives (run_calls m (client s));
  ran_loops : ∀ j q, loop_of l ≠ Some j → reconnectors s !! j = Some q → reconnectors s' !! j = Some q;
  ran_sender : is_send l = false → sending s' = sending s;
}.

Lemma ran_exec {A} (m : M A) l s s0 s' : like l s s0 → like l (exec m s0).2 s' → ran l m s s'.
Proof.
  intros [C1 L1 R1 Q1 S1] [C2 L2 R2 Q2 S2]. split.
  - by rewrite C2, client_exec, C1.
  - by rewrite L2, log_exec, L1, C1.
  - by rewrite R2, receivers_exec, R1, C1.
  - intros j q Hj Hq. apply Q2; [done|]. by apply reconnectors_exec, Q1.
  - intros Hl. by rewrite (S2 Hl), sending_exec, S1.
Qed.

Lemma ran_nothing l s s' : like l s s' → ran l (mret tt) s s'.
Proof. intros Hl. apply (ran_exec _ _ _ s); [apply like_refl|]. by rewrite exec_ret. Qed.

Definition moved (l : label) (s s' : system) : Prop := ∃ A (m : M A), runs l m ∧ ran l m s s'.

Lemma moved_exec {A} (m : M A) l s s0 s' : runs l m → like l s s0 → like l (exec m s0).2 s' → moved l s s'.
Proof. intros. exists A, m. split; [done|]. by eapply ran_exec. Qed.

Lemma moved_nothing l s s' : may_idle l = true → like l s s' → moved l s s'.
Proof. intros. exists unit, (mret tt). split; [by apply runs_nothing|by apply ran_nothing]. Qed.

(** [move] does what [runs] says. *)
Lemma loop_moved l i s s' : loop_of l = Some i → move l s = Some s' → moved l s s'.
Proof.
  intros Hl Hm. destruct l; try done; cbn [move] in Hm; destruct (reconnectors s !! _) as [[]|] eqn:Hq; try done.
  - rewrite (exec_cases reconnect_enter) in Hm.
    destruct (run_val reconnect_enter (client s)); apply Some_inj in Hm as <-;
      (eapply moved_exec; [constructor|apply like_refl|auto with like]).
  - destruct (cancelled _); apply Some_inj in Hm as <-; [apply moved_nothing; [done|auto with like]|].
    eapply moved_exec; [constructor|apply (like_reconnector _ i0); reflexivity|apply like_refl].
  - destruct timeout.
    + apply Some_inj in Hm as <-. eapply moved_exec; [constructor|apply (like_reconnector _ i0); reflexivity|apply like_refl].
    + destruct (cancelled _); [|done]. apply Some_inj in Hm as <-. apply moved_nothing; [done|auto with like].
  - destruct built as [k|e]; rewrite exec_cases in Hm;
      [change (run_val (connect_build (Ok k)) (client s)) with (@Ok nat k) in Hm
      |change (run_val (connect_build (Err e)) (client s)) with (@Err nat (wrap "grpc: build client failed: " [] e)) in Hm];
      apply Some_inj in Hm as <-; (eapply moved_exec; [constructor|apply like_refl|]); rewrite ?exec_bind; auto with like.
  - destruct opened as [n|e]; rewrite exec_cases in Hm;
      [change (run_val (connect_stream k (Ok n)) (client s)) with (@Ok nat n) in Hm
      |change (run_val (connect_stream k (Err e)) (client s)) with (@Err nat (wrap "grpc: stream creation failed: " [] e)) in Hm];
      apply Some_inj in Hm as <-; (eapply moved_exec; [constructor|apply like_refl|]); rewrite ?exec_bind; auto with like.
  - apply Some_inj in Hm as <-. eapply moved_exec; [constructor|apply (like_reconnector _ i0); reflexivity|apply like_refl].
  - apply Some_inj in Hm as <-. eapply moved_exec; [constructor|apply (like_reconnector _ i0); reflexivity|apply like_refl].
  - apply Some_inj in Hm as <-. eapply moved_exec; [constructor|apply (like_reconnector _ i0); reflexivity|apply like_refl].
Qed.

Lemma move_moved l s s' : move l s = Some s' → moved l s s'.
Proof.
  intros Hm. destruct (loop_of l) as [i|] eqn:Hl; [by eapply loop_moved|].
  destruct l; try done; cbn [move] in Hm.
  - rewrite send_begin_eq in Hm. destruct (run_val _ _); [|done]. apply Some_inj in Hm as <-.
    apply moved_nothing; [done|auto with like].
  - destruct (sending s) as [[k batch]|]; [|done]. apply Some_inj in Hm as <-.
    eapply moved_exec; [apply (runs_end k batch)|by apply like_sending|apply like_refl].
  - destruct (receivers s !! i) as [[]|]; try done. destruct (cancelled _); [|destruct (stream _)]; apply Some_inj in Hm as <-;
      [|apply moved_nothing; [done|auto with like]..]. eapply moved_exec; [constructor|apply like_receiver|apply like_refl].
  - destruct (receivers s !! i) as [[]|]; try done. apply Some_inj in Hm as <-.
    eapply moved_exec; [constructor|apply like_receiver|apply like_refl].
  - destruct (receivers s !! i) as [[]|]; try done. apply Some_inj in Hm as <-.
    eapply moved_exec; [constructor|apply like_receiver|apply like_refl].
  - destruct (receivers s !! i) as [[]|]; try done. apply Some_inj in Hm as <-.
    eapply moved_exec; [constructor|apply like_receiver|apply like_refl].
  - destruct (rotations s !! t) as [[]|]; try done. destruct fired; [|destruct (_ || _); [|done]]; apply Some_inj in Hm as <-;
      (eapply moved_exec; [constructor|apply like_rotation|apply like_refl]).
  - apply Some_inj in Hm as <-. eapply moved_exec; [constructor|apply like_refl|apply like_add_closer].
  - destruct (closers s !! i) as [[]|]; try done. destruct (_ =? 0); [|done]. apply Some_inj in Hm as <-.
    eapply moved_exec; [constructor|apply like_closer|apply like_refl].
Qed.

(** Only a sender takes and leaves the stream. *)
Lemma step_sender l s s' : step l s = Some s' → is_send l = false → sending s' = sending s.
Proof. intros (A & m & _ & [_ _ _ _ Hs])%step_move%move_moved. exact Hs. Qed.

(** ** What holds along a computation

    A relation between the client before, the calls and the client after that
    holds of nothing and of a sequence when it holds of its parts. *)
Class Path (Q : Client → list grpc_call → Client → Prop) := {
  path_refl c : Q c [] c;
  path_trans c1 w1 c2 w2 c3 : Q c1 w1 c2 → Q c2 w2 c3 → Q c1 (w1 ++ w2) c3;
}.

Definition along (Q : Client → list grpc_call → Client → Prop) {A} (m : M A) : Prop :=
  ∀ c, Q c (run_calls m c) (run_state m c).

Section along.
Context (Q : Client → list grpc_call → Client → Prop) `{!Path Q}.

Lemma along_ret {A} (a : A) : along Q (mret a).
Proof. intros c. apply path_refl. Qed.

Lemma along_get : along Q get.
Proof. intros c. apply path_refl. Qed.

Lemma along_modify f : (∀ c, Q c [] (f c)) → along Q (modify f).
Proof. intros Hf c. apply Hf. Qed.

Lemma along_call w : (∀ c, Q c w c) → along Q (call w).
Proof. intros Hw c. apply Hw. Qed.

Lemma along_bind {A B} (m : M A) (f : A → M B) : along Q m → (∀ a, along Q (f a)) → along Q (m ≫= f).
Proof.
  intros Hm Hf c. unfold run_calls, run_state. rewrite (bind_run _ _ _ _ _ _ (run_triple m c)). cbn [fst snd].
  eapply path_trans; [apply Hm|apply Hf].
Qed.

Lemma along_metrics l : (∀ c x, Q c [Prom x] c) → along Q (metrics l).
Proof.
  intros Hx. apply along_call. intros c. induction l as [|x l IH]; [apply path_refl|].
  cbn. change (Prom x :: ?w) with ([Prom x] ++ w). eapply path_trans; [apply Hx|exact IH].
Qed.
End along.

(** Walk through a computation; what is left is about its changes and calls. *)
Ltac walk :=
  repeat first [ apply along_bind; [typeclasses eauto| |intros ?] | apply along_ret; typeclasses eauto
               | apply along_get; typeclasses eauto | apply along_metrics; [typeclasses eauto|]
               | apply along_modify | apply along_call | case_match ].

(** *** Sending: only [SendBatch] puts messages on a stream *)

Definition sends (l : list grpc_call) : list (EntropyBatch * option goerror) :=
  omap (λ c, match c with SendOn _ b e => Some (b, e) | _ => None end) l.

Lemma sends_app l k : sends (l ++ k) = sends l ++ sends k.
Proof. apply omap_app. Qed.

Definition silent (c : Client) (w : list grpc_call) (c' : Client) : Prop := sends w = [].

#[export] Instance silent_path : Path silent.
Proof. split; [done|]. unfold silent. intros c1 w1 c2 w2 c3 H1 H2. by rewrite sends_app, H1, H2. Qed.

(** *** The fields of the reconnection loops *)

Definition apart (c : Client) (w : list grpc_call) (c' : Client) : Prop :=
  cfg c' = cfg c ∧ conn c' = conn c ∧ stream c' = stream c ∧ reconnecting c' = reconnecting c ∧
  cancelled c' = cancelled c ∧ slept w = [] ∧ count receives w = 0.

#[export] Instance apart_path : Path apart.
Proof.
  split; [by unfold apart|]. unfold apart. intros c1 w1 c2 w2 c3 (A1 & B1 & C1 & D1 & E1 & S1 & N1) (A2 & B2 & C2 & D2 & E2 & S2 & N2).
  split_and!; [congruence..| |rewrite count_app; lia]. by rewrite slept_app, S1, S2.
Qed.

(** *** The flag [connected] *)

Definition keeps_connected (c : Client) (w : list grpc_call) (c' : Client) : Prop := connected c' = connected c.

#[export] Instance keeps_connected_path : Path keeps_connected.
Proof. split; [done|]. unfold keeps_connected. congruence. Qed.

Definition disconnects (l : label) : bool := match l with LDisconnect _ | LSent (Some _) => true | _ => false end.
Definition publishes (l : label) : bool := match l with LPublish _ => true | _ => false end.

Ltac unfold_computations :=
  unfold send_end, receive_exit, receive_disconnect, handleAck, receive_error, reconnect_enter, reconnect_close,
    connect_build, connect_stream, connect_publish, resetRotationTimer, stopRotationTimer, reconnect_exit,
    close_cancel, close_conn, wg_Add.

Lemma runs_connected {A} (m : M A) l :
  runs l m → disconnects l = false → publishes l = false → along keeps_connected m.
Proof.
  intros [] Hd Hp; try done; try (destruct sent; [done|]); unfold_computations; walk; done.
Qed.

(** Only a failed send or receive clears the flag, only a new stream sets it. *)
Lemma step_connected l s s' :
  step l s = Some s' →
  connected (client s') = if disconnects l then false else if publishes l then true else connected (client s).
Proof.
  intros (A & m & Hr & [Hc _ _ _ _])%step_move%move_moved. rewrite Hc.
  destruct (disconnects l) eqn:Hd; [|destruct (publishes l) eqn:Hp].
  - destruct Hr; try done; [by destruct sent|by destruct l].
  - destruct Hr; try done. by destruct l.
  - exact (runs_connected m l Hr Hd Hp (client s)).
Qed.

(** ** A running loop among the other goroutines *)

(** What loop [i] depends on and changes. *)
Record view := mkView {
  phase : option reconnector;
  v_cfg : CloudForwarder;
  v_conn : option nat;
  v_stream : option nat;
  running : bool;
  v_receivers : Z;
  waits : list Z;
}.

Definition view_of (i : nat) (s : system) : view :=
  mkView (reconnectors s !! i) (cfg (client s)) (conn (client s)) (stream (client s)) (reconnecting (client s))
    (len (receivers s)) (slept (log s)).

(** The steps of a loop whose client is not being closed, on its view. *)
Definition loop_move (l : label) (v : view) : option view :=
  let 'mkView p f k n r j ws := v in
  match l, p with
  | LLoop _, Some (QLoop d) => Some (mkView (Some (QWait d)) f k n r j (ws ++ [d]))
  | LWake _ true, Some (QWait d) => Some (mkView (Some (QBuild d)) f k n r j ws)
  | LBuild _ (Ok k'), Some (QBuild d) => Some (mkView (Some (QStream d k')) f (Some k') n r j ws)
  | LBuild _ (Err _), Some (QBuild d) => Some (mkView (Some (QLoop (next_delay f d))) f k n r j ws)
  | LStream _ (Ok n'), Some (QStream d _) => Some (mkView (Some QPublish) f k (Some n') r j ws)
  | LStream _ (Err _), Some (QStream d _) => Some (mkView (Some (QLoop (next_delay f d))) f k n r j ws)
  | LPublish _, Some QPublish => Some (mkView (Some QTimer) f k n r (j + 1) ws)
  | LTimer _, Some QTimer => Some (mkView (Some QExit) f k n r j ws)
  | LExit _, Some QExit => Some (mkView (Some QDone) f k n false j ws)
  | _, _ => None
  end.

(** A step of the loop that runs [m] and goes on in phase [q]. *)
Lemma view_after {A} (m : M A) i q q' s s1 :
  reconnectors s !! i = Some q →
  s1 = set_reconnector i q' (exec m s).2 ∨ s1 = (exec m (set_reconnector i q' s)).2 →
  let c := run_state m (client s) in
  view_of i s1 = mkView (Some q') (cfg c) (conn c) (stream c) (reconnecting c)
    (len (receivers s) + count receives (run_calls m (client s))) (slept (log s) ++ slept (run_calls m (client s))) ∧
  cancelled (client s1) = cancelled c ∧ sending s1 = sending s.
Proof.
  intros Hi Hs1. cbv zeta. unfold view_of. rewrite <-slept_app, <-receivers_exec, <-log_exec, <-client_exec.
  destruct Hs1 as [-> | ->].
  - rewrite (set_reconnector_here i q) by (by apply reconnectors_exec). split_and!; [done..|]. apply (sending_exec m s).
  - rewrite (reconnectors_exec m _ i q') by (by eapply set_reconnector_here).
    rewrite !client_exec, !log_exec, !receivers_exec, sending_exec. cbn. unfold len. by split_and!.
Qed.

Lemma apart_timer : along apart (resetRotationTimer ;; metrics RecordGRPCReconnect).
Proof. unfold_computations. walk; done. Qed.

(** A step of the loop is the one [loop_move] takes on the view. *)
Lemma own_step i l q s s' :
  loop_of l = Some i → reconnectors s !! i = Some q → active q = true → cancelled (client s) = false →
  step l s = Some s' →
  loop_move l (view_of i s) = Some (view_of i s') ∧ cancelled (client s') = false ∧ sending s' = sending s.
Proof.
  intros Hl Hq Ha Hc Hs%step_move.
  assert (Hdo : ∀ {A} (m : M A) q', s' = set_reconnector i q' (exec m s).2 ∨ s' = (exec m (set_reconnector i q' s)).2 →
    cancelled (run_state m (client s)) = false →
    loop_move l (view_of i s) = Some (mkView (Some q') (cfg (run_state m (client s))) (conn (run_state m (client s)))
      (stream (run_state m (client s))) (reconnecting (run_state m (client s)))
      (len (receivers s) + count receives (run_calls m (client s))) (slept (log s) ++ slept (run_calls m (client s)))) →
    loop_move l (view_of i s) = Some (view_of i s') ∧ cancelled (client s') = false ∧ sending s' = sending s).
  { intros A m q' Hs' Hm ->. by destruct (view_after m i q q' s s' Hq Hs') as (-> & -> & ->). }
  destruct l; try done; injection Hl as ->; cbn [move] in Hs; rewrite Hq in Hs; destruct q; try done.
  all: unfold view_of in Hdo |- *; rewrite Hq in Hdo |- *; cbn [loop_move] in Hdo |- *.
  - rewrite Hc in Hs. apply Some_inj in Hs as <-. apply (Hdo _ (call [Sleep delay]) (QWait delay)); [by right|done|].
    cbn. by rewrite Z.add_0_r.
  - destruct timeout; [|by rewrite Hc in Hs]. apply Some_inj in Hs as <-.
    apply (Hdo _ reconnect_close (QBuild delay)); [by right|..].
    all: unfold reconnect_close, run_state, run_calls, mbind, GoM_bind, get; destruct (conn (client s)) eqn:E; cbn;
      by rewrite ?E, ?Z.add_0_r, ?app_nil_r.
  - destruct built as [k|e]; rewrite exec_cases in Hs.
    + change (run_val (connect_build (Ok k)) (client s)) with (@Ok nat k) in Hs. apply Some_inj in Hs as <-.
      apply (Hdo _ (connect_build (Ok k)) (QStream delay k)); [by left|done|]. cbn. by rewrite Z.add_0_r, app_nil_r.
    + change (run_val (connect_build (Err e)) (client s)) with (@Err nat (wrap "grpc: build client failed: " [] e)) in Hs.
      apply Some_inj in Hs as <-.
      apply (Hdo _ (connect_build (Err e) ;; metrics RecordGRPCReconnect) (QLoop (next_delay (cfg (client s)) delay)));
        [left; by rewrite exec_bind, client_exec|done|]. cbn. by rewrite Z.add_0_r, app_nil_r.
  - destruct opened as [n|e]; rewrite exec_cases in Hs.
    + change (run_val (connect_stream k (Ok n)) (client s)) with (@Ok nat n) in Hs. apply Some_inj in Hs as <-.
      apply (Hdo _ (connect_stream k (Ok n)) QPublish); [by left|done|]. cbn. by rewrite Z.add_0_r, app_nil_r.
    + change (run_val (connect_stream k (Err e)) (client s)) with (@Err nat (wrap "grpc: stream creation failed: " [] e)) in Hs.
      apply Some_inj in Hs as <-.
      apply (Hdo _ (connect_stream k (Err e) ;; metrics RecordGRPCReconnect) (QLoop (next_delay (cfg (client s)) delay)));
        [left; by rewrite exec_bind, client_exec|done|]. cbn. by rewrite Z.add_0_r, app_nil_r.
  - apply Some_inj in Hs as <-. apply (Hdo _ connect_publish QTimer); [by right|done|]. cbn. by rewrite app_nil_r.
  - apply Some_inj in Hs as <-. destruct (apart_timer (client s)) as (E1 & E2 & E3 & E4 & E5 & E6 & E7).
    apply (Hdo _ (resetRotationTimer ;; metrics RecordGRPCReconnect) QExit); [by right|by rewrite E5|].
    by rewrite E1, E2, E3, E4, E6, E7, Z.add_0_r, app_nil_r.
  - apply Some_inj in Hs as <-. apply (Hdo _ reconnect_exit QDone); [by right|done|]. cbn. by rewrite Z.add_0_r, app_nil_r.
Qed.

(** The loop is never stuck but for the mutex. *)
Lemma own_enabled i l s v :
  loop_of l = Some i → cancelled (client s) = false → sending s = None →
  loop_move l (view_of i s) = Some v → is_Some (step l s).
Proof.
  intros Hl Hc Hm Hv. rewrite step_free by done. unfold view_of in Hv.
  destruct l as [| | | | | | | |j []|j built|j opened| | | | | |]; try done; injection Hl as ->; cbn [move];
    try (destruct built as [kb|eb]); try (destruct opened as [no|eo]);
    (destruct (reconnectors s !! i) as [[]|]; try done); try (by eexists).
  rewrite Hc. by eexists.
Qed.

(** Two loops are never active at once. *)
Lemma count_two (l : list reconnector) i j p q :
  i ≠ j → l !! i = Some p → active p = true → l !! j = Some q → active q = true → 2 ≤ count active l.
Proof.
  intros Hne Hi Hp Hj Hq. pose proof (count_insert active l i p QDone Hi) as E1. rewrite Hp in E1.
  assert (Hj' : <[i := QDone]> l !! j = Some q) by (by rewrite list_lookup_insert_ne).
  pose proof (count_insert active _ j q QDone Hj') as E2. rewrite Hq in E2. cbn in E1, E2.
  pose proof (count_nonneg active (<[j := QDone]> (<[i := QDone]> l))). lia.
Qed.

Lemma only_loop i j p q s :
  invariant s → reconnectors s !! i = Some p → active p = true → reconnectors s !! j = Some q → active q = true → i = j.
Proof.
  intros [Hl _ _ _ _] Hi Hp Hj Hq. destruct (decide (i = j)) as [->|Hne]; [done|exfalso].
  pose proof (count_two _ _ _ _ _ Hne Hi Hp Hj Hq). destruct (reconnecting (client s)); cbn in Hl; lia.
Qed.

Lemma one_loop i q s :
  invariant s → reconnectors s !! i = Some q → active q = true → reconnecting (client s) = true.
Proof.
  intros [Hl _ _ _ _] Hi Hq. pose proof (count_insert active _ i q QDone Hi) as E. rewrite Hq in E. cbn in E.
  pose proof (count_nonneg active (<[i := QDone]> (reconnectors s))). destruct (reconnecting (client s)); [done|cbn in Hl; lia].
Qed.

(** A loop that moves was active, or is the one that looks whether it may start. *)
Lemma loop_was_active l j s s' :
  move l s = Some s' → loop_of l = Some j →
  l = LReconnect j ∨ ∃ q, reconnectors s !! j = Some q ∧ active q = true.
Proof.
  intros Hm Hj. destruct l; try done; injection Hj as ->; [by left|right..]; cbn [move] in Hm;
    destruct (reconnectors s !! j) as [[]|]; try done; by eexists.
Qed.

Lemma runs_apart {A} (m : M A) l : runs l m → loop_of l = None → l ≠ LClose → along apart m.
Proof.
  intros [] Hj Hc; try done; unfold_computations; walk; done.
Qed.

(** The other goroutines leave a running loop and what it depends on alone. *)
Lemma other_step i q l s s' :
  invariant s → reconnectors s !! i = Some q → active q = true → loop_of l ≠ Some i → l ≠ LClose →
  step l s = Some s' → view_of i s' = view_of i s ∧ cancelled (client s') = cancelled (client s).
Proof.
  intros Hi Hq Ha Hl Hcl Hs%step_move. destruct (loop_of l) as [j|] eqn:Hj.
  - destruct (loop_was_active l j s s' Hs Hj) as [-> |(q' & Hq' & Ha')].
    2: { destruct Hl. f_equal. exact (only_loop j i q' q s Hi Hq' Ha' Hq Ha). }
    cbn [move] in Hs. destruct (reconnectors s !! j) as [[]|] eqn:Hq'; try done.
    assert (Hr : reconnecting (client s) = true) by exact (one_loop i q s Hi Hq Ha).
    unfold reconnect_enter in Hs. rewrite exec_bind, exec_get in Hs. cbn [fst snd] in Hs. rewrite Hr, exec_ret in Hs.
    apply Some_inj in Hs as <-. unfold view_of. cbn [reconnectors client log receivers set_reconnector].
    by rewrite list_lookup_insert_ne by congruence.
  - destruct (move_moved l s s' Hs) as (A & m & Hr & [C1 L1 R1 Q1 _]).
    destruct (runs_apart m l Hr Hj Hcl (client s)) as (E1 & E2 & E3 & E4 & E5 & E6 & E7).
    unfold view_of. rewrite (Q1 i q) by (done || congruence). rewrite C1, L1, R1, slept_app, E1, E2, E3, E4, E5, E6, E7, Hq.
    by rewrite Z.add_0_r, app_nil_r.
Qed.

(** A run as the loop sees it: the moves of its own labels. *)
Fixpoint loop_moves (ls : list label) (v : view) : option view :=
  match ls with [] => Some v | l :: ls => v ← loop_move l v; loop_moves ls v end.

Definition own (i : nat) (ls : list label) : list label := filter (λ l, loop_of l = Some i) ls.

Lemma loop_moves_app ls ks v : loop_moves (ls ++ ks) v = (v' ← loop_moves ls v; loop_moves ks v').
Proof. revert v. induction ls as [|l ls IH]; intros v; [done|]. cbn. by destruct (loop_move l v) as [v1|]; [apply IH|]. Qed.

Lemma loop_move_active l v v' :
  loop_move l v = Some v' →
  (∃ q, phase v = Some q ∧ active q = true) ∧
  ((∃ i, l = LExit i) ∨ ∃ q, phase v' = Some q ∧ active q = true).
Proof.
  destruct v as [p f k n r j ws]. destruct l; try done; cbn; try (destruct timeout); try (destruct built);
    try (destruct opened); destruct p as [[]|]; try done; intros [= <-]; (split; [by eexists|]);
    first [right; by eexists|left; by eexists].
Qed.

Definition keeps_going (i : nat) (ls : list label) : Prop := Forall (λ l, l ≠ LClose ∧ l ≠ LExit i) ls.

Lemma step_view i q l s s' :
  invariant s → reconnectors s !! i = Some q → active q = true → cancelled (client s) = false → l ≠ LClose →
  step l s = Some s' →
  loop_moves (own i [l]) (view_of i s) = Some (view_of i s') ∧ cancelled (client s') = false ∧
  (l ≠ LExit i → ∃ q', reconnectors s' !! i = Some q' ∧ active q' = true).
Proof.
  intros Hi Hq Ha Hc Hl Hs. unfold own. destruct (decide (loop_of l = Some i)) as [Hj|Hj].
  - rewrite filter_cons_True by done. destruct (own_step i l q s s' Hj Hq Ha Hc Hs) as (Hv & Hc' & _).
    rewrite filter_nil. cbn [loop_moves]. rewrite Hv. split_and!; [done..|]. intros Hne. destruct (loop_move_active _ _ _ Hv) as [_ [[j ->]|He]]; [|done].
    injection Hj as ->. done.
  - rewrite filter_cons_False by done. destruct (other_step i q l s s' Hi Hq Ha Hj Hl Hs) as [Hv Hc'].
    rewrite filter_nil. cbn [loop_moves]. rewrite Hv, Hc'. split_and!; [done..|]. intros _. exists q. split; [|done].
    change (reconnectors s' !! i) with (phase (view_of i s')). by rewrite Hv.
Qed.

Lemma run_view i q ls s s' :
  invariant s → reconnectors s !! i = Some q → active q = true → cancelled (client s) = false → keeps_going i ls →
  run ls s = Some s' →
  loop_moves (own i ls) (view_of i s) = Some (view_of i s') ∧ invariant s' ∧ cancelled (client s') = false ∧
  ∃ q', reconnectors s' !! i = Some q' ∧ active q' = true.
Proof.
  revert q s. induction ls as [|l ls IH]; intros q s Hi Hq Ha Hc Hls; cbn [run].
  { intros [= <-]. split_and!; try done. by exists q. }
  apply Forall_cons in Hls as [[Hl He] Hls]. destruct (step l s) as [s1|] eqn:Hs; [|done]. cbn [mbind option_bind]. intros Hr.
  destruct (step_view i q l s s1 Hi Hq Ha Hc Hl Hs) as (Hv & Hc1 & Hq1). destruct (Hq1 He) as (q1 & Hq2 & Ha1).
  destruct (IH q1 s1 (step_invariant _ _ _ Hs Hi) Hq2 Ha1 Hc1 Hls Hr) as (Hvs & Hi' & Hc' & Hq').
  split_and!; try done. unfold own. change (l :: ls) with ([l] ++ ls). rewrite filter_app, loop_moves_app.
  unfold own in Hv, Hvs. by rewrite Hv.
Qed.

(** Once the loop has published its stream, only a failed send or receive clears the flag. *)
Lemma run_connected i q ls s s' :
  invariant s → reconnectors s !! i = Some q → q = QTimer ∨ q = QExit → cancelled (client s) = false →
  keeps_going i ls → run ls s = Some s' →
  connected (client s') = connected (client s) && negb (existsb disconnects ls).
Proof.
  revert q s. induction ls as [|l ls IH]; intros q s Hi Hq Hcase Hc Hls; cbn [run].
  { intros [= <-]. by rewrite andb_true_r. }
  apply Forall_cons in Hls as [[Hl He] Hls]. destruct (step l s) as [s1|] eqn:Hs; [|done]. cbn [mbind option_bind]. intros Hr.
  assert (Ha : active q = true) by (by destruct Hcase as [-> | ->]).
  destruct (step_view i q l s s1 Hi Hq Ha Hc Hl Hs) as (Hv & Hc1 & Hq1).
  assert (Hp : publishes l = false).
  { destruct l as [| | | | | | | | | | |j| | | | |]; try done. exfalso. pose proof (step_move _ _ _ Hs) as Hm.
    destruct (loop_was_active _ j _ _ Hm eq_refl) as [|(q' & Hq' & Ha')]; [done|].
    rewrite <-(only_loop i j q q' s Hi Hq Ha Hq' Ha') in Hm. cbn in Hm. rewrite Hq in Hm. by destruct Hcase as [-> | ->]. }
  assert (Hnext : ∃ q1, reconnectors s1 !! i = Some q1 ∧ (q1 = QTimer ∨ q1 = QExit)).
  { unfold own in Hv. destruct (decide (loop_of l = Some i)) as [Hj|Hj].
    - rewrite filter_cons_True in Hv by done. cbn in Hv. unfold view_of in Hv. rewrite Hq in Hv.
      change (reconnectors s1 !! i) with (phase (view_of i s1)).
      destruct l; try done; injection Hj as ->; destruct Hcase as [-> | ->]; cbn in Hv;
        try (by destruct built); try (by destruct opened); try (by destruct timeout); try done;
        injection Hv as Hv; unfold view_of; cbn; rewrite <-Hv; eauto.
    - rewrite filter_cons_False in Hv by done. injection Hv as Hv. exists q. split; [|done].
      change (reconnectors s1 !! i) with (phase (view_of i s1)). unfold view_of. cbn. by rewrite <-Hv. }
  destruct Hnext as (q1 & Hq2 & Hcase1). rewrite (IH q1 s1 (step_invariant _ _ _ Hs Hi) Hq2 Hcase1 Hc1 Hls Hr).
  rewrite (step_connected _ _ _ Hs), Hp. cbn [existsb]. destruct (disconnects l); cbn; [by rewrite andb_false_r|done].
Qed.

(** A loop alone does what its moves say. *)
Lemma run_own i ls s v :
  Forall (λ l, loop_of l = Some i) ls → cancelled (client s) = false → sending s = None →
  loop_moves ls (view_of i s) = Some v → ∃ s', run ls s = Some s'.
Proof.
  revert s. induction ls as [|l ls IH]; intros s Hls Hc Hm Hv; [by exists s|].
  apply Forall_cons in Hls as [Hl Hls]. cbn [loop_moves] in Hv.
  destruct (loop_move l (view_of i s)) as [v1|] eqn:Hv1; [|done]. cbn [mbind option_bind] in Hv.
  destruct (own_enabled i l s v1 Hl Hc Hm Hv1) as [s1 Hs].
  destruct (loop_move_active _ _ _ Hv1) as [(q & Hq & Ha) _].
  destruct (own_step i l q s s1 Hl Hq Ha Hc Hs) as (Hv1' & Hc1 & Hm1). cbn [run]. rewrite Hs. cbn [mbind option_bind].
  apply IH; [done|done|by rewrite Hm1|]. rewrite Hv1 in Hv1'. injection Hv1' as <-. exact Hv.
Qed.

(** *** Attempts *)

Fixpoint delays (f : CloudForwarder) (d : Z) (n : nat) : list Z :=
  match n with O => [] | S n => d :: delays f (next_delay f d) n end.

Lemma delays_nth f m n : delays f (nth_delay f m) n = nth_delay f <$> seq m n.
Proof. revert m. induction n as [|n IH]; intros m; [done|]. cbn. f_equal. exact (IH (S m)). Qed.

Lemma delays_S f d n : delays f d (S n) = delays f d n ++ [Nat.iter n (next_delay f) d].
Proof.
  revert d. induction n as [|n IH]; intros d; [done|]. change (delays f d (S (S n))) with (d :: delays f (next_delay f d) (S n)).
  rewrite IH. by rewrite Nat.iter_succ_r.
Qed.

Lemma failed_moves i xs d f k n r j ws :
  ∃ k', loop_moves (xs ≫= failed_attempt i) (mkView (Some (QLoop d)) f k n r j ws) =
    Some (mkView (Some (QLoop (Nat.iter (length xs) (next_delay f) d))) f k' n r j (ws ++ delays f d (length xs))).
Proof.
  revert d k ws. induction xs as [|x xs IH]; intros d k ws; [exists k; by rewrite app_nil_r|].
  change ((x :: xs) ≫= failed_attempt i) with (failed_attempt i x ++ (xs ≫= failed_attempt i)). rewrite loop_moves_app.
  assert (Hx : ∃ k1, loop_moves (failed_attempt i x) (mkView (Some (QLoop d)) f k n r j ws) =
    Some (mkView (Some (QLoop (next_delay f d))) f k1 n r j (ws ++ [d]))) by (by destruct x; eexists).
  destruct Hx as [k1 ->]. cbn [mbind option_bind]. destruct (IH (next_delay f d) k1 (ws ++ [d])) as [k2 ->].
  exists k2. cbn [length]. by rewrite Nat.iter_succ_r, <-(assoc_L (++)).
Qed.

(** The labels of the attempts up to the one that publishes, then up to the end. *)
Definition attempts (i : nat) (xs : list failure) (k n : nat) : list label := (xs ≫= failed_attempt i) ++ good_attempt i k n.

Lemma attempts_own i xs k n : Forall (λ l, loop_of l = Some i) (attempts i xs k n).
Proof.
  apply Forall_app. split; [|by repeat constructor]. induction xs as [|[] xs IH]; [constructor|..]; by repeat constructor.
Qed.

Lemma attempts_moves i xs k n d s :
  reconnectors s !! i = Some (QLoop d) →
  let f := cfg (client s) in
  loop_moves (attempts i xs k n) (view_of i s) =
    Some (mkView (Some QDone) f (Some k) (Some n) false (len (receivers s) + 1)
      (slept (log s) ++ delays f d (S (length xs)))).
Proof.
  intros Hq f. unfold attempts, view_of. rewrite Hq, loop_moves_app.
  destruct (failed_moves i xs d (cfg (client s)) (conn (client s)) (stream (client s)) (reconnecting (client s)) (len (receivers s))
    (slept (log s))) as [k' ->].
  cbn [mbind option_bind]. rewrite delays_S, (assoc_L (++)). done.
Qed.

Lemma own_app i ls ks : own i (ls ++ ks) = own i ls ++ own i ks.
Proof. apply filter_app. Qed.

Lemma own_all i ls : Forall (λ l, loop_of l = Some i) ls → own i ls = ls.
Proof. induction 1 as [|l ls Hl _ IH]; [done|]. unfold own in *. by rewrite filter_cons_True, IH. Qed.

(** The last label of the attempts ends the loop; none before it does. *)
Lemma attempts_split i xs k n ls :
  own i (ls ++ [LExit i]) = attempts i xs k n → LClose ∉ ls →
  keeps_going i ls ∧ loop_moves (own i ls ++ [LExit i]) = loop_moves (attempts i xs k n).
Proof.
  intros Ho Hc. rewrite own_app in Ho. assert (Hx : own i [LExit i] = [LExit i]).
  { unfold own. by rewrite filter_cons_True, filter_nil. }
  rewrite Hx in Ho. split; [|by rewrite Ho].
  unfold attempts, good_attempt in Ho.
  change [LLoop i; LWake i true; LBuild i (Ok k); LStream i (Ok n); LPublish i; LTimer i; LExit i] with
    ([LLoop i; LWake i true; LBuild i (Ok k); LStream i (Ok n); LPublish i; LTimer i] ++ [LExit i]) in Ho.
  rewrite (assoc_L (++)) in Ho. apply app_inj_tail in Ho as [Ho _].
  assert (Hall : Forall (λ l, l ≠ LExit i) (own i ls)).
  { rewrite Ho. apply Forall_app. split; [|by repeat constructor].
    clear. induction xs as [|[] xs IH]; [constructor|..]; by repeat constructor. }
  apply Forall_forall. intros l Hl. split; [by intros ->|]. intros ->.
  rewrite Forall_forall in Hall. apply (Hall (LExit i)); [|done]. by apply list_elem_of_filter.
Qed.

(** What a loop that succeeds leaves, whatever the other goroutines did meanwhile. *)
Lemma attempts_run i xs k n d s pre post s' :
  invariant s → reconnectors s !! i = Some (QLoop d) → cancelled (client s) = false →
  run ((pre ++ [LPublish i] ++ post) ++ [LExit i]) s = Some s' →
  own i ((pre ++ [LPublish i] ++ post) ++ [LExit i]) = attempts i xs k n → LClose ∉ pre ++ [LPublish i] ++ post →
  connected (client s') = negb (existsb disconnects post) ∧
  view_of i s' = mkView (Some QDone) (cfg (client s)) (Some k) (Some n) false (len (receivers s) + 1)
    (slept (log s) ++ delays (cfg (client s)) d (S (length xs))).
Proof.
  intros Hi Hq Hc Hr Ho Hcl. destruct (attempts_split i xs k n _ Ho Hcl) as [Hkeep Hmoves].
  rewrite run_app in Hr. destruct (run (pre ++ [LPublish i] ++ post) s) as [s3|] eqn:H3; [|done].
  cbn [mbind option_bind run] in Hr. destruct (step (LExit i) s3) as [s4|] eqn:H4; [|done]. injection Hr as <-.
  destruct (run_view i _ _ s s3 Hi Hq eq_refl Hc Hkeep H3) as (Hv & Hi3 & Hc3 & q3 & Hq3 & Ha3).
  destruct (own_step i (LExit i) q3 s3 s4 eq_refl Hq3 Ha3 Hc3 H4) as (Hv4 & _). split.
  - unfold keeps_going in Hkeep. apply Forall_app in Hkeep as [Hk1 [_ Hk2]%Forall_app].
    rewrite run_app in H3. destruct (run pre s) as [s1|] eqn:H1; [|done]. cbn [mbind option_bind app run] in H3.
    destruct (step (LPublish i) s1) as [s2|] eqn:H2; [|done]. cbn [mbind option_bind] in H3.
    destruct (run_view i _ _ s s1 Hi Hq eq_refl Hc Hk1 H1) as (_ & Hi1 & Hc1 & q1 & Hq1 & Ha1).
    assert (Hne : LPublish i ≠ LClose) by done.
    destruct (step_view i q1 _ s1 s2 Hi1 Hq1 Ha1 Hc1 Hne H2) as (_ & Hc2 & _).
    assert (Hq2 : reconnectors s2 !! i = Some QTimer).
    { destruct (own_step i (LPublish i) q1 s1 s2 eq_refl Hq1 Ha1 Hc1 H2) as (Hv2 & _).
      change (reconnectors s2 !! i) with (phase (view_of i s2)). unfold view_of in Hv2 at 1. rewrite Hq1 in Hv2.
      destruct q1; try done. cbn [loop_move] in Hv2. apply Some_inj in Hv2. by rewrite <-Hv2. }
    rewrite (step_connected _ _ _ H4). cbn [disconnects publishes].
    rewrite (run_connected i QTimer post s2 s3 (step_invariant _ _ _ H2 Hi1) Hq2 (or_introl eq_refl) Hc2 Hk2 H3).
    by rewrite (step_connected _ _ _ H2).
  - assert (Hall : loop_moves (own i (pre ++ [LPublish i] ++ post) ++ [LExit i]) (view_of i s) = Some (view_of i s4)).
    { rewrite loop_moves_app, Hv. cbn [mbind option_bind loop_moves]. by rewrite Hv4. }
    rewrite Hmoves, (attempts_moves i xs k n d s Hq) in Hall. by apply Some_inj in Hall.
Qed.

(** An active loop can move unless it waits for the mutex. *)
Lemma loop_can_move i q s :
  reconnectors s !! i = Some q → active q = true → cancelled (client s) = false → sending s = None →
  ∃ l, loop_of l = Some i ∧ is_Some (step l s).
Proof.
  intros Hq Ha Hc Hm.
  assert (Hl : ∃ l v, loop_of l = Some i ∧ loop_move l (view_of i s) = Some v).
  { unfold view_of. rewrite Hq. destruct q; try done.
    - exists (LLoop i). by eexists.
    - exists (LWake i true). by eexists.
    - exists (LBuild i (Ok 0%nat)). by eexists.
    - exists (LStream i (Ok 0%nat)). by eexists.
    - exists (LPublish i). by eexists.
    - exists (LTimer i). by eexists.
    - exists (LExit i). by eexists. }
  destruct Hl as (l & v & Hl & Hv). exists l. split; [done|]. by eapply own_enabled.
Qed.

(** C26: reconnection, whatever the other goroutines of the client do meanwhile:
    a loop that has just been entered, on a client that nobody closes, waits the
    configured delay before its first attempt and twice as long before each
    further one, up to the configured maximum, however many attempts fail; when
    one succeeds it leaves the client on the new connection and stream, with one
    more receiver and the flag [reconnecting] cleared; and the client is
    connected then exactly if no failed send and no receiver of a broken stream
    has disconnected it after the loop published the stream
    ([lost_reconnection] is the case where one has).  The loop is never stuck: it
    can always move when [c.mu] is free, and alone it ends with the client
    connected. *)
Theorem reconnect_succeeds f0 built opened ls0 s0 s i xs k n :
  start f0 built opened = Some s0 → run ls0 s0 = Some s →
  let f := cfg (client s) in
  let d := CloudForwarder.ReconnectDelay f in let m := CloudForwarder.MaxReconnectSec f in
  reconnectors s !! i = Some (QLoop (first_delay f)) → cancelled (client s) = false →
  1 ≤ d ≤ 2 ^ 32 → 1 ≤ m ≤ 2 ^ 32 →
  (∀ pre post s',
     let ls := (pre ++ [LPublish i] ++ post) ++ [LExit i] in
     run ls s = Some s' → own i ls = (xs ≫= failed_attempt i) ++ good_attempt i k n →
     LClose ∉ pre ++ [LPublish i] ++ post →
     connected (client s') = negb (existsb disconnects post) ∧
     conn (client s') = Some k ∧ stream (client s') = Some n ∧ reconnecting (client s') = false ∧
     len (receivers s') = len (receivers s) + 1 ∧
     slept (log s') = slept (log s) ++
       ((λ j, (if decide (j = O) then d else Z.min (d * 2 ^ Z.of_nat j) m) * Second) <$> seq 0 (S (length xs)))) ∧
  (∀ ls s', keeps_going i ls → run ls s = Some s' → sending s' = None →
     ∃ l, loop_of l = Some i ∧ is_Some (step l s')) ∧
  (sending s = None →
     ∃ s', run ((xs ≫= failed_attempt i) ++ good_attempt i k n) s = Some s' ∧ connected (client s') = true).
Proof.
  intros H0 Hr f d m Hq Hc Hd Hm. apply start_invariant in H0. pose proof (run_invariant ls0 s0 s Hr H0) as Hi.
  split_and!.
  - intros pre post s' ls Hrun Ho Hcl.
    destruct (attempts_run i xs k n _ s pre post s' Hi Hq Hc Hrun Ho Hcl) as [Hcon Hv]. split; [done|].
    injection Hv as _ _ Hk Hn Hrec Hlen Hs. split_and!; try done. rewrite Hs. f_equal.
    transitivity (delays f (nth_delay f 0) (S (length xs))); [reflexivity|]. rewrite delays_nth.
    apply list_fmap_ext. intros j x _. by apply nth_delay_spec.
  - intros ls s' Hkeep Hrun Hmu. destruct (run_view i _ ls s s' Hi Hq eq_refl Hc Hkeep Hrun) as (_ & _ & Hc' & q & Hq' & Ha).
    by eapply loop_can_move.
  - intros Hmu. destruct (run_own i (attempts i xs k n) s _ (attempts_own i xs k n) Hc Hmu (attempts_moves i xs k n _ s Hq))
      as [s' Hrun]. exists s'. split; [exact Hrun|].
    assert (Heq : attempts i xs k n = (((xs ≫= failed_attempt i) ++ [LLoop i; LWake i true; LBuild i (Ok k); LStream i (Ok n)])
      ++ [LPublish i] ++ [LTimer i]) ++ [LExit i]).
    { unfold attempts, good_attempt. by rewrite <-!(assoc_L (++)). }
    assert (Hown : own i (attempts i xs k n) = attempts i xs k n).
    { apply own_all, attempts_own. }
    pose proof Hrun as Hrun'. rewrite Heq in Hrun'. rewrite Heq in Hown at 1.
    refine (proj1 (attempts_run i xs k n _ s _ [LTimer i] s' Hi Hq Hc Hrun' Hown _)).
    intros Hin. assert (Hin' : LClose ∈ attempts i xs k n) by (rewrite Heq; apply elem_of_app; by left).
    pose proof (attempts_own i xs k n) as Hall. rewrite Forall_forall in Hall. by specialize (Hall _ Hin').
Qed.

(** ** Three races *)

(** Disconnected, with nothing left that would reconnect. *)
Record lost (s : system) : Prop := {
  lost_connected : connected (client s) = false;
  lost_loops : Forall (λ q, q = QDone) (reconnectors s);
  lost_timers : Forall (λ t, t = TDone) (rotations s);
  lost_receivers : Forall (λ r, r ≠ RFail) (receivers s);
  lost_sending : sending s = None;
}.

Definition stream_fails (l : label) : Prop := match l with LRecvError _ _ => True | _ => False end.

Lemma lost_ext s s' :
  connected (client s') = connected (client s) → reconnectors s' = reconnectors s → rotations s' = rotations s →
  Forall (λ r, r ≠ RFail) (receivers s') → sending s' = sending s → lost s → lost s'.
Proof. intros E1 E2 E3 E4 E5 []. split; by rewrite ?E1, ?E2, ?E3, ?E5. Qed.

Lemma lost_same s s' : same_goroutines s s' → lost s → lost s'.
Proof. intros (E1 & E2 & E3 & E4 & _ & E6) []. split; by rewrite ?E1, ?E2, ?E3, ?E4, ?E6. Qed.

Lemma same_trans s1 s2 s3 : same_goroutines s1 s2 → same_goroutines s2 s3 → same_goroutines s1 s3.
Proof. unfold same_goroutines. naive_solver congruence. Qed.

Lemma handleAck_same ack s : same_goroutines s (exec (handleAck ack) s).2.
Proof.
  unfold handleAck. destruct ack as [a|]; [|by rewrite exec_ret]. rewrite !exec_bind.
  assert (Hif : ∀ (b : bool) l s, same_goroutines s (exec (if b then metrics l else mret tt) s).2).
  { intros b l s'. destruct b; [apply exec_metrics|by rewrite exec_ret]. }
  eapply same_trans; [apply exec_metrics|]. eapply same_trans; [apply Hif|apply Hif].
Qed.

Lemma close_conn_same closed s : same_goroutines s (exec (close_conn closed) s).2.
Proof.
  unfold close_conn. rewrite !exec_bind, exec_get. cbn [fst snd].
  eapply same_trans; [apply (exec_metrics (SetGRPCConnected false))|]. set (s1 := (exec _ s).2). clearbody s1.
  destruct (conn (client s1)); [|by rewrite exec_ret]. rewrite exec_bind, exec_call. cbn [fst snd].
  destruct closed; rewrite exec_ret; by apply spawn_quiet.
Qed.

Lemma lost_close s : lost s → lost (exec close_cancel s).2.
Proof.
  intros Hl. unfold close_cancel. rewrite !exec_bind, exec_modify, exec_call. cbn [fst snd].
  assert (Hs : lost (exec stopRotationTimer s).2).
  { destruct Hl. unfold stopRotationTimer. rewrite exec_bind, exec_get. cbn [fst snd].
    destruct (rotateCancel (client s)) as [t|]; [|by rewrite exec_ret].
    rewrite exec_bind, exec_call, exec_modify. split; cbn; try done.
    destruct (rotations s !! t) as [r|] eqn:E; [|done]. pose proof (Forall_lookup_1 _ _ _ _ lost_timers0 E) as ->. done. }
  set (s1 := (exec stopRotationTimer s).2) in *. clearbody s1. destruct Hs. by split.
Qed.

Lemma Forall_insert_ne i r (l : list receiver) :
  Forall (λ r, r ≠ RFail) l → r ≠ RFail → Forall (λ r, r ≠ RFail) (<[i := r]> l).
Proof. intros. by apply Forall_insert. Qed.

Lemma lost_step l s s' : step l s = Some s' → ¬ stream_fails l → lost s → lost s'.
Proof.
  intros Hstep%step_move Hl Hlost. pose proof Hlost as [Hc Hq Ht Hr Hm].
  assert (Hnoq : ∀ i q, reconnectors s !! i = Some q → q = QDone) by (intros i q; exact (Forall_lookup_1 _ _ _ _ Hq)).
  assert (Hnot : ∀ i q, rotations s !! i = Some q → q = TDone) by (intros i q; exact (Forall_lookup_1 _ _ _ _ Ht)).
  assert (Hset : ∀ i r, r ≠ RFail → lost (set_receiver i r s)).
  { intros i r Hne. eapply lost_ext; [..|exact Hlost]; try done. by apply Forall_insert_ne. }
  destruct l; cbn [move stream_fails] in *; try done.
  - rewrite send_begin_eq in Hstep. unfold run_val, send_begin, mbind, GoM_bind, get in Hstep. rewrite Hc in Hstep.
    cbn in Hstep. apply Some_inj in Hstep as <-. by split.
  - by rewrite Hm in Hstep.
  - destruct (receivers s !! i) as [[]|]; try done. destruct (cancelled _).
    + apply Some_inj in Hstep as <-. unfold receive_exit, wg_Add. rewrite exec_modify. cbn [snd].
      by destruct (Hset i RDone ltac:(done)); split.
    + destruct (stream _); apply Some_inj in Hstep as <-; [by apply Hset|done].
  - destruct (receivers s !! i) as [[]|]; try done. apply Some_inj in Hstep as <-.
    eapply lost_same; [apply handleAck_same|by apply Hset].
  - destruct (receivers s !! i) as [[]|] eqn:E; try done. by destruct (Forall_lookup_1 _ _ _ _ Hr E).
  - destruct (reconnectors s !! i) as [q|] eqn:E; [|done]. by apply Hnoq in E as ->.
  - destruct (reconnectors s !! i) as [q|] eqn:E; [|done]. by apply Hnoq in E as ->.
  - destruct (reconnectors s !! i) as [q|] eqn:E; [|done]. by apply Hnoq in E as ->.
  - destruct (reconnectors s !! i) as [q|] eqn:E; [|done]. by apply Hnoq in E as ->.
  - destruct (reconnectors s !! i) as [q|] eqn:E; [|done]. by apply Hnoq in E as ->.
  - destruct (reconnectors s !! i) as [q|] eqn:E; [|done]. by apply Hnoq in E as ->.
  - destruct (reconnectors s !! i) as [q|] eqn:E; [|done]. by apply Hnoq in E as ->.
  - destruct (reconnectors s !! i) as [q|] eqn:E; [|done]. by apply Hnoq in E as ->.
  - destruct (rotations s !! t) as [q|] eqn:E; [|done]. by apply Hnot in E as ->.
  - apply Some_inj in Hstep as <-. destruct (lost_close s Hlost). by split.
  - destruct (closers s !! i) as [[]|]; try done. destruct (_ =? 0); [|done]. apply Some_inj in Hstep as <-.
    eapply lost_same; [apply close_conn_same|]. by split.
Qed.

Lemma lost_run ls s s' :
  run ls s = Some s' → Forall (λ l, ¬ stream_fails l) ls → lost s → lost s'.
Proof.
  revert s. induction ls as [|l ls IH]; intros s; [by intros [= <-]|]. cbn [run].
  destruct (step l s) as [s1|] eqn:E; [|done]. cbn [mbind option_bind]. intros Hr [Hl Hls]%Forall_cons Hlost.
  eapply IH; [done|done|]. by eapply lost_step.
Qed.

Definition race_config : CloudForwarder :=
  CloudForwarder.mk true "cloud:9090" false EmptyString EmptyString EmptyString EmptyString 10 5 60 0 false
    EmptyString EmptyString EmptyString EmptyString.

Definition broken : goerror := Errorf "EOF" [].

(** The stream breaks: the send fails, a loop reconnects, and the old receiver
    reports its own failure between the loop's success and its end. *)
Definition lost_race : list label :=
  [LReceive 0; LSend [] 1 0; LSent (Some broken); LReconnect 0; LLoop 0; LWake 0 true; LRecvError 0 false;
   LBuild 0 (Ok 1%nat); LStream 0 (Ok 1%nat); LPublish 0; LDisconnect 0; LReconnect 1; LTimer 0; LExit 0; LReceive 1].

(** C27: the receiver of a broken stream may report the failure after the client has
    reconnected, while the loop that did has not cleared its flag: the client is
    then marked disconnected although its stream works and a receiver waits on
    it, no reconnection is pending, and with stream rotation disabled it stays
    disconnected, refusing every batch, for as long as that stream does not fail. *)
Theorem lost_reconnection :
  ∃ s0 s, start race_config (Ok 0%nat) (Ok 0%nat) = Some s0 ∧ run lost_race s0 = Some s ∧
    cancelled (client s) = false ∧ stream (client s) = Some 1%nat ∧ receivers s !! 1%nat = Some (RRecv 1) ∧
    ∀ ls s', Forall (λ l, ¬ stream_fails l) ls → run ls s = Some s' →
      connected (client s') = false ∧
      ∀ events sequence now sent,
        run_val (SendBatch events sequence now sent) (client s') = Some (Err (Errorf "grpc: not connected" [])).
Proof.
  eexists. eexists. split; [vm_compute; reflexivity|]. split; [vm_compute; reflexivity|].
  split; [reflexivity|]. split; [reflexivity|]. split; [reflexivity|]. intros ls s' Hls Hr.
  destruct (lost_run ls _ s' Hr Hls) as [Hc _ _ _ _]; [split; [done|..]; repeat constructor; done|].
  split; [done|]. intros events sequence now sent. unfold run_val.
  by rewrite (proj1 (SendBatch_spec events sequence now sent (client s')) Hc).
Qed.

(** The old receiver still gets an acknowledgement after the new stream was stored. *)
Definition receive_race : list label :=
  [LReceive 0; LSend [] 1 0; LSent (Some broken); LReconnect 0; LLoop 0; LWake 0 true; LBuild 0 (Ok 1%nat);
   LStream 0 (Ok 1%nat); LPublish 0; LAck 0 None; LReceive 0; LReceive 1].

(** A receiver takes whatever stream is current each time round: when the last
    acknowledgement of the old stream arrives after a reconnection, two
    goroutines are in [Recv] on the new stream at once, which gRPC forbids. *)
Theorem concurrent_receive :
  ∃ s0 s, start race_config (Ok 0%nat) (Ok 0%nat) = Some s0 ∧ run receive_race s0 = Some s ∧
    receivers s !! 0%nat = Some (RRecv 1) ∧ receivers s !! 1%nat = Some (RRecv 1).
Proof.
  eexists. eexists. split; [vm_compute; reflexivity|]. split; [vm_compute; reflexivity|]. split; reflexivity.
Qed.

(** The same client, rotating its stream every minute. *)
Definition rotating_config : CloudForwarder :=
  CloudForwarder.mk true "cloud:9090" false EmptyString EmptyString EmptyString EmptyString 10 5 60 (60 * Second) false
    EmptyString EmptyString EmptyString EmptyString.

(** A send on the old stream is under way while the rotation puts a new one in its place. *)
Definition late_send : list label :=
  [LReceive 0; LRotate 0 true; LReconnect 0; LLoop 0; LWake 0 true; LSend [] 1 0; LBuild 0 (Ok 1%nat);
   LStream 0 (Ok 1%nat); LPublish 0; LSent (Some broken); LReconnect 1; LTimer 0; LExit 0; LReceive 1].

(** When that send fails it marks the fresh connection down, and the loop it
    starts finds the first one still running: the client refuses batches on a
    working stream until the next rotation. *)
Theorem late_send_error :
  ∃ s0 s, start rotating_config (Ok 0%nat) (Ok 0%nat) = Some s0 ∧ run late_send s0 = Some s ∧
    connected (client s) = false ∧ cancelled (client s) = false ∧ stream (client s) = Some 1%nat ∧
    receivers s !! 1%nat = Some (RRecv 1) ∧ reconnecting (client s) = false ∧
    reconnectors s = [QDone; QDone] ∧ rotations s = [TDone; TArmed false].
Proof.
  eexists. eexists. split; [vm_compute; reflexivity|]. split; [vm_compute; reflexivity|]. by split_and!.
Qed.

(** ** Witnesses *)

Definition witness_start : system := default (mkSystem (mkClient race_config None None false false None false 0 0)
  [] [] [] [] None []) (start race_config (Ok 0%nat) (Ok 0%nat)).
Definition witness_broken : system :=
  default witness_start (run [LSend [] 1 0; LSent (Some broken); LReconnect 0] witness_start).

Definition witness_lost : system := default witness_start (run lost_race witness_start).

Lemma client_goroutines_witness :
  start race_config (Ok 0%nat) (Ok 0%nat) = Some witness_start ∧ run lost_race witness_start = Some witness_lost ∧
  count active (reconnectors witness_lost) = Z.b2z (reconnecting (client witness_lost)).
Proof.
  assert (H1 : start race_config (Ok 0%nat) (Ok 0%nat) = Some witness_start) by (vm_compute; reflexivity).
  assert (H2 : run lost_race witness_start = Some witness_lost) by (vm_compute; reflexivity).
  exact (conj H1 (conj H2 (proj1 (client_goroutines race_config _ _ lost_race witness_start witness_lost H1 H2)))).
Defined.

Lemma reconnect_succeeds_witness :
  let xs := [BuildFails broken; StreamFails 1 broken] in
  start race_config (Ok 0%nat) (Ok 0%nat) = Some witness_start ∧
  run [LSend [] 1 0; LSent (Some broken); LReconnect 0] witness_start = Some witness_broken ∧
  reconnectors witness_broken !! 0%nat = Some (QLoop (5 * Second)) ∧
  ∃ s', run ((xs ≫= failed_attempt 0) ++ good_attempt 0 2 1) witness_broken = Some s' ∧ connected (client s') = true.
Proof.
  intros xs.
  assert (H0 : start race_config (Ok 0%nat) (Ok 0%nat) = Some witness_start) by (vm_compute; reflexivity).
  assert (HR : run [LSend [] 1 0; LSent (Some broken); LReconnect 0] witness_start = Some witness_broken)
    by (vm_compute; reflexivity).
  assert (H1 : reconnectors witness_broken !! 0%nat = Some (QLoop (5 * Second))) by (vm_compute; reflexivity).
  assert (H2 : cancelled (client witness_broken) = false) by (vm_compute; reflexivity).
  assert (H3 : 1 ≤ 5 ≤ 2 ^ 32) by lia. assert (H4 : 1 ≤ 60 ≤ 2 ^ 32) by lia.
  assert (H5 : sending witness_broken = None) by (vm_compute; reflexivity).
  destruct (reconnect_succeeds race_config _ _ _ witness_start witness_broken 0 xs 2 1 H0 HR H1 H2 H3 H4) as (_ & _ & H6).
  exact (conj H0 (conj HR (conj H1 (H6 H5)))).
Defined.
