(* ===== verification/MqttClient.v ===== *)
(** * The MQTT client (internal/mqtt/client.go)

    The Paho library is the outcome of the calls made on it.  [NewClient]
    returns the client and the options it gives Paho; the callbacks Paho runs
    (connected, connection lost) and the callers of [Connect] share the client,
    whose result channel is modelled with its buffer and its closed flag. *)

From S2P Require Import Prelude Float64 GoStrings GoNet Clock Metrics.

(** The struct [Config]. *)
Record Config := mkConfig {
  BrokerURL : string;
  ClientID : string;
  Topics : list string;
  QoS : Z;
  Username : string;
  Password : string;
  TLSCAFile : string;
}.

Definition with_id (id : string) (c : Config) : Config :=
  mkConfig (BrokerURL c) id (Topics c) (QoS c) (Username c) (Password c) (TLSCAFile c).
Definition with_qos (q : Z) (c : Config) : Config :=
  mkConfig (BrokerURL c) (ClientID c) (Topics c) q (Username c) (Password c) (TLSCAFile c).

(** ** The client identifier *)

(** [hex.Encode]. *)
Definition hex_encode (l : bytes) : string :=
  String.string_of_list_ascii (l ≫= (λ b, [hex_char (b / 16); hex_char (b mod 16)])).

Definition generateClientID (random : result bytes) : result string :=
  uuid ← random;
  let uuid := <[6%nat := Z.lor (Z.land (nth 6 uuid 0) 0x0f) 0x40]> uuid in
  let uuid := <[8%nat := Z.lor (Z.land (nth 8 uuid 0) 0x3f) 0x80]> uuid in
  let encoded := hex_encode uuid in
  Ok ("entropy-rx-" +:+ str_slice 0 8 encoded +:+ "-" +:+ str_slice 8 12 encoded +:+ "-" +:+
      str_slice 12 16 encoded +:+ "-" +:+ str_slice 16 20 encoded +:+ "-" +:+ str_slice 20 32 encoded).

(** ** TLS *)

(** Where the trusted certificates come from. *)
Inductive roots := CustomCA (pem : bytes) | SystemCAs | EmptyPool.

Record tls_config := mkTLS { MinVersion : Z; RootCAs : roots }.
Definition VersionTLS12 : Z := 0x0303.

(** [AppendCertsFromPEM] and whether [SystemCertPool] works are parameters. *)
Class CertPool := {
  ReadFile : string → result bytes;
  ValidPEM : bytes → bool;
  SystemPoolOk : bool;
}.

Section client.
Context `{GoUnicode, CertPool}.

Definition isTLSBroker (brokerURL : string) : bool :=
  let lower := ToLower brokerURL in
  HasPrefix lower "ssl://" || HasPrefix lower "tls://" || HasPrefix lower "mqtts://" ||
  HasPrefix lower "tcps://".

Definition createMQTTTLSConfig (c : Config) : result tls_config :=
  if negb (String.eqb (TLSCAFile c) EmptyString) then
    match ReadFile (TLSCAFile c) with
    | Err e => Err (wrap "read CA certificate: " [] e)
    | Ok caCert =>
        if negb (ValidPEM caCert) then Err (Errorf "failed to parse CA certificate" [])
        else Ok (mkTLS VersionTLS12 (CustomCA caCert))
    end
  else Ok (mkTLS VersionTLS12 (if SystemPoolOk then SystemCAs else EmptyPool)).

(** ** Construction *)

(** The options given to Paho. *)
Record options := mkOptions {
  broker : string;
  clientID : string;
  autoReconnect : bool;
  cleanSession : bool;
  keepAlive : Z;
  pingTimeout : Z;
  username : option string;
  password : option string;
  tls : option tls_config;
}.

(** The flag of the [sync.Once], the buffer of the channel, of capacity 1, and
    whether it is closed. *)
Record Client := mkClient {
  config : Config;
  initialSubscriptionOnce : bool;
  initialSubscriptionResult : list (option goerror);
  closed : bool;
  connectAttempts : Z;
}.

Definition NewClient (c : Config) (random : result bytes) : result (Client * options) :=
  if String.eqb (BrokerURL c) EmptyString then Err (Errorf "mqtt: BrokerURL required" [])
  else if len (Topics c) =? 0 then Err (Errorf "mqtt: at least one Topic required" [])
  else
    c ← (if String.eqb (ClientID c) EmptyString then
           match generateClientID random with
           | Err e => Err (wrap "mqtt: generate client id: " [] e)
           | Ok id => Ok (with_id id c)
           end
         else Ok c);
    let c := if 1 <? QoS c then with_qos 1 c else c in
    let some_if (s : string) := if negb (String.eqb s EmptyString) then Some s else None in
    tls ← (if isTLSBroker (BrokerURL c) then
             match createMQTTTLSConfig c with
             | Err e => Err (wrap "mqtt: TLS configuration failed: " [] e)
             | Ok t => Ok (Some t)
             end
           else Ok None);
    Ok (mkClient c false [] false 0,
        mkOptions (BrokerURL c) (ClientID c) true false (20 * Second) (5 * Second)
          (some_if (Username c)) (some_if (Password c)) tls).

(** ** Callbacks *)

Inductive mqtt_call :=
| Prom (c : prom_call)
| PahoConnect
| Subscribe (topic : string) (qos : Z)
| Disconnect (quiesce : Z).

(** A computation that may panic ([None]). *)
Definition M (A : Type) : Type := GoM mqtt_call Client A.
Definition metrics (l : list prom_call) : M unit := call (Prom <$> l).

Definition set_channel (o : bool) (r : list (option goerror)) (cl : bool) (c : Client) : Client :=
  mkClient (config c) o r cl (connectAttempts c).
Definition set_attempts (n : Z) (c : Client) : Client :=
  mkClient (config c) (initialSubscriptionOnce c) (initialSubscriptionResult c) (closed c) n.

(** What happens to one subscription: acknowledged, refused or neither in time. *)
Inductive outcome := Acked | Refused (e : goerror) | TimedOut.

(** The subscriptions in order; [outs i] is the outcome of the [i]-th. *)
Fixpoint subscribe_loop (qos : Z) (topics : list string) (i : nat) (outs : nat → outcome) : M (option goerror) :=
  match topics with
  | [] => mret None
  | topic :: topics =>
      call [Subscribe topic qos] ;;
      match outs i with
      | TimedOut => mret (Some (Errorf "subscribe to %s: timeout" [topic]))
      | Refused e => mret (Some (wrap "subscribe to %s: " [topic] e))
      | Acked => subscribe_loop qos topics (S i) outs
      end
  end.

Definition subscribe (outs : nat → outcome) : M (option goerror) :=
  c ← get; subscribe_loop (QoS (config c)) (Topics (config c)) 0 outs.

(** [None] when the send or the close panics, or the send would block for ever. *)
Definition completeInitialSubscription (err : option goerror) : M (option unit) :=
  c ← get;
  if initialSubscriptionOnce c then mret (Some tt)
  else if closed c || (1 <=? len (initialSubscriptionResult c)) then mret None
  else modify (set_channel true (initialSubscriptionResult c ++ [err]) true) ;; mret (Some tt).

Definition handleConnect (outs : nat → outcome) : M (option unit) :=
  err ← subscribe outs;
  match err with
  | Some e =>
      metrics (SetMQTTConnected false) ;;
      completeInitialSubscription (Some (wrap "mqtt: subscribe failed: " [] e))
  | None =>
      c ← get;
      let attempts := i32 (connectAttempts c + 1) in
      modify (set_attempts attempts) ;;
      (if 1 <? attempts then metrics RecordMQTTReconnect else mret tt) ;;
      metrics (SetMQTTConnected true) ;;
      metrics RecordMQTTConnect ;;
      completeInitialSubscription None
  end.

(** The handler of lost connections. *)
Definition connectionLost : M unit :=
  metrics (SetMQTTConnected false) ;; metrics RecordMQTTDisconnect.

(** ** Connecting *)

(** [Connect] up to its [select]: [token] is the outcome of the connection
    token.  The result is the error it returns at once. *)
Definition connect_token (token : outcome) : M (option goerror) :=
  call [PahoConnect] ;;
  match token with
  | TimedOut => metrics (SetMQTTConnected false) ;; mret (Some (Errorf "mqtt: connect timeout" []))
  | Refused e => metrics (SetMQTTConnected false) ;; mret (Some (wrap "mqtt: connect failed: " [] e))
  | Acked => mret None
  end.

(** The [select]: a receive from the channel, or the timer; [None] when the
    chosen case is not ready. *)
Definition connect_select (timer : bool) : M (option (option goerror)) :=
  if timer then
    metrics (SetMQTTConnected false) ;; mret (Some (Some (Errorf "mqtt: initial subscribe timeout" [])))
  else
    c ← get;
    match initialSubscriptionResult c with
    | err :: rest =>
        modify (set_channel (initialSubscriptionOnce c) rest (closed c)) ;;
        match err with
        | None => mret (Some None)
        | Some e => metrics (SetMQTTConnected false) ;; mret (Some (Some e))
        end
    | [] => if closed c then mret (Some None) else mret None
    end.

(** [Connect]: [callbacks] is what Paho's goroutines do before the [select]
    chooses. *)
Definition Connect (token : outcome) (callbacks : M unit) (timer : bool) : M (option (option goerror)) :=
  err ← connect_token token;
  match err with
  | Some e => mret (Some (Some e))
  | None => callbacks ;; connect_select timer
  end.

Definition Close (open : bool) : M unit :=
  metrics (SetMQTTConnected false) ;;
  if open then metrics RecordMQTTDisconnect ;; call [Disconnect 250] else mret tt.

(** ** The initial subscription *)

Inductive event := EConnected (outs : nat → outcome) | ELost | ESelect (timer : bool).

(** A sequence of events: whether none panicked, and what each receive gets, in
    order, [None] when it would block. *)
Fixpoint run_events (es : list event) : M (bool * list (option (option goerror))) :=
  match es with
  | [] => mret (true, [])
  | EConnected outs :: es =>
      r ← handleConnect outs; '(ok, l) ← run_events es;
      mret (match r with Some _ => ok | None => false end, l)
  | ELost :: es => connectionLost ;; run_events es
  | ESelect timer :: es =>
      r ← connect_select timer; '(ok, l) ← run_events es;
      mret (ok, if timer : bool then l else r :: l)
  end.

(** What [handleConnect] reports for the given outcomes. *)
Definition report (c : Config) (outs : nat → outcome) : option goerror :=
  wrap "mqtt: subscribe failed: " [] <$> (subscribe_loop (QoS c) (Topics c) 0 outs (mkClient c false [] false 0)).1.1.

Fixpoint first_connected (es : list event) : option (nat → outcome) :=
  match es with
  | [] => None
  | EConnected outs :: _ => Some outs
  | _ :: es => first_connected es
  end.

(** The receives, and what follows the first connection. *)
Definition is_receive (e : event) : bool := match e with ESelect false => true | _ => false end.
Definition receives (es : list event) : nat := length (filter (λ e, is_receive e = true) es).

Fixpoint since_connected (es : list event) : list event :=
  match es with
  | [] => []
  | EConnected _ :: es => es
  | _ :: es => since_connected es
  end.

(** The channel: nothing sent, the first report waiting, or taken. *)
Inductive channel := Unsent | Waiting (e : option goerror) | Taken.

Definition channel_is (c : Client) (ch : channel) : Prop :=
  match ch with
  | Unsent => initialSubscriptionOnce c = false ∧ initialSubscriptionResult c = [] ∧ closed c = false
  | Waiting e => initialSubscriptionOnce c = true ∧ initialSubscriptionResult c = [e] ∧ closed c = true
  | Taken => initialSubscriptionOnce c = true ∧ initialSubscriptionResult c = [] ∧ closed c = true
  end.

Lemma subscribe_loop_pure qos topics i outs c :
  ∃ e w, subscribe_loop qos topics i outs c = (e, c, w) ∧
    ∀ c', (subscribe_loop qos topics i outs c').1.1 = e.
Proof.
  revert i. induction topics as [|t topics IH]; intros i; [by eexists _, _|]. cbn [subscribe_loop].
  unfold mbind, GoM_bind, call. destruct (outs i).
  - destruct (IH (S i)) as (e & w & E & Hv). rewrite E. eexists _, _. split; [done|]. intros c'.
    specialize (Hv c'). by destruct (subscribe_loop qos topics (S i) outs c') as [[??]?].
  - by eexists _, _.
  - by eexists _, _.
Qed.

Lemma complete_effect e c ch :
  channel_is c ch →
  ∃ c', completeInitialSubscription e c = (Some tt, c', []) ∧ config c' = config c ∧
    channel_is c' (match ch with Unsent => Waiting e | _ => ch end).
Proof.
  intros Hch. unfold completeInitialSubscription, mbind, GoM_bind, get, modify, mret, GoM_ret.
  destruct ch; pose proof Hch as (H1 & H2 & H3); rewrite H1; [|by exists c..]. rewrite H2, H3. by eexists.
Qed.

Lemma handleConnect_effect outs c ch :
  channel_is c ch →
  ∃ c' w, handleConnect outs c = (Some tt, c', w) ∧ config c' = config c ∧
    channel_is c' (match ch with Unsent => Waiting (report (config c) outs) | _ => ch end).
Proof.
  intros Hch. unfold handleConnect, subscribe, report.
  destruct (subscribe_loop_pure (QoS (config c)) (Topics (config c)) 0 outs c) as (e & w & E & Hv).
  rewrite Hv. unfold metrics. unfold mbind at 1, GoM_bind at 1. unfold mbind at 1, GoM_bind at 1, get. rewrite E.
  destruct e as [e|].
  - destruct (complete_effect (Some (wrap "mqtt: subscribe failed: " [] e)) c ch Hch) as (c' & Ec & Hc & Hch').
    unfold mbind, GoM_bind, call. rewrite Ec. by eexists _, _.
  - set (c1 := set_attempts (i32 (connectAttempts c + 1)) c).
    assert (Hch1 : channel_is c1 ch) by exact Hch.
    destruct (complete_effect None c1 ch Hch1) as (c' & Ec & Hc & Hch').
    unfold mbind, GoM_bind, call, modify, mret, GoM_ret. fold c1.
    destruct (1 <? i32 (connectAttempts c + 1)); rewrite Ec; by eexists _, _.
Qed.

Lemma select_effect timer c ch :
  channel_is c ch →
  ∃ r c' w, connect_select timer c = (r, c', w) ∧ config c' = config c ∧
    if timer then channel_is c' ch
    else channel_is c' (match ch with Waiting _ => Taken | _ => ch end) ∧
         r = match ch with Unsent => None | Waiting e => Some e | Taken => Some None end.
Proof.
  intros Hch. unfold connect_select, mbind, GoM_bind, get, modify, mret, GoM_ret, metrics, call.
  destruct timer; [by eexists _, _, _|].
  destruct ch as [|e|]; destruct Hch as (H1 & H2 & H3); rewrite H2, ?H3.
  - by eexists _, _, _.
  - destruct e; eexists _, _, _; (split; [done|]); cbn; rewrite ?H1, ?H3; done.
  - by eexists _, _, _.
Qed.

(** The channel after an event, and what a receive gets from it. *)
Definition channel_after (cfg : Config) (ch : channel) (e : event) : channel :=
  match e, ch with
  | EConnected outs, Unsent => Waiting (report cfg outs)
  | ESelect false, Waiting _ => Taken
  | _, _ => ch
  end.

Definition answer (ch : channel) : option (option goerror) :=
  match ch with Unsent => None | Waiting e => Some e | Taken => Some None end.

Fixpoint answers (cfg : Config) (ch : channel) (es : list event) : list (option (option goerror)) :=
  match es with
  | [] => []
  | e :: es => (if is_receive e then [answer ch] else []) ++ answers cfg (channel_after cfg ch e) es
  end.

Lemma run_events_effect es c ch :
  channel_is c ch → run_val (run_events es) c = (true, answers (config c) ch es).
Proof.
  revert c ch. induction es as [|e es IH]; intros c ch Hch; [done|].
  unfold run_val in *. cbn [run_events answers]. unfold mbind, GoM_bind. destruct e as [outs| |timer].
  - destruct (handleConnect_effect outs c ch Hch) as (c' & w & -> & Hc & Hch').
    specialize (IH c' _ Hch'). rewrite Hc in IH.
    destruct (run_events es c') as [[[ok l] c2] w2]. cbn in *. injection IH as -> ->. by destruct ch.
  - unfold connectionLost, metrics, mbind, GoM_bind, call. cbn. specialize (IH c ch Hch).
    destruct (run_events es c) as [[[ok l] c2] w2]. cbn in *. by rewrite IH.
  - destruct (select_effect timer c ch Hch) as (r & c' & w & -> & Hc & Hch'). destruct timer.
    + specialize (IH c' _ Hch'). rewrite Hc in IH.
      destruct (run_events es c') as [[[ok l] c2] w2]. cbn in *. by injection IH as -> ->.
    + destruct Hch' as [Hch' ->]. specialize (IH c' _ Hch'). rewrite Hc in IH.
      destruct (run_events es c') as [[[ok l] c2] w2]. cbn in *. injection IH as -> ->. by destruct ch.
Qed.

(** The state of the channel after [es], told from the events alone. *)
Definition channel_state (cfg : Config) (es : list event) : channel :=
  match first_connected es with
  | None => Unsent
  | Some outs => if existsb is_receive (since_connected es) then Taken else Waiting (report cfg outs)
  end.

Lemma foldl_sent cfg es ch :
  ch ≠ Unsent → foldl (channel_after cfg) ch es = (if existsb is_receive es then Taken else ch).
Proof.
  revert ch. induction es as [|e es IH]; intros ch Hch; [done|]. cbn [foldl existsb].
  destruct e as [| |[]], ch; try done; cbn; rewrite IH by done; by destruct (existsb _ _).
Qed.

Lemma foldl_channel cfg es : foldl (channel_after cfg) Unsent es = channel_state cfg es.
Proof.
  induction es as [|e es IH]; [done|]. unfold channel_state in *. cbn [foldl first_connected since_connected].
  destruct e as [outs| |[]]; [by rewrite foldl_sent|exact IH..].
Qed.

Lemma answers_app cfg ch es1 es2 :
  answers cfg ch (es1 ++ es2) = answers cfg ch es1 ++ answers cfg (foldl (channel_after cfg) ch es1) es2.
Proof. revert ch. induction es1 as [|e es1 IH]; intros ch; [done|]. cbn. by rewrite IH, (assoc_L (++)). Qed.

Lemma answers_length cfg ch es : length (answers cfg ch es) = receives es.
Proof.
  revert ch. unfold receives. induction es as [|e es IH]; intros ch; [done|]. cbn [answers]. rewrite length_app, IH.
  rewrite filter_cons. by destruct (is_receive e).
Qed.

(** The callbacks alone, without a [select] in between. *)
Definition callback (e : event) : bool := match e with ESelect _ => false | _ => true end.

Definition callbacks (es : list event) : M unit := run_events es ;; mret tt.

Lemma callbacks_channel es c ch :
  forallb callback es = true → channel_is c ch →
  ∃ c' w, callbacks es c = (tt, c', w) ∧ config c' = config c ∧
    channel_is c' (match ch, first_connected es with
                   | Unsent, Some outs => Waiting (report (config c) outs) | _, _ => ch end).
Proof.
  unfold callbacks. revert c ch. induction es as [|e es IH]; intros c ch Hes Hch.
  { exists c, []. split_and!; [done..|]. by destruct ch. }
  cbn [forallb] in Hes. apply andb_true_iff in Hes as [He Hes]. destruct e as [outs| |]; [| |done].
  - destruct (handleConnect_effect outs c ch Hch) as (c1 & w1 & E1 & Hc1 & Hch1).
    destruct (IH c1 _ Hes Hch1) as (c2 & w2 & E2 & Hc2 & Hch2).
    unfold mbind, GoM_bind in E2 |- *. cbn [run_events]. unfold mbind, GoM_bind. rewrite E1.
    destruct (run_events es c1) as [[[ok l] c3] w3]. injection E2 as -> <-.
    eexists c2, _. split; [reflexivity|]. rewrite Hc2, Hc1. split; [done|].
    rewrite Hc1 in Hch2. cbn [first_connected]. by destruct ch.
  - destruct (IH c ch Hes Hch) as (c2 & w2 & E2 & Hc2 & Hch2).
    unfold mbind, GoM_bind in E2 |- *. cbn [run_events]. unfold connectionLost, metrics, mbind, GoM_bind, call.
    destruct (run_events es c) as [[[ok l] c3] w3]. injection E2 as -> <-.
    eexists c2, _. by split.
Qed.

Lemma NewClient_channel cfg random c o :
  NewClient cfg random = Ok (c, o) → channel_is c Unsent.
Proof.
  unfold NewClient. destruct (String.eqb _ _); [done|]. destruct (_ =? 0); [done|].
  intros (c1 & _ & (t & _ & [= <- _])%bind_ok)%bind_ok. done.
Qed.

(** C28: over any sequence of connections and reconnections, lost connections and
    waits of [Connect], the channel of the initial subscription is never sent on
    twice, closed twice or blocked on by a callback, and every receive does what
    the events before it say: before the first connection it blocks; the first
    receive after it gets the report of that connection's subscriptions, nil when
    all were acknowledged; and every later one returns nil at once, whatever
    later connections reported. *)
Theorem initial_subscription_once cfg random c o es :
  NewClient cfg random = Ok (c, o) →
  (run_val (run_events es) c).1 = true ∧
  length (run_val (run_events es) c).2 = receives es ∧
  ∀ before after, es = before ++ ESelect false :: after →
    (run_val (run_events es) c).2 !! receives before =
      Some (match first_connected before with
            | None => None
            | Some outs =>
                Some (if existsb is_receive (since_connected before) then None else report (config c) outs)
            end).
Proof.
  intros Hn. rewrite (run_events_effect es c Unsent) by (by eapply NewClient_channel). cbn [fst snd].
  split; [done|]. split; [apply answers_length|]. intros before after ->.
  rewrite answers_app, lookup_app_r by (by rewrite answers_length). rewrite answers_length, Nat.sub_diag, foldl_channel.
  unfold channel_state. cbn. by destruct (first_connected before); [destruct (existsb _ _)|].
Qed.

(** ** Construction *)

(** C35: a client is built only for a broker and at least one topic; its quality of
    service is 0 or 1, its identifier is never empty, and it uses TLS exactly
    when the scheme of the broker asks for it, then with version 1.2 at least
    and trusting only the given CA file when there is one; whatever goes wrong
    with that file is an error, never a connection without TLS. *)
Theorem NewClient_secure cfg random c o :
  NewClient cfg random = Ok (c, o) → 0 ≤ QoS cfg →
  BrokerURL cfg ≠ EmptyString ∧ Topics (config c) ≠ [] ∧ Topics (config c) = Topics cfg ∧
  0 ≤ QoS (config c) ≤ 1 ∧ clientID o ≠ EmptyString ∧
  (is_Some (tls o) ↔ isTLSBroker (broker o) = true) ∧
  (∀ t, tls o = Some t → MinVersion t = VersionTLS12 ∧
     (TLSCAFile cfg ≠ EmptyString → ∃ pem, ReadFile (TLSCAFile cfg) = Ok pem ∧ ValidPEM pem = true ∧
       RootCAs t = CustomCA pem)).
Proof.
  unfold NewClient. destruct (String.eqb_spec (BrokerURL cfg) EmptyString); [done|].
  destruct (Z.eqb_spec (len (Topics cfg)) 0) as [|Ht]; [done|].
  intros (c1 & H1 & (t & Htls & [= <- <-])%bind_ok)%bind_ok Hq. cbn [config clientID broker tls].
  assert (Hc1 : BrokerURL c1 = BrokerURL cfg ∧ Topics c1 = Topics cfg ∧ QoS c1 = QoS cfg ∧
    TLSCAFile c1 = TLSCAFile cfg ∧ ClientID c1 ≠ EmptyString).
  { destruct (String.eqb_spec (ClientID cfg) EmptyString); [|by injection H1 as <-].
    destruct (generateClientID random) as [id|] eqn:E; [|done]. injection H1 as <-. split_and!; try done.
    unfold generateClientID in E. apply bind_ok in E as (bs & _ & [= <-]). done. }
  destruct Hc1 as (Hb & Hto & Hqc & Hca & Hid).
  set (c2 := if 1 <? QoS c1 then with_qos 1 c1 else c1) in *.
  assert (Hc2 : BrokerURL c2 = BrokerURL c1 ∧ Topics c2 = Topics c1 ∧ TLSCAFile c2 = TLSCAFile c1 ∧
    ClientID c2 = ClientID c1 ∧ 0 ≤ QoS c2 ≤ 1).
  { subst c2. destruct (Z.ltb_spec 1 (QoS c1)); split_and!; try done; cbn; lia. }
  destruct Hc2 as (Hb2 & Hto2 & Hca2 & Hid2 & Hq2). rewrite Hb2, Hto2, Hid2, Hb, Hto.
  split_and!; [done| |done|lia|lia|done| |].
  - intros E. by rewrite E in Ht.
  - rewrite Hb2, Hb in Htls. destruct (isTLSBroker (BrokerURL cfg)).
    + destruct (createMQTTTLSConfig c2); [|done]. injection Htls as <-. split; [done|by eexists].
    + injection Htls as <-. split; [by intros [? ?]|done].
  - intros t' ->. destruct (isTLSBroker (BrokerURL c2)); [|done].
    destruct (createMQTTTLSConfig c2) as [t2|] eqn:E; [|done]. injection Htls as ->.
    unfold createMQTTTLSConfig in E. rewrite Hca2, Hca in E.
    destruct (String.eqb_spec (TLSCAFile cfg) EmptyString); cbn [negb] in E; [by injection E as <-|].
    destruct (ReadFile (TLSCAFile cfg)) as [pem|]; [|done]. destruct (ValidPEM pem) eqn:Hv; [|done].
    injection E as <-. split; [done|]. intros _. by exists pem.
Qed.
End client.

(** ** Examples and witnesses *)

Example generateClientID_ex :
  generateClientID (Ok ((λ i, Z.of_nat i * 17) <$> seq 0 16)) = Ok "entropy-rx-00112233-4455-4677-8899-aabbccddeeff".
Proof. vm_compute. reflexivity. Qed.

Definition witness_lower : GoUnicode := {| unicode_lower := λ s, s |}.
Definition witness_certs : CertPool :=
  {| ReadFile := λ p, if String.eqb p "/ca.pem" then Ok [1] else Err (Errorf "no such file" []);
     ValidPEM := λ l, 0 <? len l; SystemPoolOk := true |}.

Definition witness_config : Config :=
  mkConfig "SSL://broker:8883" "rx" ["timestamps/channel/#"; "lab/#"] 2 EmptyString EmptyString "/ca.pem".

Lemma initial_subscription_once_witness :
  let U := witness_lower in let P := witness_certs in
  let before := [ESelect false; ESelect true; EConnected (λ i, if Nat.eqb i 1 then TimedOut else Acked);
    EConnected (λ _, Acked)] in
  let es := before ++ ESelect false :: [ELost; ESelect false] in
  ∃ c o, NewClient witness_config (Ok []) = Ok (c, o) ∧
    (run_val (run_events es) c).2 !! 1%nat =
      Some (Some (Some (Errorf "mqtt: subscribe failed: subscribe to %s: timeout" ["lab/#"]))) ∧
    (run_val (run_events es) c).2 =
      [None; Some (Some (Errorf "mqtt: subscribe failed: subscribe to %s: timeout" ["lab/#"])); Some None].
Proof.
  intros U P before es.
  destruct (NewClient witness_config (Ok [])) as [[c o]|] eqn:E; [|by vm_compute in E].
  exists c, o. split; [done|].
  destruct (@initial_subscription_once U P witness_config (Ok []) c o es E) as (_ & _ & H3).
  specialize (H3 before [ELost; ESelect false] eq_refl). vm_compute in E. injection E as <- <-.
  split; [exact H3|]. vm_compute. reflexivity.
Defined.

Lemma NewClient_secure_witness :
  let U := witness_lower in let P := witness_certs in
  ∃ c o, NewClient witness_config (Ok []) = Ok (c, o) ∧ QoS (config c) ≤ 1 ∧ is_Some (tls o).
Proof.
  intros U P. destruct (NewClient witness_config (Ok [])) as [[c o]|] eqn:E; [|by vm_compute in E].
  exists c, o. split; [done|]. assert (Hq : 0 ≤ QoS witness_config) by (vm_compute; congruence).
  destruct (@NewClient_secure U P witness_config (Ok []) c o E Hq) as (_ & _ & _ & [_ H1] & _ & _ & _).
  split; [exact H1|]. vm_compute in E. injection E as _ <-. by eexists.
Defined.
