(* ===== verification/Forwarder.v ===== *)
(** * Senders of the collector (cmd/entropy-tdc-gateway/main.go)

    The conversion of events into protocol messages and the three senders the
    program can give its collector.  The pool and the gRPC clients are shared
    objects: a sender is a computation on the [store] that holds them, and the
    readings of the clock and the outcome of [stream.Send] are arguments.
    [cloud_SendBatch] is the call that nothing interrupts; [Gateway] runs its
    parts (pool, load of the client, call, return) as steps of their own. *)

From S2P Require Import Prelude Float64 GoStrings Clock Metrics Proto HealthTests QuickTests.
From S2P Require Import MinEntropy Sha256 Whitening MqttHandler Pool Collector Config GrpcClient.

Abbreviation event := MqttHandler.TDCEvent.

(** [err.Error()]. *)
Class ErrorText := { Error : goerror → string }.

(** ** Conversion to protocol messages *)

Definition whitenEvent (evt : event) : bytes :=
  let canonical := le_bytes64 (MqttHandler.TdcTimestampPs evt) in
  DualStageWhitening canonical.

Section conversion.
Context {S : Type}.

(** A nil slice of bytes is the empty one. *)
Definition toProtoEvent (evt : event) : GoM prom_call S Proto.TDCEvent :=
  let whitened := whitenEvent evt in
  whitened ← (if negb (len whitened =? 32) then
                call (RecordEventDropped "invalid_whitened_entropy") ;; mret []
              else mret whitened);
  mret (Proto.mkTDCEvent (MqttHandler.RpiTimestampUs evt) (MqttHandler.TdcTimestampPs evt)
    (MqttHandler.Channel evt) None None whitened).

Definition toProtoEvents (events : list event) : GoM prom_call S (list Proto.TDCEvent) :=
  mapM toProtoEvent events.

Definition convertToProtoBatch (events : list event) (sequence : Z) : GoM prom_call S EntropyBatch :=
  pbEvents ← toProtoEvents events;
  mret (mkEntropyBatch pbEvents None 0 sequence "entropy-tdc-gateway" 0 0 [] CHECKSUM_ALGO_UNSPECIFIED []
    None COMPRESSION_NONE 0 None None None).
End conversion.

(** ** The senders *)

(** The objects the goroutines of the program share: the pool, the clients of
    the cloud service made so far (each with its own goroutines), and the
    forwarder's pointer to the one that is attached. *)
Record store := mkStore {
  pool : WhitenedPool;
  clients : list GrpcClient.system;
  client : option nat;
}.

(** What one [SendBatch] reads from outside: the clock before and after the
    timed part, the clock of the message, and what [stream.Send] returns. *)
Record readings := mkReadings {
  start : Z;
  stop : Z;
  nowMicro : Z;
  stream_send : option goerror;
}.

Section senders.
Context `{MathLib, MapRange, ErrorText}.

Definition M : Type → Type := GoM prom_call store.

Definition set_pool (p : WhitenedPool) (s : store) : store := mkStore p (clients s) (client s).
Definition set_clients (l : list GrpcClient.system) (s : store) : store := mkStore (pool s) l (client s).
Definition set_client (c : option nat) (s : store) : store := mkStore (pool s) (clients s) c.

Definition on_pool {A} (m : GoM prom_call WhitenedPool A) : M A :=
  λ s, match m (pool s) with (a, p, w) => (a, set_pool p s, w) end.

(** A method of client [k], with the goroutines it starts; the calls it makes
    are in the log of the client. *)
Definition on_client {A} (k : nat) (m : GrpcClient.M A) : M (option A) :=
  λ s, match clients s !! k with
       | Some sys => match GrpcClient.exec m sys with (a, sys') => (Some a, set_clients (<[k := sys']> (clients s)) s, []) end
       | None => (None, s, [])
       end.

(** A forwarder starts without a client. *)
Definition newCloudAwareForwarder (pool : WhitenedPool) : store := mkStore pool [] None.

(** The closure [setupBatchCollector] builds. *)
Definition local_SendBatch (r : readings) (events : list event) (sequence : Z) : M (result unit) :=
  on_pool (AddBatch events) ;;
  let duration := Seconds (Sub (stop r) (start r)) in
  call (RecordBatch (len events) duration true EmptyString) ;;
  mret (Ok tt).

Definition local_IncrementDropped (count : Z) : M unit := mret tt.

(** [f.client.Load()]. *)
Definition cloud_load : M (option nat) := s ← get; mret (client s).

(** [cloudAwareForwarder.SendBatch]; [None] is the panic of the client. *)
Definition cloud_SendBatch (r : readings) (events : list event) (sequence : Z) : M (option (result unit)) :=
  on_pool (AddBatch events) ;;
  let localDuration := Seconds (Sub (stop r) (start r)) in
  c ← cloud_load;
  match c with
  | None => call (RecordBatch (len events) localDuration true EmptyString) ;; mret (Some (Ok tt))
  | Some k =>
      pbEvents ← toProtoEvents events;
      res ← on_client k (GrpcClient.SendBatch pbEvents sequence (nowMicro r) (stream_send r));
      match mjoin res with
      | None => mret None
      | Some (Err e) =>
          call (RecordBatch (len events) localDuration false (Error e)) ;; mret (Some (Err e))
      | Some (Ok _) =>
          call (RecordBatch (len events) localDuration true EmptyString) ;; mret (Some (Ok tt))
      end
  end.

Definition cloud_IncrementDropped (count : Z) : M unit :=
  if count =? 0 then mret tt else call (RecordDroppedCount "forwarder" count).

Definition SetClient (c : option nat) : M unit :=
  modify (set_client c) ;;
  call (SetGRPCConnected (bool_decide (is_Some c))).

(** [Close] of client [k] up to its wait, which its goroutines end. *)
Definition begin_close (k : nat) (s : store) : store :=
  match sys ← clients s !! k; GrpcClient.step LClose sys with
  | Some sys' => set_clients (<[k := sys']> (clients s)) s
  | None => s
  end.

(** [Close] detaches the client and closes it. *)
Definition cloud_Close : M (option nat) :=
  c ← cloud_load;
  modify (set_client None) ;;
  call (SetGRPCConnected false) ;;
  match c with
  | Some k => modify (begin_close k) ;; mret c
  | None => mret c
  end.

(** [grpcForwarder.SendBatch]: the client alone, timed. *)
Definition grpc_SendBatch (r : readings) (k : nat) (events : list event) (sequence : Z)
    : M (option (result unit)) :=
  pbEvents ← toProtoEvents events;
  res ← on_client k (GrpcClient.SendBatch pbEvents sequence (nowMicro r) (stream_send r));
  let duration := Seconds (Sub (stop r) (start r)) in
  match mjoin res with
  | None => mret None
  | Some (Err e) => call (RecordBatch (len events) duration false (Error e)) ;; mret (Some (Err e))
  | Some (Ok _) => call (RecordBatch (len events) duration true EmptyString) ;; mret (Some (Ok tt))
  end.

Definition grpc_IncrementDropped (count : Z) : M unit := mret tt.

(** ** What a message carries *)

(** The message [toProtoEvent] builds when the whitened entropy has its size. *)
Definition proto_of (evt : event) : Proto.TDCEvent :=
  Proto.mkTDCEvent (MqttHandler.RpiTimestampUs evt) (MqttHandler.TdcTimestampPs evt)
    (MqttHandler.Channel evt) None None (whitenEvent evt).

Lemma whitenEvent_size evt : len (whitenEvent evt) = 32 ∧ bytes_ok (whitenEvent evt).
Proof. unfold whitenEvent. by destruct (DualStageWhitening_digest (le_bytes64 (MqttHandler.TdcTimestampPs evt))). Qed.

Lemma toProtoEvent_eq {S} evt (s : S) : toProtoEvent evt s = (proto_of evt, s, []).
Proof. unfold toProtoEvent. by rewrite (proj1 (whitenEvent_size evt)). Qed.

Lemma toProtoEvents_eq {S} events (s : S) : toProtoEvents events s = (proto_of <$> events, s, []).
Proof.
  unfold toProtoEvents. induction events as [|e events IH]; [done|].
  change (mapM toProtoEvent (e :: events)) with
    (toProtoEvent (S := S) e ≫= λ y, mapM toProtoEvent events ≫= λ k, mret (y :: k)).
  rewrite (bind_run _ _ _ _ _ _ (toProtoEvent_eq e s)). unfold run_val, run_state, run_calls.
  by rewrite (bind_run _ _ _ _ _ _ IH).
Qed.

(** Byte [i] of the product of a byte and 0x0101010101010101. *)
Lemma repeated_byte c i :
  is_byte c → 0 ≤ i < 8 → u8 (Z.shiftr (c * 0x0101010101010101) (8 * i)) = c.
Proof.
  unfold is_byte, u8. intros Hc Hi. rewrite Z.shiftr_div_pow2 by lia.
  assert (i = 0 ∨ i = 1 ∨ i = 2 ∨ i = 3 ∨ i = 4 ∨ i = 5 ∨ i = 6 ∨ i = 7) as Hcases by lia.
  destruct Hcases as [->|[->|[->|[->|[->|[->|[->| ->]]]]]]]; cbn -[Z.div Z.modulo Z.mul];
    rewrite <-(Z.mod_small c 256) at 2 by lia; Z.to_euclidean_division_equations; lia.
Qed.

Lemma u8_lxor a b : u8 (Z.lxor a b) = Z.lxor (u8 a) (u8 b).
Proof.
  unfold u8. rewrite <-!(Z.land_ones _ 8) by lia. apply Z.bits_inj'. intros n Hn.
  rewrite Z.lxor_spec, !Z.land_spec, Z.lxor_spec.
  by destruct (Z.testbit a n), (Z.testbit b n), (Z.testbit (Z.ones 8) n).
Qed.

Lemma le_bytes64_lxor t c :
  is_byte c → le_bytes64 (Z.lxor t (c * 0x0101010101010101)) = Z.lxor c <$> le_bytes64 t.
Proof.
  intros Hc. unfold le_bytes64. rewrite <-list_fmap_compose. apply list_fmap_ext. intros k i Hi.
  apply list_elem_of_lookup_2 in Hi. rewrite !elem_of_cons, elem_of_nil in Hi.
  assert (0 ≤ i < 8) by lia.
  cbn [compose]. rewrite Z.shiftr_lxor, u8_lxor, repeated_byte by done. apply Z.lxor_comm.
Qed.

(** The message of an event carries the event's own fields and exactly 32
    bytes of whitened entropy, a function of its TDC timestamp alone, so that
    the branch that drops entropy of another size is never taken and counts
    nothing; of the 64 bits of the timestamp at most 56 matter: exclusive-oring
    all its eight bytes with one byte gives the same 32 bytes. *)
Theorem toProtoEvent_spec {S} evt (s : S) :
  ∃ m, toProtoEvent evt s = (m, s, []) ∧
    Proto.RpiTimestampUs m = MqttHandler.RpiTimestampUs evt ∧
    Proto.TdcTimestampPs m = MqttHandler.TdcTimestampPs evt ∧
    Proto.Channel m = MqttHandler.Channel evt ∧
    len (WhitenedEntropy m) = 32 ∧ bytes_ok (WhitenedEntropy m) ∧
    WhitenedEntropy m = Sum256 (ParityPreprocess (le_bytes64 (MqttHandler.TdcTimestampPs evt))) ∧
    (∀ evt' c, is_byte c →
       MqttHandler.TdcTimestampPs evt' = Z.lxor (MqttHandler.TdcTimestampPs evt) (c * 0x0101010101010101) →
       WhitenedEntropy (run_val (toProtoEvent evt') s) = WhitenedEntropy m).
Proof.
  exists (proto_of evt). rewrite toProtoEvent_eq. destruct (whitenEvent_size evt) as [Hl Hb].
  assert (Hd : ∀ e, whitenEvent e = Sum256 (ParityPreprocess (le_bytes64 (MqttHandler.TdcTimestampPs e)))).
  { intros e. by apply DualStageWhitening_digest. }
  split_and!; try done. intros evt' c Hc Ht. unfold run_val. rewrite toProtoEvent_eq.
  cbn. rewrite !Hd, Ht, le_bytes64_lxor by done. f_equal. rewrite !ParityPreprocess_fold. apply xor_fold_shift.
Qed.

(** ** What the cloud-aware sender does *)

Lemma on_pool_eq {A} (m : GoM prom_call WhitenedPool A) s :
  on_pool m s = (run_val m (pool s), set_pool (run_state m (pool s)) s, run_calls m (pool s)).
Proof. unfold on_pool, run_val, run_state, run_calls. by destruct (m (pool s)) as [[a p] w]. Qed.

Definition send_calls (n : Z) (r : readings) (failure : option goerror) : list prom_call :=
  match failure with
  | None => RecordBatch n (Seconds (Sub (stop r) (start r))) true EmptyString
  | Some e => RecordBatch n (Seconds (Sub (stop r) (start r))) false (Error e)
  end.

Lemma cloud_SendBatch_eq r events sequence s :
  cloud_SendBatch r events sequence s =
    let p := run_state (AddBatch events) (pool s) in
    let w := run_calls (AddBatch events) (pool s) in
    match client s with
    | None => (Some (Ok tt), mkStore p (clients s) None, w ++ send_calls (len events) r None)
    | Some k =>
        match clients s !! k with
        | None => (None, mkStore p (clients s) (Some k), w)
        | Some sys =>
            match GrpcClient.exec (GrpcClient.SendBatch (proto_of <$> events) sequence (nowMicro r) (stream_send r)) sys with
            | (res, sys') =>
                let s' := mkStore p (<[k := sys']> (clients s)) (Some k) in
                match res with
                | None => (None, s', w)
                | Some (Err e) => (Some (Err e), s', w ++ send_calls (len events) r (Some e))
                | Some (Ok _) => (Some (Ok tt), s', w ++ send_calls (len events) r None)
                end
            end
        end
    end.
Proof.
  unfold cloud_SendBatch. cbv zeta. rewrite (bind_run _ _ _ _ _ _ (on_pool_eq _ _)).
  unfold run_val, run_state, run_calls. rewrite (bind_run cloud_load _ _ _ _ [] eq_refl).
  unfold run_val, run_state, run_calls, set_pool. cbn [client clients pool]. destruct (client s) as [k|]; [|done].
  rewrite (bind_run _ _ _ _ _ _ (toProtoEvents_eq _ _)).
  unfold run_val, run_state, run_calls, on_client, mbind, GoM_bind. cbn [clients].
  destruct (clients s !! k) as [sys|]; [|cbn; by rewrite !app_nil_r].
  destruct (GrpcClient.exec _ _) as [[[[]|e]|] sys']; cbn; by rewrite ?app_nil_r.
Qed.

(** Sending on a client whose invariant holds. *)
Lemma exec_SendBatch events sequence now sent sys :
  GrpcClient.invariant sys →
  let '(res, sys') := GrpcClient.exec (GrpcClient.SendBatch events sequence now sent) sys in
  GrpcClient.invariant sys' ∧
  match stream (GrpcClient.client sys) with
  | Some k =>
      if connected (GrpcClient.client sys) then
        ∃ b, Events b = events ∧ BatchSequence b = sequence ∧
          match sent with
          | None => res = Some (Ok tt) ∧ log sys' = log sys ++ [SendOn k b sent] ∧
              connected (GrpcClient.client sys') = true
          | Some e =>
              res = Some (Err (wrap "grpc: send batch failed: " [] e)) ∧
              log sys' = log sys ++ [SendOn k b sent; GrpcClient.Prom (Set_ GRPCConnected (of_int 0));
                GrpcClient.Prom (Inc GRPCStreamErrors ["send_failed"]); GoReconnect] ∧
              connected (GrpcClient.client sys') = false
          end
      else res = Some (Err (Errorf "grpc: not connected" [])) ∧ sys' = sys
  | None => False
  end.
Proof.
  intros Hi. pose proof (inv_send events sequence now sent 0 0 sys Hi) as [_ Hinv].
  pose proof (log_exec (GrpcClient.SendBatch events sequence now sent) sys) as Hlog.
  pose proof (val_exec (GrpcClient.SendBatch events sequence now sent) sys) as Hval.
  pose proof (client_exec (GrpcClient.SendBatch events sequence now sent) sys) as Hcl.
  destruct (GrpcClient.exec _ sys) as [res sys'] eqn:E. cbn [fst snd] in *. split; [exact Hinv|].
  destruct Hi as [_ _ Hst _ _]. destruct (stream (GrpcClient.client sys)) as [k|] eqn:Hk; [|done].
  unfold GrpcClient.SendBatch, send_begin, send_end, run_val, run_state, run_calls, GrpcClient.metrics, mbind, GoM_bind, get,
    call, modify, mret, GoM_ret in Hlog, Hval, Hcl. rewrite Hk in Hlog, Hval, Hcl.
  destruct (connected (GrpcClient.client sys)) eqn:Hc.
  - destruct sent as [e|]; cbn in Hlog, Hval, Hcl; rewrite Hlog, Hval, Hcl;
      (eexists (mkEntropyBatch _ _ _ _ _ _ _ _ _ _ _ _ _ _ _ _); split; [reflexivity|];
       split; [reflexivity|]; split; [done|]; split; [reflexivity|done]).
  - cbn in Hval. split; [done|].
    unfold GrpcClient.exec, GrpcClient.SendBatch, send_begin, mbind, GoM_bind, get in E. rewrite Hc in E.
    cbn in E. injection E as _ <-. by destruct sys.
Qed.

(** C19: the cloud never stands between a batch and the local pool: whatever the
    clock, the state of the client and the outcome of the stream, [SendBatch]
    leaves the pool exactly as [AddBatch] does, and does not panic.  Without a
    client the batch counts as sent; a disconnected client refuses it without
    any effect and the batch counts as failed; a connected one sends exactly one
    message on its stream, with the messages of the batch's events in order and
    the batch's sequence number, and the result and the metrics tell whether the
    stream took it. *)
Theorem cloud_SendBatch_spec r events sequence s :
  (∀ k, client s = Some k → ∃ sys, clients s !! k = Some sys ∧ GrpcClient.invariant sys) →
  let m := cloud_SendBatch r events sequence in
  let failed e := run_val m s = Some (Err e) ∧
    run_calls m s = run_calls (AddBatch events) (pool s) ++ send_calls (len events) r (Some e) in
  let succeeded := run_val m s = Some (Ok tt) ∧
    run_calls m s = run_calls (AddBatch events) (pool s) ++ send_calls (len events) r None in
  pool (run_state m s) = run_state (AddBatch events) (pool s) ∧
  match client s with
  | None => clients (run_state m s) = clients s ∧ client (run_state m s) = None ∧ succeeded
  | Some c =>
      ∃ sys sys', clients s !! c = Some sys ∧ clients (run_state m s) = <[c := sys']> (clients s) ∧
        client (run_state m s) = Some c ∧ GrpcClient.invariant sys' ∧
        if connected (GrpcClient.client sys) then
          ∃ k b rest, stream (GrpcClient.client sys) = Some k ∧ log sys' = log sys ++ SendOn k b (stream_send r) :: rest ∧
            Events b = proto_of <$> events ∧ BatchSequence b = sequence ∧
            match stream_send r with
            | None => succeeded ∧ rest = [] ∧ connected (GrpcClient.client sys') = true
            | Some e => failed (wrap "grpc: send batch failed: " [] e) ∧ last rest = Some GoReconnect ∧
                connected (GrpcClient.client sys') = false
            end
        else failed (Errorf "grpc: not connected" []) ∧ sys' = sys
  end.
Proof.
  intros Hinv. cbv zeta. unfold run_val, run_state, run_calls. rewrite !cloud_SendBatch_eq. cbv zeta.
  destruct (client s) as [c|]; [|done]. destruct (Hinv c eq_refl) as (sys & Hc & Hsys). rewrite Hc.
  pose proof (exec_SendBatch (proto_of <$> events) sequence (nowMicro r) (stream_send r) sys Hsys) as Hx.
  destruct (GrpcClient.exec _ sys) as [res sys']. destruct Hx as [Hi Hx].
  destruct (stream (GrpcClient.client sys)) as [k|] eqn:Hk; [|done].
  destruct (connected (GrpcClient.client sys)) eqn:Hcn.
  - destruct Hx as (b & Hb1 & Hb2 & Hx). destruct (stream_send r) as [e|]; destruct Hx as (-> & Hlog & Hcon);
      (split; [done|]); exists sys, sys'; (do 4 (split; [done|])); rewrite Hcn; exists k, b; eexists;
      rewrite Hlog; by split_and!.
  - destruct Hx as [-> ->]. split; [done|]. exists sys, sys. rewrite Hcn. by split_and!.
Qed.
End senders.

(** ** Examples and witnesses *)

Definition witness_error : ErrorText := {| Error := λ e, match e with Errorf m _ => m end |}.

Definition witness_evt (t : Z) : event := MqttHandler.mkTDCEvent 5 3 t None None.

Definition witness_store : store := mkStore (NewWhitenedPoolWithBounds 32 0) [witness_start] (Some 0%nat).

Lemma witness_start_ok : GrpcClient.invariant witness_start.
Proof. by apply (start_invariant race_config (Ok 0%nat) (Ok 0%nat)). Qed.

Lemma witness_store_ok k :
  client witness_store = Some k → ∃ sys, clients witness_store !! k = Some sys ∧ GrpcClient.invariant sys.
Proof. intros [= <-]. exists witness_start. split; [done|exact witness_start_ok]. Qed.

Lemma cloud_SendBatch_spec_witness :
  let H := witness_math in let R := witness_range in let T := witness_error in
  let r := mkReadings 0 1000 77 (Some broken) in
  (∀ k, client witness_store = Some k → ∃ sys, clients witness_store !! k = Some sys ∧ GrpcClient.invariant sys) ∧
  pool (run_state (cloud_SendBatch r [witness_evt 7] 1) witness_store) =
    run_state (AddBatch [witness_evt 7]) (NewWhitenedPoolWithBounds 32 0).
Proof.
  intros H R T r.
  exact (conj witness_store_ok (proj1 (@cloud_SendBatch_spec H R T r [witness_evt 7] 1 witness_store witness_store_ok))).
Defined.

(** Two timestamps with the same whitened entropy. *)
Example whitenEvent_collision :
  whitenEvent (witness_evt 1234) = whitenEvent (witness_evt (Z.lxor 1234 0x0101010101010101)) ∧
  length (whitenEvent (witness_evt 1234)) = 32%nat.
Proof. split; vm_compute; reflexivity. Qed.
