(* ===== verification/Gateway.v ===== *)
(** * The running gateway: collector, pool, cloud client and HTTP server together

    [cmd/entropy-tdc-gateway/main.go] connects the components: MQTT messages go
    through the handler into the collector, the collector's send loop calls the
    sender built by [setupBatchCollector], the sender adds the batch to the pool
    and mirrors it to the cloud, and the HTTP server extracts bytes from the
    same pool.  [gstep] interleaves these activities; each moves as its own
    component's step relation says.  The collector holds a reference to its
    sender: the object it stands for is in the shared [store].

    The cloud-aware sender is cut where others can come between: after the batch
    has gone to the pool it loads the client, calls it, and waits for its stream,
    while the clients' goroutines run and clients are made, attached and
    detached.  Meanwhile the collector's one send loop is busy. *)

From S2P Require Import Prelude Float64 GoStrings Clock Metrics Proto HealthTests QuickTests.
From S2P Require Import MinEntropy Sha256 Whitening MqttHandler Pool Collector Config GrpcClient Forwarder.

(** ** The collector's sender *)

(** The two senders [setupBatchCollector] may install. *)
Inductive sender_ref := LocalSender | CloudSender.

(** A call through the reference leaves the reference as it is: its effect is
    on the store, in [gstep]. *)
#[export] Instance sender_by_reference : BatchSender sender_ref := {|
  Collector.SendBatch := λ _ _, mret (Ok tt);
  SenderIncrementDropped := λ _, mret tt;
|}.

(** [cloud] tells whether a forwarder was given. *)
Definition setupBatchCollector (batchSize : Z) (cloud : bool)
    : BatchCollector (F := sender_ref) * list prom_call :=
  let sender := if cloud then CloudSender else LocalSender in
  let flushInterval := mul_i64 (to_int64 (fdiv (of_int batchSize) (of_int 184))) Second in
  (NewBatchCollectorWithFlush batchSize flushInterval sender, SetCollectorBatchSize batchSize).

Section gateway.
Context `{MathLib, MapRange, ErrorText, GoUnicode, GoAppend}.

(** [SendBatch] through the interface; [false] is a panic. *)
Definition send (ref : sender_ref) (rd : readings) (r : sendRequest) : GoM prom_call store bool :=
  match ref with
  | LocalSender => local_SendBatch rd (batch r) (seq r) ;; mret true
  | CloudSender => o ← cloud_SendBatch rd (batch r) (seq r); mret (bool_decide (is_Some o))
  end.

(** The part of a call that ends with the batch in the pool. *)
Definition send_pool_part (ref : sender_ref) (rd : readings) (r : sendRequest) : GoM prom_call store unit :=
  match ref with
  | LocalSender => local_SendBatch rd (batch r) (seq r) ;; mret tt
  | CloudSender => on_pool (AddBatch (batch r))
  end.

(** ** States and steps *)

(** Where the send loop is in the rest of a call of the cloud-aware sender. *)
Inductive job :=
| JLoad (rd : readings) (r : sendRequest)          (* about to load the client *)
| JCall (k : nat) (rd : readings) (r : sendRequest) (* about to call client [k] *)
| JSent (k : nat) (rd : readings) (r : sendRequest). (* in [stream.Send] of client [k] *)

Definition next_job (ref : sender_ref) (rd : readings) (r : sendRequest) : option job :=
  match ref with LocalSender => None | CloudSender => Some (JLoad rd r) end.

Abbreviation coll_system := (Collector.system (F := sender_ref)).

Record gateway := mkGateway {
  coll : coll_system;
  shared : store;
  mirroring : option job;
}.

Definition sender_of (g : gateway) : sender_ref := forwarder (bc (coll g)).

Inductive glabel :=
| GMessage (now : MqttHandler.readings) (topic : string) (payload : bytes)
| GCollector (l : Collector.label)
| GSend (rd : readings) (r : sendRequest)
| GLoad
| GCall
| GSent
| GPool (o : pool_op) (out : option bytes)
| GClient (k : nat) (l : GrpcClient.label)
| GNew (sys : GrpcClient.system)
| GAttach (k : nat)
| GDetach.

(** The collector takes the calls the handler makes, in order; counting a
    dropped event only touches the metrics. *)
Inductive deliver : list collector_call → coll_system → coll_system → Prop :=
| deliver_nil s : deliver [] s s
| deliver_add e cs s s1 s2 :
    Collector.step s (LAdd e) s1 → deliver cs s1 s2 → deliver (MqttHandler.Add e :: cs) s s2
| deliver_dropped n cs s s' :
    deliver cs s s' → deliver (MqttHandler.IncrementDropped n :: cs) s s'.

(** The steps of the collector of its own goroutines. *)
Definition own_step (l : Collector.label) : bool :=
  match l with LAdd _ | Collector.LSend _ => false | _ => true end.

(** The send loop takes the next request, or ends, only when its call is over. *)
Definition loop_step (l : Collector.label) : bool :=
  match l with LTake | LWorkerExit => true | _ => false end.

Definition is_extraction (o : pool_op) : bool := match o with OpAddBatch _ => false | _ => true end.

Definition put_client (k : nat) (sys : GrpcClient.system) (s : store) : store :=
  set_clients (<[k := sys]> (clients s)) s.

Inductive gstep : gateway → glabel → gateway → Prop :=
| g_message g now topic payload c :
    deliver (collector_calls (OnMessage true now topic payload)) (coll g) c →
    gstep g (GMessage now topic payload) (mkGateway c (shared g) (mirroring g))
| g_collector g l c :
    own_step l = true → (loop_step l = true → mirroring g = None) → Collector.step (coll g) l c →
    gstep g (GCollector l) (mkGateway c (shared g) (mirroring g))
| g_send g rd r c :
    mirroring g = None → Collector.step (coll g) (Collector.LSend r) c →
    gstep g (GSend rd r)
      (mkGateway c (run_state (send_pool_part (sender_of g) rd r) (shared g)) (next_job (sender_of g) rd r))
| g_load g rd r :
    mirroring g = Some (JLoad rd r) →
    gstep g GLoad (mkGateway (coll g) (shared g) ((λ k, JCall k rd r) <$> run_val cloud_load (shared g)))
| g_call g k rd r sys sys' :
    mirroring g = Some (JCall k rd r) → clients (shared g) !! k = Some sys →
    GrpcClient.step (LSend (run_val (toProtoEvents (batch r)) (shared g)) (seq r) (nowMicro rd)) sys = Some sys' →
    gstep g GCall (mkGateway (coll g) (put_client k sys' (shared g)) ((λ _, JSent k rd r) <$> sending sys'))
| g_sent g k rd r sys sys' :
    mirroring g = Some (JSent k rd r) → clients (shared g) !! k = Some sys →
    GrpcClient.step (LSent (stream_send rd)) sys = Some sys' →
    gstep g GSent (mkGateway (coll g) (put_client k sys' (shared g)) None)
| g_pool g o :
    (* a request of the HTTP server *)
    is_extraction o = true →
    gstep g (GPool o (run_val (Pool.exec o) (pool (shared g))))
      (mkGateway (coll g) (run_state (on_pool (Pool.exec o)) (shared g)) (mirroring g))
| g_client g k l sys sys' :
    (* the other goroutines of a client *)
    is_send l = false → clients (shared g) !! k = Some sys → GrpcClient.step l sys = Some sys' →
    gstep g (GClient k l) (mkGateway (coll g) (put_client k sys' (shared g)) (mirroring g))
| g_new g f built opened sys :
    GrpcClient.start f built opened = Some sys →
    gstep g (GNew sys) (mkGateway (coll g) (set_clients (clients (shared g) ++ [sys]) (shared g)) (mirroring g))
| g_attach g k :
    is_Some (clients (shared g) !! k) →
    gstep g (GAttach k) (mkGateway (coll g) (run_state (SetClient (Some k)) (shared g)) (mirroring g))
| g_detach g :
    gstep g GDetach (mkGateway (coll g) (run_state cloud_Close (shared g)) (mirroring g)).

Inductive gsteps : gateway → list glabel → gateway → Prop :=
| gsteps_nil g : gsteps g [] g
| gsteps_snoc g tr g' l g'' : gsteps g tr g' → gstep g' l g'' → gsteps g (tr ++ [l]) g''.

Definition initial (batchSize : Z) (cloud : bool) (poolMin poolMax : Z) : gateway :=
  mkGateway (start_system (setupBatchCollector batchSize cloud).1)
    (newCloudAwareForwarder (NewWhitenedPoolWithBounds poolMin poolMax)) None.

(** ** What a history means *)

(** The events the handler accepts, in order. *)
Definition accepted_of (l : glabel) : list event :=
  match l with
  | GMessage now topic payload =>
      omap (λ c, match c with MqttHandler.Add e => Some e | _ => None end)
        (collector_calls (OnMessage true now topic payload))
  | _ => []
  end.
Definition accepted (tr : list glabel) : list event := tr ≫= accepted_of.

Definition batches_of (l : glabel) : list sendRequest := match l with GSend _ r => [r] | _ => [] end.
Definition batches (tr : list glabel) : list sendRequest := tr ≫= batches_of.

(** The bytes handed to the HTTP server. *)
Definition served_of (l : glabel) : list bytes := match l with GPool _ out => option_list out | _ => [] end.
Definition served (tr : list glabel) : list bytes := tr ≫= served_of.

(** The operations the pool went through. *)
Definition pool_ops_of (l : glabel) : list pool_op :=
  match l with GSend _ r => [OpAddBatch (batch r)] | GPool o _ => [o] | _ => [] end.
Definition pool_ops (tr : list glabel) : list pool_op := tr ≫= pool_ops_of.

(** The collector's own history. *)
Definition coll_trace_of (l : glabel) : list Collector.label :=
  match l with
  | GMessage _ _ _ => LAdd <$> accepted_of l
  | GCollector l => [l]
  | GSend _ r => [Collector.LSend r]
  | _ => []
  end.
Definition coll_trace (tr : list glabel) : list Collector.label := tr ≫= coll_trace_of.

Lemma gsteps_app g tr1 g1 tr2 g2 : gsteps g tr1 g1 → gsteps g1 tr2 g2 → gsteps g (tr1 ++ tr2) g2.
Proof.
  intros Hs1. induction 1 as [g1|g1 tr2 g2 l g3 _ IH Hl]; [by rewrite app_nil_r|].
  rewrite (assoc_L (++)). eapply gsteps_snoc; [by apply IH|done].
Qed.

Lemma gsteps_cons g l g1 tr g2 : gstep g l g1 → gsteps g1 tr g2 → gsteps g (l :: tr) g2.
Proof.
  intros Hl Htr. induction Htr as [g1|g1 tr g2 l2 g3 Htr IH Hl2].
  - change [l] with ([] ++ [l]). eapply gsteps_snoc; [apply gsteps_nil|done].
  - change (l :: tr ++ [l2]) with ((l :: tr) ++ [l2]). eapply gsteps_snoc; [by apply IH|done].
Qed.

(** ** Each component's view of a history *)

Lemma deliver_steps cs s s' :
  deliver cs s s' →
  Collector.steps s (LAdd <$> omap (λ c, match c with MqttHandler.Add e => Some e | _ => None end) cs) s'.
Proof.
  induction 1 as [s|e cs s s1 s2 Hs _ IH|n cs s s' _ IH]; cbn.
  - apply Collector.steps_nil.
  - by eapply steps_cons.
  - exact IH.
Qed.

Lemma gstep_coll g l g' : gstep g l g' → Collector.steps (coll g) (coll_trace_of l) (coll g').
Proof.
  destruct 1; cbn [coll_trace_of coll]; try apply Collector.steps_nil; try by apply steps_one.
  by apply deliver_steps.
Qed.

Lemma gsteps_coll g tr g' : gsteps g tr g' → Collector.steps (coll g) (coll_trace tr) (coll g').
Proof.
  induction 1 as [g|g tr g' l g'' _ IH Hl]; [apply Collector.steps_nil|].
  unfold coll_trace. rewrite bind_app, bind_one. by eapply steps_trans; [|apply gstep_coll].
Qed.

Lemma added_LAdd es : added (LAdd <$> es) = es.
Proof. induction es as [|e es IH]; [done|]. cbn. by rewrite <-IH at 2. Qed.

Lemma sent_LAdd es : sent (LAdd <$> es) = [].
Proof. by induction es. Qed.

(** The labels that occur: the collector's own steps, and extractions only. *)
Definition well_labelled (l : glabel) : Prop :=
  match l with
  | GCollector l => own_step l = true
  | GPool o _ => is_extraction o = true
  | _ => True
  end.

Lemma gsteps_labels g tr g' : gsteps g tr g' → Forall well_labelled tr.
Proof.
  induction 1 as [g|g tr g' l g'' _ IH Hl]; [constructor|]. apply Forall_app. split; [done|].
  apply Forall_singleton. by destruct Hl.
Qed.

Lemma history tr :
  Forall well_labelled tr → added (coll_trace tr) = accepted tr ∧ sent (coll_trace tr) = batches tr.
Proof.
  unfold coll_trace, accepted, batches. induction 1 as [|l tr Hl _ [IH1 IH2]]; [done|].
  change ((l :: tr) ≫= ?f) with (f l ++ (tr ≫= f)). rewrite added_app, sent_app, IH1, IH2.
  destruct l as [now topic payload|l| | | | | | | | |]; try done.
  - cbn [coll_trace_of batches_of]. by rewrite added_LAdd, sent_LAdd.
  - by destruct l.
Qed.

(** Either sender leaves the pool as [AddBatch] does. *)
Lemma send_pool ref rd r s :
  pool (run_state (send_pool_part ref rd r) s) = run_state (Pool.exec_all [OpAddBatch (batch r)]) (pool s) ∧
  clients (run_state (send_pool_part ref rd r) s) = clients s ∧ client (run_state (send_pool_part ref rd r) s) = client s.
Proof.
  destruct (exec_all_cons (OpAddBatch (batch r)) [] (pool s)) as (-> & _ & _).
  change (run_state (Pool.exec_all []) ?p) with p. rewrite (proj1 (exec_state _ _)).
  destruct ref; unfold send_pool_part, run_state; [unfold local_SendBatch|].
  - by rewrite (bind_run _ _ _ _ _ _ (bind_run _ _ _ _ _ _ (on_pool_eq _ _))).
  - by rewrite on_pool_eq.
Qed.

Lemma detach_eq s :
  pool (run_state cloud_Close s) = pool s ∧ client (run_state cloud_Close s) = None ∧
  clients (run_state cloud_Close s) =
    match k ← client s; sys ← clients s !! k; sys' ← GrpcClient.step LClose sys; Some (<[k := sys']> (clients s)) with
    | Some l => l | None => clients s end.
Proof.
  unfold cloud_Close, run_state. rewrite (bind_run cloud_load _ _ _ _ [] eq_refl). cbn [fst snd].
  unfold run_state, mbind, GoM_bind, modify, call, mret, GoM_ret. destruct (client s) as [k|]; [|done].
  cbn. unfold begin_close. cbn. destruct (clients s !! k) as [sys|]; [|done]. by destruct (GrpcClient.step LClose sys).
Qed.

Lemma gstep_pool g l g' :
  gstep g l g' →
  pool (shared g') = run_state (Pool.exec_all (pool_ops_of l)) (pool (shared g)) ∧
  served_of l = run_val (Pool.exec_all (pool_ops_of l)) (pool (shared g)).
Proof.
  destruct 1 as [| |g rd r c _ _| | | |g o Ho| | | |]; try done.
  - split; [by apply send_pool|]. cbn [served_of pool_ops_of].
    destruct (exec_all_cons (OpAddBatch (batch r)) [] (pool (shared g))) as (_ & -> & _).
    by rewrite (proj2 (exec_state _ _)).
  - cbn [served_of pool_ops_of shared]. destruct (exec_all_cons o [] (pool (shared g))) as (-> & -> & _).
    unfold run_state at 1. rewrite on_pool_eq. split; [done|]. by destruct (run_val (Pool.exec o) _).
  - split; [|done]. apply detach_eq.
Qed.

Lemma gsteps_pool g tr g' :
  gsteps g tr g' →
  pool (shared g') = run_state (Pool.exec_all (pool_ops tr)) (pool (shared g)) ∧
  served tr = run_val (Pool.exec_all (pool_ops tr)) (pool (shared g)).
Proof.
  induction 1 as [g|g tr g' l g'' _ [IH1 IH2] Hl]; [done|].
  destruct (gstep_pool _ _ _ Hl) as [E1 E2]. unfold pool_ops, served in *. rewrite !bind_app, !bind_one.
  destruct (exec_all_app (tr ≫= pool_ops_of) (pool_ops_of l) (pool (shared g))) as [-> ->].
  by rewrite IH2, E2, E1, IH1.
Qed.

(** ** From the MQTT messages to the bytes served *)

(** The (channel, timestamp) pairs that valid messages publish. *)
Definition published_of (l : glabel) : list (Z * Z) :=
  match l with
  | GMessage _ topic payload =>
      match classify topic payload with EventMessage ch ts => [(ch, ts)] | _ => [] end
  | _ => []
  end.
Definition published (tr : list glabel) : list (Z * Z) := tr ≫= published_of.

Definition clock_ok (l : glabel) : Prop :=
  match l with GMessage now _ _ => is_i64 (timeNowMicros now) | _ => True end.

Lemma accepted_published tr :
  Forall clock_ok tr →
  (λ e, (MqttHandler.Channel e, MqttHandler.TdcTimestampPs e)) <$> accepted tr = published tr.
Proof.
  intros Hc. unfold accepted, published. induction Hc as [|l tr Hl _ IH]; [done|].
  change ((l :: tr) ≫= ?f) with (f l ++ (tr ≫= f)). rewrite fmap_app, IH. f_equal. clear IH.
  destruct l as [now topic payload| | | | | | | | | |]; try done. cbn [accepted_of published_of].
  rewrite OnMessage_classify by done. destruct (classify topic payload); [done..|].
  unfold event_calls. by destruct (0 <? Microseconds (elapsed now)).
Qed.

(** What the batches contribute to the pool, when none is empty. *)
Lemma pool_ops_produced tr :
  Forall (λ r, batch r ≠ []) (batches tr) →
  Forall well_labelled tr →
  produced (pool_ops tr) = concat ((λ r, batch_bytes (batch r)) <$> batches tr).
Proof.
  intros Hb Hx. unfold pool_ops, batches in *. induction Hx as [|l tr Hl _ IH]; [done|].
  change ((l :: tr) ≫= ?f) with (f l ++ (tr ≫= f)) in *. apply Forall_app in Hb as [Hb1 Hb2].
  rewrite fmap_app, concat_app, <-IH by done. destruct l as [| |rd r| | | |o out| | | |]; try done.
  - cbn in *. apply Forall_cons in Hb1 as [Hb1 _]. by rewrite decide_False, app_nil_r.
  - by destruct o.
Qed.

Lemma len_concat_filter (segs : list (bool * bytes)) :
  len (concat (snd <$> filter (λ s, s.1 = true) segs)) ≤ len (concat (snd <$> segs)).
Proof.
  induction segs as [|[[] s] segs IH]; [done|..].
  - rewrite filter_cons_True by done. cbn. rewrite !len_app. lia.
  - rewrite filter_cons_False by done. cbn. rewrite len_app. pose proof (len_nonneg s). cbn in IH. lia.
Qed.

Lemma len_batches (rs : list sendRequest) :
  Forall (λ r, batch r ≠ []) rs →
  len (concat ((λ r, batch_bytes (batch r)) <$> rs)) = 32 * len rs ∧ len rs ≤ len (concat (batch <$> rs)).
Proof.
  induction 1 as [|r rs Hr _ [IH1 IH2]]; [done|]. cbn. rewrite !len_app, len_cons, IH1.
  destruct (batch_bytes_ok (batch r) Hr) as [-> _]. split; [lia|].
  assert (len (batch r) ≠ 0) by (by rewrite len_zero_iff). pose proof (len_nonneg (batch r)). lia.
Qed.

Lemma setup_fresh batchSize cloud : is_i64 batchSize → fresh (setupBatchCollector batchSize cloud).1.
Proof. intros Hb. eexists _, _, _. split; [exact Hb|reflexivity]. Qed.

(** What any history of the gateway comes to. *)
Lemma end_to_end batchSize cloud poolMin poolMax tr g :
  is_i64 batchSize → gsteps (initial batchSize cloud poolMin poolMax) tr g →
  (Forall clock_ok tr →
     (λ e, (MqttHandler.Channel e, MqttHandler.TdcTimestampPs e)) <$> accepted tr = published tr) ∧
  accepted tr =
    concat (batch <$> batches tr ++ outstanding (coll g)) ++ Collector.events (bc (coll g)) ∧
  (∃ segs : list (bool * bytes),
     concat ((λ r, batch_bytes (batch r)) <$> batches tr) = concat (snd <$> segs) ++ whitened (pool (shared g)) ∧
     snd <$> filter (λ s, s.1 = true) segs = served tr) ∧
  len (concat (served tr)) + len (whitened (pool (shared g))) ≤ 32 * len (batches tr) ∧
  len (batches tr) ≤ len (accepted tr).
Proof.
  intros Hb Hs. pose proof (gsteps_coll _ _ _ Hs) as Hc. destruct (history tr (gsteps_labels _ _ _ Hs)) as [Ha Hr].
  destruct (reachable_inv _ _ _ (setup_fresh batchSize cloud Hb) Hc) as [I1 _ _ _ _ I6 _ _ _ _ _].
  rewrite Ha, Hr in I1. rewrite Hr in I6. apply Forall_app in I6 as [I6 _].
  assert (Hne : Forall (λ r, batch r ≠ []) (batches tr)).
  { eapply Forall_impl; [exact I6|]. intros r [Hlen _] E. by rewrite E in Hlen. }
  destruct (gsteps_pool _ _ _ Hs) as [Hp Hsv].
  destruct (exec_all_conserves (pool_ops tr) _ (NewWhitenedPoolWithBounds_ok poolMin poolMax)) as (segs & E1 & E2).
  rewrite (pool_ops_produced tr Hne (gsteps_labels _ _ _ Hs)) in E1.
  change (shared (initial _ _ _ _)) with (newCloudAwareForwarder (NewWhitenedPoolWithBounds poolMin poolMax)) in Hp, Hsv.
  unfold newCloudAwareForwarder in Hp, Hsv. cbn [pool] in Hp, Hsv. rewrite <-Hp in E1. rewrite <-Hsv in E2. rewrite app_nil_l in E1.
  destruct (len_batches _ Hne) as [L1 L2]. split_and!.
  - apply accepted_published.
  - exact I1.
  - by exists segs.
  - pose proof (len_concat_filter segs) as Hf. rewrite E2 in Hf. rewrite <-L1, E1, len_app. lia.
  - rewrite I1, fmap_app, concat_app, !len_app.
    pose proof (len_nonneg (concat (batch <$> outstanding (coll g)))).
    pose proof (len_nonneg (Collector.events (bc (coll g)))). lia.
Qed.

(** C1: end to end, under every interleaving of MQTT messages, collector
    goroutines, sends, HTTP requests and cloud activity, with or without the
    cloud and whatever it does: the events of the valid messages, in order and
    with their channels and timestamps, are those of the batches sent, followed
    by those still queued and those buffered; the 32-byte digests of the batches
    sent, in order, are the segments that have left the pool followed by what it
    holds; and the answers of the HTTP server are some of these segments, in
    order.  So no byte is ever served twice, and the gateway never serves more
    than 32 bytes per batch sent, hence per event received. *)
Theorem gateway_end_to_end batchSize cloud poolMin poolMax tr g :
  is_i64 batchSize → gsteps (initial batchSize cloud poolMin poolMax) tr g →
  (Forall clock_ok tr →
     (λ e, (MqttHandler.Channel e, MqttHandler.TdcTimestampPs e)) <$> accepted tr = published tr) ∧
  accepted tr =
    concat (batch <$> batches tr ++ outstanding (coll g)) ++ Collector.events (bc (coll g)) ∧
  (∃ segs : list (bool * bytes),
     concat ((λ r, batch_bytes (batch r)) <$> batches tr) = concat (snd <$> segs) ++ whitened (pool (shared g)) ∧
     snd <$> filter (λ s, s.1 = true) segs = served tr) ∧
  len (concat (served tr)) + len (whitened (pool (shared g))) ≤ 32 * len (batches tr) ∧
  len (batches tr) ≤ len (accepted tr).
Proof. apply end_to_end. Qed.

(** ** Shutdown *)

(** C2: shutting down loses nothing: when the collector's [Close] returns before
    its timeout and no event arrived after its flush, every event of every valid
    message received is in a batch that went through the sender, and so has
    contributed to the pool; nothing is buffered or queued any more. *)
Theorem gateway_shutdown batchSize cloud poolMin poolMax tr1 i tr2 g :
  is_i64 batchSize →
  let tr := tr1 ++ [GCollector (LCloseFlush i)] ++ tr2 ++ [GCollector (LCloseReturn i false)] in
  gsteps (initial batchSize cloud poolMin poolMax) tr g → accepted tr2 = [] →
  concat (batch <$> batches tr) = accepted tr ∧
  Collector.events (bc (coll g)) = [] ∧ outstanding (coll g) = [] ∧
  pool (shared g) =
    run_state (Pool.exec_all (pool_ops tr)) (NewWhitenedPoolWithBounds poolMin poolMax) ∧
  produced (pool_ops tr) = concat ((λ r, batch_bytes (batch r)) <$> batches tr).
Proof.
  intros Hb tr Hs Ha. pose proof (gsteps_coll _ _ _ Hs) as Hc. destruct (history tr (gsteps_labels _ _ _ Hs)) as [Ea Er].
  destruct (reachable_inv _ _ _ (setup_fresh batchSize cloud Hb) Hc) as [_ _ _ _ _ I6 _ _ _ _ _].
  rewrite Er in I6. apply Forall_app in I6 as [I6 _].
  assert (Hne : Forall (λ r, batch r ≠ []) (batches tr)).
  { eapply Forall_impl; [exact I6|]. intros r [Hlen _] E. by rewrite E in Hlen. }
  destruct (closed_all_sent _ (coll_trace tr1) i (coll_trace tr2) (coll g) (setup_fresh batchSize cloud Hb))
    as (C1 & C2 & C3 & _).
  - unfold coll_trace, tr in *. by rewrite !bind_app, !bind_one in Hc.
  - pose proof (gsteps_labels _ _ _ Hs) as Hl. unfold tr in Hl. rewrite !Forall_app in Hl.
    by rewrite (proj1 (history tr2 ltac:(tauto))).
  - assert (Et : coll_trace tr1 ++ [LCloseFlush i] ++ coll_trace tr2 ++ [LCloseReturn i false] = coll_trace tr).
    { unfold coll_trace, tr. by rewrite !bind_app, !bind_one. }
    rewrite Et, Ea, Er in C1. split_and!; [done..| |].
    + by apply gsteps_pool in Hs as [? _].
    + apply pool_ops_produced; [done|by eapply gsteps_labels].
Qed.

(** ** Invariants of the whole *)

(** The message of a batch. *)
Definition message_of (rd : readings) (r : sendRequest) : EntropyBatch :=
  mkEntropyBatch (proto_of <$> batch r) None (u64 (nowMicro rd)) (seq r) EmptyString 0 0 [] CHECKSUM_ALGO_UNSPECIFIED []
    None COMPRESSION_NONE 0 None None None.

(** The clients' own invariants hold, the forwarder's pointer and the send loop's
    client exist, and a client is inside [stream.Send] exactly when the send loop
    is, with the message of the loop's batch. *)
Record clients_ok (g : gateway) : Prop := {
  ok_invariant : Forall GrpcClient.invariant (clients (shared g));
  ok_pointer : ∀ k, client (shared g) = Some k → is_Some (clients (shared g) !! k);
  ok_called : ∀ k rd r, mirroring g = Some (JCall k rd r) → is_Some (clients (shared g) !! k);
  ok_sent : ∀ k rd r, mirroring g = Some (JSent k rd r) →
    ∃ sys s, clients (shared g) !! k = Some sys ∧ sending sys = Some (s, message_of rd r);
  ok_idle : ∀ k sys, clients (shared g) !! k = Some sys → (∀ rd r, mirroring g ≠ Some (JSent k rd r)) → sending sys = None;
}.

(** The send of a call that finds the mutex free and the invariant of its client. *)
Lemma call_step rd r s sys :
  GrpcClient.invariant sys → sending sys = None →
  ∃ sys', GrpcClient.step (LSend (run_val (toProtoEvents (batch r)) (S := store) s) (seq r) (nowMicro rd)) sys = Some sys' ∧
    if connected (GrpcClient.client sys)
    then ∃ k, stream (GrpcClient.client sys) = Some k ∧ sys' = set_sending (Some (k, message_of rd r)) sys
    else sys' = sys.
Proof.
  intros Hi Hm. rewrite step_free by done. cbn [move]. rewrite send_begin_eq. unfold run_val at 2. rewrite toProtoEvents_eq.
  cbn [fst]. unfold run_val, send_begin, mbind, GoM_bind, get. destruct Hi as [_ _ Hs _ _].
  destruct (connected (GrpcClient.client sys)); cbn.
  - destruct (stream (GrpcClient.client sys)) as [k|]; [|done]. eexists. split; [reflexivity|]. by exists k.
  - eexists. split; [reflexivity|]. destruct sys. cbn in *. by subst.
Qed.

Lemma start_sending f built opened sys : GrpcClient.start f built opened = Some sys → sending sys = None.
Proof. intros (k & n & -> & -> & ->)%start_eq. by rewrite sending_exec. Qed.

(** Replacing a client. *)
Lemma clients_put (P : GrpcClient.system → Prop) k sys l :
  Forall P l → P sys → Forall P (<[k := sys]> l).
Proof. intros. by apply Forall_insert. Qed.

Lemma put_ok g k sys sys' j :
  clients_ok g → clients (shared g) !! k = Some sys → GrpcClient.invariant sys' →
  (∀ i rd r, j = Some (JCall i rd r) → is_Some (clients (shared g) !! i)) →
  (∀ i rd r, j = Some (JSent i rd r) → ∃ x s, (if decide (i = k) then Some sys' else clients (shared g) !! i) = Some x ∧
     sending x = Some (s, message_of rd r)) →
  ((∀ rd r, j ≠ Some (JSent k rd r)) → sending sys' = None) →
  (∀ i x, i ≠ k → clients (shared g) !! i = Some x → (∀ rd r, j ≠ Some (JSent i rd r)) → sending x = None) →
  clients_ok (mkGateway (coll g) (put_client k sys' (shared g)) j).
Proof.
  intros [I1 I2 I3 I4 I5] Hk Hi Hc Hs Hidle Hother. pose proof (lookup_lt_Some _ _ _ Hk) as Hlt.
  assert (Hlook : ∀ i, (<[k := sys']> (clients (shared g))) !! i = if decide (i = k) then Some sys' else clients (shared g) !! i).
  { intros i. case_decide as E; [subst; by apply list_lookup_insert_eq|by apply list_lookup_insert_ne]. }
  split; cbn.
  - by apply clients_put.
  - intros i Hp. rewrite Hlook. case_decide; [by eexists|by apply I2].
  - intros i rd r Hj. rewrite Hlook. case_decide; [by eexists|by eapply Hc].
  - intros i rd r Hj. destruct (Hs i rd r Hj) as (x & st & Hx & Hsx). exists x, st. by rewrite Hlook.
  - intros i x Hx Hne. rewrite Hlook in Hx. case_decide as E; [subst; injection Hx as <-; by apply Hidle|by eapply Hother].
Qed.

(** A step that leaves the clients and, if the send loop is in [stream.Send], the job. *)
Definition sent_job (j : option job) : Prop := ∃ k rd r, j = Some (JSent k rd r).

Lemma same_ok g c st j :
  clients_ok g → clients st = clients (shared g) →
  (∀ k, client st = Some k → is_Some (clients (shared g) !! k)) →
  (∀ k rd r, j = Some (JCall k rd r) → is_Some (clients (shared g) !! k)) →
  j = mirroring g ∨ (¬ sent_job j ∧ ¬ sent_job (mirroring g)) →
  clients_ok (mkGateway c st j).
Proof.
  intros [I1 I2 I3 I4 I5] E Hp Hc Hj. split; cbn; rewrite ?E; try done.
  - intros k rd r ->. destruct Hj as [Hj|[Hn _]]; [by apply I4|]. destruct Hn. by exists k, rd, r.
  - intros k sys Hk Hne. apply (I5 k sys Hk). destruct Hj as [->|[_ Hn]]; [done|].
    intros rd r Hm. apply Hn. by exists k, rd, r.
Qed.

Lemma sent_step sent sys sys' : GrpcClient.step (LSent sent) sys = Some sys' → sending sys' = None.
Proof.
  unfold GrpcClient.step. cbn [takes_mu andb move]. destruct (sending sys) as [[n b]|]; [|done].
  intros Hs%Some_inj. by rewrite <-Hs, sending_exec.
Qed.

Lemma call_ok g k rd r sys sys' :
  clients_ok g → mirroring g = Some (JCall k rd r) → clients (shared g) !! k = Some sys →
  GrpcClient.step (LSend (run_val (toProtoEvents (batch r)) (shared g)) (seq r) (nowMicro rd)) sys = Some sys' →
  clients_ok (mkGateway (coll g) (put_client k sys' (shared g)) ((λ _, JSent k rd r) <$> sending sys')).
Proof.
  intros Hok Hm Hk Hs. pose proof Hok as [I1 I2 I3 I4 I5].
  assert (Hi : GrpcClient.invariant sys) by exact (Forall_lookup_1 _ _ _ _ I1 Hk).
  assert (Hidle : sending sys = None) by (apply (I5 k sys Hk); intros rd' r'; by rewrite Hm).
  destruct (call_step rd r (shared g) sys Hi Hidle) as (sys1 & Hs1 & Hcase). rewrite Hs in Hs1. injection Hs1 as <-.
  eapply put_ok; [done|done|by eapply step_invariant|..].
  - by destruct (sending sys').
  - intros i rd' r' Hj. destruct (connected _); [|subst sys'; by rewrite Hidle in Hj].
    destruct Hcase as (n & _ & ->). cbn in Hj. injection Hj as <- <- <-. rewrite decide_True by done. by eexists _, n.
  - intros Hne. destruct (sending sys') as [[]|] eqn:E; [|done]. by destruct (Hne rd r).
  - intros i x _ Hx _. apply (I5 i x Hx). intros rd' r'. by rewrite Hm.
Qed.

(** A step of another goroutine of client [k]. *)
Lemma other_ok g k sys sys' :
  clients_ok g → clients (shared g) !! k = Some sys → GrpcClient.invariant sys' → sending sys' = sending sys →
  clients_ok (mkGateway (coll g) (put_client k sys' (shared g)) (mirroring g)).
Proof.
  intros Hok Hk Hi Hs. pose proof Hok as [I1 I2 I3 I4 I5]. eapply put_ok; [done|done|done|done|..].
  - intros i rd r Hj. destruct (I4 i rd r Hj) as (x & n & Hx & Hn). case_decide as E; [|by exists x, n].
    subst. exists sys', n. rewrite Hk in Hx. injection Hx as <-. by rewrite Hs.
  - intros Hne. rewrite Hs. by apply (I5 k).
  - intros i x _ Hx Hne. by apply (I5 i).
Qed.

Lemma detach_ok g : clients_ok g → clients_ok (mkGateway (coll g) (run_state cloud_Close (shared g)) (mirroring g)).
Proof.
  intros Hok. destruct (detach_eq (shared g)) as (_ & E1 & E2).
  destruct (k ← client (shared g); sys ← clients (shared g) !! k; sys' ← GrpcClient.step LClose sys;
    Some (<[k := sys']> (clients (shared g)))) as [l|] eqn:E.
  - destruct (client (shared g)) as [k|]; [|done]. cbn [mbind option_bind] in E.
    destruct (clients (shared g) !! k) as [sys|] eqn:Hk; [|done]. cbn [mbind option_bind] in E. destruct (GrpcClient.step LClose sys) as [sys'|] eqn:Hs; [|done]. injection E as <-.
    assert (Hk1 : clients_ok (mkGateway (coll g) (put_client k sys' (shared g)) (mirroring g))).
    { eapply other_ok; [done|done| |by eapply step_sender]. eapply step_invariant; [done|].
      destruct Hok as [I1 _ _ _ _]. exact (Forall_lookup_1 _ _ _ _ I1 Hk). }
    apply (same_ok (mkGateway (coll g) (put_client k sys' (shared g)) (mirroring g)));
      [done|exact E2|by rewrite E1|exact (ok_called _ Hk1)|by left].
  - apply (same_ok g); [done|exact E2|by rewrite E1|exact (ok_called _ Hok)|by left].
Qed.

Lemma gstep_clients g l g' : gstep g l g' → clients_ok g → clients_ok g'.
Proof.
  intros Hl Hok. pose proof Hok as [I1 I2 I3 I4 I5].
  destruct Hl as [g now topic payload c _|g l c _ _ _|g rd r c Hm _|g rd r Hm|g k rd r sys sys' Hm Hk Hs|g k rd r sys sys' Hm Hk Hs
    |g o _|g k l sys sys' Hns Hk Hs|g f built opened sys Hs|g k Hk|g].
  - by split.
  - by split.
  - destruct (send_pool (sender_of g) rd r (shared g)) as (_ & E1 & E2). apply (same_ok g); [done|done|by rewrite E2| |].
    + by destruct (sender_of g).
    + right. rewrite Hm. split; intros (k & rd' & r' & Hj); [by destruct (sender_of g)|done].
  - apply (same_ok g); [done..| |].
    + intros k rd' r' Hj. change (run_val cloud_load (shared g)) with (client (shared g)) in Hj.
      destruct (client (shared g)) as [c|] eqn:Hc; [|done]. injection Hj as <- <- <-. by apply I2.
    + right. rewrite Hm. split; intros (k & rd' & r' & Hj); [|done]. by destruct (run_val cloud_load (shared g)).
  - by eapply call_ok.
  - assert (Hi : GrpcClient.invariant sys) by exact (Forall_lookup_1 _ _ _ _ I1 Hk).
    eapply put_ok; [done|done|by eapply step_invariant|done|done|..].
    + intros _. by eapply sent_step.
    + intros i x Hne Hx _. apply (I5 i x Hx). intros rd' r'. rewrite Hm. congruence.
  - apply (same_ok g); [done|unfold run_state; by rewrite on_pool_eq|unfold run_state; rewrite on_pool_eq; apply I2|apply I3|by left].
  - eapply other_ok; [done|done| |by eapply step_sender]. eapply step_invariant; [done|]. exact (Forall_lookup_1 _ _ _ _ I1 Hk).
  - assert (Hle : ∀ i, is_Some (clients (shared g) !! i) → (clients (shared g) ++ [sys]) !! i = clients (shared g) !! i).
    { intros i [x Hx]. rewrite Hx. by apply lookup_app_l_Some. }
    split; cbn.
    + apply Forall_app. split; [done|]. apply Forall_singleton. by eapply start_invariant.
    + intros k Hp. rewrite Hle; by apply I2.
    + intros k rd r Hj. rewrite Hle; by eapply I3.
    + intros k rd r Hj. destruct (I4 k rd r Hj) as (x & n & Hx & Hn). exists x, n. by rewrite Hle.
    + intros k x Hx Hne. apply lookup_app_Some in Hx as [Hx|[_ Hx]]; [by apply (I5 k)|].
      apply list_lookup_singleton_Some in Hx as [_ <-]. by eapply start_sending.
  - apply (same_ok g); [done|done| |done|by left]. by intros ? [= <-].
  - by apply detach_ok.
Qed.

Lemma gsteps_clients g tr g' : gsteps g tr g' → clients_ok g → clients_ok g'.
Proof.
  induction 1 as [g|g tr g' l g'' _ IH Hl]; intros Hi; [done|].
  apply (gstep_clients _ _ _ Hl). by apply IH.
Qed.

Lemma initial_clients batchSize cloud poolMin poolMax : clients_ok (initial batchSize cloud poolMin poolMax).
Proof. by split. Qed.

(** A call that nothing comes between does what [cloud_SendBatch] says. *)
Lemma end_step k b sent sys :
  sending sys = None →
  GrpcClient.step (LSent sent) (set_sending (Some (k, b)) sys) = Some (GrpcClient.exec (send_end k b sent) sys).2.
Proof. intros Hm. unfold GrpcClient.step. cbn [takes_mu andb move sending set_sending]. destruct sys. cbn in *. by subst. Qed.

Lemma SendBatch_split rd r s sys :
  GrpcClient.invariant sys → sending sys = None →
  let sys2 := (GrpcClient.exec (GrpcClient.SendBatch (proto_of <$> batch r) (seq r) (nowMicro rd) (stream_send rd)) sys).2 in
  ∃ sys1, GrpcClient.step (LSend (run_val (toProtoEvents (batch r)) (S := store) s) (seq r) (nowMicro rd)) sys = Some sys1 ∧
    match sending sys1 with
    | Some _ => GrpcClient.step (LSent (stream_send rd)) sys1 = Some sys2
    | None => sys1 = sys2
    end.
Proof.
  intros Hi Hm. destruct (call_step rd r s sys Hi Hm) as (sys1 & Hs & Hcase). exists sys1. split; [done|].
  assert (Hb : run_val (send_begin (proto_of <$> batch r) (seq r) (nowMicro rd)) (GrpcClient.client sys) =
    Some (if connected (GrpcClient.client sys) then (λ k, (k, message_of rd r)) <$> stream (GrpcClient.client sys) else None)).
  { unfold run_val, send_begin, mbind, GoM_bind, get. destruct Hi as [_ _ Hst _ _]. cbn.
    destruct (connected _); [|done]. by destruct (stream (GrpcClient.client sys)). }
  unfold GrpcClient.SendBatch. rewrite exec_bind, send_begin_eq, Hb. cbn [fst snd].
  destruct (connected (GrpcClient.client sys)).
  - destruct Hcase as (k & -> & ->). cbn [sending set_sending fmap option_fmap option_map]. rewrite end_step by done.
    by rewrite exec_bind, exec_ret.
  - subst sys1. by rewrite Hm, exec_ret.
Qed.

Lemma forwarded_ref (f : sender_ref) rs : forwarded f rs = f.
Proof. by induction rs. Qed.

Lemma send_safe ref rd r g : clients_ok g → run_val (send ref rd r) (shared g) = true.
Proof.
  intros Hok. destruct ref; unfold send, run_val.
  - unfold local_SendBatch. by rewrite (bind_run _ _ _ _ _ _ (bind_run _ _ _ _ _ _ (on_pool_eq _ _))).
  - unfold mbind, GoM_bind. rewrite cloud_SendBatch_eq. cbv zeta.
    destruct (client (shared g)) as [k|] eqn:Hc; [|done]. destruct (ok_pointer g Hok k Hc) as [sys Hk]. rewrite Hk.
    pose proof (exec_SendBatch (proto_of <$> batch r) (seq r) (nowMicro rd) (stream_send rd) sys
      (Forall_lookup_1 _ _ _ _ (ok_invariant g Hok) Hk)) as Hx.
    destruct (GrpcClient.exec _ sys) as [res sys']. destruct Hx as [_ Hx]. destruct (stream _) as [n|]; [|done].
    assert (is_Some res) as [[] ->]; [|done|done]. destruct (connected _); [|by destruct Hx as [-> _]].
    destruct Hx as (b & _ & _ & Hx). by destruct (stream_send rd); destruct Hx as [-> _].
Qed.

Lemma pointer_kept k sys sys' (st : store) :
  clients st !! k = Some sys → clients (put_client k sys' st) !! k = Some sys'.
Proof. intros Hk. cbn. apply list_lookup_insert_eq. by eapply lookup_lt_Some. Qed.

(** The steps of a call with nothing between them have the effect of the whole call. *)
Lemma send_at_once g rd r c :
  clients_ok g → mirroring g = None → sender_of g = CloudSender → Collector.step (coll g) (Collector.LSend r) c →
  ∃ tr, Forall (λ l, l ∈ [GLoad; GCall; GSent]) tr ∧
    gsteps g (GSend rd r :: tr) (mkGateway c (run_state (send (sender_of g) rd r) (shared g)) None).
Proof.
  intros Hok Hm Href Hc. pose proof (g_send g rd r c Hm Hc) as Hfirst. rewrite Href in Hfirst |- *. cbn [next_job] in Hfirst.
  set (st := run_state (send_pool_part CloudSender rd r) (shared g)) in *.
  destruct (send_pool CloudSender rd r (shared g)) as (_ & E1 & E2). fold st in E1, E2.
  assert (Ep : pool st = run_state (AddBatch (batch r)) (pool (shared g))).
  { unfold st, send_pool_part, run_state. by rewrite on_pool_eq. }
  assert (Hsend : run_state (send CloudSender rd r) (shared g) =
    run_state (cloud_SendBatch rd (batch r) (seq r)) (shared g)).
  { unfold send, run_state, mbind, GoM_bind. by destruct (cloud_SendBatch _ _ _ _) as [[? ?] ?]. }
  rewrite Hsend. unfold run_state at 1. rewrite cloud_SendBatch_eq. cbv zeta. rewrite <-Ep, <-E1.
  pose proof (g_load (mkGateway c st (Some (JLoad rd r))) rd r eq_refl) as Hload. cbn [coll shared] in Hload.
  change (run_val cloud_load st) with (client st) in Hload. rewrite E2 in Hload.
  destruct (client (shared g)) as [k|] eqn:Hcl; cbn [fmap option_fmap option_map] in Hload.
  - destruct (ok_pointer g Hok k Hcl) as [sys Hk]. rewrite <-E1 in Hk. rewrite Hk.
    assert (Hidle : sending sys = None) by (rewrite E1 in Hk; apply (ok_idle g Hok k sys Hk); intros rd' r'; by rewrite Hm).
    assert (Hi : GrpcClient.invariant sys) by (rewrite E1 in Hk; exact (Forall_lookup_1 _ _ _ _ (ok_invariant g Hok) Hk)).
    destruct (SendBatch_split rd r st sys Hi Hidle) as (sys1 & Hs1 & Hs2).
    pose proof (g_call (mkGateway c st (Some (JCall k rd r))) k rd r sys sys1 eq_refl Hk Hs1) as Hcall.
    destruct (GrpcClient.exec _ sys) as [res sys2]. cbn [snd] in Hs2. cbn [coll shared] in Hcall.
    replace (_ : store) with (put_client k sys2 st)
      by (unfold put_client, set_clients; rewrite E2; by destruct res as [[[]|]|]).
    destruct (sending sys1) as [j|]; cbn [fmap option_fmap option_map] in Hcall.
    + exists [GLoad; GCall; GSent]. split; [repeat constructor; set_solver|].
      pose proof (pointer_kept k sys sys1 st Hk) as Hk1.
      pose proof (g_sent (mkGateway c (put_client k sys1 st) (Some (JSent k rd r))) k rd r sys1 sys2 eq_refl Hk1 Hs2) as Hsent.
      replace (put_client k sys2 (shared _)) with (put_client k sys2 st) in Hsent
        by (unfold put_client, set_clients; cbn; by rewrite list_insert_insert_eq).
      do 4 (eapply gsteps_cons; [eassumption|]). apply gsteps_nil.
    + exists [GLoad; GCall]. split; [repeat constructor; set_solver|]. subst sys1.
      do 3 (eapply gsteps_cons; [eassumption|]). apply gsteps_nil.
  - exists [GLoad]. split; [repeat constructor; set_solver|]. cbn [fst snd].
    replace (mkStore (pool st) (clients st) None) with st by (rewrite <-E2; by destruct st).
    do 2 (eapply gsteps_cons; [eassumption|]). apply gsteps_nil.
Qed.

(** The call in progress can always go on. *)
Lemma job_goes_on g j :
  clients_ok g → mirroring g = Some j → ∃ l g', l ∈ [GLoad; GCall; GSent] ∧ gstep g l g'.
Proof.
  intros [I1 I2 I3 I4 I5] Hm. destruct j as [rd r|k rd r|k rd r].
  - exists GLoad. eexists. split; [set_solver|]. by apply (g_load g rd r).
  - destruct (I3 k rd r Hm) as [sys Hk].
    destruct (call_step rd r (shared g) sys (Forall_lookup_1 _ _ _ _ I1 Hk)) as (sys' & Hs & _).
    { apply (I5 k sys Hk). intros rd' r'. by rewrite Hm. }
    exists GCall. eexists. split; [set_solver|]. by eapply g_call.
  - destruct (I4 k rd r Hm) as (sys & n & Hk & Hn). exists GSent. eexists. split; [set_solver|].
    eapply (g_sent g k rd r sys); [done|done|]. unfold GrpcClient.step. cbn [takes_mu andb move]. by rewrite Hn.
Qed.

(** C4: in every reachable state of the gateway the collector's numbering and
    bounds, the pool's invariant and the invariants of all clients hold together;
    the next send, whatever it meets, does not panic, and one that is under way
    can always go on, whichever client was detached or replaced meanwhile. *)
Theorem gateway_invariant batchSize cloud poolMin poolMax tr g :
  is_i64 batchSize → gsteps (initial batchSize cloud poolMin poolMax) tr g →
  pool_ok (pool (shared g)) ∧
  Forall GrpcClient.invariant (clients (shared g)) ∧
  (∀ rd r, run_val (send (sender_of g) rd r) (shared g) = true) ∧
  (∀ j, mirroring g = Some j → ∃ l g', l ∈ [GLoad; GCall; GSent] ∧ gstep g l g') ∧
  numbered (batches tr ++ outstanding (coll g)) ∧
  Forall (λ r, 0 < len (batch r) ≤ Z.max 1 batchSize) (batches tr ++ outstanding (coll g)) ∧
  sender_of g = (if cloud then CloudSender else LocalSender).
Proof.
  intros Hb Hs. pose proof (gsteps_coll _ _ _ Hs) as Hc.
  destruct (history tr (gsteps_labels _ _ _ Hs)) as [Ha Hr].
  destruct (reachable_inv _ _ _ (setup_fresh batchSize cloud Hb) Hc) as [_ I2 _ I4 _ I6 _ _ _ _ _].
  rewrite Hr in I2, I4, I6. destruct (gsteps_pool _ _ _ Hs) as [Hp _].
  assert (Hok : clients_ok g) by (apply (gsteps_clients _ _ _ Hs), initial_clients).
  split_and!; [|by destruct Hok| | |done|exact I6|].
  - rewrite Hp. apply exec_all_ok, NewWhitenedPoolWithBounds_ok.
  - intros rd r. by apply send_safe.
  - intros j. by apply job_goes_on.
  - unfold sender_of. rewrite I4, forwarded_ref. by destruct cloud.
Qed.
End gateway.

(** ** The flush interval *)

(** With a loaded configuration the collector flushes at least every [n / 184]
    seconds, between 10 and 1000, where [n] is the batch size; below a batch size
    of 184 the period would be zero, which the collector replaces by 10 s. *)
Lemma flush_interval `{GoUnicode, GoFS} env c cloud :
  Load env = Ok c →
  let n := Config.Collector.BatchSize (Config.Collector c) in
  let bc := (setupBatchCollector n cloud).1 in
  autoFlushInterval bc = n / 184 * Second ∧ 10 * Second ≤ autoFlushInterval bc ≤ 1000 * Second ∧
  queueCap bc = n / 2.
Proof.
  intros Hl. cbv zeta. destruct (Load_ok env c Hl) as [_ Hb]. pose proof (ok_batch c Hb) as Hn.
  set (n := Config.Collector.BatchSize _) in *. clearbody n. assert (HS : Second = 1000000000) by done.
  assert (10 ≤ n / 184 ≤ 1000).
  { split; [apply Z.div_le_lower_bound|apply Z.div_le_upper_bound]; lia. }
  unfold autoFlushInterval, setupBatchCollector. cbn [fst flushInterval queueCap NewBatchCollectorWithFlush].
  rewrite to_int64_quotient by lia. unfold mul_i64. rewrite i64_id by (unfold is_i64; lia).
  split_and!; [..|unfold maxInt; rewrite Z.quot_div_nonneg by lia; destruct (Z.ltb_spec (n / 2) 1);
    [pose proof (Z.div_le_lower_bound n 2 920); lia|done]];
    destruct (Z.leb_spec (n / 184 * Second) 0); lia.
Qed.

(** ** Witnesses *)

(** Reduce the state of the collector, and that only. *)
Ltac cbn_coll :=
  match goal with |- gsteps (mkGateway ?c ?st ?j) ?tr ?g =>
    let c' := eval cbn in c in change (gsteps (mkGateway c' st j) tr g) end.

Section witnesses.
#[local] Existing Instance witness_math.
#[local] Existing Instance witness_range.
#[local] Existing Instance witness_error.
#[local] Existing Instance witness_unicode.
#[local] Existing Instance witness_append.

(** One message, one batch of one event, and the shutdown of the collector. *)
Definition witness_event : event := MqttHandler.mkTDCEvent 5 3 12345 None None.
Definition witness_message : glabel := GMessage (MqttHandler.mkReadings 5 0) "timestamps/3" (bytes_of_string "12345").
Definition witness_request : sendRequest := mkRequest [witness_event] 1.
Definition witness_readings : readings := mkReadings 0 0 0 None.

Definition before_flush : list glabel :=
  [witness_message; GCollector LEnqueue; GCollector LTake; GSend witness_readings witness_request;
   GCollector Collector.LClose].
Definition after_flush : list glabel := [GCollector (LCloseQueue 0); GCollector LWorkerExit; GCollector LAutoExit].

Lemma witness_gsteps :
  ∃ g, gsteps (initial 1 false 0 0)
    (before_flush ++ [GCollector (LCloseFlush 0)] ++ after_flush ++ [GCollector (LCloseReturn 0 false)]) g.
Proof.
  unfold before_flush, after_flush, initial. cbn [app].
  replace (setupBatchCollector 1 false).1 with (NewBatchCollectorWithFlush 1 0 LocalSender)
    by (vm_compute; reflexivity).
  generalize (mkStore (NewWhitenedPoolWithBounds 0 0) [] None). intros st. eexists. cbn_coll.
  eapply gsteps_cons.
  { apply (g_message _ (MqttHandler.mkReadings 5 0) "timestamps/3" (bytes_of_string "12345")).
    replace (collector_calls _) with [MqttHandler.Add witness_event] by (vm_compute; reflexivity).
    eapply deliver_add; [by eapply (step_add _ 0 0)|apply deliver_nil]. }
  cbn_coll. eapply gsteps_cons; [apply g_collector; [done|done|by eapply step_enqueue]|].
  cbn_coll. eapply gsteps_cons; [apply g_collector; [done|done|by eapply step_take]|].
  cbn_coll. eapply gsteps_cons; [apply g_send; [done|by eapply step_send]|].
  cbn_coll. eapply gsteps_cons; [apply g_collector; [done|done|apply step_close]|].
  cbn_coll. eapply gsteps_cons; [apply g_collector; [done|done|by eapply (step_close_flush _ 0 0 0)]|].
  cbn_coll. eapply gsteps_cons; [apply g_collector; [done|done|by eapply step_close_queue]|].
  cbn_coll. eapply gsteps_cons; [apply g_collector; [done|done|by eapply step_worker_exit]|].
  cbn_coll. eapply gsteps_cons; [apply g_collector; [done|done|by eapply step_auto_exit]|].
  cbn_coll. eapply gsteps_cons; [apply g_collector; [done|done|by eapply step_close_return]|].
  apply gsteps_nil.
Qed.

Lemma witness_i64 : is_i64 1.
Proof. split; [lia|reflexivity]. Qed.

Lemma gateway_end_to_end_witness :
  is_i64 1 ∧ ∃ tr g, gsteps (initial 1 false 0 0) tr g ∧ len (batches tr) = 1 ∧
    len (batches tr) ≤ len (accepted tr).
Proof.
  destruct witness_gsteps as [g Hg]. refine (conj witness_i64 (ex_intro _ _ (ex_intro _ g (conj Hg _)))).
  destruct (gateway_end_to_end 1 false 0 0 _ g witness_i64 Hg) as (_ & _ & _ & _ & H).
  exact (conj eq_refl H).
Defined.

Lemma gateway_shutdown_witness :
  is_i64 1 ∧ accepted after_flush = [] ∧ ∃ tr g, gsteps (initial 1 false 0 0) tr g ∧
    concat (batch <$> batches tr) = accepted tr.
Proof.
  destruct witness_gsteps as [g Hg]. assert (Ha : accepted after_flush = []) by reflexivity.
  refine (conj witness_i64 (conj Ha (ex_intro _ _ (ex_intro _ g (conj Hg _))))).
  exact (proj1 (gateway_shutdown 1 false 0 0 before_flush 0 after_flush g witness_i64 Hg Ha)).
Defined.

Lemma gateway_invariant_witness :
  is_i64 1 ∧ ∃ tr g, gsteps (initial 1 false 0 0) tr g ∧ pool_ok (pool (shared g)).
Proof.
  destruct witness_gsteps as [g Hg]. refine (conj witness_i64 (ex_intro _ _ (ex_intro _ g (conj Hg _)))).
  exact (proj1 (gateway_invariant 1 false 0 0 _ g witness_i64 Hg)).
Defined.
End witnesses.
