(* ===== verification/Serving.v ===== *)
(** * The HTTP endpoint of the running gateway

    A handler of [/api/v1/entropy/binary] (internal/entropy/http_entropy_server.go)
    uses the shared pool twice: it reads how much is available, then extracts.
    [sstep] interleaves any number of handlers, cut there, with the gateway of
    [Gateway]: with the batches that arrive, the other handlers and the cloud
    client.  The server's field [pool] is a pointer to the pool of the shared
    store, so a part of a handler runs on the pool as it is then. *)

From S2P Require Import Prelude Float64 GoStrings GoNet Clock Metrics Proto HealthTests QuickTests.
From S2P Require Import MinEntropy Sha256 Whitening MqttHandler Pool Collector TokenBucket Forwarder Gateway.
From S2P Require EntropyHTTP.

Section serving.
Context `{MathLib, MapRange, ErrorText, GoUnicode, GoAppend}.

(** A handler between its two parts: the numbers of bytes requested and available. *)
Abbreviation pending := (Z * Z)%type.

Record serving := mkServing {
  gw : gateway;
  srv : EntropyHTTP.HTTPServer;
  inflight : list (option pending);
}.

Definition current_pool (w : serving) : WhitenedPool := pool (shared (gw w)).

(** The server as a handler finds it. *)
Definition server_of (w : serving) : EntropyHTTP.HTTPServer :=
  EntropyHTTP.set_pool (Some (current_pool w)) (srv w).

Definition put_pool (s : EntropyHTTP.HTTPServer) (g : gateway) : gateway :=
  match EntropyHTTP.pool s with
  | Some p => mkGateway (coll g) (set_pool p (shared g)) (mirroring g)
  | None => g
  end.

Abbreviation admission := ((Z * bool) + (Z * Z))%type.

Definition pending_of (r : admission) : option pending := match r with inr p => Some p | inl _ => None end.

(** [SRequest]: a request is handled until it is answered or has looked at the
    pool, at the reading [now] of the clock; [SServe i]: handler [i] extracts [n]
    bytes, gets [data], and answers.  Both list the calls on the response. *)
Inductive slabel :=
| SGateway (l : glabel)
| SRequest (value : string) (now : Z) (r : admission) (calls : list EntropyHTTP.srv_call)
| SServe (i : nat) (n : Z) (data : option bytes) (calls : list EntropyHTTP.srv_call).

Definition extracts (l : glabel) : bool := match l with GPool (OpExtract _) _ => true | _ => false end.

Inductive sstep : serving → slabel → serving → Prop :=
| s_gateway w l g :
    extracts l = false → gstep (gw w) l g →
    sstep w (SGateway l) (mkServing g (srv w) (inflight w))
| s_request w value now r s calls :
    EntropyHTTP.entropy_admit value now (server_of w) = (r, s, calls) →
    sstep w (SRequest value now r calls) (mkServing (put_pool s (gw w)) s (inflight w ++ [pending_of r]))
| s_serve w i n available r s calls :
    inflight w !! i = Some (Some (n, available)) →
    EntropyHTTP.entropy_serve n available (server_of w) = (r, s, calls) →
    sstep w (SServe i n (run_val (ExtractEntropy n) (current_pool w)) calls)
      (mkServing (put_pool s (gw w)) s (<[i := None]> (inflight w))).

Inductive ssteps : serving → list slabel → serving → Prop :=
| ssteps_nil w : ssteps w [] w
| ssteps_snoc w tr w' l w'' : ssteps w tr w' → sstep w' l w'' → ssteps w (tr ++ [l]) w''.

(** ** What a history means *)

(** For the gateway, only the extraction of a handler is a step. *)
Definition gtrace_of (l : slabel) : list glabel :=
  match l with
  | SGateway l => [l]
  | SRequest _ _ _ _ => []
  | SServe _ n data _ => [GPool (OpExtract n) data]
  end.
Definition gtrace (tr : list slabel) : list glabel := tr ≫= gtrace_of.

(** The bodies of the answers with status 200, in order. *)
Definition bodies_of (l : slabel) : list bytes := match l with SServe _ _ data _ => option_list data | _ => [] end.
Definition bodies (tr : list slabel) : list bytes := tr ≫= bodies_of.

(** The readings of the clock the rate limiter makes, and what it decides. *)
Definition asks_of (l : slabel) : list Z :=
  match l with
  | SRequest value now _ _ => match EntropyHTTP.requested value with Some _ => [now] | None => [] end
  | _ => []
  end.
Definition asks (tr : list slabel) : list Z := tr ≫= asks_of.

Definition decisions_of (l : slabel) : list bool :=
  match l with
  | SRequest value _ r _ =>
      match EntropyHTTP.requested value with
      | Some _ => [match r with inr _ => true | inl _ => false end]
      | None => []
      end
  | _ => []
  end.
Definition decisions (tr : list slabel) : list bool := tr ≫= decisions_of.

(** ** The parts of a handler on the shared pool *)

Lemma server_pool w : EntropyHTTP.pool (server_of w) = Some (current_pool w).
Proof. done. Qed.

Lemma put_pool_same w s : EntropyHTTP.pool s = Some (current_pool w) → put_pool s (gw w) = gw w.
Proof. intros E. unfold put_pool. rewrite E. destruct w as [[c [p cl]] s' fl]. done. Qed.

(** The first part in each case. *)
Lemma admit_cases value now w :
  ∃ r lim calls,
    EntropyHTTP.entropy_admit value now (server_of w) = (r, EntropyHTTP.set_limiter lim (server_of w), calls) ∧
    match EntropyHTTP.requested value with
    | None => pending_of r = None ∧ lim = EntropyHTTP.rateLimiter (srv w)
    | Some n =>
        let '(ok, wait, lim') := EntropyHTTP.admission now (server_of w) in
        lim = lim' ∧
        if (ok : bool) then
          r = inr (n, EntropyHTTP.available_of (server_of w)) ∧
          calls = EntropyHTTP.entropy_headers (EntropyHTTP.available_of (server_of w)) n
        else r = inl (EntropyHTTP.StatusServiceUnavailable, true)
    end.
Proof.
  destruct (EntropyHTTP.requested value) as [n|] eqn:Hr.
  - destruct (EntropyHTTP.admission now (server_of w)) as [[[] wait] lim] eqn:Ha.
    + rewrite (EntropyHTTP.entropy_admit_ok value now _ n wait lim Hr Ha). by eexists _, lim, _.
    + rewrite (EntropyHTTP.entropy_admit_limited value now _ n wait lim Hr Ha). by eexists _, lim, _.
  - destruct (EntropyHTTP.entropy_admit_bad value now (server_of w) Hr) as [msg ->].
    exists (inl (EntropyHTTP.StatusBadRequest, false)), (EntropyHTTP.rateLimiter (srv w)). eexists.
    split; [|done]. by destruct w as [g [] fl].
Qed.

Lemma serve_eq n available w :
  EntropyHTTP.entropy_serve n available (server_of w) =
    (match run_val (ExtractEntropy n) (current_pool w) with
     | Some _ => EntropyHTTP.StatusOK | None => EntropyHTTP.StatusServiceUnavailable end, false,
     EntropyHTTP.set_pool (Some (run_state (ExtractEntropy n) (current_pool w))) (srv w),
     (EntropyHTTP.Prom <$> run_calls (ExtractEntropy n) (current_pool w)) ++
     EntropyHTTP.served_calls (EntropyHTTP.retryAfterSeconds (srv w)) n available
       (run_val (ExtractEntropy n) (current_pool w))).
Proof. by rewrite (EntropyHTTP.entropy_serve_pool n available _ _ _ _ _ (server_pool w) (run_triple _ _)). Qed.

Lemma serve_put n available w r s calls :
  EntropyHTTP.entropy_serve n available (server_of w) = (r, s, calls) →
  put_pool s (gw w) =
    mkGateway (coll (gw w)) (run_state (on_pool (Pool.exec (OpExtract n))) (shared (gw w))) (mirroring (gw w)).
Proof. rewrite serve_eq. intros [= <- <- <-]. unfold run_state at 2. by rewrite on_pool_eq. Qed.

Lemma serve_pool n available w r s calls :
  EntropyHTTP.entropy_serve n available (server_of w) = (r, s, calls) →
  pool (shared (put_pool s (gw w))) = run_state (ExtractEntropy n) (current_pool w).
Proof. intros Hs. rewrite (serve_put _ _ _ _ _ _ Hs). cbn [shared]. unfold run_state at 1. by rewrite on_pool_eq. Qed.

(** ** Every history is one of the gateway *)

Lemma sstep_gsteps w l w' : sstep w l w' → gsteps (gw w) (gtrace_of l) (gw w').
Proof.
  destruct 1 as [w l g _ Hg|w value now r s calls Ha|w i n available r s calls Hi Hs]; cbn [gtrace_of gw].
  - change [l] with ([] ++ [l]). eapply gsteps_snoc; [apply gsteps_nil|done].
  - destruct (admit_cases value now w) as (r' & lim & calls' & E & _). rewrite E in Ha. injection Ha as <- <- <-.
    rewrite put_pool_same by done. apply gsteps_nil.
  - rewrite (serve_put _ _ _ _ _ _ Hs). change [GPool ?o ?d] with ([] ++ [GPool o d]).
    eapply gsteps_snoc; [apply gsteps_nil|]. by apply (g_pool (gw w) (OpExtract n)).
Qed.

Lemma ssteps_gsteps w tr w' : ssteps w tr w' → gsteps (gw w) (gtrace tr) (gw w').
Proof.
  induction 1 as [w|w tr w' l w'' _ IH Hl]; [apply gsteps_nil|].
  unfold gtrace. rewrite bind_app, bind_one. eapply gsteps_app; [exact IH|by apply sstep_gsteps].
Qed.

(** ** Counting answers *)

Lemma bodies_served w tr w' : ssteps w tr w' → bodies tr = served (gtrace tr).
Proof.
  unfold bodies, served, gtrace. induction 1 as [w|w tr w' l w'' _ IH Hl]; [done|].
  rewrite !bind_app, !bind_one, IH. f_equal.
  destruct Hl as [v l g Hx Hg|v value now r s calls _|v i n available r s calls _ _]; cbn; rewrite ?app_nil_r; try done.
  destruct Hg as [| | | | | |g o Ho| | | |]; try done. cbn. rewrite (proj2 (exec_state _ _)). by destruct o.
Qed.

Definition waiting (w : serving) : Z := count (λ p, bool_decide (is_Some p)) (inflight w).

Definition granted (tr : list slabel) : Z := allowed (decisions tr).

Lemma allowed_app l k : allowed (l ++ k) = allowed l + allowed k.
Proof. unfold allowed. rewrite filter_app, length_app. lia. Qed.

Lemma allowed_nil : allowed [] = 0.
Proof. done. Qed.

Lemma allowed_one b : allowed [b] = Z.b2z b.
Proof. by destruct b. Qed.

(** Whatever is served has been granted before. *)
Lemma served_granted w tr w' :
  ssteps w tr w' → len (bodies tr) + waiting w' ≤ granted tr + waiting w.
Proof.
  unfold bodies, granted, decisions. induction 1 as [w|w tr w' l w'' _ IH Hl].
  { change (len (@nil bytes) + waiting w ≤ allowed [] + waiting w). rewrite allowed_nil, len_nil. lia. }
  rewrite !bind_app, !bind_one, len_app, allowed_app.
  enough (len (bodies_of l) + waiting w'' ≤ allowed (decisions_of l) + waiting w') by lia. clear IH.
  destruct Hl as [v l g _ _|v value now r s calls Ha|v i n available r s calls Hi _]; unfold waiting;
    cbn [bodies_of decisions_of inflight]; rewrite ?allowed_nil, ?len_nil; [lia| |].
  - rewrite count_app. destruct (admit_cases value now v) as (r' & lim & calls' & E & Hc).
    rewrite E in Ha. injection Ha as <- <- <-. destruct (EntropyHTTP.requested value) as [m|].
    + destruct (EntropyHTTP.admission now (server_of v)) as [[[] wait] lim']; destruct Hc as [_ Hr].
      * destruct Hr as [-> _]. rewrite allowed_one. cbn. lia.
      * subst r'. rewrite allowed_one. cbn. lia.
    + destruct Hc as [-> _]. rewrite allowed_nil. cbn. lia.
  - rewrite (count_insert _ _ _ _ _ Hi). rewrite bool_decide_true by done. rewrite bool_decide_false by (by intros [? [=]]).
    destruct (run_val (ExtractEntropy n) (current_pool v)) as [d|]; cbn [Z.b2z];
      [change (len (option_list (Some d))) with 1|change (len (@option_list bytes None)) with 0]; lia.
Qed.

(** The limiter of the server decides in the order of the requests. *)
Lemma limiter_decides w tr w' b :
  ssteps w tr w' → EntropyHTTP.rateLimiter (srv w) = Some b →
  EntropyHTTP.rateLimiter (srv w') = Some (Allow_all (asks tr) b).2 ∧ decisions tr = (Allow_all (asks tr) b).1.
Proof.
  intros Hs Hb. unfold decisions, asks. induction Hs as [w|w tr w' l w'' _ IH Hl]; [done|].
  destruct (IH Hb) as [IHl IHd]. clear IH. rewrite !bind_app, !bind_one, IHd.
  destruct Hl as [v l g _ _|v value now r s calls Ha|v i n available r s calls Hi Hs]; cbn [asks_of decisions_of srv].
  - by rewrite !app_nil_r.
  - destruct (admit_cases value now v) as (r' & lim & calls' & E & Hc). rewrite E in Ha. injection Ha as <- <- <-.
    cbn [EntropyHTTP.rateLimiter EntropyHTTP.set_limiter]. destruct (EntropyHTTP.requested value) as [m|].
    + rewrite Allow_all_snoc. destruct (Allow_all _ b) as [oks b1]. cbn [fst snd] in *.
      unfold EntropyHTTP.admission in Hc. cbn [server_of EntropyHTTP.set_pool EntropyHTTP.rateLimiter] in Hc. rewrite IHl in Hc.
      destruct (Allow now b1) as [[[] wait] b2]; destruct Hc as [-> Hr].
      * by destruct Hr as [-> _].
      * by subst r'.
    + destruct Hc as [_ ->]. by rewrite !app_nil_r.
  - rewrite serve_eq in Hs. injection Hs as <- <- <-. by rewrite !app_nil_r.
Qed.

(** Handlers ask for at most 4096 bytes, and get what they ask for. *)
Definition modest (p : option pending) : Prop := match p with Some (n, _) => 1 ≤ n ≤ 4096 | None => True end.

Lemma served_modest w tr w' :
  ssteps w tr w' → Forall modest (inflight w) →
  Forall modest (inflight w') ∧ Forall (λ d, 1 ≤ len d ≤ 4096) (bodies tr).
Proof.
  intros Hs Hm. unfold bodies. induction Hs as [w|w tr w' l w'' _ IH Hl]; [done|].
  destruct (IH Hm) as [IHm IHb]. clear IH. rewrite bind_app, bind_one, Forall_app.
  destruct Hl as [v l g _ _|v value now r s calls Ha|v i n available r s calls Hi Hs]; cbn [bodies_of inflight]; [by split_and!|..].
  - split; [|by split]. apply Forall_app. split; [done|]. apply Forall_singleton.
    destruct (admit_cases value now v) as (r' & lim & calls' & E & Hc). rewrite E in Ha. injection Ha as <- <- <-.
    destruct (EntropyHTTP.requested value) as [m|] eqn:Hr; [|by destruct Hc as [-> _]].
    destruct (EntropyHTTP.admission now (server_of v)) as [[[] wait] lim']; destruct Hc as [_ Hc]; [|by subst].
    destruct Hc as [-> _]. by apply EntropyHTTP.requested_range in Hr.
  - split; [by apply Forall_insert|]. split; [done|].
    pose proof (Forall_lookup_1 _ _ _ _ IHm Hi) as Hn. cbn in Hn.
    destruct (ExtractEntropy n (current_pool v)) as [[d p] c] eqn:Hx. unfold run_val. rewrite Hx. cbn [fst].
    destruct d as [data|]; [|constructor]. apply extracted in Hx as (_ & Hlen & _). apply Forall_singleton. lia.
Qed.

Lemma len_concat_modest (ds : list bytes) :
  Forall (λ d, 1 ≤ len d ≤ 4096) ds → len (concat ds) ≤ 4096 * len ds.
Proof. induction 1 as [|d ds Hd _ IH]; [done|]. cbn. rewrite len_app, len_cons. lia. Qed.

(** ** What the clients can get *)

(** The clock of the limiter is read at whole seconds, up to the second [T]. *)
Definition whole_seconds (start T : Z) (tr : list slabel) : Prop :=
  ∃ secs, asks tr = (λ s, s * Second) <$> secs ∧ Forall (λ s, start ≤ s ≤ T) secs.

Lemma foldl_max_le secs T start : Forall (λ s, start ≤ s ≤ T) secs → start ≤ T → foldl Z.max start secs ≤ T.
Proof.
  intros Hs HT. enough (∀ m, m ≤ T → foldl Z.max m secs ≤ T) by auto.
  induction Hs as [|s secs Hs _ IH]; intros m Hm; cbn; [done|]. apply IH. lia.
Qed.

(** A server as the program builds it, on a new gateway. *)
Definition initial_serving (batchSize : Z) (cloud : bool) (poolMin poolMax : Z) (s : EntropyHTTP.HTTPServer) : serving :=
  mkServing (initial batchSize cloud poolMin poolMax) s [].

Lemma NewHTTPServer_limiter addr p thr pub retry rps burst now s :
  EntropyHTTP.NewHTTPServer addr p thr pub retry rps burst now = Ok s → 0 < rps → 0 < burst →
  EntropyHTTP.rateLimiter s = Some (newTokenBucket (of_int rps) (of_int burst) now).
Proof.
  unfold EntropyHTTP.NewHTTPServer. intros Hs Hr Hb. destruct (EntropyHTTP.enforceLoopbackAddr _ _); [|done].
  injection Hs as <-. cbn. destruct (Z.leb_spec rps 0), (Z.leb_spec burst 0); (lia || done).
Qed.

(** With a full limiter at the start, whatever server it is in. *)
Lemma served_bounded batchSize cloud poolMin poolMax rps burst start T srv tr w :
  is_i64 batchSize → 0 < rps ≤ 2 ^ 19 → 0 < burst ≤ 2 ^ 52 → 0 ≤ start ≤ T → T ≤ 2 ^ 33 →
  EntropyHTTP.rateLimiter srv = Some (newTokenBucket (of_int rps) (of_int burst) (start * Second)) →
  ssteps (initial_serving batchSize cloud poolMin poolMax srv) tr w → whole_seconds start T tr →
  let answered := len (bodies tr) in
  answered ≤ burst + rps * (T - start) ∧
  Forall (λ d, 1 ≤ len d ≤ 4096) (bodies tr) ∧
  len (concat (bodies tr)) ≤ 4096 * (burst + rps * (T - start)) ∧
  len (concat (bodies tr)) + len (whitened (current_pool w)) ≤ 32 * len (batches (gtrace tr)).
Proof.
  intros Hb Hr Hbu Hst HT Hlim Hs (secs & Ha & Hsecs). cbv zeta.
  pose proof (served_granted _ _ _ Hs) as Hg.
  destruct (limiter_decides _ _ _ _ Hs Hlim) as [_ Hd].
  unfold granted in Hg. rewrite Hd, Ha in Hg.
  assert (Hrange : Forall (λ s, 0 ≤ s ≤ 2 ^ 33) secs) by (eapply Forall_impl; [exact Hsecs|]; cbn; lia).
  pose proof (Allow_all_rate rps burst start secs Hr Hbu ltac:(lia) Hrange) as Hrate.
  pose proof (foldl_max_le secs T start Hsecs ltac:(lia)) as Hmax.
  assert (Hw : waiting (initial_serving batchSize cloud poolMin poolMax srv) = 0) by done. rewrite Hw in Hg.
  assert (Hw' : 0 ≤ waiting w) by apply count_nonneg.
  assert (Hn : len (bodies tr) ≤ burst + rps * (T - start)) by nia.
  destruct (served_modest _ _ _ Hs) as [_ Hm]; [constructor|].
  pose proof (len_concat_modest _ Hm). pose proof (bodies_served _ _ _ Hs) as Hbs.
  pose proof (ssteps_gsteps _ _ _ Hs) as Hgs. cbn [gw initial_serving] in Hgs.
  destruct (end_to_end _ _ _ _ _ _ Hb Hgs) as (_ & _ & _ & Hlen & _). rewrite <-Hbs in Hlen.
  split_and!; [done|done|lia|exact Hlen].
Qed.

(** The rate limiter bounds what leaves the gateway, however many handlers
    run at once and however they are interleaved with everything else: with the
    clock read at whole seconds up to [T], at most the burst plus the rate times
    the elapsed seconds requests are answered with bytes, each with 1 to 4096 of
    them; and whatever the limiter grants, all answers together hold at most the
    32 bytes of each batch sent, less what is still in the pool. *)
Theorem serving_rate batchSize cloud poolMin poolMax addr p thr pub retry rps burst start T srv tr w :
  is_i64 batchSize → 0 < rps ≤ 2 ^ 19 → 0 < burst ≤ 2 ^ 52 → 0 ≤ start ≤ T → T ≤ 2 ^ 33 →
  EntropyHTTP.NewHTTPServer addr p thr pub retry rps burst (start * Second) = Ok srv →
  ssteps (initial_serving batchSize cloud poolMin poolMax srv) tr w → whole_seconds start T tr →
  let answered := len (bodies tr) in
  answered ≤ burst + rps * (T - start) ∧
  Forall (λ d, 1 ≤ len d ≤ 4096) (bodies tr) ∧
  len (concat (bodies tr)) ≤ 4096 * (burst + rps * (T - start)) ∧
  len (concat (bodies tr)) + len (whitened (current_pool w)) ≤ 32 * len (batches (gtrace tr)).
Proof.
  intros Hb Hr Hbu Hst HT Hnew. apply served_bounded; try done. by eapply NewHTTPServer_limiter; [exact Hnew|lia..].
Qed.

(** ** The stream of all answers *)

Lemma gstep_monitored g l g' h k :
  extracts l = false → gstep g l g' → monitored (pool (shared g)) h k → monitored (pool (shared g')) h k.
Proof.
  intros Hx Hg Hm. destruct (gstep_pool _ _ _ Hg) as [-> _].
  assert (Hone : ∀ o, is_extraction o = false ∨ extracts (GPool o None) = false →
    monitored (run_state (Pool.exec_all [o]) (pool (shared g))) h k).
  { intros o Ho. destruct (exec_all_cons o [] (pool (shared g))) as (-> & _ & _).
    change (run_state (Pool.exec_all []) ?p) with p. rewrite (proj1 (exec_state _ _)).
    destruct o as [events|n| |]; [|by destruct Ho|done..].
    destruct (AddBatch_tests events (pool (shared g))). by eapply monitored_ext. }
  destruct l as [| |rd r| | | |o out| | | |]; try done; apply Hone; [by left|right; by destruct o].
Qed.

(** No health failure is counted while a handler answers. *)
Definition no_failure (l : slabel) : Prop :=
  match l with SServe _ _ _ calls => Forall (λ c, ¬ health_failure c) (EntropyHTTP.proms calls) | _ => True end.

Lemma ssteps_monitored w tr w' h :
  ssteps w tr w' → Forall no_failure tr → pool_ok (current_pool w) → monitored (current_pool w) h h →
  pool_ok (current_pool w') ∧ monitored (current_pool w') (h ++ concat (bodies tr)) (h ++ concat (bodies tr)).
Proof.
  intros Hs Hf Hok Hm. unfold bodies. induction Hs as [w|w tr w' l w'' Hs IH Hl].
  { cbn. by rewrite app_nil_r. }
  apply Forall_app in Hf as [Hf [Hfl _]%Forall_cons]. destruct (IH Hf Hok Hm) as [Hok' Hm']. clear IH.
  rewrite bind_app, bind_one, concat_app, (assoc_L (++)).
  assert (Hok'' : pool_ok (current_pool w'')).
  { unfold current_pool in *. pose proof (ssteps_gsteps _ _ _ (ssteps_snoc _ _ _ _ _ (ssteps_nil _) Hl)) as Hg.
    destruct (gsteps_pool _ _ _ Hg) as [-> _]. by apply exec_all_ok. }
  split; [exact Hok''|]. set (h' := h ++ _) in *. clearbody h'.
  destruct Hl as [v l g Hx Hg|v value now r s calls Ha|v i n available r s calls Hi Hsv]; cbn [bodies_of concat].
  - rewrite app_nil_r. by eapply gstep_monitored.
  - rewrite app_nil_r. destruct (admit_cases value now v) as (r' & lim & calls' & E & _). rewrite E in Ha.
    injection Ha as <- <- <-. unfold current_pool. cbn [gw]. by rewrite put_pool_same.
  - unfold current_pool at 1. cbn [gw]. rewrite (serve_pool _ _ _ _ _ _ Hsv).
    pose proof (exec_healthy (OpExtract n) (current_pool v) h' Hok' Hm') as Hh.
    rewrite serve_eq in Hsv. injection Hsv as <- <- <-. cbn [no_failure] in Hfl.
    rewrite EntropyHTTP.proms_app, EntropyHTTP.proms_fmap in Hfl. apply Forall_app in Hfl as [Hfl _].
    specialize (Hh Hfl). cbn [Pool.exec] in Hh.
    destruct (run_val (ExtractEntropy n) (current_pool v)) as [d|]; [|exact Hh].
    change (concat (option_list (Some d))) with (d ++ []). by rewrite app_nil_r.
Qed.

(** C6: the bytes of all answers with status 200, put together in the order of
    their extraction, never hold 40 equal consecutive bytes, and none of the
    windows of 4096 bytes they are cut into holds its first byte 605 times, as
    long as no request has been refused for a health failure: whatever batches,
    requests and handlers were interleaved, and however the stream was cut into
    requests. *)
Theorem serving_healthy batchSize cloud poolMin poolMax srv tr w :
  ssteps (initial_serving batchSize cloud poolMin poolMax srv) tr w → Forall no_failure tr →
  ¬ unhealthy_run (concat (bodies tr)) ∧ ¬ unhealthy_window (concat (bodies tr)).
Proof.
  intros Hs Hf. destruct (ssteps_monitored _ _ _ [] Hs Hf) as [_ [_ Hr _ Hw]]; [..|done].
  - apply NewWhitenedPoolWithBounds_ok.
  - apply monitored_fresh.
Qed.

(** ** Each request is handled as [handleEntropy] says *)

Lemma inflight_kept w tr w' i x :
  ssteps w tr w' → inflight w !! i = Some x → inflight w' !! i = Some x ∨ inflight w' !! i = Some None.
Proof.
  intros Hs Hi. induction Hs as [w|w tr w' l w'' _ IH Hl]; [by left|]. specialize (IH Hi).
  destruct Hl as [v l g _ _|v value now r s calls Ha|v j n available r s calls Hj _]; cbn [inflight]; [done|..].
  - destruct IH as [IH|IH]; [left|right]; by apply lookup_app_l_Some.
  - destruct (decide (j = i)) as [->|Hne].
    + right. apply list_lookup_insert_eq. by eapply lookup_lt_Some.
    + by rewrite list_lookup_insert_ne.
Qed.

Lemma retry_kept w tr w' :
  ssteps w tr w' → EntropyHTTP.retryAfterSeconds (srv w') = EntropyHTTP.retryAfterSeconds (srv w).
Proof.
  induction 1 as [w|w tr w' l w'' _ IH Hl]; [done|]. rewrite <-IH. clear IH.
  destruct Hl as [v l g _ _|v value now r s calls Ha|v j n available r s calls Hj Hs]; cbn [srv]; [done|..].
  - destruct (admit_cases value now v) as (r' & lim & calls' & E & _). rewrite E in Ha. by injection Ha as <- <- <-.
  - rewrite serve_eq in Hs. by injection Hs as <- <- <-.
Qed.

(** C8: a request that two separate steps of the running gateway handle, with
    batches, other requests and other handlers in between, gets exactly the
    response that [handleEntropy] gives when the operations in between are its
    interference, and leaves the shared pool as this does: what is proved of
    [handleEntropy] holds of every request of the running program. *)
Theorem serving_handler w1 value now n available calls1 w2 tr w3 data calls2 w4 duration :
  sstep w1 (SRequest value now (inr (n, available)) calls1) w2 →
  ssteps w2 tr w3 →
  sstep w3 (SServe (length (inflight w1)) n data calls2) w4 →
  let m := EntropyHTTP.handleEntropy value now duration (pool_ops (gtrace tr)) in
  EntropyHTTP.response_of (calls1 ++ calls2) = EntropyHTTP.response_of (run_calls m (server_of w1)) ∧
  EntropyHTTP.pool (run_state m (server_of w1)) = Some (current_pool w4) ∧
  EntropyHTTP.code_of (EntropyHTTP.response_of (calls1 ++ calls2)) =
    Some (match data with Some _ => EntropyHTTP.StatusOK | None => EntropyHTTP.StatusServiceUnavailable end) ∧
  (∀ d, data = Some d → EntropyHTTP.body (EntropyHTTP.response_of (calls1 ++ calls2)) = d).
Proof.
  intros H12 H23 H34 m.
  assert (E1 : ∃ s, EntropyHTTP.entropy_admit value now (server_of w1) = (inr (n, available), s, calls1) ∧
    w2 = mkServing (put_pool s (gw w1)) s (inflight w1 ++ [Some (n, available)])).
  { inversion H12; subst. by eexists. }
  destruct E1 as (s & Ha & E2). destruct (admit_cases value now w1) as (r & lim & calls & E & Hc).
  rewrite Ha in E. injection E as <- -> <-. destruct (EntropyHTTP.requested value) as [n'|] eqn:Hr; [|by destruct Hc].
  destruct (EntropyHTTP.admission now (server_of w1)) as [[[] wait] lim'] eqn:Hadm; [|by destruct Hc].
  destruct Hc as (-> & [= <- ->] & ->).
  assert (Hg : gw w2 = gw w1) by (rewrite E2; by apply put_pool_same).
  pose proof (ssteps_gsteps _ _ _ H23) as Hgs. destruct (gsteps_pool _ _ _ Hgs) as [Hp _]. rewrite Hg in Hp.
  assert (Hi : inflight w2 !! length (inflight w1) = Some (Some (n, EntropyHTTP.available_of (server_of w1)))).
  { rewrite E2. cbn. by rewrite lookup_app_r, Nat.sub_diag by lia. }
  apply (inflight_kept _ _ _ _ _ H23) in Hi. pose proof (retry_kept _ _ _ H23) as Hret.
  rewrite E2 in Hret. cbn in Hret.
  inversion H34 as [| |w i n0 av r s calls Hi' Hs]; subst. destruct Hi as [Hi|Hi]; [|congruence].
  rewrite Hi in Hi'. injection Hi' as <-. set (os := pool_ops (gtrace tr)) in *.
  destruct (ExtractEntropy n (current_pool w3)) as [[d p4] c4] eqn:Hx.
  assert (Hd : run_val (ExtractEntropy n) (current_pool w3) = d) by (unfold run_val; by rewrite Hx).
  rewrite (EntropyHTTP.entropy_serve_pool n _ _ _ _ _ _ (server_pool w3) Hx) in Hs. injection Hs as <- <- <-.
  change (current_pool w3) with (pool (shared (gw w3))) in Hx. rewrite Hp in Hx.
  pose proof (EntropyHTTP.entropy_body_pool value now os (server_of w1) n wait lim' _ _ _ _ Hr Hadm (server_pool w1) Hx) as Hbody.
  apply (EntropyHTTP.handleEntropy_eq _ _ duration) in Hbody. subst m. rewrite Hd.
  unfold run_calls, run_state. rewrite Hbody. cbn [fst snd]. rewrite EntropyHTTP.response_tail.
  unfold EntropyHTTP.response_of. rewrite !foldl_app, !EntropyHTTP.respond_proms.
  change (EntropyHTTP.retryAfterSeconds (server_of w3)) with (EntropyHTTP.retryAfterSeconds (srv w3)). rewrite Hret.
  split_and!; [done|done|by destruct d|by intros ? ->].
Qed.
End serving.

(** ** Witnesses *)

Section witnesses.
#[local] Existing Instance witness_math.
#[local] Existing Instance witness_range.
#[local] Existing Instance witness_error.
#[local] Existing Instance witness_unicode.
#[local] Existing Instance witness_append.

Lemma ssteps_gateway g tr g' s fl :
  gsteps g tr g' → Forall (λ l, extracts l = false) tr →
  ssteps (mkServing g s fl) (SGateway <$> tr) (mkServing g' s fl).
Proof.
  induction 1 as [g|g tr g' l g'' _ IH Hl]; intros Hx; [apply ssteps_nil|].
  apply Forall_app in Hx as [Hx [Hl' _]%Forall_cons]. rewrite fmap_app.
  eapply ssteps_snoc; [by apply IH|]. by apply (s_gateway (mkServing g' s fl)).
Qed.

(** A server with one token, and a request for 32 bytes after one batch. *)
Definition witness_server : EntropyHTTP.HTTPServer :=
  EntropyHTTP.mkServer None None "127.0.0.1:9797" 0 (Some (newTokenBucket (of_int 1) (of_int 1) (0 * Second))) 1.

Definition witness_trace : list glabel :=
  before_flush ++ [GCollector (LCloseFlush 0)] ++ after_flush ++ [GCollector (LCloseReturn 0 false)].

Lemma witness_handler :
  ∃ w1 w2 w3 data calls1 calls2,
    ssteps (initial_serving 1 false 0 0 witness_server) (SGateway <$> witness_trace) w1 ∧ inflight w1 = [] ∧
    sstep w1 (SRequest "32" 0 (inr (32, 0)) calls1) w2 ∧
    sstep w2 (SServe 0 32 (Some data) calls2) w3 ∧ no_failure (SServe 0 32 (Some data) calls2).
Proof.
  destruct witness_gsteps as [g Hg]. pose proof (proj1 (gsteps_pool _ _ _ Hg)) as Hp.
  set (w1 := mkServing g witness_server []).
  assert (H1 : ssteps (initial_serving 1 false 0 0 witness_server) (SGateway <$> witness_trace) w1).
  { apply ssteps_gateway; [exact Hg|by repeat constructor]. }
  assert (Hpool : current_pool w1 = run_state (Pool.exec_all (pool_ops witness_trace)) (NewWhitenedPoolWithBounds 0 0)) by exact Hp.
  assert (Hav : EntropyHTTP.available_of (server_of w1) = 0).
  { unfold EntropyHTTP.available_of, server_of. cbn [EntropyHTTP.pool EntropyHTTP.set_pool]. rewrite Hpool. vm_compute. reflexivity. }
  set (adm := EntropyHTTP.admission 0 (server_of w1)).
  assert (Hadm : adm = (true, 0, snd adm)) by (vm_compute; reflexivity).
  pose proof (EntropyHTTP.entropy_admit_ok "32" 0 (server_of w1) 32 0 (snd adm) ltac:(vm_compute; reflexivity) Hadm) as Ea.
  rewrite Hav in Ea. pose proof (s_request _ _ _ _ _ _ Ea) as H2.
  set (w2 := mkServing _ _ _) in H2.
  assert (Hw2 : current_pool w2 = current_pool w1) by (unfold w2, current_pool; cbn [gw]; by rewrite put_pool_same).
  pose proof (s_serve w2 0 32 0 _ _ _ eq_refl (serve_eq 32 0 w2)) as H3.
  assert (Hd : ∃ data, run_val (ExtractEntropy 32) (current_pool w2) = Some data ∧
    run_calls (ExtractEntropy 32) (current_pool w2) = RecordEntropyExtraction 32 ++ SetEntropyPoolSize 0).
  { rewrite Hw2, Hpool. vm_compute. by eexists. }
  destruct Hd as (data & Hd & Hc). rewrite Hd in H3.
  exists w1, w2. do 4 eexists. refine (conj H1 (conj eq_refl (conj H2 (conj H3 _)))).
  cbn [no_failure]. rewrite Hc. vm_compute. repeat constructor; by intros [[=]|[=]].
Qed.

Lemma serving_rate_witness :
  is_i64 1 ∧ (0 < 1 ≤ 2 ^ 19) ∧ (0 < 1 ≤ 2 ^ 52) ∧ (0 ≤ 0 ≤ 7) ∧ 7 ≤ 2 ^ 33 ∧
  EntropyHTTP.NewHTTPServer EmptyString None 0 false 0 1 1 (0 * Second) = Ok witness_server ∧
  ∃ tr w, ssteps (initial_serving 1 false 0 0 witness_server) tr w ∧ whole_seconds 0 7 tr ∧
    len (bodies tr) = 1 ∧ len (concat (bodies tr)) ≤ 4096 * (1 + 1 * (7 - 0)).
Proof.
  assert (H1 : 0 < 1 ≤ 2 ^ 19) by (split; [reflexivity|vm_compute; discriminate]).
  assert (H2 : 0 < 1 ≤ 2 ^ 52) by (split; [reflexivity|vm_compute; discriminate]).
  assert (H3 : 0 ≤ 0 ≤ 7) by (split; vm_compute; discriminate).
  assert (H4 : 7 ≤ 2 ^ 33) by (vm_compute; discriminate).
  assert (H5 : EntropyHTTP.NewHTTPServer EmptyString None 0 false 0 1 1 (0 * Second) = Ok witness_server)
    by (vm_compute; reflexivity).
  destruct witness_handler as (w1 & w2 & w3 & data & c1 & c2 & Hs & _ & Hr & Hx & _).
  pose proof (ssteps_snoc _ _ _ _ _ (ssteps_snoc _ _ _ _ _ Hs Hr) Hx) as H6.
  set (tr := _ ++ _) in H6.
  assert (H7 : whole_seconds 0 7 tr).
  { exists [0]. split; [vm_compute; reflexivity|]. constructor; [exact H3|constructor]. }
  refine (conj witness_i64 (conj H1 (conj H2 (conj H3 (conj H4 (conj H5 _)))))).
  exists tr, w3. refine (conj H6 (conj H7 (conj eq_refl _))).
  exact (proj1 (proj2 (proj2 (serving_rate 1 false 0 0 EmptyString None 0 false 0 1 1 0 7 witness_server tr w3
    witness_i64 H1 H2 H3 H4 H5 H6 H7)))).
Defined.

Lemma serving_healthy_witness :
  ∃ tr w, ssteps (initial_serving 1 false 0 0 witness_server) tr w ∧ Forall no_failure tr ∧
    ¬ unhealthy_run (concat (bodies tr)).
Proof.
  destruct witness_handler as (w1 & w2 & w3 & data & c1 & c2 & Hs & _ & Hr & Hx & Hf).
  pose proof (ssteps_snoc _ _ _ _ _ (ssteps_snoc _ _ _ _ _ Hs Hr) Hx) as H1. set (tr := _ ++ _) in H1.
  assert (H2 : Forall no_failure tr) by (repeat first [exact Hf | constructor]).
  exact (ex_intro _ tr (ex_intro _ w3 (conj H1 (conj H2
    (proj1 (serving_healthy 1 false 0 0 witness_server tr w3 H1 H2)))))).
Defined.

Lemma serving_handler_witness :
  ∃ w1 w2 w3 calls1 data calls2,
    sstep w1 (SRequest "32" 0 (inr (32, 0)) calls1) w2 ∧ ssteps w2 [] w2 ∧
    sstep w2 (SServe (length (inflight w1)) 32 (Some data) calls2) w3 ∧
    EntropyHTTP.body (EntropyHTTP.response_of (calls1 ++ calls2)) = data.
Proof.
  destruct witness_handler as (w1 & w2 & w3 & data & c1 & c2 & Hs & Hfl & Hr & Hx & _).
  exists w1, w2, w3, c1, data, c2.
  assert (Hl : length (inflight w1) = 0%nat) by (by rewrite Hfl).
  rewrite <-Hl in Hx. refine (conj Hr (conj (ssteps_nil _) (conj Hx _))).
  exact (proj2 (proj2 (proj2 (serving_handler w1 "32" 0 32 0 c1 w2 [] w2 (Some data) c2 w3 0 Hr (ssteps_nil _) Hx))) data eq_refl).
Defined.
End witnesses.
