(* ===== verification/Traffic.v ===== *)
(** * All the requests of the clients, on the running gateway

    [Serving] interleaves the handlers of the entropy endpoint with the gateway.
    Here the requests come as net/http delivers them, with a path and a query,
    and reach whichever handler of [Routes] is registered for the path.  The
    handler of [/health] also uses the pool twice and is cut there; the other
    answers are one step.  A history of all requests is, but for the server
    object each handler writes back, one of [Serving]. *)

From S2P Require Import Prelude Float64 GoStrings GoNet GoStd GoURL Clock Metrics Proto HealthTests QuickTests.
From S2P Require Import MinEntropy Sha256 Whitening MqttHandler Pool Collector TokenBucket Forwarder Gateway.
From S2P Require Import Serving.
From S2P Require EntropyHTTP Routes.

Section traffic.
Context `{MathLib, MapRange, ErrorText, GoUnicode, GoAppend}.
Context (spec : bytes) (redirect : string → string → list EntropyHTTP.srv_call).

(** The gateway with its server, and the health handlers between their parts. *)
Record front := mkFront {
  inner : serving;
  probing : list (option (Z * Z));
}.

(** A handler leaves the server object and the pool it points to as [s]. *)
Definition left_as (s : EntropyHTTP.HTTPServer) (w : serving) : serving :=
  mkServing (put_pool s (gw w)) s (inflight w).

Inductive flabel :=
| FInner (l : slabel)
| FEntropy (path rawQuery : string) (l : slabel)
| FHealth (path : string)
| FHealthAnswer (i : nat) (calls : list EntropyHTTP.srv_call)
| FAnswer (path rawQuery : string) (calls : list EntropyHTTP.srv_call).

Definition is_request (l : slabel) : bool := match l with SRequest _ _ _ _ => true | _ => false end.

(** Paths whose request is answered in one step. *)
Definition simple (r : Routes.route) : bool :=
  match r with Routes.To Routes.HandleEntropy | Routes.To Routes.HandleHealth => false | _ => true end.

Inductive fstep : front → flabel → front → Prop :=
| f_inner f l w :
    is_request l = false → sstep (inner f) l w →
    fstep f (FInner l) (mkFront w (probing f))
| f_entropy f path rawQuery now r calls w :
    Routes.find_handler path = Routes.To Routes.HandleEntropy →
    sstep (inner f) (SRequest (Routes.bytes_parameter rawQuery) now r calls) w →
    fstep f (FEntropy path rawQuery (SRequest (Routes.bytes_parameter rawQuery) now r calls)) (mkFront w (probing f))
| f_health f path counts s calls :
    Routes.find_handler path = Routes.To Routes.HandleHealth →
    EntropyHTTP.health_read (server_of (inner f)) = (counts, s, calls) →
    fstep f (FHealth path) (mkFront (left_as s (inner f)) (probing f ++ [Some counts]))
| f_health_answer f i rawEvents whitened s calls :
    probing f !! i = Some (Some (rawEvents, whitened)) →
    EntropyHTTP.health_answer rawEvents whitened (server_of (inner f)) = (tt, s, calls) →
    fstep f (FHealthAnswer i calls) (mkFront (left_as s (inner f)) (<[i := None]> (probing f)))
| f_answer f path rawQuery now duration s calls :
    simple (Routes.find_handler path) = true →
    Routes.ServeHTTP spec redirect path rawQuery now duration [] (server_of (inner f)) = (tt, s, calls) →
    fstep f (FAnswer path rawQuery calls) (mkFront (left_as s (inner f)) (probing f)).

Inductive fsteps : front → list flabel → front → Prop :=
| fsteps_nil f : fsteps f [] f
| fsteps_snoc f tr f' l f'' : fsteps f tr f' → fstep f' l f'' → fsteps f (tr ++ [l]) f''.

Definition strace_of (l : flabel) : list slabel :=
  match l with FInner l | FEntropy _ _ l => [l] | _ => [] end.
Definition strace (tr : list flabel) : list slabel := tr ≫= strace_of.

(** ** The same server, whatever object holds it *)

Definition same_server (w v : serving) : Prop :=
  gw w = gw v ∧ inflight w = inflight v ∧ server_of w = server_of v.

#[export] Instance same_server_equivalence : Equivalence same_server.
Proof.
  split; [by intros w|intros w v (E1 & E2 & E3)|intros w v u (E1 & E2 & E3) (F1 & F2 & F3)]; split_and!; congruence.
Qed.

Lemma same_server_pool w v : same_server w v → current_pool w = current_pool v.
Proof. intros (E & _). unfold current_pool. by rewrite E. Qed.

(** Handlers only see the server of [server_of]. *)
Lemma sstep_same w l w' v : sstep w l w' → same_server w v → ∃ v', sstep v l v' ∧ same_server w' v'.
Proof.
  intros Hl Hs. pose proof (same_server_pool _ _ Hs) as Hp. destruct Hs as (Hg & Hi & Hs).
  destruct Hl as [w l g Hx Hl|w value now r s calls Ha|w i n available r s calls Hin Hx].
  - rewrite Hg in Hl. eexists. split; [by apply s_gateway|]. split; [done|split; [done|]].
    unfold server_of, current_pool in *. cbn [gw srv]. rewrite Hp in Hs.
    apply (f_equal (EntropyHTTP.set_pool (Some (pool (shared g))))) in Hs. exact Hs.
  - rewrite Hs in Ha. eexists. split; [by apply s_request|]. by rewrite Hg, Hi.
  - rewrite Hs in Hx. rewrite Hi in Hin. eexists. split; [rewrite Hp; by eapply s_serve|]. by rewrite Hg, Hi.
Qed.

Lemma left_same w : same_server (left_as (server_of w) w) w.
Proof.
  assert (Hg : put_pool (server_of w) (gw w) = gw w) by (apply put_pool_same, server_pool).
  unfold left_as. split; [done|split; [done|]]. unfold server_of at 1, current_pool. cbn [gw srv]. by rewrite Hg.
Qed.

(** ** Every history of requests is one of [Serving] *)

Lemma fstep_inner f l f' :
  fstep f l f' → ∃ w, ssteps (inner f) (strace_of l) w ∧ same_server w (inner f').
Proof.
  assert (Hone : ∀ w l w', sstep w l w' → ssteps w [l] w') by (intros w l1 w' Hl; by apply (ssteps_snoc w [] w l1 w'); [constructor|]).
  intros Hl. destruct Hl as [f l w _ Hl|f path q now r calls w _ Hl|f path counts s calls _ Hh|f i raw wh s calls _ Hh|f path q now d s calls Hp Hh];
    cbn [inner strace_of]; try by exists w; split; [apply Hone|].
  - destruct (EntropyHTTP.health_read_eq (server_of (inner f))) as (raw & wh & E). rewrite E in Hh. injection Hh as _ <- _.
    exists (inner f). split; [constructor|]. symmetry. apply left_same.
  - destruct (EntropyHTTP.health_answer_eq raw wh (server_of (inner f))) as (body & E). rewrite E in Hh. injection Hh as <- _.
    exists (inner f). split; [constructor|]. symmetry. apply left_same.
  - assert (s = server_of (inner f)) as ->.
    { pose proof (Routes.ServeHTTP_state spec redirect path q now d [] (server_of (inner f))) as Hs.
      unfold run_state in Hs. rewrite Hh in Hs. by destruct (Routes.find_handler path) as [[]|clean|]. }
    exists (inner f). split; [constructor|]. symmetry. apply left_same.
Qed.

Lemma ssteps_app w tr w' tr' w'' : ssteps w tr w' → ssteps w' tr' w'' → ssteps w (tr ++ tr') w''.
Proof.
  intros Ha Hb. induction Hb as [w'|w' tr' u l w'' _ IH Hl]; [by rewrite app_nil_r|].
  rewrite (assoc_L (++)). eapply ssteps_snoc; [by apply IH|done].
Qed.

Lemma ssteps_same w tr w' v : ssteps w tr w' → same_server w v → ∃ v', ssteps v tr v' ∧ same_server w' v'.
Proof.
  induction 1 as [w|w tr w' l w'' _ IH Hl]; intros Hs; [by exists v; split; [constructor|]|].
  destruct (IH Hs) as (v' & Hv & Hs'). destruct (sstep_same _ _ _ _ Hl Hs') as (v'' & Hv' & Hs'').
  exists v''. split; [|done]. by eapply ssteps_snoc.
Qed.

Lemma fsteps_inner f tr f' :
  fsteps f tr f' → ∃ w, ssteps (inner f) (strace tr) w ∧ same_server w (inner f').
Proof.
  induction 1 as [f|f tr f' l f'' _ (w & Hw & Hs) Hl]; [by exists (inner f); split; [constructor|]|].
  destruct (fstep_inner _ _ _ Hl) as (u & Hu & Hs'). symmetry in Hs.
  destruct (ssteps_same _ _ _ _ Hu Hs) as (v & Hv & Hs''). exists v. unfold strace. rewrite bind_app, bind_one.
  split; [by eapply ssteps_app|]. by transitivity u; [symmetry|].
Qed.

(** ** Readiness *)

Lemma threshold_kept w tr w' :
  ssteps w tr w' → EntropyHTTP.readyThreshold (srv w') = EntropyHTTP.readyThreshold (srv w).
Proof.
  induction 1 as [w|w tr w' l w'' _ IH Hl]; [done|]. rewrite <-IH. clear IH.
  destruct Hl as [v l g _ _|v value now r s calls Ha|v i n available r s calls Hi Hs]; cbn [srv]; [done|..].
  - destruct (admit_cases value now v) as (r' & lim & calls' & E & _). rewrite E in Ha. by injection Ha as <- <- <-.
  - rewrite serve_eq in Hs. by injection Hs as <- <- <-.
Qed.

(** The pool keeps its bounds along every history. *)
Lemma traffic_pool batchSize cloud poolMin poolMax s tr f :
  fsteps (mkFront (initial_serving batchSize cloud poolMin poolMax s) []) tr f →
  let p := current_pool (inner f) in let p0 := NewWhitenedPoolWithBounds poolMin poolMax in
  pool_ok p ∧ minPoolSize p = minPoolSize p0 ∧ maxPoolSize p = maxPoolSize p0 ∧
  EntropyHTTP.readyThreshold (server_of (inner f)) = EntropyHTTP.readyThreshold s.
Proof.
  intros Hf. destruct (fsteps_inner _ _ _ Hf) as (w & Hw & Hs). cbn [inner] in Hw.
  pose proof (threshold_kept _ _ _ Hw) as Ht. pose proof (ssteps_gsteps _ _ _ Hw) as Hg.
  destruct (gsteps_pool _ _ _ Hg) as [Hp _]. pose proof (same_server_pool _ _ Hs) as Hcur.
  destruct Hs as (_ & _ & Hsrv). cbv zeta. rewrite <-Hcur, <-Hsrv. unfold current_pool. rewrite Hp.
  change (pool (shared (gw (initial_serving batchSize cloud poolMin poolMax s)))) with (NewWhitenedPoolWithBounds poolMin poolMax).
  split_and!; [apply exec_all_ok, NewWhitenedPoolWithBounds_ok|apply exec_all_sizes..|exact Ht].
Qed.
End traffic.
