(* ===== verification/Mirror.v ===== *)
(** * What reaches the cloud

    What the running gateway puts on the streams of its cloud clients, against
    the batches the collector gives to its sender: [GrpcClient] and [Gateway]
    together.  [sends] is what the clients handed to [stream.Send] with what it
    returned, [messages] what it took without an error; whether the service
    itself got a message is beyond what the gateway knows. *)

From S2P Require Import Prelude Float64 GoStrings Clock Metrics Proto HealthTests QuickTests.
From S2P Require Import MinEntropy Sha256 Whitening MqttHandler Pool Collector Forwarder Gateway.
From S2P Require Import GrpcClient.

(** ** Only [SendBatch] sends messages *)

(** The messages that the streams took. *)
Definition taken {A} (l : list (A * option goerror)) : list A :=
  omap (λ x, match x.2 with None => Some x.1 | Some _ => None end) l.
Definition messages (l : list grpc_call) : list EntropyBatch := taken (sends l).

Lemma taken_app {A} (l k : list (A * option goerror)) : taken (l ++ k) = taken l ++ taken k.
Proof. apply omap_app. Qed.

Lemma taken_fmap {A B} (f : A → B) (l : list (A * option goerror)) :
  taken ((λ x, (f x.1, x.2)) <$> l) = f <$> taken l.
Proof. unfold taken. induction l as [|[a [e|]] l IH]; [done|..]; cbn; by rewrite IH. Qed.

Lemma runs_silent {A} (m : GrpcClient.M A) l : runs l m → (∀ sent, l ≠ LSent sent) → along silent m.
Proof.
  intros [] Hl; try (by destruct (Hl sent)); unfold_computations; walk; done.
Qed.

(** A step that is not the return of a send leaves what was sent as it is. *)
Lemma step_silent l s s' :
  GrpcClient.step l s = Some s' → (∀ sent, l ≠ LSent sent) → sends (log s') = sends (log s).
Proof.
  intros (A & m & Hr & [_ Hlog _ _ _])%step_move%move_moved Hl.
  by rewrite Hlog, sends_app, (runs_silent m l Hr Hl (client s)), app_nil_r.
Qed.

Lemma send_end_sends k b sent c : sends (run_calls (send_end k b sent) c) = [(b, sent)].
Proof. by destruct sent. Qed.

Lemma sent_sends sent s s' k b :
  GrpcClient.step (LSent sent) s = Some s' → sending s = Some (k, b) → sends (log s') = sends (log s) ++ [(b, sent)].
Proof.
  unfold GrpcClient.step. cbn [takes_mu andb move]. intros Hs Hk. rewrite Hk in Hs. apply Some_inj in Hs as <-.
  by rewrite log_exec, sends_app, send_end_sends.
Qed.

Lemma silent_connect built opened : along silent (connect built opened).
Proof. unfold connect. unfold_computations. walk; done. Qed.

Lemma start_sends f built opened s : GrpcClient.start f built opened = Some s → sends (log s) = [].
Proof. intros (k & n & -> & -> & ->)%start_eq. rewrite log_exec, sends_app. apply silent_connect. Qed.

(** ** Sending through the gateway *)

Section mirror.
Context `{MathLib, MapRange, ErrorText, GoUnicode, GoAppend}.

(** Histories with the state before each step. *)
Inductive gruns : gateway → list (gateway * glabel) → gateway → Prop :=
| gruns_nil g : gruns g [] g
| gruns_snoc g tr g' l g'' : gruns g tr g' → gstep g' l g'' → gruns g (tr ++ [(g', l)]) g''.

Lemma gruns_gsteps g tr g' : gruns g tr g' → gsteps g (snd <$> tr) g'.
Proof.
  induction 1 as [g|g tr g' l g'' _ IH Hl]; [apply gsteps_nil|]. rewrite fmap_app. by eapply gsteps_snoc.
Qed.

Lemma gsteps_gruns g tr g' : gsteps g tr g' → ∃ run, gruns g run g' ∧ snd <$> run = tr.
Proof.
  induction 1 as [g|g tr g' l g'' _ (run & IH & E) Hl]; [exists []; split; [apply gruns_nil|done]|].
  exists (run ++ [(g', l)]). split; [by eapply gruns_snoc|]. by rewrite fmap_app, E.
Qed.

(** The requests that were handed to a stream, with the client, and what [Send] returned. *)
Definition offered_of (x : gateway * glabel) : list (nat * (readings * sendRequest)) :=
  match x.2, mirroring x.1 with GSent, Some (JSent k rd r) => [(k, (rd, r))] | _, _ => [] end.
Definition offered (run : list (gateway * glabel)) : list (nat * (readings * sendRequest)) := run ≫= offered_of.

Definition on (k : nat) (l : list (nat * (readings * sendRequest))) : list (readings * sendRequest) :=
  omap (λ x, if decide (x.1 = k) then Some x.2 else None) l.

Definition offer (x : readings * sendRequest) : EntropyBatch * option goerror :=
  (message_of x.1 x.2, stream_send x.1).

(** The request the send loop is busy with. *)
Definition in_progress (g : gateway) : list sendRequest :=
  match mirroring g with
  | Some (JLoad _ r | JCall _ _ r | JSent _ _ r) => [r]
  | None => []
  end.

Lemma on_app k l1 l2 : on k (l1 ++ l2) = on k l1 ++ on k l2.
Proof. apply omap_app. Qed.

Lemma offered_snoc run x : offered (run ++ [x]) = offered run ++ offered_of x.
Proof. unfold offered. by rewrite bind_app, bind_one. Qed.

(** What the logs of the clients hold after a history. *)
Record mirrored (l : list (nat * (readings * sendRequest))) (g : gateway) : Prop := {
  mi_sends : ∀ k sys, clients (shared g) !! k = Some sys → sends (log sys) = offer <$> on k l;
  mi_fresh : ∀ k, clients (shared g) !! k = None → on k l = [];
}.

Lemma mirrored_same l g g' : clients (shared g') = clients (shared g) → mirrored l g → mirrored l g'.
Proof. intros E []. by split; rewrite E. Qed.

Lemma mirrored_put l g c j k sys sys' :
  clients (shared g) !! k = Some sys → sends (log sys') = sends (log sys) → mirrored l g →
  mirrored l (mkGateway c (put_client k sys' (shared g)) j).
Proof.
  intros Hk Hs [M1 M2]. pose proof (lookup_lt_Some _ _ _ Hk) as Hlt. split; cbn.
  - intros i x Hx. destruct (decide (i = k)) as [->|Hne].
    + rewrite list_lookup_insert_eq in Hx by done. injection Hx as <-. rewrite Hs. by apply M1.
    + rewrite list_lookup_insert_ne in Hx by done. by apply M1.
  - intros i Hx. destruct (decide (i = k)) as [->|Hne]; [by rewrite list_lookup_insert_eq in Hx by done|].
    rewrite list_lookup_insert_ne in Hx by done. by apply M2.
Qed.

(** The return of a send appends its message to the log of its client. *)
Lemma mirrored_sent l g c k rd r sys sys' :
  clients_ok g → mirroring g = Some (JSent k rd r) → clients (shared g) !! k = Some sys →
  GrpcClient.step (LSent (stream_send rd)) sys = Some sys' → mirrored l g →
  mirrored (l ++ [(k, (rd, r))]) (mkGateway c (put_client k sys' (shared g)) None).
Proof.
  intros Hok Hm Hk Hs [M1 M2]. pose proof (lookup_lt_Some _ _ _ Hk) as Hlt.
  destruct (ok_sent g Hok k rd r Hm) as (sys1 & n & Hk1 & Hn). rewrite Hk in Hk1. injection Hk1 as <-. split; cbn.
  - intros i x Hx. rewrite on_app. destruct (decide (i = k)) as [->|Hne].
    + rewrite list_lookup_insert_eq in Hx by done. injection Hx as <-.
      rewrite (sent_sends _ _ _ _ _ Hs Hn), (M1 k sys Hk), fmap_app. cbn. by rewrite decide_True.
    + rewrite list_lookup_insert_ne in Hx by done. cbn. rewrite decide_False by done. rewrite app_nil_r. by apply M1.
  - intros i Hx. destruct (decide (i = k)) as [->|Hne]; [by rewrite list_lookup_insert_eq in Hx by done|].
    rewrite list_lookup_insert_ne in Hx by done. rewrite on_app, (M2 i Hx). cbn. by rewrite decide_False.
Qed.

Lemma mirrored_detach l g c j : mirrored l g → mirrored l (mkGateway c (run_state cloud_Close (shared g)) j).
Proof.
  intros Hmi. destruct (detach_eq (shared g)) as (_ & _ & E).
  destruct (Forwarder.client (shared g)) as [k|] eqn:Hc; [|exact (mirrored_same l g (mkGateway c (run_state cloud_Close (shared g)) j) E Hmi)].
  cbn [mbind option_bind] in E. destruct (clients (shared g) !! k) as [sys|] eqn:Hk; [|exact (mirrored_same l g (mkGateway c (run_state cloud_Close (shared g)) j) E Hmi)].
  cbn [mbind option_bind] in E. destruct (GrpcClient.step LClose sys) as [sys'|] eqn:Hs; [|exact (mirrored_same l g (mkGateway c (run_state cloud_Close (shared g)) j) E Hmi)].
  cbn [mbind option_bind] in E. eapply (mirrored_same _ (mkGateway c (put_client k sys' (shared g)) j)); [exact E|].
  by eapply mirrored_put; [|eapply step_silent|].
Qed.

Lemma gstep_mirrored l g lb g' :
  gstep g lb g' → clients_ok g → mirrored l g → mirrored (l ++ offered_of (g, lb)) g'.
Proof.
  intros Hl Hok Hmi. unfold offered_of. cbn [fst snd].
  destruct Hl as [g now topic payload c _|g lb c _ _ _|g rd r c Hm _|g rd r Hm|g k rd r sys sys' Hm Hk Hs|g k rd r sys sys' Hm Hk Hs
    |g o _|g k lb sys sys' Hns Hk Hs|g f built opened sys Hs|g k Hk|g]; rewrite ?app_nil_r.
  - by apply (mirrored_same _ g).
  - by apply (mirrored_same _ g).
  - apply (mirrored_same _ g); [|done]. by destruct (send_pool (sender_of g) rd r (shared g)) as (_ & E & _).
  - by apply (mirrored_same _ g).
  - by eapply mirrored_put; [|eapply step_silent|].
  - rewrite Hm. by eapply mirrored_sent.
  - apply (mirrored_same _ g); [|done]. unfold run_state. by rewrite on_pool_eq.
  - eapply mirrored_put; [done| |done]. eapply step_silent; [done|]. by intros sent ->.
  - destruct Hmi as [M1 M2]. split; cbn.
    + intros k x Hx. apply lookup_app_Some in Hx as [Hx|[Hle Hx]]; [by apply M1|].
      apply list_lookup_singleton_Some in Hx as [_ <-]. rewrite (M2 k) by (by apply lookup_ge_None). by eapply start_sends.
    + intros k Hx. apply M2, lookup_ge_None. apply lookup_ge_None in Hx. rewrite length_app in Hx. lia.
  - by apply (mirrored_same _ g).
  - by apply mirrored_detach.
Qed.

(** ** Which batches the cloud gets *)

(** The batches handed to a stream, and the one in progress, are some of those
    that were sent, each once and in order. *)
Lemma gstep_progress lb g g' :
  gstep g lb g' → ∃ dropped,
    in_progress g ++ batches_of lb = dropped ++ (snd <$> (snd <$> offered_of (g, lb))) ++ in_progress g'.
Proof.
  intros Hl. unfold offered_of, in_progress. cbn [fst snd].
  destruct Hl as [g now topic payload c _|g lb c _ _ _|g rd r c Hm _|g rd r Hm|g k rd r sys sys' Hm Hk Hs|g k rd r sys sys' Hm Hk Hs
    |g o _|g k lb sys sys' Hns Hk Hs|g f built opened sys Hs|g k Hk|g]; cbn [batches_of mirroring]; rewrite ?app_nil_r.
  all: try (by exists []).
  - rewrite Hm. by destruct (sender_of g); [exists [r]|exists []].
  - rewrite Hm. change (run_val cloud_load (shared g)) with (Forwarder.client (shared g)).
    by destruct (Forwarder.client (shared g)) as [k|]; [exists []|exists [r]].
  - rewrite Hm. by destruct (sending sys'); [exists []|exists [r]].
  - rewrite Hm. by exists [].
Qed.

Lemma offered_sublist run g g' :
  gruns g run g' → mirroring g = None →
  ((snd <$> (snd <$> offered run)) ++ in_progress g') `sublist_of` batches (snd <$> run).
Proof.
  induction 1 as [g|g run g' l g'' _ IH Hl]; intros Hm; [unfold in_progress; by rewrite Hm|].
  destruct (gstep_progress _ _ _ Hl) as (dropped & E). unfold batches in *.
  rewrite fmap_app, bind_app, offered_snoc, !fmap_app. cbn [fmap list_fmap]. rewrite bind_one, <-(assoc_L (++)).
  specialize (IH Hm). transitivity ((snd <$> (snd <$> offered run)) ++ in_progress g' ++ batches_of l).
  - apply sublist_app; [done|]. rewrite E. apply sublist_inserts_l. reflexivity.
  - rewrite (assoc_L (++)). by apply sublist_app.
Qed.

(** A step at which the cloud does not fail the send in progress. *)
Definition cloud_up (x : gateway * glabel) : Prop :=
  match x.2, mirroring x.1 with
  | GLoad, _ => Forwarder.client (shared x.1) ≠ None
  | GCall, Some (JCall k _ _) => ∀ sys, clients (shared x.1) !! k = Some sys → connected (client sys) = true
  | GSent, Some (JSent _ rd _) => stream_send rd = None
  | _, _ => True
  end.

Lemma gstep_progress_up lb g g' :
  gstep g lb g' → clients_ok g → sender_of g = CloudSender → cloud_up (g, lb) →
  in_progress g ++ batches_of lb = (snd <$> (snd <$> offered_of (g, lb))) ++ in_progress g' ∧
  Forall (λ x, stream_send x.2.1 = None) (offered_of (g, lb)).
Proof.
  intros Hl Hok Href Hup. unfold offered_of, in_progress, cloud_up in *. cbn [fst snd] in *.
  destruct Hl as [g now topic payload c _|g lb c _ _ _|g rd r c Hm _|g rd r Hm|g k rd r sys sys' Hm Hk Hs|g k rd r sys sys' Hm Hk Hs
    |g o _|g k lb sys sys' Hns Hk Hs|g f built opened sys Hs|g k Hk|g]; cbn [batches_of mirroring]; rewrite ?app_nil_r.
  all: try (by split).
  - by rewrite Hm, Href.
  - rewrite Hm. change (run_val cloud_load (shared g)) with (Forwarder.client (shared g)).
    by destruct (Forwarder.client (shared g)) as [k|].
  - rewrite Hm in *. specialize (Hup sys Hk).
    assert (Hidle : sending sys = None) by (apply (ok_idle g Hok k sys Hk); intros rd' r'; by rewrite Hm).
    destruct (call_step rd r (shared g) sys (Forall_lookup_1 _ _ _ _ (ok_invariant g Hok) Hk) Hidle) as (sys1 & Hs1 & Hcase).
    rewrite Hs in Hs1. injection Hs1 as <-. rewrite Hup in Hcase. destruct Hcase as (n & _ & ->). by split.
  - rewrite Hm in *. split; [done|]. by apply Forall_singleton.
Qed.

Lemma reachable_facts batchSize poolMin poolMax tr g :
  is_i64 batchSize → gsteps (initial batchSize true poolMin poolMax) tr g →
  clients_ok g ∧ sender_of g = CloudSender ∧ numbered (batches tr).
Proof.
  intros Hb Hs. pose proof (gsteps_coll _ _ _ Hs) as Hc. destruct (history tr (gsteps_labels _ _ _ Hs)) as [_ Ht].
  destruct (reachable_inv _ _ _ (setup_fresh batchSize true Hb) Hc) as [_ I2 _ I4 _ _ _ _ _ _ _]. split_and!.
  - apply (gsteps_clients _ _ _ Hs), initial_clients.
  - unfold sender_of. by rewrite I4, forwarded_ref.
  - rewrite Ht in I2. by eapply numbered_prefix.
Qed.

Section history.
Context (batchSize poolMin poolMax : Z) (Hsize : is_i64 batchSize).

Lemma gruns_mirrored run g :
  gruns (initial batchSize true poolMin poolMax) run g → mirrored (offered run) g.
Proof.
  remember (initial batchSize true poolMin poolMax) as g0 eqn:E0.
  induction 1 as [g|g run g' l g'' Hr IH Hl]; subst; [by split|].
  rewrite offered_snoc. apply (gstep_mirrored _ _ _ _ Hl); [|by apply IH].
  by destruct (reachable_facts _ _ _ _ _ Hsize (gruns_gsteps _ _ _ Hr)).
Qed.

Lemma gruns_complete run g :
  gruns (initial batchSize true poolMin poolMax) run g → Forall cloud_up run →
  batches (snd <$> run) = (snd <$> (snd <$> offered run)) ++ in_progress g ∧
  Forall (λ x, stream_send x.2.1 = None) (offered run).
Proof.
  remember (initial batchSize true poolMin poolMax) as g0 eqn:E0.
  induction 1 as [g|g run g' l g'' Hr IH Hl]; subst; [by split|]. intros [Hup [Hx _]%Forall_cons]%Forall_app.
  destruct (IH eq_refl Hup) as [E1 E2]. destruct (reachable_facts _ _ _ _ _ Hsize (gruns_gsteps _ _ _ Hr)) as (Hok & Href & _).
  destruct (gstep_progress_up _ _ _ Hl Hok Href Hx) as [E3 E4]. unfold batches in *.
  rewrite fmap_app, bind_app, offered_snoc, !fmap_app. cbn [fmap list_fmap]. rewrite bind_one, E1, <-!(assoc_L (++)). cbn [snd]. rewrite E3.
  split; [done|]. by apply Forall_app.
Qed.
End history.

(** The calls that the stream took. *)
Definition delivered (l : list (readings * sendRequest)) : list (readings * sendRequest) :=
  filter (λ x, stream_send x.1 = None) l.

Lemma taken_offer l : taken (offer <$> l) = (λ x, message_of x.1 x.2) <$> delivered l.
Proof.
  unfold taken, delivered. induction l as [|x l IH]; [done|]. rewrite fmap_cons.
  destruct (decide (stream_send x.1 = None)) as [E|E]; [rewrite filter_cons_True by done|rewrite filter_cons_False by done].
  - rewrite fmap_cons, <-IH. cbn [omap list_omap offer snd fst]. by rewrite E.
  - rewrite <-IH. cbn [omap list_omap offer snd fst]. by destruct (stream_send x.1).
Qed.

(** C5: the cloud's streams get the batches as they are, whatever the goroutines of
    the clients do, however often they reconnect, and whichever client is made,
    attached or detached meanwhile.  The messages that a client handed to its
    streams, with what [Send] returned, are, in order, those of the batches whose
    call the collector's sender made on it, each with its events in order, their
    whitened entropy and the sequence number the collector gave it; those that
    [Send] took without an error are the messages of the batches for which it
    returned nil.  Over all clients, each batch sent is handed to a stream at
    most once and in order: a failed one is not tried again.  None is missing,
    and all are taken, except the one in progress, when every call found a
    client attached and connected and no [Send] failed; and as the numbers of
    all batches are 1, 2, 3, ... modulo 2^32, the receiver can tell which ones
    it has not got. *)
Theorem gateway_mirror batchSize poolMin poolMax run g :
  is_i64 batchSize → gruns (initial batchSize true poolMin poolMax) run g →
  (∀ k sys, clients (shared g) !! k = Some sys →
     sends (log sys) = (λ x, (message_of x.1 x.2, stream_send x.1)) <$> on k (offered run) ∧
     messages (log sys) = (λ x, message_of x.1 x.2) <$> delivered (on k (offered run))) ∧
  ((snd <$> (snd <$> offered run)) ++ in_progress g) `sublist_of` batches (snd <$> run) ∧
  (Forall cloud_up run →
     batches (snd <$> run) = (snd <$> (snd <$> offered run)) ++ in_progress g ∧
     delivered (snd <$> offered run) = snd <$> offered run) ∧
  numbered (batches (snd <$> run)).
Proof.
  intros Hb Hr. destruct (gruns_mirrored _ _ _ Hb run g Hr) as [M1 _]. split_and!.
  - intros k sys Hk. split; [by apply M1|]. unfold messages. rewrite (M1 k sys Hk). apply taken_offer.
  - by eapply offered_sublist.
  - intros Hup. destruct (gruns_complete _ _ _ Hb run g Hr Hup) as [E1 E2]. split; [done|].
    unfold delivered. clear -E2. induction E2 as [|x l Hx _ IH]; [done|]. cbn [fmap list_fmap].
    rewrite filter_cons_True by done. by f_equal.
  - by destruct (reachable_facts _ _ _ _ _ Hb (gruns_gsteps _ _ _ Hr)) as (_ & _ & Hn).
Qed.
End mirror.

(** ** Witness *)

Section witness.
#[local] Existing Instance witness_math.
#[local] Existing Instance witness_range.
#[local] Existing Instance witness_error.
#[local] Existing Instance witness_unicode.
#[local] Existing Instance witness_append.

(** A client is made and attached, and one message mirrored. *)
Definition mirror_labels : list glabel :=
  [GNew witness_start; GAttach 0; witness_message; GCollector LEnqueue; GCollector LTake;
   GSend witness_readings witness_request; GLoad; GCall; GSent].

Lemma flow_cons g l g1 tr : gstep g l g1 → (∃ g2, gsteps g1 tr g2) → ∃ g2, gsteps g (l :: tr) g2.
Proof. intros Hl [g2 Hs]. exists g2. by eapply gsteps_cons. Qed.

(** The part of a call after the load, on a connected client. *)
Lemma witness_call c st rd r sys :
  clients st !! 0%nat = Some sys → GrpcClient.invariant sys → sending sys = None → connected (client sys) = true →
  ∃ g, gsteps (mkGateway c st (Some (JCall 0 rd r))) [GCall; GSent] g.
Proof.
  intros Hk Hi Hm Hc. destruct (call_step rd r st sys Hi Hm) as (sys1 & Hs1 & Hcase). rewrite Hc in Hcase.
  destruct Hcase as (n & _ & ->). eapply flow_cons.
  { apply (g_call (mkGateway c st (Some (JCall 0 rd r))) 0 rd r sys _ eq_refl Hk Hs1). }
  eapply flow_cons; [|by eexists; apply gsteps_nil]. cbn [sending set_sending fmap option_fmap option_map coll shared].
  eapply (g_sent _ 0 rd r); [reflexivity|by apply (pointer_kept 0 sys)|]. by apply end_step.
Qed.

(** The part from the collector to the pool and the load. *)
Lemma witness_sent st :
  clients st = [witness_start] → Forwarder.client st = Some 0%nat →
  ∃ g, gsteps (mkGateway (start_system (NewBatchCollectorWithFlush 1 0 CloudSender)) st None) (drop 2 mirror_labels) g.
Proof.
  intros Hk Hp. destruct (send_pool CloudSender witness_readings witness_request st) as (_ & E1 & E2).
  set (st' := run_state (send_pool_part CloudSender witness_readings witness_request) st) in *. rewrite Hk in E1.
  rewrite Hp in E2. unfold mirror_labels. cbn [drop].
  eapply flow_cons.
  { apply (g_message _ (MqttHandler.mkReadings 5 0) "timestamps/3" (bytes_of_string "12345")).
    replace (collector_calls _) with [MqttHandler.Add witness_event] by (vm_compute; reflexivity).
    eapply deliver_add; [by eapply (step_add _ 0 0)|apply deliver_nil]. }
  eapply flow_cons; [apply g_collector; [done|done|by eapply step_enqueue]|].
  eapply flow_cons; [apply g_collector; [done|done|by eapply step_take]|].
  eapply flow_cons; [apply g_send; [done|by eapply step_send]|].
  match goal with |- ∃ g, gsteps (mkGateway ?c _ _) _ g =>
    change (∃ g, gsteps (mkGateway c st' (Some (JLoad witness_readings witness_request))) [GLoad; GCall; GSent] g) end.
  eapply flow_cons; [by apply (g_load _ witness_readings witness_request)|].
  change (run_val cloud_load (shared (mkGateway _ ?st _))) with (Forwarder.client st). rewrite E2.
  apply (witness_call _ st' _ _ witness_start); [by rewrite E1|exact witness_start_ok|done|done].
Qed.

Lemma witness_flow : ∃ g, gsteps (initial 1 true 0 0) mirror_labels g.
Proof.
  assert (Hc : coll (initial 1 true 0 0) = start_system (NewBatchCollectorWithFlush 1 0 CloudSender))
    by (vm_compute; reflexivity).
  unfold mirror_labels. eapply flow_cons; [by apply (g_new _ race_config (Ok 0%nat) (Ok 0%nat))|].
  eapply flow_cons; [apply (g_attach _ 0); by eexists|]. cbn [coll shared mirroring]. rewrite Hc.
  by apply witness_sent.
Qed.

Lemma gateway_mirror_witness :
  is_i64 1 ∧ ∃ run g, gruns (initial 1 true 0 0) run g ∧ snd <$> run = mirror_labels ∧
    numbered (batches (snd <$> run)).
Proof.
  destruct witness_flow as [g Hg]. destruct (gsteps_gruns _ _ _ Hg) as (run & Hr & Hl).
  refine (conj witness_i64 (ex_intro _ run (ex_intro _ g (conj Hr (conj Hl _))))).
  destruct (gateway_mirror 1 0 0 run g witness_i64 Hr) as (_ & _ & _ & H). exact H.
Defined.
End witness.
