(* ===== verification/Typed.v ===== *)
(** * The types of what flows through the gateway

    The Go types give every field a width that the integers of the model do not
    have.  [gateway_typed] states these widths for all that the running gateway
    holds (the collector's buffer, queue and counter, the pool, the messages on
    the streams), and every step keeps it. *)

From S2P Require Import Prelude Float64 GoStrings Clock Metrics Proto HealthTests QuickTests.
From S2P Require Import MinEntropy Sha256 Whitening MqttHandler Pool Collector Forwarder Gateway.
From S2P Require Import GrpcClient Mirror.

(** ** Widths *)

Definition option_typed (P : Z → Prop) (x : option Z) : Prop := match x with Some v => P v | None => True end.

(** [mqtt.TDCEvent]: uint64, uint32, uint64, *int64 and *uint32. *)
Record event_typed (e : event) : Prop := {
  ev_rpi : is_u64 (MqttHandler.RpiTimestampUs e);
  ev_channel : is_u32 (MqttHandler.Channel e);
  ev_tdc : is_u64 (MqttHandler.TdcTimestampPs e);
  ev_delta : option_typed is_i64 (MqttHandler.DeltaPs e);
  ev_flags : option_typed is_u32 (MqttHandler.Flags e);
}.

Definition request_typed (r : sendRequest) : Prop := Forall event_typed (batch r) ∧ is_u32 (seq r).

(** [pb.TDCEvent], with whitened entropy of 32 bytes, and [pb.EntropyBatch]. *)
Record proto_typed (e : Proto.TDCEvent) : Prop := {
  pb_rpi : is_u64 (Proto.RpiTimestampUs e);
  pb_tdc : is_u64 (Proto.TdcTimestampPs e);
  pb_channel : is_u32 (Proto.Channel e);
  pb_delta : option_typed is_i64 (Proto.DeltaPs e);
  pb_flags : option_typed is_u32 (Proto.Flags e);
  pb_whitened : bytes_ok (WhitenedEntropy e) ∧ len (WhitenedEntropy e) = 32;
}.

Record message_typed (b : EntropyBatch) : Prop := {
  msg_events : Forall proto_typed (Events b);
  msg_timestamp : is_u64 (BatchTimestampUs b);
  msg_sequence : is_u32 (BatchSequence b);
  msg_start : is_u64 (TStartUs b);
  msg_end : is_u64 (TEndUs b);
  msg_dropped : is_u32 (DroppedEvents b);
  msg_checksum : bytes_ok (Checksum b) ∧ bytes_ok (Signature b);
}.

Record collector_typed (s : Collector.system (F := sender_ref)) : Prop := {
  col_buffer : Forall event_typed (Collector.events (bc s));
  col_requests : Forall request_typed (outstanding s);
  col_sequence : is_u32 (sequence (bc s));
}.

Definition pool_typed (p : WhitenedPool) : Prop := bytes_ok (whitened p) ∧ Forall event_typed (rawEvents p).

(** What a client handed to its streams, or is handing. *)
Record client_typed (sys : GrpcClient.system) : Prop := {
  cl_sends : Forall (λ x, message_typed x.1) (sends (log sys));
  cl_sending : ∀ k b, sending sys = Some (k, b) → message_typed b;
}.

Record gateway_typed (g : gateway) : Prop := {
  gt_collector : collector_typed (coll g);
  gt_pool : pool_typed (pool (shared g));
  gt_clients : Forall client_typed (clients (shared g));
  gt_job : Forall request_typed (in_progress g);
}.

Lemma u32_typed x : is_u32 (u32 x).
Proof. unfold u32, is_u32. pose proof (Z.mod_pos_bound x (2 ^ 32)). lia. Qed.

Lemma u64_typed x : is_u64 (u64 x).
Proof. unfold u64, is_u64. pose proof (Z.mod_pos_bound x (2 ^ 64)). lia. Qed.

Create HintDb typed.
#[export] Hint Resolve u32_typed u64_typed : typed.

Section typed.
Context `{MathLib, MapRange, ErrorText, GoUnicode, GoAppend}.

(** ** The handler *)

Lemma OnMessage_typed now topic payload :
  is_i64 (timeNowMicros now) →
  Forall event_typed (omap (λ c, match c with MqttHandler.Add e => Some e | _ => None end)
    (collector_calls (OnMessage true now topic payload))).
Proof.
  intros Hnow. unfold OnMessage. rewrite collector_calls_app, collector_calls_prom. cbn [app].
  destruct (isMetaTopic topic); [constructor|]. pose proof (parseRawTimestamp_spec now topic payload Hnow) as Hp.
  destruct (parseRawTimestamp now topic payload) as [e|e].
  - destruct Hp as (_ & Hts & He). destruct (MqttHandler.TdcTimestampPs e =? 0).
    { rewrite collector_calls_app, collector_calls_prom. constructor. }
    assert (Hev : event_typed e).
    { rewrite He. unfold is_i64 in Hnow. split; cbn; [unfold is_u64; lia| |exact Hts|done|done].
      rewrite <-extractChannelFromTopic_spec. unfold extractChannelFromTopic.
      destruct (last _) as [p|]; [|done]. destruct (ParseUint p 32); [apply u32_typed|done]. }
    rewrite !collector_calls_app, collector_calls_prom. cbn [app].
    destruct (0 <? Microseconds (elapsed now)); by apply Forall_singleton.
  - rewrite collector_calls_app, collector_calls_prom. constructor.
Qed.

(** ** The collector *)

(** What [flush] and [Add] do to a typed collector, the mutex being free. *)
Lemma flush_typed start stop s h r c w :
  flush start stop (bc s) = (r, c, w) → mu s = None → collector_typed s →
  ∀ cl, collector_typed (Collector.mkSystem c (hold h r) (autoRunning s) (inFlight s) (workerDone s) cl).
Proof.
  rewrite flush_eq. intros E Hmu [Hb Hr Hsq] cl. unfold outstanding in Hr. rewrite Hmu in Hr. cbn in Hr. rewrite app_nil_r in Hr.
  case_decide; injection E as <- <- <-; split; cbn; unfold outstanding; cbn; rewrite ?app_nil_r; try done; auto with typed.
  rewrite (assoc_L (++)). apply Forall_app. split; [done|]. apply Forall_singleton. split; cbn; auto with typed.
Qed.

Lemma Add_typed start stop e s r c w :
  Collector.Add start stop e (bc s) = (r, c, w) → mu s = None → event_typed e → collector_typed s →
  collector_typed (Collector.mkSystem c (hold HAdd r) (autoRunning s) (inFlight s) (workerDone s) (Collector.closers s)).
Proof.
  intros E Hmu He Hs. set (s' := Collector.mkSystem (pushed e (bc s)) (mu s) (autoRunning s) (inFlight s) (workerDone s) (Collector.closers s)).
  assert (Hs' : collector_typed s').
  { destruct Hs as [Hb Hr Hsq]. split; [|exact Hr|exact Hsq]. cbn. by apply Forall_app, conj, Forall_singleton. }
  rewrite Add_eq in E. destruct (maxSize (bc s) <=? _).
  - destruct (flush start stop (pushed e (bc s))) as [[r' c'] w'] eqn:Hf. injection E as <- <- <-.
    by apply (flush_typed start stop s' HAdd _ _ w').
  - injection E as <- <- <-. destruct Hs' as [Hb Hr Hsq]. split; [exact Hb| |exact Hsq].
    subst s'. unfold outstanding in *. cbn in *. rewrite Hmu in Hr. exact Hr.
Qed.

Lemma collector_step_typed s l s' :
  Collector.step s l s' → (∀ e, l = LAdd e → event_typed e) → collector_typed s →
  collector_typed s' ∧ (∀ r, l = Collector.LSend r → request_typed r).
Proof.
  intros Hl He Hs. split.
  - destruct Hl as [s start stop e r c w Hmu E|s start stop r c w Hmu Ha E|s h r Hmu _ _|s r q Hf _ Hq|s r Hf|s Hf _ _ _| | |
      s i start stop r c w Hi Hmu E| |].
    + eapply Add_typed; eauto.
    + rewrite <-Ha. by eapply flush_typed.
    + destruct Hs as [Hb Hr Hsq]. split; [done| |done]. revert Hr. unfold outstanding. rewrite Hmu. cbn.
      by rewrite app_nil_r.
    + destruct Hs as [Hb Hr Hsq]. split; [done| |done]. revert Hr. unfold outstanding. rewrite Hf, Hq. done.
    + destruct Hs as [Hb Hr Hsq]. split; [done| |done]. revert Hr. unfold outstanding. rewrite Hf. cbn.
      by intros [_ ?]%Forall_cons.
    + destruct Hs as [Hb Hr Hsq]. split; [done| |done]. revert Hr. unfold outstanding. by rewrite Hf.
    + by destruct Hs.
    + by destruct Hs.
    + by eapply flush_typed.
    + by destruct Hs.
    + by destruct Hs.
  - intros r ->. destruct Hs as [_ Hr _]. inversion Hl as [| | | |? ? Hf| | | | | |]; subst.
    unfold outstanding in Hr. rewrite Hf in Hr. by apply Forall_cons in Hr as [? _].
Qed.

Lemma deliver_typed cs s s' :
  deliver cs s s' → Forall event_typed (omap (λ c, match c with MqttHandler.Add e => Some e | _ => None end) cs) →
  collector_typed s → collector_typed s'.
Proof.
  induction 1 as [s|e cs s s1 s2 Hl _ IH|n cs s s' _ IH]; cbn; [done| |done].
  intros [He Hcs]%Forall_cons Hs. apply IH; [done|].
  apply (collector_step_typed _ _ _ Hl); [by intros ? [= <-]|done].
Qed.

(** ** The pool *)

Lemma append_trim_Forall {A} (P : A → Prop) old new limit :
  Forall P old → Forall P new → Forall P (append_trim old new limit).
Proof. intros Ho Hn. unfold append_trim. destruct (_ <? _); [apply Forall_drop|]; by apply Forall_app. Qed.

Lemma ExtractEntropy_typed n p :
  pool_typed p →
  pool_typed (run_state (ExtractEntropy n) p) ∧ Forall bytes_ok (option_list (run_val (ExtractEntropy n) p)).
Proof.
  intros [Hw Hr]. unfold run_state, run_val. rewrite ExtractEntropy_eq. cbv zeta.
  destruct (_ || _); [done|]. destruct (RepetitionCountTest.TestBlock _ _) as [[] rct1]; [|done].
  destruct (AdaptiveProportionTest.TestBlock _ _) as [[] apt1]; [|done]. split.
  - split; [by apply Forall_drop|done].
  - by apply Forall_singleton, Forall_take.
Qed.

Lemma exec_typed o p :
  pool_typed p → (∀ es, o = OpAddBatch es → Forall event_typed es) →
  pool_typed (run_state (Pool.exec o) p) ∧ Forall bytes_ok (option_list (run_val (Pool.exec o) p)).
Proof.
  intros Hp Ho. destruct (exec_state o p) as [-> ->]. destruct o as [es|n| |]; [|by apply ExtractEntropy_typed|done..].
  split; [|constructor]. rewrite AddBatch_state. case_decide as Hne; [done|]. destruct Hp as [Hw Hr]. split; cbn.
  - apply append_trim_Forall; [done|]. by apply batch_bytes_ok.
  - apply append_trim_Forall; [done|]. by apply Ho.
Qed.

(** ** The messages *)

Lemma proto_of_typed e : event_typed e → proto_typed (proto_of e).
Proof. intros []. destruct (whitenEvent_size e). by split. Qed.

Lemma message_of_typed rd r : request_typed r → message_typed (message_of rd r).
Proof.
  intros [Hb Hs]. split; cbn; try done; auto with typed.
  apply Forall_fmap. eapply Forall_impl; [exact Hb|]. intros e. apply proto_of_typed.
Qed.

Lemma client_quiet l sys sys' :
  GrpcClient.step l sys = Some sys' → is_send l = false → client_typed sys → client_typed sys'.
Proof.
  intros Hs Hl [Hm Hb]. split.
  - rewrite (step_silent l sys sys' Hs); [done|]. by intros sent ->.
  - intros k b. rewrite (step_sender l sys sys' Hs Hl). apply Hb.
Qed.

Lemma client_called rd r (st : store) sys sys' :
  GrpcClient.step (LSend (run_val (toProtoEvents (batch r)) st) (seq r) (nowMicro rd)) sys = Some sys' →
  request_typed r → client_typed sys → client_typed sys'.
Proof.
  intros Hs Hr [Hm Hb]. split; [by rewrite (step_silent _ _ _ Hs)|]. apply step_move in Hs. cbn [move] in Hs.
  assert (Hp : run_val (toProtoEvents (batch r)) st = proto_of <$> batch r) by (unfold run_val; by rewrite toProtoEvents_eq).
  rewrite Hp, send_begin_eq in Hs.
  unfold run_val, send_begin, mbind, GoM_bind, get in Hs. cbn in Hs.
  destruct (connected (client sys)); [destruct (stream (client sys))|]; try done; apply Some_inj in Hs as <-; cbn; [|done].
  intros k b [= <- <-]. by apply (message_of_typed rd).
Qed.

Lemma client_sent sent sys sys' : GrpcClient.step (LSent sent) sys = Some sys' → client_typed sys → client_typed sys'.
Proof.
  intros Hs [Hm Hb]. split.
  - destruct (sending sys) as [[k b]|] eqn:E; [|unfold GrpcClient.step in Hs; cbn in Hs; by rewrite E in Hs].
    rewrite (sent_sends _ _ _ _ _ Hs E). apply Forall_app. split; [done|]. apply Forall_singleton. by eapply Hb.
  - by rewrite (sent_step _ _ _ Hs).
Qed.

Lemma start_client_typed f built opened sys : GrpcClient.start f built opened = Some sys → client_typed sys.
Proof. intros Hs. split; [by rewrite (start_sends _ _ _ _ Hs)|]. by rewrite (start_sending _ _ _ _ Hs). Qed.

Lemma detach_typed (st : store) : Forall client_typed (clients st) → Forall client_typed (clients (run_state cloud_Close st)).
Proof.
  intros Hc. destruct (detach_eq st) as (_ & _ & ->).
  destruct (Forwarder.client st) as [k|]; [|done]. cbn [mbind option_bind].
  destruct (clients st !! k) as [sys|] eqn:Hk; [|done]. cbn [mbind option_bind].
  destruct (GrpcClient.step LClose sys) as [sys'|] eqn:Hs; [|done]. cbn [mbind option_bind].
  apply clients_put; [done|]. eapply client_quiet; [done|done|]. exact (Forall_lookup_1 _ _ _ _ Hc Hk).
Qed.

Lemma gstep_clients_typed g l g' :
  gstep g l g' → Forall client_typed (clients (shared g)) → Forall request_typed (in_progress g) →
  Forall client_typed (clients (shared g')).
Proof.
  intros Hl Hc Hj.
  destruct Hl as [| |g rd r c Hm _|g rd r Hm|g k rd r sys sys' Hm Hk Hs|g k rd r sys sys' Hm Hk Hs
    |g o _|g k l sys sys' Hns Hk Hs|g f built opened sys Hs|g k Hk|g]; cbn [shared]; try done.
  - by destruct (send_pool (sender_of g) rd r (shared g)) as (_ & -> & _).
  - apply clients_put; [done|]. eapply client_called; [done| |exact (Forall_lookup_1 _ _ _ _ Hc Hk)].
    unfold in_progress in Hj. rewrite Hm in Hj. by apply Forall_singleton.
  - apply clients_put; [done|]. eapply client_sent; [done|]. exact (Forall_lookup_1 _ _ _ _ Hc Hk).
  - unfold run_state. by rewrite on_pool_eq.
  - apply clients_put; [done|]. eapply client_quiet; [done|done|]. exact (Forall_lookup_1 _ _ _ _ Hc Hk).
  - apply Forall_app. split; [done|]. apply Forall_singleton. by eapply start_client_typed.
  - by apply detach_typed.
Qed.

Lemma gstep_job_typed g l g' :
  gstep g l g' → Forall request_typed (in_progress g) → Forall request_typed (batches_of l) →
  Forall request_typed (in_progress g').
Proof.
  intros Hl Hj Hb. destruct (gstep_progress _ _ _ Hl) as [dropped E].
  assert (Hall : Forall request_typed (in_progress g ++ batches_of l)) by (by apply Forall_app).
  rewrite E, !Forall_app in Hall. tauto.
Qed.

(** C7: every step of the gateway keeps every value within its Go type: whatever
    the messages, the batches, the requests and the cloud do, timestamps and
    sequence numbers stay 64- and 32-bit unsigned integers, the bytes of the
    pool and those served stay bytes, and each event sent to the cloud carries
    exactly 32 bytes of whitened entropy; a new gateway starts this way. *)
Theorem gateway_types g l g' :
  gateway_typed g → clock_ok l → gstep g l g' →
  gateway_typed g' ∧ Forall event_typed (accepted_of l) ∧ Forall request_typed (batches_of l) ∧
  Forall bytes_ok (served_of l) ∧
  ∀ batchSize cloud poolMin poolMax, gateway_typed (initial batchSize cloud poolMin poolMax).
Proof.
  intros [Hc Hp Hcl Hj] Hclock Hl.
  assert (Hev : Forall event_typed (accepted_of l)).
  { destruct l; try constructor. by apply OnMessage_typed. }
  assert (Hreq : ∀ rd r, l = GSend rd r → request_typed r).
  { intros rd r ->. inversion Hl as [| |? ? ? c _ Hs| | | | | | | |]; subst.
    by apply (proj2 (collector_step_typed _ _ _ Hs ltac:(done) Hc)). }
  assert (Hbat : Forall request_typed (batches_of l)).
  { destruct l; try constructor; [by eapply Hreq|constructor]. }
  destruct (gstep_pool _ _ _ Hl) as [Ep Es].
  assert (Hpool : pool_typed (pool (shared g')) ∧ Forall bytes_ok (served_of l)).
  { rewrite Ep, Es. destruct l as [| |rd r| | | |o out| | | |]; try by split.
    - cbn [pool_ops_of]. destruct (exec_all_cons (OpAddBatch (batch r)) [] (pool (shared g))) as (-> & -> & _).
      change (run_state (Pool.exec_all []) ?p) with p. rewrite (proj2 (exec_state _ _)). split; [|constructor].
      apply exec_typed; [done|]. intros es [= <-]. by apply (Hreq rd).
    - cbn [pool_ops_of]. destruct (exec_all_cons o [] (pool (shared g))) as (-> & -> & _).
      change (run_state (Pool.exec_all []) ?p) with p.
      assert (Ho : is_extraction o = true) by (by inversion Hl).
      destruct (exec_typed o (pool (shared g)) Hp) as [Hp' Hb]; [by destruct o|]. split; [done|].
      by destruct (run_val (Pool.exec o) _). }
  assert (Hcoll : collector_typed (coll g')).
  { destruct Hl as [g now topic payload c Hd|g l c Ho _ Hs|g rd r c _ Hs| | | | | | | |]; cbn [coll]; try done.
    - by eapply deliver_typed.
    - apply (collector_step_typed _ _ _ Hs); [|done]. intros e ->. done.
    - by apply (collector_step_typed _ _ _ Hs). }
  destruct Hpool as [Hpool Hserved]. split_and!; [|done..|].
  - split; [done|done|by eapply gstep_clients_typed|by eapply gstep_job_typed].
  - intros batchSize cloud poolMin poolMax. split; [|by split|by constructor|by constructor]. by split.
Qed.
End typed.

Section witness.
#[local] Existing Instance witness_math.
#[local] Existing Instance witness_range.
#[local] Existing Instance witness_error.
#[local] Existing Instance witness_unicode.
#[local] Existing Instance witness_append.

Lemma witness_arrival st :
  ∃ g, gstep (mkGateway (start_system (NewBatchCollectorWithFlush 1 0 CloudSender)) st None) witness_message g.
Proof.
  eexists. unfold start_system.
  apply (g_message _ (MqttHandler.mkReadings 5 0) "timestamps/3" (bytes_of_string "12345")).
  replace (collector_calls _) with [MqttHandler.Add witness_event] by (vm_compute; reflexivity).
  eapply deliver_add; [by eapply (step_add _ 0 0)|apply deliver_nil].
Qed.

Lemma witness_typed : gateway_typed (mkGateway (start_system (NewBatchCollectorWithFlush 1 0 CloudSender))
  (newCloudAwareForwarder (NewWhitenedPoolWithBounds 0 0)) None).
Proof. repeat constructor; vm_compute; done. Qed.

Lemma gateway_types_witness :
  let g := mkGateway (start_system (NewBatchCollectorWithFlush 1 0 CloudSender))
    (newCloudAwareForwarder (NewWhitenedPoolWithBounds 0 0)) None in
  gateway_typed g ∧ clock_ok witness_message ∧ ∃ g', gstep g witness_message g' ∧ gateway_typed g'.
Proof.
  intros g. assert (H2 : clock_ok witness_message) by (by vm_compute).
  destruct (witness_arrival (newCloudAwareForwarder (NewWhitenedPoolWithBounds 0 0))) as [g' H3].
  exact (conj witness_typed (conj H2 (ex_intro _ g' (conj H3 (proj1 (gateway_types g _ g' witness_typed H2 H3)))))).
Defined.
End witness.
