(* ===== verification/MetricsHTTP.v ===== *)
(** * The metrics HTTP server (internal/metrics/http_metric_server.go)

    The server validates its address before it listens; serving blocks until the
    server is shut down or fails, so its outcome is an argument, as are name
    resolution and the TLS helper of go-authx. *)

From S2P Require Import Prelude GoStrings GoNet Clock.

Definition baseUrlV1 : string := "/api/v1".

(** The timeouts of [http.Server]. *)
Record http_server := mkHTTP {
  Addr : string;
  ReadHeaderTimeout : Z;
  ReadTimeout : Z;
  WriteTimeout : Z;
  IdleTimeout : Z;
}.

(** The patterns registered on the multiplexer. *)
Inductive handler := PromHandler | HealthHandler.

Record Server := mkServer {
  addr : string;
  server : option http_server;
  routes : list (string * handler);
}.

Definition NewServer (addr : string) : Server :=
  mkServer addr
    (Some (mkHTTP addr (5 * Second) (10 * Second) (10 * Second) (60 * Second)))
    [(baseUrlV1 +:+ "/metrics", PromHandler); (baseUrlV1 +:+ "/health", HealthHandler)].

(** What the health handler writes: the status, then the body. *)
Definition health_response : Z * string := (200, "OK").

(** What the server does on the network. *)
Inductive net_call :=
| LookupHost (host : string)
| ConfigureServer (certFile keyFile caFile : string) (clientAuth : Z)
| ListenAndServe
| ListenAndServeTLS
| ShutdownServer (deadline : option Z).

Definition M : Type → Type := GoM net_call Server.

(** How [ListenAndServe] may return: nil, [http.ErrServerClosed] or an error. *)
Inductive serve_outcome := ServedNil | ServerClosed | ServeFailed (e : goerror).

Section server.
Context (lookup : string → result (list string)) (serve : serve_outcome)
  (configure : string → string → string → Z → result unit).

Definition validateAddress (addr : string) : M (result unit) :=
  if String.eqb addr EmptyString then mret (Err (Errorf "empty address" []))
  else
    match SplitHostPort addr with
    | Err e => mret (Err (wrap "invalid host:port format: " [] e))
    | Ok (host, port) =>
        if String.eqb port EmptyString then mret (Err (Errorf "port is required" []))
        else if String.eqb host EmptyString || String.eqb host "0.0.0.0" || String.eqb host "::" then mret (Ok tt)
        else
          match ParseIP host with
          | Some _ => mret (Ok tt)
          | None =>
              call [LookupHost host] ;;
              match lookup host with
              | Err e => mret (Err (wrap "cannot resolve host %q: " [host] e))
              | Ok _ => mret (Ok tt)
              end
          end
    end.

Definition serve_result (prefix : string) : result unit :=
  match serve with
  | ServeFailed e => Err (wrap prefix [] e)
  | _ => Ok tt
  end.

Definition Start : M (result unit) :=
  s ← get;
  match server s with
  | None => mret (Err (Errorf "metrics server not initialized" []))
  | Some _ =>
      r ← validateAddress (addr s);
      match r with
      | Err e => mret (Err (wrap "metrics: invalid address %q: " [addr s] e))
      | Ok _ => call [ListenAndServe] ;; mret (serve_result "metrics: HTTP server error: ")
      end
  end.

Definition StartTLS (certFile keyFile caFile : string) (clientAuth : Z) : M (result unit) :=
  s ← get;
  match server s with
  | None => mret (Err (Errorf "metrics server not initialized" []))
  | Some _ =>
      r ← validateAddress (addr s);
      match r with
      | Err e => mret (Err (wrap "metrics: invalid address %q: " [addr s] e))
      | Ok _ =>
          call [ConfigureServer certFile keyFile caFile clientAuth] ;;
          match configure certFile keyFile caFile clientAuth with
          | Err e => mret (Err (wrap "metrics: configure TLS: " [] e))
          | Ok _ => call [ListenAndServeTLS] ;; mret (serve_result "metrics: HTTPS server error: ")
          end
      end
  end.

(** [outcome] is what [http.Server.Shutdown] returns. *)
Definition Shutdown (deadline : option Z) (outcome : option goerror) : M (result unit) :=
  s ← get;
  match server s with
  | None => mret (Ok tt)
  | Some _ =>
      call [ShutdownServer deadline] ;;
      match outcome with
      | Some e => mret (Err (wrap "metrics: shutdown error: " [] e))
      | None => mret (Ok tt)
      end
  end.

(** ** Properties *)

(** The addresses the server agrees to listen on. *)
Definition listenable (a : string) : Prop :=
  ∃ host port, SplitHostPort a = Ok (host, port) ∧ port ≠ EmptyString ∧
    (host ∈ [EmptyString; "0.0.0.0"; "::"] ∨ is_Some (ParseIP host) ∨ is_ok (lookup host) = true).

Lemma validateAddress_spec a s :
  run_state (validateAddress a) s = s ∧
  (is_ok (run_val (validateAddress a) s) = true ↔ listenable a) ∧
  Forall (λ c, ∃ h, c = LookupHost h) (run_calls (validateAddress a) s).
Proof.
  unfold validateAddress, listenable.
  destruct (String.eqb_spec a EmptyString) as [->|Ha].
  { split_and!; [done| |constructor]. split; [done|]. intros (h & p & Hs & _). by vm_compute in Hs. }
  destruct (SplitHostPort a) as [[host port]|e].
  2: { split_and!; [done| |constructor]. split; [done|]. by intros (h & p & ? & _). }
  destruct (String.eqb_spec port EmptyString) as [->|Hp].
  { split_and!; [done| |constructor]. split; [done|]. by intros (h & p & [= -> <-] & ? & _). }
  assert (Hw : String.eqb host EmptyString || String.eqb host "0.0.0.0" || String.eqb host "::" = true ↔
    host ∈ [EmptyString; "0.0.0.0"; "::"]).
  { rewrite !orb_true_iff, !String.eqb_eq, !elem_of_cons, elem_of_nil. tauto. }
  destruct (String.eqb host EmptyString || _ || _).
  { split_and!; [done| |constructor]. split; [|done]. intros _. exists host, port. split_and!; [done..|].
    left. by apply Hw. }
  assert (¬ host ∈ [EmptyString; "0.0.0.0"; "::"]) as Hn by (by rewrite <-Hw).
  destruct (ParseIP host) as [ip|] eqn:Hip.
  { split_and!; [done| |constructor]. split; [|done]. intros _. exists host, port. split_and!; [done..|].
    right. left. by rewrite Hip. }
  unfold run_state, run_val, run_calls, mbind, GoM_bind, call.
  destruct (lookup host) as [l|e] eqn:Hl; cbn; (split_and!; [done| |by repeat econstructor]).
  - split; [|done]. intros _. exists host, port. split_and!; [done..|]. right. right. by rewrite Hl.
  - split; [done|]. intros (h & p & [= <- <-] & _ & [?|[[? ?]|?]]); [done|by rewrite Hip in *|by rewrite Hl in *].
Qed.

(** The server listens only on an address with a port and a host that is a
    wildcard, an IP address or resolves, and, with TLS, only once its certificates
    are configured and never in the clear; [Start] and [StartTLS] report success
    exactly when they did listen and serving ended by a shutdown. *)
Theorem metrics_start_spec cert key ca auth s :
  server s ≠ None →
  let a := Start s in let t := StartTLS cert key ca auth s in
  let ended := match serve with ServeFailed _ => False | _ => True end in
  (ListenAndServe ∈ a.2 ↔ listenable (addr s)) ∧
  (ListenAndServeTLS ∈ t.2 ↔ listenable (addr s) ∧ is_ok (configure cert key ca auth) = true) ∧
  ListenAndServe ∉ t.2 ∧
  (is_ok a.1.1 = true ↔ listenable (addr s) ∧ ended) ∧
  (is_ok t.1.1 = true ↔ listenable (addr s) ∧ is_ok (configure cert key ca auth) = true ∧ ended) ∧
  a.1.2 = s ∧ t.1.2 = s.
Proof.
  intros Hs. cbv zeta. destruct (server s) as [hs|] eqn:Hsv; [|done]. clear Hs.
  destruct (validateAddress_spec (addr s) s) as (Hst & Hok & Hcalls). unfold run_state, run_val, run_calls in *.
  unfold Start, StartTLS, mbind, GoM_bind, get. rewrite Hsv.
  destruct (validateAddress (addr s) s) as [[r s'] w]. cbn [fst snd] in *. subst s'. rewrite <-Hok.
  assert (Hw : ∀ c, c ∈ w → ∃ h, c = LookupHost h) by (by apply Forall_forall).
  assert (Hw1 : ListenAndServe ∉ w) by (intros [? [=]]%Hw). assert (Hw2 : ListenAndServeTLS ∉ w) by (intros [? [=]]%Hw).
  destruct r as [[]|e]; cbn [fst snd is_ok app].
  - unfold call, mret, GoM_ret. destruct (configure cert key ca auth) as [[]|e]; cbn [fst snd is_ok app];
      unfold serve_result; destruct serve; cbn; rewrite ?app_nil_r; set_solver.
  - unfold mret, GoM_ret. cbn. rewrite ?app_nil_r. set_solver.
Qed.
End server.

Lemma metrics_start_spec_witness :
  let lookup (h : string) : result (list string) :=
    if String.eqb h "metrics.lan" then Ok ["10.0.0.7"] else Err (Errorf "no such host" []) in
  let configure (_ _ _ : string) (_ : Z) : result unit := Ok tt in
  server (NewServer "metrics.lan:8080") ≠ None ∧
  is_ok (Start lookup ServerClosed (NewServer "metrics.lan:8080")).1.1 = true.
Proof.
  intros lookup configure. assert (H1 : server (NewServer "metrics.lan:8080") ≠ None) by discriminate.
  split; [exact H1|].
  destruct (metrics_start_spec lookup ServerClosed configure EmptyString EmptyString EmptyString 0
    (NewServer "metrics.lan:8080") H1) as (_ & _ & _ & [_ H2] & _).
  apply H2. split; [|exact I]. exists "metrics.lan", "8080". split; [vm_compute; reflexivity|].
  split; [discriminate|]. right. right. vm_compute. reflexivity.
Defined.

Example validateAddress_ex :
  let lookup (h : string) : result (list string) :=
    if String.eqb h "localhost" then Ok ["127.0.0.1"] else Err (Errorf "no such host" []) in
  (λ a, is_ok (run_val (validateAddress lookup a) (NewServer a))) <$>
    [":8000"; "127.0.0.1:8000"; "localhost:8000"; "[::]:8000"; "nowhere:8000"; "127.0.0.1:"; "8000"; EmptyString] =
  [true; true; true; true; false; false; false; false].
Proof. vm_compute. reflexivity. Qed.
