(* ===== verification/Startup.v ===== *)
(** * Startup helpers (cmd/entropy-tdc-gateway/main.go)

    The address check, the client authentication mode, the connection of the
    MQTT client and the two retry loops.  The loops are given the outcome of
    each attempt and the random numbers they draw; what they do in between is
    the list of their waits. *)

From S2P Require Import Prelude Float64 Rounding GoStrings GoNet Clock Metrics Config TokenBucket EntropyHTTP.
From S2P Require MqttClient.

(** ** Client authentication *)

(** The constants of [tls.ClientAuthType]. *)
Definition NoClientCert : Z := 0.
Definition RequestClientCert : Z := 1.
Definition RequireAndVerifyClientCert : Z := 4.

Definition parseClientAuth (mode : string) : Z :=
  if String.eqb mode "require" then RequireAndVerifyClientCert
  else if String.eqb mode "request" then RequestClientCert
  else NoClientCert.

(** ** The address of the entropy server *)

Definition validateEntropyAddr (addr : string) (allowPublic : bool) : result unit :=
  match SplitHostPort addr with
  | Err e => Err (wrap "entropy http addr: invalid address %q: " [addr] e)
  | Ok (host, _) =>
      match ParseIP host with
      | None =>
          if String.eqb host "localhost" then Ok tt
          else if allowPublic then Ok tt
          else Err (Errorf "entropy http addr: must bind to loopback address (127.0.0.1, ::1, or localhost), got %q"
                      [host])
      | Some ip =>
          if negb (IsLoopback ip) then
            if allowPublic then Ok tt
            else Err (Errorf "entropy http addr: must bind to loopback address, got %q" [host])
          else Ok tt
      end
  end.

(** ** Retrying with exponential back-off *)

(** How a retry loop ends. *)
Inductive retry_result (C : Type) := Connected (c : C) (attempts : nat) | Cancelled.
Arguments Connected {C} c attempts.
Arguments Cancelled {C}.

Section retry.
Context {C : Type}.

(** The loop both functions run: [attempt n] is the outcome of attempt [n],
    [wait n delay] how long the loop waits after it, [cancelled n] whether the
    wait is cut short for good.  [None]: the fuel did not suffice. *)
Fixpoint retry_loop (attempt : nat → result C) (wait : nat → Z → Z) (cancelled : nat → bool) (maxDelay : Z)
    (fuel n : nat) (delay : Z) : option (retry_result C * list Z) :=
  match fuel with
  | O => None
  | S fuel =>
      let n := S n in
      match attempt n with
      | Ok c => Some (Connected c n, [])
      | Err _ =>
          if cancelled n then Some (Cancelled, [])
          else
            let next := mul_i64 delay 2 in
            let next := if maxDelay <? next then maxDelay else next in
            '(r, waits) ← retry_loop attempt wait cancelled maxDelay fuel n next;
            Some (r, wait n delay :: waits)
      end
  end.

(** *** The MQTT connection *)

Definition initialDelay : Z := 1 * Second.
Definition maxDelay : Z := 30 * Second.
Definition jitterFraction : f64 := flit 2 10.

(** The wait after a failed attempt, from [rng.Float64()]. *)
Definition retry_wait (random : f64) (delay : Z) : Z :=
  let jitter := fadd (of_int 1) (fmul (fsub (fmul random (of_int 2)) (of_int 1)) jitterFraction) in
  let wait := to_int64 (fmul (of_int delay) jitter) in
  if wait <? 0 then 0 else wait.

(** The function never returns an error. *)
Definition connectMQTTWithRetry (setupMQTT : nat → result C) (rng : nat → f64) (fuel : nat) :=
  retry_loop setupMQTT (λ n, retry_wait (rng n)) (λ _, false) maxDelay fuel 0 initialDelay.

(** *** The cloud connection *)

Definition connector_delay (cfg : CloudForwarder.CloudForwarder) : Z :=
  let delay := mul_i64 (CloudForwarder.ReconnectDelay cfg) Second in
  if delay <=? 0 then 5 * Second else delay.
Definition connector_max (cfg : CloudForwarder.CloudForwarder) : Z :=
  let maxDelay := mul_i64 (CloudForwarder.MaxReconnectSec cfg) Second in
  if maxDelay <=? 0 then 60 * Second else maxDelay.

(** The goroutine; [cancelled n] tells whether the context is done before the
    timer fires after attempt [n].  [run], its only caller, never passes a nil
    forwarder, for which the function does nothing. *)
Definition startGRPCConnector (cfg : CloudForwarder.CloudForwarder) (newClient : nat → result C)
    (cancelled : nat → bool) (fuel : nat) :=
  retry_loop newClient (λ _ d, d) cancelled (connector_max cfg) fuel 0 (connector_delay cfg).

(** ** What the loops do *)

Fixpoint nth_wait (maxDelay : Z) (n : nat) (delay : Z) : Z :=
  match n with
  | O => delay
  | S n => nth_wait maxDelay n (let next := mul_i64 delay 2 in if maxDelay <? next then maxDelay else next)
  end.

(** The first attempt after [n] that ends the loop, among the next [k]. *)
Lemma retry_ends attempt wait cancelled maxDelay k n delay :
  (∀ i, (n < i ≤ n + k)%nat → is_ok (attempt i) = false ∧ cancelled i = false) →
  (is_ok (attempt (S (n + k))) = true ∨ cancelled (S (n + k)) = true) →
  ∀ fuel, (k < fuel)%nat →
  retry_loop attempt wait cancelled maxDelay fuel n delay =
    Some (match attempt (S (n + k)) with Ok c => Connected c (S (n + k)) | Err _ => Cancelled end,
      (λ i, wait (S (n + i)) (nth_wait maxDelay i delay)) <$> List.seq 0 k).
Proof.
  revert n delay. induction k as [|k IH]; intros n delay Hfail Hend [|fuel] Hf; try lia; cbn [retry_loop].
  - rewrite Nat.add_0_r in *. destruct (attempt (S n)); [done|]. destruct Hend as [[=]|Hc]. by rewrite Hc.
  - destruct (Hfail (S n)) as [Ha Hc]; [lia|]. destruct (attempt (S n)) as [|e]; [done|]. rewrite Hc.
    replace (n + S k)%nat with (S n + k)%nat in * by lia. rewrite IH; [|by intros; apply Hfail; lia|done|lia].
    cbn [mbind option_bind List.seq fmap list_fmap]. rewrite Nat.add_0_r. cbn [nth_wait].
    do 3 f_equal. rewrite <-List.seq_shift, <-list_fmap_compose. apply list_fmap_ext. intros _ i _. cbn.
    by rewrite Nat.add_succ_r.
Qed.

(** It connects only with the first attempt that succeeds. *)
Lemma retry_connected attempt wait cancelled maxDelay fuel n delay c m waits :
  retry_loop attempt wait cancelled maxDelay fuel n delay = Some (Connected c m, waits) →
  ∃ k, m = S (n + k) ∧ (∀ i, (n < i ≤ n + k)%nat → is_ok (attempt i) = false) ∧ is_ok (attempt m) = true.
Proof.
  revert n delay waits. induction fuel as [|fuel IH]; intros n delay waits; [done|]. cbn [retry_loop].
  destruct (attempt (S n)) as [c'|e] eqn:Ha.
  - intros [= -> <- _]. exists 0%nat. split_and!; [lia|lia|by rewrite Ha].
  - destruct (cancelled (S n)); [done|]. cbn [mbind option_bind].
    destruct (retry_loop _ _ _ _ fuel (S n) _) as [[r ws]|] eqn:E; [|done]. intros [= -> _].
    apply IH in E as (k & -> & Hf & Hok). exists (S k). split_and!; [lia| |done]. intros i Hi.
    destruct (decide (i = S n)) as [->|]; [by rewrite Ha|]. apply Hf. lia.
Qed.

(** Without a success or a cancellation no fuel suffices. *)
Lemma retry_forever attempt wait cancelled maxDelay fuel n delay :
  (∀ i, is_ok (attempt i) = false ∧ cancelled i = false) →
  retry_loop attempt wait cancelled maxDelay fuel n delay = None.
Proof.
  intros Hf. revert n delay. induction fuel as [|fuel IH]; intros n delay; [done|]. cbn [retry_loop].
  destruct (Hf (S n)) as [Ha Hc]. destruct (attempt (S n)); [done|]. rewrite Hc. by rewrite IH.
Qed.

Lemma nth_wait_min M n d :
  0 < d → 0 < M → M < 2 ^ 62 → d < 2 ^ 62 →
  nth_wait M n d = if decide (n = O) then d else Z.min M (d * 2 ^ Z.of_nat n).
Proof.
  intros Hd HM HM2 Hd2. revert d Hd Hd2. induction n as [|n IH]; intros d Hd Hd2; [done|].
  cbn [nth_wait]. cbv zeta. unfold mul_i64 at 1 2. rewrite i64_id by (unfold is_i64; lia).
  rewrite (decide_False (P := S n = O)) by done.
  replace (d * 2 ^ Z.of_nat (S n)) with (d * 2 * 2 ^ Z.of_nat n)
    by (rewrite Nat2Z.inj_succ, Z.pow_succ_r by lia; ring).
  assert (1 ≤ 2 ^ Z.of_nat n) by (pose proof (Z.pow_pos_nonneg 2 (Z.of_nat n)); lia).
  destruct (Z.ltb_spec M (d * 2)).
  - rewrite IH by lia. case_decide; [nia|]. rewrite !Z.min_l by nia. done.
  - rewrite IH by lia. case_decide; [|done]. subst. cbn. lia.
Qed.

(** *** How far the jitter goes *)

(** The rounded product of a number of at most one and a fifth. *)
Lemma jitter_product R2 J R3 u :
  2 ^ 200 ≤ u → 0 < J → 2 ^ 50 * Z.abs R2 ≤ (2 ^ 50 + 2) * u → 5 * 2 ^ 50 * J ≤ (2 ^ 50 + 1) * u →
  2 ^ 53 * Z.abs (R3 * u - R2 * J) ≤ Z.abs (R2 * J) + 2 ^ 52 * u →
  5 * 2 ^ 49 * Z.abs R3 ≤ (2 ^ 49 + 3) * u.
Proof.
  intros Hbig HJ0 HR2 HJb HN.
  assert (HP : 2 ^ 50 * (5 * 2 ^ 50) * Z.abs (R2 * J) ≤ (2 ^ 50 + 2) * (2 ^ 50 + 1) * (u * u)).
  { rewrite Z.abs_mul, (Z.abs_eq J) by lia.
    pose proof (Z.mul_le_mono_nonneg (2 ^ 50 * Z.abs R2) ((2 ^ 50 + 2) * u) (5 * 2 ^ 50 * J) ((2 ^ 50 + 1) * u)
      ltac:(lia) ltac:(lia) ltac:(lia) ltac:(lia)). lia. }
  clear HR2 HJb HJ0. revert HN HP. generalize (R2 * J). intros P HN HP.
  apply (Z.mul_le_mono_pos_r _ _ u); [lia|].
  assert (Habs : Z.abs R3 * u = Z.abs (R3 * u)) by (rewrite Z.abs_mul, (Z.abs_eq u); lia).
  replace (5 * 2 ^ 49 * Z.abs R3 * u) with (5 * 2 ^ 49 * (Z.abs R3 * u)) by ring. rewrite Habs.
  assert (u * 2 ^ 200 ≤ u * u) by nia. lia.
Qed.

(** Numbers of the size of one do not overflow. *)
Lemma sum_fits X : X ≤ 1024 * funit → X ≤ 2 ^ 1974.
Proof.
  intros HX. etransitivity; [exact HX|]. change funit with (2 ^ 1074). change 1024 with (2 ^ 10).
  rewrite <-Z.pow_add_r by done. by apply Z.pow_le_mono_r.
Qed.

Lemma product_fits X : X ≤ 2 ^ 50 * (funit * funit) → X ≤ 2 ^ 3048.
Proof.
  intros HX. etransitivity; [exact HX|]. change funit with (2 ^ 1074).
  rewrite <-!Z.pow_add_r by done. by apply Z.pow_le_mono_r.
Qed.

Lemma funit_big : 2 ^ 200 ≤ funit.
Proof. by apply Z.pow_le_mono_r. Qed.

(** The factor [1 + (2 * random - 1) * 0.2] is between 4/5 and 6/5, up to rounding. *)
Lemma jitter_bounds r V :
  repr r V → 0 ≤ V < funit →
  ∃ R, fin (fadd (of_int 1) (fmul (fsub (fmul r (of_int 2)) (of_int 1)) jitterFraction)) R ∧
    (2 ^ 49 * 8 - 16) * funit ≤ 10 * 2 ^ 49 * R ≤ (2 ^ 49 * 12 + 16) * funit.
Proof.
  intros Hr HV. pose proof funit_big as Hbig.
  pose proof (repr_of_int 1 ltac:(lia)) as H1. pose proof (repr_of_int 2 ltac:(lia)) as H2. rewrite Z.mul_1_l in H1.
  destruct (fdiv_int_nearest 2 10 ltac:(lia) ltac:(lia)) as (J & HJ & HJq).
  apply nearest_quotient_error in HJq as [HJ0 HJe]; [|lia].
  destruct (fmul_near r (of_int 2) V (2 * funit) (fin_repr _ _ Hr) (fin_repr _ _ H2)) as (R1 & F1 & N1).
  { apply product_fits. clear -HV. generalize dependent funit. intros u Hu. rewrite Z.abs_eq by nia. nia. }
  rewrite Z.mul_assoc in N1. apply near_scaled in N1.
  destruct (fsub_near _ (of_int 1) R1 funit F1 H1) as (R2 & F2 & N2); [lia|apply sum_fits; lia|].
  unfold near in N2. rewrite Z.mul_1_r in N2.
  assert (HR2 : 2 ^ 50 * Z.abs R2 ≤ (2 ^ 50 + 2) * funit) by lia.
  assert (HJb : 5 * 2 ^ 50 * J ≤ (2 ^ 50 + 1) * funit) by lia. clear N1 N2 HJe.
  destruct (fmul_near _ jitterFraction R2 J F2 (fin_repr _ _ HJ)) as (R3 & F3 & N3).
  { apply product_fits. rewrite Z.abs_mul. assert (Hr2 : Z.abs R2 ≤ 2 * funit) by lia.
    assert (Hj : Z.abs J ≤ funit) by lia. clear -Hr2 Hj. generalize dependent funit. intros u Hr2 Hj. nia. }
  unfold near in N3. change (2 ^ 1074) with funit in N3.
  pose proof (jitter_product R2 J R3 funit Hbig HJ0 HR2 HJb N3) as HR3. clear N3 HR2 HJb.
  destruct (fadd_near (of_int 1) _ funit R3 (fin_repr _ _ H1) F3) as (R4 & F4 & N4); [apply sum_fits; lia|].
  unfold near in N4. rewrite Z.mul_1_r in N4. exists R4. split; [exact F4|].
  clear -N4 HR3 Hbig. generalize dependent funit. intros u N4 HR3 Hbig. lia.
Qed.

(** Every wait is its delay, up to a fifth more or less (and the nanosecond that
    the conversion to an integer cuts off). *)
Lemma retry_wait_bounds r V d :
  repr r V → 0 ≤ V < funit → 0 ≤ d ≤ 2 ^ 40 → 8 * d - 10 ≤ 10 * retry_wait r d ≤ 12 * d.
Proof.
  intros Hr HV Hd. destruct (jitter_bounds r V Hr HV) as (R & FR & HR). unfold retry_wait.
  set (j := fadd (of_int 1) _) in *. clearbody j.
  pose proof funit_big as Hu.
  pose proof (repr_of_int d ltac:(lia)) as Hrd.
  destruct (fmul_near (of_int d) j (d * funit) R (fin_repr _ _ Hrd) FR) as (W & FW & NW).
  { apply product_fits. clear -Hd HR Hu. generalize dependent funit. intros u HR Hu. assert (0 ≤ R ≤ 2 * u) by lia.
    rewrite Z.abs_eq by nia. assert (d * u * R ≤ 2 ^ 40 * u * (2 * u)) by (apply Z.mul_le_mono_nonneg; nia). lia. }
  replace (d * funit * R) with (d * R * funit) in NW by ring. apply near_scaled in NW.
  assert (HdR : (2 ^ 49 * 8 - 16) * (d * funit) ≤ 10 * 2 ^ 49 * (d * R) ≤ (2 ^ 49 * 12 + 16) * (d * funit)) by nia.
  assert (Hdu : 0 ≤ d * funit ≤ 2 ^ 40 * funit) by nia.
  assert (Hw : 160 * W ≤ 192 * (d * funit) + funit ∧ 128 * (d * funit) - funit ≤ 160 * W) by lia.
  assert (HW : 0 ≤ W) by lia. clear NW HdR HR FR Hrd.
  assert (Hq : 10 * (W / funit) ≤ 12 * d ∧ 8 * d - 10 ≤ 10 * (W / funit)).
  { pose proof (Z.div_mod W funit ltac:(lia)) as Hdm. pose proof (Z.mod_pos_bound W funit ltac:(lia)) as Hm.
    set (q := W / funit) in *. set (m := W mod funit) in *. clearbody q m. generalize dependent funit. intros u. nia. }
  rewrite (fin_to_int64 _ W FW HW) by (unfold maxInt64; lia).
  destruct (Z.ltb_spec (W / funit) 0); lia.
Qed.

(** C31: the loop that connects to the broker ends exactly when an attempt
    succeeds, with that attempt's client and never with an error, and then has
    waited once after every failed attempt, around 1, 2, 4, 8, 16 and from then
    on 30 seconds; while every attempt fails it goes on for ever.  The random
    numbers, between 0 and 1, move each wait by a fifth of it at most, in
    floating point too. *)
Theorem connectMQTTWithRetry_terminates setupMQTT rng :
  (∀ k c fuel, (∀ i, (1 ≤ i ≤ k)%nat → is_ok (setupMQTT i) = false) → setupMQTT (S k) = Ok c → (k < fuel)%nat →
     connectMQTTWithRetry setupMQTT rng fuel =
       Some (Connected c (S k),
         (λ i, retry_wait (rng (S i)) (Z.min 30 (2 ^ Z.of_nat i) * Second)) <$> List.seq 0 k)) ∧
  ((∀ i, is_ok (setupMQTT i) = false) → ∀ fuel, connectMQTTWithRetry setupMQTT rng fuel = None) ∧
  (∀ i V, repr (rng (S i)) V → 0 ≤ V < funit →
     let d := Z.min 30 (2 ^ Z.of_nat i) * Second in
     8 * d - 10 ≤ 10 * retry_wait (rng (S i)) d ≤ 12 * d).
Proof.
  unfold connectMQTTWithRetry. split_and!.
  - intros k c fuel Hfail Hok Hf. rewrite (retry_ends _ _ _ _ k) by
      (try (intros i Hi; split; [apply Hfail; lia|done]); try (left; cbn; by rewrite Hok); lia).
    cbn [Nat.add]. rewrite Hok. do 2 f_equal. apply list_fmap_ext. intros _ i _. f_equal.
    rewrite nth_wait_min by (unfold maxDelay, initialDelay, Second, Millisecond, Microsecond; lia).
    unfold maxDelay, initialDelay, Second, Millisecond, Microsecond. case_decide; [subst; done|]. lia.
  - intros Hf fuel. apply retry_forever. intros i. split; [apply Hf|done].
  - intros i V Hr HV. apply (retry_wait_bounds _ V); [done..|].
    pose proof (Z.pow_nonneg 2 (Z.of_nat i)). unfold Second, Millisecond, Microsecond. lia.
Qed.

(** C32: the connector of the cloud service ends at the first attempt that
    succeeds, with its client, or at the first failed one after which the
    context is done; with the delays of a loaded configuration (up to 2^31
    seconds) it has waited [ReconnectDelay] seconds after the first failure, even
    when this exceeds the maximum, and then twice as long each time up to
    [MaxReconnectSec]. *)
Theorem startGRPCConnector_terminates cfg newClient cancelled k fuel :
  (∀ i, (1 ≤ i ≤ k)%nat → is_ok (newClient i) = false ∧ cancelled i = false) →
  is_ok (newClient (S k)) = true ∨ cancelled (S k) = true → (k < fuel)%nat →
  let d := CloudForwarder.ReconnectDelay cfg in let m := CloudForwarder.MaxReconnectSec cfg in
  1 ≤ d ≤ 2 ^ 31 → 1 ≤ m ≤ 2 ^ 31 →
  startGRPCConnector cfg newClient cancelled fuel =
    Some (match newClient (S k) with Ok c => Connected c (S k) | Err _ => Cancelled end,
      (λ i, (if decide (i = O) then d else Z.min m (d * 2 ^ Z.of_nat i)) * Second) <$> List.seq 0 k).
Proof.
  intros Hfail Hend Hf d m Hd Hm. unfold startGRPCConnector.
  assert (HS : Second = 1000000000) by done.
  assert (Hcd : connector_delay cfg = d * Second).
  { unfold connector_delay, mul_i64. fold d. rewrite i64_id by (unfold is_i64; lia).
    destruct (Z.leb_spec (d * Second) 0); lia. }
  assert (Hcm : connector_max cfg = m * Second).
  { unfold connector_max, mul_i64. fold m. rewrite i64_id by (unfold is_i64; lia).
    destruct (Z.leb_spec (m * Second) 0); lia. }
  rewrite (retry_ends _ _ _ _ k) by (try (intros i Hi; apply Hfail; lia); try exact Hend; lia).
  cbn [Nat.add]. do 2 f_equal. apply list_fmap_ext. intros _ i _.
  rewrite Hcd, Hcm, nth_wait_min by lia. case_decide; [done|]. lia.
Qed.
End retry.

(** ** Connecting to the broker *)

Section mqtt.
Context `{GoUnicode, MqttClient.CertPool}.

Definition mqtt_config (m : MQTT.MQTT) : MqttClient.Config :=
  MqttClient.mkConfig (MQTT.BrokerURL m) (MQTT.ClientID m) (MQTT.Topics m) (MQTT.QoS m)
    (MQTT.Username m) (MQTT.Password m) (MQTT.TLSCAFile m).

(** What one attempt meets: the random bytes of an identifier, the outcome of
    the connection, Paho's callbacks until the [select], whether its timer wins,
    and whether the connection is open when the client is closed. *)
Record mqtt_world := mkWorld {
  random : result bytes;
  token : MqttClient.outcome;
  events : list MqttClient.event;
  timer : bool;
  open : bool;
}.

(** [None] when the chosen case of the [select] is not ready. *)
Definition setupMQTT (m : MQTT.MQTT) (w : mqtt_world)
    : option (result MqttClient.Client) * list MqttClient.mqtt_call :=
  match MqttClient.NewClient (mqtt_config m) (random w) with
  | Err e => (Some (Err (wrap "mqtt init: " [] e)), [])
  | Ok (client, _) =>
      match MqttClient.Connect (token w) (MqttClient.callbacks (events w)) (timer w) client with
      | (None, _, calls) => (None, calls)
      | (Some (Some e), client, calls) =>
          (Some (Err (wrap "mqtt connect: " [] e)), calls ++ run_calls (MqttClient.Close (open w)) client)
      | (Some None, client, calls) => (Some (Ok client), calls)
      end
  end.

(** The subscriptions of the first connection among the callbacks. *)
Definition first_report (m : MQTT.MQTT) (w : mqtt_world) (c : MqttClient.Client) : option (option goerror) :=
  MqttClient.report (MqttClient.config c) <$> MqttClient.first_connected (events w).

Lemma Connect_acked cb tm c c1 w1 r c2 w2 :
  cb c = (tt, c1, w1) → MqttClient.connect_select tm c1 = (r, c2, w2) →
  MqttClient.Connect MqttClient.Acked cb tm c = (r, c2, [MqttClient.PahoConnect] ++ w1 ++ w2).
Proof.
  intros E1 E2. unfold MqttClient.Connect.
  rewrite (bind_run (MqttClient.connect_token MqttClient.Acked) _ c None c [MqttClient.PahoConnect] eq_refl).
  unfold run_val, run_state, run_calls. rewrite (bind_run _ _ _ _ _ _ E1).
  unfold run_val, run_state, run_calls. by rewrite E2.
Qed.

Lemma Connect_failed t cb tm c :
  t ≠ MqttClient.Acked → ∃ e w, MqttClient.Connect t cb tm c = (Some (Some e), c, w).
Proof. intros Ht. destruct t; [done|by eexists _, _..]. Qed.

Lemma select_timer c :
  MqttClient.connect_select true c =
    (Some (Some (Errorf "mqtt: initial subscribe timeout" [])), c, MqttClient.Prom <$> SetMQTTConnected false).
Proof. done. Qed.

Lemma Close_calls b c :
  run_calls (MqttClient.Close b) c = (MqttClient.Prom <$> SetMQTTConnected false) ++
    (if b then (MqttClient.Prom <$> RecordMQTTDisconnect) ++ [MqttClient.Disconnect 250] else []).
Proof. by destruct b. Qed.

(** An attempt to connect succeeds exactly when Paho connected and, before the
    timeout, its first connection had every subscription acknowledged; a
    connection that failed, a subscription refused or timed out, and the
    absence of any report are errors, and after an error of [Connect] the client
    is closed, disconnecting it if it is still open. *)
Theorem setupMQTT_spec m w c o :
  MqttClient.NewClient (mqtt_config m) (random w) = Ok (c, o) →
  forallb MqttClient.callback (events w) = true →
  let r := setupMQTT m w in
  ((∃ c', r.1 = Some (Ok c')) ↔
     token w = MqttClient.Acked ∧ timer w = false ∧ first_report m w c = Some None) ∧
  (∀ e, r.1 = Some (Err e) → ∃ calls, r.2 = calls ++ (MqttClient.Prom <$> SetMQTTConnected false) ++
     (if open w then (MqttClient.Prom <$> RecordMQTTDisconnect) ++ [MqttClient.Disconnect 250] else [])) ∧
  (r.1 = None ↔ token w = MqttClient.Acked ∧ timer w = false ∧ first_report m w c = None).
Proof.
  intros Hn Hes. cbv zeta. unfold setupMQTT. rewrite Hn.
  assert (token w = MqttClient.Acked ∨ token w ≠ MqttClient.Acked) as [Ht|Ht]
    by (destruct (token w); [by left|by right..]); cycle 1.
  { destruct (Connect_failed (token w) (MqttClient.callbacks (events w)) (timer w) c Ht) as (e & cs & ->).
    split_and!; [split; [by intros [? [=]]|by intros [? _]]| |split; [done|by intros [? _]]].
    intros e' _. eexists. by rewrite Close_calls. }
  rewrite Ht. destruct (MqttClient.callbacks_channel (events w) c _ Hes (MqttClient.NewClient_channel _ _ _ _ Hn))
    as (c1 & w1 & E1 & _ & Hch).
  destruct (MqttClient.select_effect (timer w) c1 _ Hch) as (r & c2 & w2 & E2 & _ & Hsel).
  rewrite (Connect_acked _ _ _ _ _ _ _ _ E1 E2). unfold first_report. destruct (timer w) eqn:Htm.
  { rewrite select_timer in E2. injection E2 as <- _ _.
    split_and!; [split; [by intros [? [=]]|by intros (_ & ? & _)]| |split; [done|by intros (_ & ? & _)]].
    intros e' _. eexists. by rewrite Close_calls. }
  destruct Hsel as [_ ->]. destruct (MqttClient.first_connected (events w)) as [outs|]; cbn [fmap option_fmap option_map fst snd].
  - destruct (MqttClient.report _ outs) as [e|].
    + split_and!; [split; [by intros [? [=]]|by intros (_ & _ & [=])]| |split; [done|by intros (_ & _ & [=])]].
      intros e' _. eexists. by rewrite Close_calls.
    + split_and!; [split; [done|by eexists]|done|split; [done|by intros (_ & _ & [=])]].
  - split_and!; [split; [by intros [? [=]]|by intros (_ & _ & [=])]|done|done].
Qed.
End mqtt.

(** ** What the server may listen on, and whom it trusts *)

Section addresses.
Context `{GoUnicode, GoFS}.

Lemma validate_loopback addr host port :
  SplitHostPort addr = Ok (host, port) →
  validateEntropyAddr addr false = Ok tt ↔
    ParseIP host = None ∧ host = "localhost" ∨ ∃ ip, ParseIP host = Some ip ∧ IsLoopback ip = true.
Proof.
  intros Hs. unfold validateEntropyAddr. rewrite Hs. destruct (ParseIP host) as [ip|].
  - destruct (IsLoopback ip) eqn:Hl; cbn [negb]; split; try done; [intros _; right; by exists ip|].
    intros [[[=] _]|(ip' & [= <-] & ?)]. congruence.
  - destruct (String.eqb_spec host "localhost"); split; try done; [by left|].
    intros [[_ ?]|(ip & [=] & _)]. done.
Qed.

(** C33: the check made at startup and the one of the server agree that, without
    ALLOW_PUBLIC_HTTP, the entropy server only listens on the loopback interface:
    an address without surrounding white space that passes the first names
    "localhost" or a loopback IP address, and always passes the second, so that
    the program never stops between the two; the startup check refuses every
    other address that splits. *)
Theorem validateEntropyAddr_spec addr :
  (validateEntropyAddr addr false = Ok tt →
     ∃ host port, SplitHostPort addr = Ok (host, port) ∧ is_loopback_host host ∧
       (TrimSpace addr = addr → is_ok (enforceLoopbackAddr addr false) = true)) ∧
  (∀ host port, SplitHostPort addr = Ok (host, port) → ¬ is_loopback_host host →
     validateEntropyAddr addr false ≠ Ok tt) ∧
  (∀ host port, SplitHostPort addr = Ok (host, port) → validateEntropyAddr addr true = Ok tt).
Proof.
  split_and!.
  - intros Hv. destruct (SplitHostPort addr) as [[host port]|e] eqn:Hs; cycle 1.
    { unfold validateEntropyAddr in Hv. by rewrite Hs in Hv. }
    apply (validate_loopback addr host port Hs) in Hv. exists host, port. split; [done|].
    split; [destruct Hv as [[_ ->]|(ip & ? & ?)]; [by left|right; by exists ip]|].
    intros Ht. unfold enforceLoopbackAddr. rewrite Ht. cbv zeta.
    destruct (String.eqb_spec addr EmptyString) as [->|_]; [by vm_compute in Hs|]. rewrite Hs.
    destruct (String.eqb_spec host EmptyString) as [->|_].
    { destruct Hv as [[_ [=]]|(ip & Hip & _)]. by vm_compute in Hip. }
    destruct Hv as [[_ ->]|(ip & -> & ->)]; [done|]. by destruct (String.eqb _ _).
  - intros host port Hs Hn Hv. apply (validate_loopback addr host port Hs) in Hv. apply Hn.
    destruct Hv as [[_ ->]|(ip & ? & ?)]; [by left|right; by exists ip].
  - intros host port Hs. unfold validateEntropyAddr. rewrite Hs. destruct (ParseIP host) as [ip|].
    + by destruct (IsLoopback ip).
    + by destruct (String.eqb host "localhost").
Qed.

(** Where the two checks differ: the startup check refuses "LOCALHOST", which
    the server accepts; with ALLOW_PUBLIC_HTTP it lets an empty host through,
    which the server then refuses. *)
Theorem address_checks_differ :
  is_ok (validateEntropyAddr "LOCALHOST:9797" false) = false ∧
  enforceLoopbackAddr "LOCALHOST:9797" false = Ok "localhost:9797" ∧
  validateEntropyAddr ":9797" true = Ok tt ∧ is_ok (enforceLoopbackAddr ":9797" true) = false.
Proof. by vm_compute. Qed.

(** A loaded configuration never weakens client authentication silently: for
    a TLS server the mode is one of three, "require" asks for verified client
    certificates and comes with the CA that verifies them, "request" only asks,
    and "none" alone turns client certificates off; unknown modes, which
    [parseClientAuth] reads as "none", are refused by [Load]. *)
Theorem client_auth_modes env c cert key ca mode :
  Load env = Ok c →
  (EntropyPool.TLSEnabled (EntropyPool c) = true ∧ mode = EntropyPool.TLSClientAuth (EntropyPool c) ∧
     ca = EntropyPool.TLSCAFile (EntropyPool c) ∧ cert = EntropyPool.TLSCertFile (EntropyPool c) ∧
     key = EntropyPool.TLSKeyFile (EntropyPool c)) ∨
  (Metrics.TLSEnabled (Metrics c) = true ∧ mode = Metrics.TLSClientAuth (Metrics c) ∧
     ca = Metrics.TLSCAFile (Metrics c) ∧ cert = Metrics.TLSCertFile (Metrics c) ∧
     key = Metrics.TLSKeyFile (Metrics c)) →
  cert ≠ EmptyString ∧ key ≠ EmptyString ∧
  (parseClientAuth mode = RequireAndVerifyClientCert ↔ mode = "require") ∧
  (parseClientAuth mode = RequestClientCert ↔ mode = "request") ∧
  (parseClientAuth mode = NoClientCert ↔ mode = "none") ∧
  (parseClientAuth mode = RequireAndVerifyClientCert → ca ≠ EmptyString).
Proof.
  intros Hl Hwhich. destruct (Load_ok env c Hl) as [Hv _].
  assert (tls_server_ok cert key ca mode) as [Hc Hk Hm Hca].
  { destruct Hwhich as [(Ht & -> & -> & -> & ->)|(Ht & -> & -> & -> & ->)]; by apply Hv. }
  unfold validClientAuthModes in Hm. rewrite !elem_of_cons, elem_of_nil in Hm.
  destruct Hm as [->|[->|[->|[]]]]; (split_and!; [done|done|done|done|done|]); intros E; by apply Hca.
Qed.
End addresses.

(** ** Witnesses *)

Lemma startGRPCConnector_terminates_witness :
  let cfg := CloudForwarder.mk true "cloud:9" false EmptyString EmptyString EmptyString EmptyString 10 90 60 0
    false EmptyString EmptyString EmptyString EmptyString in
  let newClient (i : nat) : result unit := if Nat.eqb i 4 then Ok tt else Err (Errorf "refused" []) in
  1 ≤ CloudForwarder.ReconnectDelay cfg ∧
  startGRPCConnector cfg newClient (λ _, false) 9 =
    Some (Connected tt 4, [90 * Second; 60 * Second; 60 * Second]).
Proof.
  intros cfg newClient. split; [vm_compute; discriminate|].
  assert (Hfail : ∀ i, (1 ≤ i ≤ 3)%nat → is_ok (newClient i) = false ∧ (λ _ : nat, false) i = false).
  { intros i Hi. assert (i = 1 ∨ i = 2 ∨ i = 3)%nat as [->|[->| ->]] by lia; by split. }
  exact (startGRPCConnector_terminates cfg newClient (λ _, false) 3 9 Hfail (or_introl eq_refl)
    ltac:(lia) ltac:(vm_compute; split; congruence) ltac:(vm_compute; split; congruence)).
Defined.

Definition witness_mqtt : MQTT.MQTT :=
  MQTT.mk "tcp://broker:1883" "rx" ["timestamps/#"] 0 EmptyString EmptyString EmptyString.

Definition witness_world : mqtt_world :=
  mkWorld (Ok []) MqttClient.Acked
    [MqttClient.EConnected (λ _, MqttClient.Refused (Errorf "not authorized" []))] false true.

Lemma setupMQTT_spec_witness :
  let U := MqttClient.witness_lower in let P := MqttClient.witness_certs in
  ∃ c o, MqttClient.NewClient (mqtt_config witness_mqtt) (random witness_world) = Ok (c, o) ∧
    forallb MqttClient.callback (events witness_world) = true ∧
    ¬ (∃ c', (setupMQTT witness_mqtt witness_world).1 = Some (Ok c')).
Proof.
  intros U P.
  destruct (MqttClient.NewClient (mqtt_config witness_mqtt) (random witness_world)) as [[c o]|] eqn:E;
    [|by vm_compute in E].
  exists c, o. split; [done|]. split; [done|].
  destruct (@setupMQTT_spec U P witness_mqtt witness_world c o E eq_refl) as ([H1 _] & _).
  intros Hc. destruct (H1 Hc) as (_ & _ & Hr). vm_compute in E. injection E as <- <-. by vm_compute in Hr.
Defined.

Lemma validateEntropyAddr_spec_witness :
  let U := Config.witness_lower in
  validateEntropyAddr "[::1]:9797" false = Ok tt ∧
  ∃ host port, SplitHostPort "[::1]:9797" = Ok (host, port) ∧ is_loopback_host host.
Proof.
  intros U. split; [vm_compute; reflexivity|].
  destruct (proj1 (@validateEntropyAddr_spec U "[::1]:9797") ltac:(vm_compute; reflexivity))
    as (host & port & H1 & H2 & _).
  exact (ex_intro _ host (ex_intro _ port (conj H1 H2))).
Defined.

Definition witness_tls_env : environ :=
  list_to_map [("ENTROPY_TLS_ENABLED", "true"); ("TLS_CERT_FILE", "/c.pem"); ("TLS_KEY_FILE", "/k.pem");
    ("ENTROPY_TLS_CA_FILE", "/ca.pem"); ("ENTROPY_TLS_CLIENT_AUTH", " Require ")].

Lemma client_auth_modes_witness :
  let U := Config.witness_lower in let FS := witness_fs in
  ∃ c, Load witness_tls_env = Ok c ∧ EntropyPool.TLSEnabled (EntropyPool c) = true ∧
    EntropyPool.TLSClientAuth (EntropyPool c) = "require" ∧
    EntropyPool.TLSCAFile (EntropyPool c) ≠ EmptyString.
Proof.
  intros U FS.
  destruct (Load witness_tls_env) as [c|] eqn:E; [|by vm_compute in E].
  assert (Ht : EntropyPool.TLSEnabled (EntropyPool c) = true) by (vm_compute in E; by injection E as <-).
  assert (Hm : EntropyPool.TLSClientAuth (EntropyPool c) = "require") by (vm_compute in E; by injection E as <-).
  destruct (@client_auth_modes U FS witness_tls_env c _ _ _ _ E
    (or_introl (conj Ht (conj eq_refl (conj eq_refl (conj eq_refl eq_refl))))))
    as (_ & _ & [_ H1] & _ & _ & H2).
  exact (ex_intro _ c (conj eq_refl (conj Ht (conj Hm (H2 (H1 Hm)))))).
Defined.

Example retry_wait_ex :
  retry_wait fzero Second = 800000000 ∧ retry_wait (flit 1 2) Second = Second ∧
  retry_wait (flit 999 1000) (30 * Second) = 35988000000.
Proof. vm_compute. done. Qed.
