(* ===== verification/Main.v ===== *)
(** * The program (cmd/entropy-tdc-gateway/main.go)

    [run] as a computation that emits what it does to the components, in order,
    with its deferred calls, and returns the exit code, panics or never returns.
    What happens outside is a [world], which also says how each call that waits
    for something or takes something down ends; goroutines appear as the action
    that starts them.  What the actions leave behind is in Lifetime.v. *)

From S2P Require Import Prelude Float64 GoStrings GoNet Clock Metrics Proto HealthTests QuickTests.
From S2P Require Import MinEntropy Sha256 Whitening MqttHandler Pool Collector TokenBucket.
From S2P Require Import Config GrpcClient Forwarder Gateway Startup.
From S2P Require EntropyHTTP.

(** ** Command line *)

(** [FlagSet.Parse] for a set without flags: the remaining arguments, a request
    for help, or an error (both after printing the usage). *)
Inductive parsed := ParseOk (rest : list string) | ParseHelp | ParseError (e : goerror).

(** The name of a flag ends at the first '=' after its first character. *)
Definition flag_name (name : string) : string :=
  match name with
  | EmptyString => EmptyString
  | String c rest => String c (match Split rest "="%char with p :: _ => p | [] => EmptyString end)
  end.

Definition Parse (args : list string) : parsed :=
  match args with
  | [] => ParseOk []
  | s :: rest =>
      match s with
      | String "-" (String c name) =>
          if Ascii.eqb c "-"%char && String.eqb name EmptyString then ParseOk rest
          else
            let name := if Ascii.eqb c "-"%char then name else String c name in
            if HasPrefix name "-" || HasPrefix name "=" then ParseError (Errorf "bad flag syntax: %s" [s])
            else if String.eqb (flag_name name) "help" || String.eqb (flag_name name) "h" then ParseHelp
            else ParseError (Errorf "flag provided but not defined: -%s" [flag_name name])
      | _ => ParseOk args
      end
  end.

(** ** Actions *)

Inductive action :=
| Print (message : goerror)           (* on standard error *)
| Usage
| GoMetrics (bind : string) (tls : option (string * string * string * Z))
| ShutdownMetrics (timeout : Z)
| Http (c : EntropyHTTP.srv_call)
| Cloud (c : grpc_call)
| Gauge (c : prom_call)
| GoConnector
| AttachCloud                         (* [cloudAwareForwarder.SetClient] *)
| DetachCloud                         (* [cloudAwareForwarder.Close] *)
| NewCollector (c : BatchCollector (F := sender_ref))
| CloseCollector
| ConnectMQTT (attempts : nat) (waits : list Z)
| CloseMQTT
| AwaitSignal
| CancelRoot                          (* ends the context of the connector *)
| Interrupted (a : action).           (* [a] was called and did not return *)

(** A call that waits for something or takes something down completes, panics or
    never returns; it is made by [waitForShutdown] or as a deferred call of [run]. *)
Inductive fate := Completes | Panics | Blocks.
Inductive place := InRun | Deferred.

(** What [run] meets: the arguments, the loaded configuration, the clock of the
    rate limiter, the socket and TLS configuration of the entropy server, the
    first dial to the cloud, the attempts to reach the broker, and the fates of
    its waits and take-downs.  Nothing is assumed of the fates: the signal need
    not come, and the deferred [Shutdown(context.Background())], the wait for the
    goroutines of the cloud client or the lock of the collector may hold for ever. *)
Record world := mkWorld {
  args : list string;
  loaded : result Config.Config;
  now : Z;
  net_Listen : string → result Z;
  configure : string → string → string → Z → result unit;
  built : result nat;
  opened : result nat;
  broker : nat → result unit;
  rng : nat → f64;
  fates : place → action → fate;
}.

(** How a computation ends. *)
Inductive outcome (A : Type) := Returned (a : A) | Panicked | Blocked.
Arguments Returned {A} a.
Arguments Panicked {A}.
Arguments Blocked {A}.

Abbreviation M A := (GoM action unit (outcome A)).

(** The statements after [m] run when it returns. *)
Definition andthen {A B} (m : M A) (f : A → M B) : M B :=
  r ← m;
  match r with
  | Returned a => f a
  | Panicked => mret Panicked
  | Blocked => mret Blocked
  end.

(** [cancelRoot] only closes a channel. *)
Definition fate_of (w : world) (p : place) (a : action) : fate :=
  match a with CancelRoot => Completes | _ => fates w p a end.

Definition attempt (w : world) (p : place) (a : action) : M unit :=
  match fate_of w p a with
  | Completes => call [a] ;; mret (Returned tt)
  | Panics => call [Interrupted a] ;; mret Panicked
  | Blocks => call [Interrupted a] ;; mret Blocked
  end.

Fixpoint perform (w : world) (p : place) (l : list action) : M unit :=
  match l with
  | [] => mret (Returned tt)
  | a :: l => andthen (attempt w p a) (λ _, perform w p l)
  end.

(** The deferred calls [ds], in the order in which they run, of a function whose
    body has ended as [r] says: they run after a panic as well, and one that
    panics does not keep the others from running. *)
Fixpoint unwind (w : world) (ds : list action) (r : outcome Z) : M Z :=
  match ds, r with
  | [], _ => mret r
  | _, Blocked => mret Blocked
  | d :: ds, _ =>
      r' ← attempt w Deferred d;
      unwind w ds (match r' with Returned _ => r | Panicked => Panicked | Blocked => Blocked end)
  end.

(** [defer d] around what follows it. *)
Definition with_defer (w : world) (d : list action) (m : M Z) : M Z := r ← m; unwind w d r.

Section program.
Context `{GoUnicode}.

Definition fail (message : goerror) (code : Z) : M Z := call [Print message] ;; mret (Returned code).

(** The deferred shutdown of the entropy server, with [context.Background()],
    and the one on a signal. *)
Definition shutdown_http (ctx : option Z) (s : EntropyHTTP.HTTPServer) : list action :=
  Http <$> run_calls (EntropyHTTP.Shutdown (Some ctx) None) s.

Definition waitForShutdown (w : world) (s : EntropyHTTP.HTTPServer) : M unit :=
  perform w InRun ([AwaitSignal; CloseMQTT; CloseCollector] ++ shutdown_http (Some (10 * Second)) s ++
    [ShutdownMetrics (5 * Second)]).

(** The tail of [run], from the collector on.  The loop that reaches the broker
    never gives up: [Cancelled] is not a result of it. *)
Definition run_collector (w : world) (fuel : nat) (config : Config.Config) (cloud : bool)
    (server : EntropyHTTP.HTTPServer) : M Z :=
  let '(c, gauges) := setupBatchCollector (Collector.BatchSize (Config.Collector config)) cloud in
  call (NewCollector c :: (Gauge <$> gauges)) ;;
  with_defer w [CloseCollector]
    (match connectMQTTWithRetry (broker w) (rng w) fuel with
     | None | Some (Cancelled, _) => mret Blocked
     | Some (Connected _ attempts, waits) =>
         call [ConnectMQTT attempts waits] ;;
         with_defer w [CloseMQTT] (andthen (waitForShutdown w server) (λ _, mret (Returned 0)))
     end).

Definition run_cloud (w : world) (fuel : nat) (config : Config.Config) (server : EntropyHTTP.HTTPServer) : M Z :=
  let f := Config.CloudForwarder config in
  if CloudForwarder.Enabled f then
    (match GrpcClient.NewClient f (built w) (opened w) with
     | (Err _, calls) => call ((Cloud <$> calls) ++ [GoConnector])
     | (Ok _, calls) => call ((Cloud <$> calls) ++ AttachCloud :: (Gauge <$> SetGRPCConnected true))
     end) ;;
    with_defer w [DetachCloud] (run_collector w fuel config true server)
  else run_collector w fuel config false server.

Definition start_server (w : world) (p : EntropyPool.EntropyPool) : EntropyHTTP.M (result unit) :=
  if EntropyPool.TLSEnabled p then
    EntropyHTTP.StartTLS (net_Listen w) (configure w) (EntropyPool.TLSCertFile p) (EntropyPool.TLSKeyFile p)
      (EntropyPool.TLSCAFile p) (parseClientAuth (EntropyPool.TLSClientAuth p))
  else EntropyHTTP.Start (net_Listen w).

Definition run_server (w : world) (fuel : nat) (config : Config.Config) : M Z :=
  let p := EntropyPool config in
  let entropyPool := NewWhitenedPoolWithBounds (EntropyPool.PoolMinBytes p) (EntropyPool.PoolMaxBytes p) in
  match validateEntropyAddr (EntropyPool.HTTPAddr p) (EntropyPool.AllowPublic p) with
  | Err e => fail e 1
  | Ok _ =>
      match EntropyHTTP.NewHTTPServer (EntropyPool.HTTPAddr p) (Some entropyPool) (EntropyPool.ReadyMinBytes p)
              (EntropyPool.AllowPublic p) (EntropyPool.RetryAfterSec p) (EntropyPool.RateLimitRPS p)
              (EntropyPool.RateLimitBurst p) (now w) with
      | Err e => fail (wrap "start entropy http server: " [] e) 1
      | Ok entropyServer =>
          let '(started, server, calls) :=
            start_server w p entropyServer in
          call (Http <$> calls) ;;
          match started with
          | Err e => fail (wrap "start entropy http server: " [] e) 1
          | Ok _ => with_defer w (shutdown_http None server) (run_cloud w fuel config server)
          end
      end
  end.

Definition loadConfig (w : world) : result Config.Config :=
  match loaded w with
  | Err e => Err (wrap "config: " [] e)
  | Ok config => Ok config
  end.

(** [run] after its first deferred call. *)
Definition run_flags (w : world) (fuel : nat) : M Z :=
  match Parse (args w) with
  | ParseHelp => call [Usage; Usage] ;; mret (Returned 0)
  | ParseError e => call [Print e; Usage] ;; fail (wrap "parse flags: " [] e) 2
  | ParseOk [] =>
      match loadConfig w with
      | Err e => fail e 1
      | Ok config =>
          let m := Config.Metrics config in
          let tls :=
            if Metrics.TLSEnabled m then
              Some (Metrics.TLSCertFile m, Metrics.TLSKeyFile m, Metrics.TLSCAFile m,
                parseClientAuth (Metrics.TLSClientAuth m))
            else None in
          call [GoMetrics (Metrics.Bind m) tls] ;;
          with_defer w [ShutdownMetrics (5 * Second)] (run_server w fuel config)
      end
  | ParseOk rest => call [Print (Errorf "unexpected arguments: %v" rest); Usage] ;; mret (Returned 2)
  end.

Definition run (w : world) (fuel : nat) : M Z := with_defer w [CancelRoot] (run_flags w fuel).

(** ** What a run does *)

Lemma unwind_blocked w ds : unwind w ds Blocked = mret Blocked.
Proof. by destruct ds. Qed.

Lemma unwind_app w d1 d2 r : unwind w (d1 ++ d2) r ≡ (unwind w d1 r ≫= unwind w d2).
Proof.
  revert r. induction d1 as [|d d1 IH]; intros r; cbn [app unwind].
  { by rewrite bind_ret_l. }
  destruct r as [code| |]; [| |by rewrite bind_ret_l, unwind_blocked];
    rewrite bind_assoc; by apply GoM_bind_proper; [intros r'; apply IH|].
Qed.

Lemma with_defer_app w d1 d2 m : with_defer w d2 (with_defer w d1 m) ≡ with_defer w (d1 ++ d2) m.
Proof.
  unfold with_defer. rewrite bind_assoc. apply GoM_bind_proper; [|done]. intros r. by rewrite unwind_app.
Qed.

Lemma with_defer_call w d l (m : M Z) : with_defer w d (call l ;; m) ≡ (call l ;; with_defer w d m).
Proof. apply bind_assoc. Qed.

Lemma with_defer_ret w d r : with_defer w d (mret r) ≡ unwind w d r.
Proof. apply bind_ret_l. Qed.

#[local] Instance outcome_eq_dec {A} `{EqDecision A} : EqDecision (outcome A).
Proof. solve_decision. Defined.

#[export] Instance with_defer_proper w d : Proper ((≡) ==> (≡)) (with_defer w d).
Proof. intros m1 m2 Hm. by apply GoM_bind_proper. Qed.

Lemma call_call {A} (l k : list action) (m : M A) : (call l ;; call k ;; m) ≡ (call (l ++ k) ;; m).
Proof. intros s. unfold mbind, GoM_bind, call. destruct (m s) as [[r s'] w]. by rewrite (assoc_L (++)). Qed.

#[export] Instance call_proper {A} (l : list action) : Proper ((≡) ==> (≡)) (λ m : M A, call l ;; m).
Proof. intros m1 m2 Hm. by apply GoM_bind_proper; [intros []|]. Qed.

Lemma call_merge {A} (l k : list action) (m m' : M A) : m ≡ (call k ;; m') → (call l ;; m) ≡ (call (l ++ k) ;; m').
Proof. intros Hm. transitivity (call l ;; call k ;; m'); [by apply call_proper|apply call_call]. Qed.

Lemma call_then {A} (l : list action) (m : M A) s :
  (call l ;; m) s = ((m s).1.1, (m s).1.2, l ++ (m s).2).
Proof. unfold mbind, GoM_bind, call. by destruct (m s) as [[r s'] w]. Qed.

(** The collector part: what it starts. *)
Definition collector_actions (config : Config.Config) (cloud : bool) : list action :=
  let n := Collector.BatchSize (Config.Collector config) in
  NewCollector (setupBatchCollector n cloud).1 :: (Gauge <$> SetCollectorBatchSize n).

Definition main_loop (w : world) (fuel : nat) : option (nat * list Z) :=
  match connectMQTTWithRetry (broker w) (rng w) fuel with
  | Some (Connected _ attempts, waits) => Some (attempts, waits)
  | _ => None
  end.

(** What [waitForShutdown] does, and what is deferred when the broker has been reached. *)
Definition stop_actions : list action :=
  [AwaitSignal; CloseMQTT; CloseCollector; Http (EntropyHTTP.ShutdownServer (Some (10 * Second)));
   ShutdownMetrics (5 * Second)].

Definition cloud_enabled (config : Config.Config) : bool := CloudForwarder.Enabled (Config.CloudForwarder config).

Definition deferred (config : Config.Config) : list action :=
  [CloseMQTT; CloseCollector] ++ (if cloud_enabled config then [DetachCloud] else []) ++
  [Http (EntropyHTTP.ShutdownServer None); ShutdownMetrics (5 * Second); CancelRoot].

Definition stopping (w : world) : M Z := andthen (perform w InRun stop_actions) (λ _, mret (Returned 0)).

Definition cloud_actions (w : world) (config : Config.Config) : list action :=
  let f := Config.CloudForwarder config in
  if CloudForwarder.Enabled f then
    match GrpcClient.NewClient f (built w) (opened w) with
    | (Err _, calls) => (Cloud <$> calls) ++ [GoConnector]
    | (Ok _, calls) => (Cloud <$> calls) ++ AttachCloud :: (Gauge <$> SetGRPCConnected true)
    end
  else [].

(** From the broker on, with the calls that will run when it ends. *)
Definition connected_part (w : world) (fuel : nat) (ds : list action) : M Z :=
  match main_loop w fuel with
  | None => mret Blocked
  | Some (attempts, waits) => call [ConnectMQTT attempts waits] ;; with_defer w (CloseMQTT :: ds) (stopping w)
  end.

Lemma defer_connected w fuel ds d :
  with_defer w d (connected_part w fuel ds) ≡ connected_part w fuel (ds ++ d).
Proof.
  unfold connected_part. destruct (main_loop w fuel) as [[n waits]|]; [|by rewrite with_defer_ret, unwind_blocked].
  rewrite with_defer_call. apply call_proper, with_defer_app.
Qed.

Lemma run_collector_eq w fuel config cloud server :
  run_collector w fuel config cloud server ≡
    (call (collector_actions config cloud) ;; connected_part w fuel [CloseCollector]).
Proof.
  unfold run_collector, setupBatchCollector. apply call_proper. transitivity (with_defer w [CloseCollector] (connected_part w fuel []));
    [|apply defer_connected]. apply with_defer_proper. unfold connected_part, main_loop.
  by destruct (connectMQTTWithRetry _ _ _) as [[[c n|] waits]|].
Qed.

Lemma run_cloud_eq w fuel config server :
  run_cloud w fuel config server ≡
    (call (cloud_actions w config ++ collector_actions config (cloud_enabled config)) ;;
     connected_part w fuel (CloseCollector :: if cloud_enabled config then [DetachCloud] else [])).
Proof.
  unfold run_cloud, cloud_actions, cloud_enabled. destruct (CloudForwarder.Enabled _).
  - assert (Hcall : ∀ l, (call l ;; with_defer w [DetachCloud] (run_collector w fuel config true server)) ≡
      (call (l ++ collector_actions config true) ;; connected_part w fuel [CloseCollector; DetachCloud])).
    { intros l. apply call_merge. rewrite run_collector_eq, with_defer_call.
      apply call_proper, defer_connected. }
    destruct (GrpcClient.NewClient _ _ _) as [[c|e] calls]; apply Hcall.
  - by rewrite run_collector_eq.
Qed.

(** Bringing up the entropy server: what happens, and the message if it fails. *)
Definition http_start (w : world) (config : Config.Config) : result unit * list action :=
  let p := EntropyPool config in
  match validateEntropyAddr (EntropyPool.HTTPAddr p) (EntropyPool.AllowPublic p) with
  | Err e => (Err e, [])
  | Ok _ =>
      match EntropyHTTP.NewHTTPServer (EntropyPool.HTTPAddr p)
              (Some (NewWhitenedPoolWithBounds (EntropyPool.PoolMinBytes p) (EntropyPool.PoolMaxBytes p)))
              (EntropyPool.ReadyMinBytes p) (EntropyPool.AllowPublic p) (EntropyPool.RetryAfterSec p)
              (EntropyPool.RateLimitRPS p) (EntropyPool.RateLimitBurst p) (now w) with
      | Err e => (Err (wrap "start entropy http server: " [] e), [])
      | Ok server =>
          match start_server w p server with
          | (Err e, _, calls) => (Err (wrap "start entropy http server: " [] e), Http <$> calls)
          | (Ok _, _, calls) => (Ok tt, Http <$> calls)
          end
      end
  end.

(** What is up once the entropy server is. *)
Definition up_actions (w : world) (config : Config.Config) : list action :=
  cloud_actions w config ++ collector_actions config (cloud_enabled config).

Lemma run_server_eq w fuel config :
  run_server w fuel config ≡
    match http_start w config with
    | (Err e, calls) => call (calls ++ [Print e]) ;; mret (Returned 1)
    | (Ok _, calls) =>
        call (calls ++ up_actions w config) ;;
        connected_part w fuel ((CloseCollector :: if cloud_enabled config then [DetachCloud] else []) ++
          [Http (EntropyHTTP.ShutdownServer None)])
    end.
Proof.
  unfold run_server, http_start. cbv zeta.
  destruct (validateEntropyAddr _ _) as [u|e]; [|done]. destruct (EntropyHTTP.NewHTTPServer _ _ _ _ _ _ _ _) as [srv|e]; [|done].
  intros s. destruct (start_server w (EntropyPool config) srv) as [[[[]|e] srv'] calls].
  - revert s. change (shutdown_http None srv') with [Http (EntropyHTTP.ShutdownServer None)].
    apply call_merge. rewrite run_cloud_eq, with_defer_call. apply call_proper, defer_connected.
  - apply call_call.
Qed.

(** The deferred calls when the entropy server cannot be started. *)
Definition deferred_early : list action := [ShutdownMetrics (5 * Second); CancelRoot].

Lemma run_server_deferred w fuel config :
  with_defer w deferred_early (run_server w fuel config) ≡
    match http_start w config, main_loop w fuel with
    | (Err e, calls), _ => call (calls ++ [Print e]) ;; unwind w deferred_early (Returned 1)
    | (Ok _, calls), None => call (calls ++ up_actions w config) ;; mret Blocked
    | (Ok _, calls), Some (attempts, waits) =>
        call (calls ++ up_actions w config ++ [ConnectMQTT attempts waits]) ;;
        with_defer w (deferred config) (stopping w)
    end.
Proof.
  rewrite run_server_eq. destruct (http_start w config) as [[[]|e] calls].
  - rewrite with_defer_call. transitivity (call (calls ++ up_actions w config) ;; connected_part w fuel (tail (deferred config))).
    { apply call_proper. rewrite defer_connected. unfold deferred. by destruct (cloud_enabled config). }
    unfold connected_part. destruct (main_loop w fuel) as [[n waits]|]; [|done].
    rewrite call_call, <-(assoc_L (++)). done.
  - rewrite with_defer_call. apply call_proper, with_defer_ret.
Qed.

(** What [run] does and returns when it does not get to the servers. *)
Definition early_exit (w : world) : option (Z * list action) :=
  match Parse (args w) with
  | ParseHelp => Some (0, [Usage; Usage])
  | ParseError e => Some (2, [Print e; Usage; Print (wrap "parse flags: " [] e)])
  | ParseOk [] => match loaded w with Err e => Some (1, [Print (wrap "config: " [] e)]) | Ok _ => None end
  | ParseOk rest => Some (2, [Print (Errorf "unexpected arguments: %v" rest); Usage])
  end.

Lemma run_early w fuel s code acts :
  early_exit w = Some (code, acts) → run w fuel s = (Returned code, s, acts ++ [CancelRoot]).
Proof.
  unfold early_exit, run, with_defer, run_flags, loadConfig.
  destruct (Parse (args w)) as [[|x rest]| |e]; [destruct (loaded w) as [config|e]|..]; by intros [= <- <-].
Qed.

Lemma early_or_loaded w :
  is_Some (early_exit w) ∨ early_exit w = None ∧ Parse (args w) = ParseOk [] ∧ ∃ config, loaded w = Ok config.
Proof.
  unfold early_exit. destruct (Parse (args w)) as [[|x rest]| |e]; [destruct (loaded w) as [config|e]|..]; eauto.
Qed.

Lemma early_actions w code acts a :
  early_exit w = Some (code, acts) → a ∈ acts → a = Usage ∨ ∃ e, a = Print e.
Proof.
  unfold early_exit. destruct (Parse (args w)) as [[|x rest]| |e]; [destruct (loaded w) as [config|e]|..];
    intros [= <- <-]; rewrite !elem_of_cons, elem_of_nil; naive_solver.
Qed.

Definition metrics_action (config : Config.Config) : action :=
  let m := Config.Metrics config in
  GoMetrics (Metrics.Bind m)
    (if Metrics.TLSEnabled m then
       Some (Metrics.TLSCertFile m, Metrics.TLSKeyFile m, Metrics.TLSCAFile m,
         parseClientAuth (Metrics.TLSClientAuth m))
     else None).

Lemma run_eq w fuel config :
  Parse (args w) = ParseOk [] → loaded w = Ok config →
  run w fuel ≡
    match http_start w config, main_loop w fuel with
    | (Err e, calls), _ =>
        call (metrics_action config :: calls ++ [Print e]) ;; unwind w deferred_early (Returned 1)
    | (Ok _, calls), None => call (metrics_action config :: calls ++ up_actions w config) ;; mret Blocked
    | (Ok _, calls), Some (attempts, waits) =>
        call (metrics_action config :: calls ++ up_actions w config ++ [ConnectMQTT attempts waits]) ;;
        with_defer w (deferred config) (stopping w)
    end.
Proof.
  intros Ha Hl. unfold run, run_flags, loadConfig. rewrite Ha, Hl. cbv zeta.
  change (GoMetrics _ _) with (metrics_action config).
  rewrite with_defer_call.
  pose proof (with_defer_app w [ShutdownMetrics (5 * Second)] [CancelRoot] (run_server w fuel config)) as Hd.
  pose proof (run_server_deferred w fuel config) as Hs. cbn [app] in Hd. fold deferred_early in Hd.
  destruct (http_start w config) as [[[]|e] calls]; [destruct (main_loop w fuel) as [[n waits]|]|];
    apply (call_merge [metrics_action config]); (etransitivity; [exact Hd|exact Hs]).
Qed.

(** ** Waits and take-downs *)

Definition completes (w : world) (p : place) (a : action) : bool :=
  match fate_of w p a with Completes => true | _ => false end.

(** What the trace shows of a call. *)
Definition tried (w : world) (p : place) (a : action) : action := if completes w p a then a else Interrupted a.

(** How a function ends whose body has ended with [r], when no deferred call blocks. *)
Definition finish (w : world) (ds : list action) (r : outcome Z) : outcome Z :=
  if forallb (completes w Deferred) ds then r else Panicked.

Lemma attempt_eq w p a s :
  attempt w p a s =
    (match fate_of w p a with Completes => Returned tt | Panics => Panicked | Blocks => Blocked end, s, [tried w p a]).
Proof. unfold attempt, tried, completes. by destruct (fate_of w p a). Qed.

(** Everything is done, or it stops at the first call that does not return. *)
Lemma perform_cases w p l s :
  ∃ o acts, perform w p l s = (o, s, acts) ∧
    (Forall (λ a, completes w p a = true) l ∧ o = Returned tt ∧ acts = l ∨
     ∃ pre a post, l = pre ++ a :: post ∧ Forall (λ b, completes w p b = true) pre ∧ completes w p a = false ∧
       o = (match fate_of w p a with Blocks => Blocked | _ => Panicked end) ∧ acts = pre ++ [Interrupted a]).
Proof.
  induction l as [|a l (o & acts & E & IH)]; [eexists _, _; split; [done|by left]|].
  cbn [perform]. unfold andthen. rewrite (bind_run _ _ s _ _ _ (attempt_eq w p a s)).
  unfold run_val, run_state, run_calls.
  destruct (completes w p a) eqn:Hc; unfold tried; rewrite Hc; unfold completes in Hc; destruct (fate_of w p a) eqn:Hf; try done.
  - rewrite E. eexists _, _. split; [done|]. cbn [fst snd]. destruct IH as [(Hl & -> & ->)|(pre & b & post & -> & Hp & Hb & -> & ->)].
    + left. split_and!; [|done|done]. constructor; [unfold completes; by rewrite Hf|done].
    + right. exists (a :: pre), b, post. split_and!; [done| |done|done|done].
      constructor; [unfold completes; by rewrite Hf|done].
  - eexists _, _. split; [done|]. right. exists [], a, l. unfold completes. by rewrite Hf.
  - eexists _, _. split; [done|]. right. exists [], a, l. unfold completes. by rewrite Hf.
Qed.

(** All deferred calls are made, up to one that blocks. *)
Lemma unwind_cases w ds r s :
  r ≠ Blocked →
  ∃ o acts, unwind w ds r s = (o, s, acts) ∧
    (o ≠ Blocked ∧ o = finish w ds r ∧ acts = tried w Deferred <$> ds ∨
     o = Blocked ∧ Exists (λ d, fate_of w Deferred d = Blocks) ds ∧ ∀ b, b ∈ acts → b ∈ tried w Deferred <$> ds).
Proof.
  revert r. induction ds as [|d ds IH]; intros r Hr; [eexists _, _; split; [done|]; left; by destruct r|].
  assert (E : unwind w (d :: ds) r = (r' ← attempt w Deferred d;
    unwind w ds (match r' with Returned _ => r | Panicked => Panicked | Blocked => Blocked end))) by by destruct r.
  rewrite E, (bind_run _ _ s _ _ _ (attempt_eq w Deferred d s)). clear E. unfold run_val, run_state, run_calls.
  destruct (fate_of w Deferred d) eqn:Hf.
  - destruct (IH r Hr) as (o & acts & -> & Hcase). eexists _, _. split; [done|]. cbn [fst snd].
    unfold finish, completes in *. cbn [forallb]. rewrite Hf. cbn [andb].
    destruct Hcase as [(Ho & -> & ->)|(-> & Hb & Hin)]; [by left|right]. split; [done|split; [by right|]].
    intros b [->|Hb']%elem_of_cons; [by left|right; by apply Hin].
  - destruct (IH Panicked ltac:(done)) as (o & acts & -> & Hcase). eexists _, _. split; [done|]. cbn [fst snd].
    unfold finish, completes in *. cbn [forallb]. rewrite Hf. cbn [andb].
    destruct Hcase as [(Ho & -> & ->)|(-> & Hb & Hin)]; [left|right].
    + split; [done|split; [by destruct (forallb _ ds)|done]].
    + split; [done|split; [by right|]]. intros b [->|Hb']%elem_of_cons; [by left|right; by apply Hin].
  - rewrite unwind_blocked. eexists _, _. split; [done|]. cbn [fst snd]. right. split; [done|]. split; [by left|].
    intros b Hb. apply elem_of_app in Hb as [[->|[]%elem_of_nil]%elem_of_cons|[]%elem_of_nil]. by left.
Qed.

(** What [waitForShutdown] does: all of it, or up to the first call that does not return. *)
Lemma stopping_body w s :
  ∃ r acts, stopping w s = (r, s, acts) ∧
    (Forall (λ a, completes w InRun a = true) stop_actions ∧ r = Returned 0 ∧ acts = stop_actions ∨
     ∃ pre a post, stop_actions = pre ++ a :: post ∧ Forall (λ b, completes w InRun b = true) pre ∧
       completes w InRun a = false ∧ (r = Panicked ∨ r = Blocked) ∧ acts = pre ++ [Interrupted a]).
Proof.
  unfold stopping, andthen. destruct (perform_cases w InRun stop_actions s) as (o & acts & E & Hcase).
  rewrite (bind_run _ _ s _ _ _ E). unfold run_val, run_state, run_calls.
  destruct Hcase as [(Hl & -> & ->)|(pre & a & post & El & Hp & Ha & -> & ->)].
  - eexists _, _. split; [done|]. left. cbn [mret GoM_ret fst snd]. by rewrite app_nil_r.
  - exists (match fate_of w InRun a with Blocks => Blocked | _ => Panicked end), (pre ++ [Interrupted a]).
    split; [by destruct (fate_of w InRun a); cbn; rewrite app_nil_r|]. right. exists pre, a, post.
    split_and!; try done. destruct (fate_of w InRun a); auto.
Qed.

Lemma stopping_tried w s b : b ∈ run_calls (stopping w) s → ∃ a p, a ∈ stop_actions ∧ b = tried w p a.
Proof.
  unfold run_calls. destruct (stopping_body w s) as (r & acts & -> & [(Hl & _ & ->)|(pre & a & post & El & Hp & Ha & _ & ->)]);
    cbn [snd]; intros Hb.
  - exists b, InRun. rewrite Forall_forall in Hl. unfold tried. by rewrite Hl.
  - rewrite Forall_forall in Hp. apply elem_of_app in Hb as [Hb|[->|[]%elem_of_nil]%elem_of_cons].
    + exists b, InRun. split; [rewrite El, !elem_of_app; auto|]. unfold tried. by rewrite Hp.
    + exists a, InRun. split; [rewrite El, !elem_of_app, elem_of_cons; auto|]. unfold tried. by rewrite Ha.
Qed.

(** With its deferred calls. *)
Lemma stopping_cases w ds s :
  ∃ o acts, with_defer w ds (stopping w) s = (o, s, acts) ∧
    (∀ b, b ∈ acts → ∃ a p, a ∈ stop_actions ++ ds ∧ b = tried w p a) ∧
    (o ≠ Blocked → ∃ mid r, acts = mid ++ (tried w Deferred <$> ds) ∧ o = finish w ds r ∧
       (Forall (λ a, completes w InRun a = true) stop_actions ∧ mid = stop_actions ∧ r = Returned 0 ∨
        ∃ pre a post, stop_actions = pre ++ a :: post ∧ mid = pre ++ [Interrupted a] ∧ r = Panicked)).
Proof.
  unfold with_defer. pose proof (stopping_tried w s) as Hin. unfold run_calls in Hin.
  destruct (stopping_body w s) as (r & acts & E & Hcase). rewrite E in Hin. cbn [snd] in Hin.
  rewrite (bind_run _ _ s _ _ _ E). unfold run_val, run_state, run_calls.
  destruct (decide (r = Blocked)) as [->|Hr].
  { rewrite unwind_blocked. eexists _, _. split; [done|]. cbn [fst snd mret GoM_ret]. rewrite app_nil_r. split; [|by intros].
    intros b (a & p & Ha & ->)%Hin. exists a, p. split; [apply (elem_of_app stop_actions); by left|done]. }
  destruct (unwind_cases w ds r s Hr) as (o' & acts' & -> & Hcase'). eexists _, _. split; [done|]. cbn [fst snd]. split.
  - intros b [(a & p & Ha & ->)%Hin|Hb]%elem_of_app; [exists a, p; split; [apply (elem_of_app stop_actions); by left|done]|].
    assert (Hb' : b ∈ tried w Deferred <$> ds) by (destruct Hcase' as [(_ & _ & ->)|(_ & _ & Hall)]; [done|by apply Hall]).
    apply list_elem_of_fmap in Hb' as (d & -> & Hd). exists d, Deferred. split; [apply (elem_of_app stop_actions); by right|done].
  - intros Ho'. destruct Hcase' as [(_ & -> & ->)|(-> & _)]; [|done]. exists acts, r. split; [done|split; [done|]].
    destruct Hcase as [(Hl & -> & ->)|(pre & a & post & El & Hp & Ha & [-> | ->] & ->)]; [by left| |done].
    right. by exists pre, a, post.
Qed.

(** ** What the actions of a run can be *)

Inductive resource := MetricsServer | EntropyServer | CloudClient | Connector | TheCollector | MQTTClient.

#[export] Instance resource_eq_dec : EqDecision resource.
Proof. solve_decision. Defined.

(** What an action brings up, and what it takes down. *)
Definition starts (a : action) : option resource :=
  match a with
  | GoMetrics _ _ => Some MetricsServer
  | Http (EntropyHTTP.Serve _) => Some EntropyServer
  | AttachCloud => Some CloudClient
  | GoConnector => Some Connector
  | NewCollector _ => Some TheCollector
  | ConnectMQTT _ _ => Some MQTTClient
  | _ => None
  end.

Definition stops (a : action) : option resource :=
  match a with
  | ShutdownMetrics _ => Some MetricsServer
  | Http (EntropyHTTP.ShutdownServer _) => Some EntropyServer
  | DetachCloud => Some CloudClient
  | CancelRoot => Some Connector
  | CloseCollector => Some TheCollector
  | CloseMQTT => Some MQTTClient
  | _ => None
  end.

(** Nothing of these waits, takes down or fails to return. *)
Definition quiet (a : action) : Prop :=
  a ≠ AwaitSignal ∧ stops a = None ∧ match a with Interrupted _ => False | _ => True end.

Lemma http_start_actions w config a r :
  a ∈ (http_start w config).2 → starts a = Some r → r = EntropyServer.
Proof.
  assert (Hmap : ∀ calls, a ∈ (Http <$> calls : list action) → starts a = Some r → r = EntropyServer).
  { intros calls Ha Hs. apply list_elem_of_fmap in Ha as (c & -> & _). by destruct c; simplify_eq/=. }
  unfold http_start. cbv zeta. destruct (validateEntropyAddr _ _); [|set_solver].
  destruct (EntropyHTTP.NewHTTPServer _ _ _ _ _ _ _ _) as [srv|]; [|set_solver].
  destruct (start_server _ _ srv) as [[[]?] calls]; apply Hmap.
Qed.

Lemma http_failed_actions w config a :
  is_ok (http_start w config).1 = false → a ∈ (http_start w config).2 → starts a = None.
Proof.
  unfold http_start, start_server. cbv zeta. destruct (validateEntropyAddr _ _); [|set_solver].
  destruct (EntropyHTTP.NewHTTPServer _ _ _ _ _ _ _ _) as [srv|]; [|set_solver].
  unfold EntropyHTTP.StartTLS, EntropyHTTP.Start, mbind, GoM_bind, get, call, modify, mret, GoM_ret.
  destruct (EntropyPool.TLSEnabled _), (EntropyHTTP.pool srv); cbn; try set_solver.
  - destruct (configure w _ _ _ _); cbn; [|set_solver]. destruct (net_Listen w _); cbn; set_solver.
  - destruct (net_Listen w _); cbn; set_solver.
Qed.

Lemma http_start_quiet w config a :
  a ∈ (http_start w config).2 → quiet a.
Proof.
  assert (Hmap : ∀ calls, a ∈ (Http <$> calls : list action) →
    (∀ c, c ∈ calls → ∀ d, c ≠ EntropyHTTP.ShutdownServer d) → quiet a).
  { intros calls Ha Hc. apply list_elem_of_fmap in Ha as (c & -> & Hin). split; [done|].
    specialize (Hc c Hin). destruct c; try done. by destruct (Hc deadline). }
  unfold http_start, start_server. cbv zeta. destruct (validateEntropyAddr _ _); [|set_solver].
  destruct (EntropyHTTP.NewHTTPServer _ _ _ _ _ _ _ _) as [srv|]; [|set_solver].
  unfold EntropyHTTP.StartTLS, EntropyHTTP.Start, mbind, GoM_bind, get, call, modify, mret, GoM_ret.
  destruct (EntropyPool.TLSEnabled _), (EntropyHTTP.pool srv); try (intros Ha; apply (Hmap [] Ha); set_solver).
  - destruct (configure w _ _ _ _); [destruct (net_Listen w _)|]; intros Ha; eapply Hmap; try exact Ha; cbn; set_solver.
  - destruct (net_Listen w _); intros Ha; eapply Hmap; try exact Ha; cbn; set_solver.
Qed.

Lemma up_cases w config a :
  a ∈ up_actions w config →
  (∃ c, a = Cloud c) ∨ (∃ c, a = Gauge c) ∨ cloud_enabled config = true ∧ (a = GoConnector ∨ a = AttachCloud) ∨
  a = NewCollector (setupBatchCollector (Collector.BatchSize (Config.Collector config)) (cloud_enabled config)).1.
Proof.
  unfold up_actions, cloud_actions, collector_actions, cloud_enabled. intros [Ha|Ha]%elem_of_app.
  - destruct (CloudForwarder.Enabled _); [|set_solver].
    destruct (GrpcClient.NewClient _ _ _) as [[k|e] calls]; apply elem_of_app in Ha as [Ha|Ha];
      try apply elem_of_cons in Ha as [->|Ha]; auto; apply list_elem_of_fmap in Ha as (c' & -> & _) || set_solver; eauto.
  - apply elem_of_cons in Ha as [->|Ha]; [by auto|]. apply list_elem_of_fmap in Ha as (k & -> & _). by eauto.
Qed.

Lemma up_quiet w config a : a ∈ up_actions w config → quiet a.
Proof. intros [[c ->]|[[c ->]|[(_ & [-> | ->])| ->]]]%up_cases; done. Qed.

(** What [run] has done once it is connected. *)
Definition brought_up (w : world) (config : Config.Config) (n : nat) (waits : list Z) : list action :=
  metrics_action config :: (http_start w config).2 ++ up_actions w config ++ [ConnectMQTT n waits].

(** The ways a run ends. *)
Lemma run_ends w fuel :
  let o := run_val (run w fuel) tt in let acts := run_calls (run w fuel) tt in
  o ≠ Blocked →
  (∃ code early, early_exit w = Some (code, early) ∧ o = Returned code ∧ acts = early ++ [CancelRoot]) ∨
  early_exit w = None ∧ ∃ config, loaded w = Ok config ∧
    (is_ok (http_start w config).1 = false ∧ o = finish w deferred_early (Returned 1) ∧ (∃ e, acts =
        metrics_action config :: (http_start w config).2 ++ [Print e] ++ (tried w Deferred <$> deferred_early)) ∨
     is_ok (http_start w config).1 = true ∧ ∃ n waits mid r, main_loop w fuel = Some (n, waits) ∧
       acts = brought_up w config n waits ++ mid ++ (tried w Deferred <$> deferred config) ∧
       o = finish w (deferred config) r ∧
       (Forall (λ a, completes w InRun a = true) stop_actions ∧ mid = stop_actions ∧ r = Returned 0 ∨
        ∃ pre a post, stop_actions = pre ++ a :: post ∧ mid = pre ++ [Interrupted a] ∧ r = Panicked)).
Proof.
  cbv zeta. unfold run_val, run_calls. destruct (early_or_loaded w) as [[[c acts] He]|(He & Hp & config & Hl)].
  { rewrite (run_early w fuel tt c acts He). left. by exists c, acts. }
  intros Ho. right. split; [done|]. exists config. split; [done|]. unfold brought_up.
  rewrite (run_eq w fuel config Hp Hl tt) in *. destruct (http_start w config) as [[[]|e] calls]; cbn [fst snd is_ok] in *.
  - right. split; [done|]. destruct (main_loop w fuel) as [[n waits]|]; [|by rewrite call_then in Ho].
    rewrite call_then in *. cbn [fst snd] in *.
    destruct (stopping_cases w (deferred config) tt) as (o & acts & E & _ & Hcase). rewrite E in *. cbn [fst snd] in *.
    destruct (Hcase Ho) as (mid & r & -> & -> & Hr). exists n, waits, mid, r. split_and!; [done| |done|done].
    by rewrite <-!app_comm_cons, <-!(assoc_L (++)).
  - left. split; [done|]. rewrite call_then in *. cbn [fst snd] in *.
    destruct (unwind_cases w deferred_early (Returned 1) tt) as (o & acts & E & Hcase); [done|]. rewrite E in *.
    cbn [fst snd] in *. destruct Hcase as [(_ & -> & ->)|(-> & _)]; [|done]. split; [done|]. exists e.
    by rewrite <-!app_comm_cons, <-!(assoc_L (++)).
Qed.

(** What waits, takes down or fails to return. *)
Definition closing (a : action) : Prop :=
  a = AwaitSignal ∨ is_Some (stops a) ∨ ∃ b, a = Interrupted b.

Lemma tried_closing w p a : a = AwaitSignal ∨ is_Some (stops a) → closing (tried w p a).
Proof. unfold tried, closing. destruct (completes w p a); naive_solver. Qed.

Lemma stop_closing config a : a ∈ stop_actions ++ deferred config → a = AwaitSignal ∨ is_Some (stops a).
Proof.
  unfold stop_actions, deferred. destruct (cloud_enabled config);
    rewrite !elem_of_app, !elem_of_cons, ?elem_of_nil; naive_solver.
Qed.

Lemma early_closing a : a ∈ deferred_early → a = AwaitSignal ∨ is_Some (stops a).
Proof. unfold deferred_early. rewrite !elem_of_cons, ?elem_of_nil; naive_solver. Qed.

(** Whatever a run with a loaded configuration does. *)
Lemma run_cases w fuel config a :
  loaded w = Ok config → a ∈ run_calls (run w fuel) tt →
  (a = Usage ∨ (∃ e, a = Print e) ∨ closing a) ∨
  a = metrics_action config ∨ a ∈ (http_start w config).2 ∨
  is_ok (http_start w config).1 = true ∧
    (a ∈ up_actions w config ∨ ∃ n waits, main_loop w fuel = Some (n, waits) ∧ a = ConnectMQTT n waits).
Proof.
  intros Hl Hin. unfold run_calls in Hin. destruct (early_or_loaded w) as [[[code acts] He]|(_ & Hp & _)].
  { rewrite (run_early w fuel tt code acts He) in Hin. cbn [snd] in Hin. left. apply elem_of_app in Hin as [Hin|Hin].
    - destruct (early_actions w code acts _ He Hin) as [->|[e ->]]; eauto.
    - apply elem_of_cons in Hin as [->|[]%elem_of_nil]. right; right; right; left; by eexists. }
  rewrite (run_eq w fuel config Hp Hl tt) in Hin. destruct (http_start w config) as [[[]|e] calls]; cbn [fst snd is_ok] in *.
  - destruct (main_loop w fuel) as [[n waits]|]; rewrite call_then in Hin; cbn [snd] in Hin; [|set_solver].
    rewrite elem_of_app, elem_of_cons, (elem_of_app calls), (elem_of_app (up_actions _ _)) in Hin.
    destruct Hin as [[?|[?|[?|Hc]]]|Hc]; [by auto|by auto|by right; right; right; split; [|left]| |].
    + apply elem_of_cons in Hc as [->|[]%elem_of_nil]. right; right; right. split; [done|]. right. by exists n, waits.
    + left. right. right. destruct (stopping_cases w (deferred config) tt) as (o & acts & E & Hall & _). rewrite E in Hc.
      destruct (Hall a Hc) as (b & p & Hb & ->). by eapply tried_closing, stop_closing.
  - rewrite call_then in Hin. cbn [snd] in Hin. rewrite elem_of_app, elem_of_cons, elem_of_app in Hin.
    destruct Hin as [[?|[?|?]]|Hc]; [by auto|by auto|left; right; left; exists e; set_solver|left; right; right].
    assert (Ht : a ∈ tried w Deferred <$> deferred_early).
    { destruct (unwind_cases w deferred_early (Returned 1) tt) as (o & acts & E & Hcase); [done|]. rewrite E in Hc.
      destruct Hcase as [(_ & _ & ->)|(_ & _ & Hall)]; [done|by apply Hall]. }
    apply list_elem_of_fmap in Ht as (d & -> & Hd). by apply tried_closing, early_closing.
Qed.

(** The broker is reached as the loop says, with the servers up. *)
Lemma run_connect w fuel config n waits :
  loaded w = Ok config → ConnectMQTT n waits ∈ run_calls (run w fuel) tt →
  main_loop w fuel = Some (n, waits) ∧ is_ok (http_start w config).1 = true.
Proof.
  intros Hl Hin. destruct (run_cases w fuel config _ Hl Hin) as [Hq|[?|[Hh|(Hok & [Hu|(m & ws & E & [= -> ->])])]]]; try done.
  - exfalso. destruct Hq as [?|[[e ?]|[?|[[r Hq]|[b ?]]]]]; done.
  - exfalso. pose proof (http_start_actions w config _ MQTTClient Hh eq_refl). done.
  - exfalso. apply up_cases in Hu. naive_solver.
Qed.

(** ** What the program exposes *)

Definition http_actions (acts : list action) : list EntropyHTTP.srv_call :=
  omap (λ a, match a with Http c => Some c | _ => None end) acts.

Lemma elem_of_http c acts : c ∈ http_actions acts ↔ Http c ∈ acts.
Proof.
  unfold http_actions. rewrite list_elem_of_omap. split; [|by intros; exists (Http c)].
  intros (a & Ha & E). by destruct a; simplify_eq.
Qed.

(** Sockets are opened and served only while the entropy server starts. *)
Definition opens (c : EntropyHTTP.srv_call) : bool :=
  match c with EntropyHTTP.Listen _ | EntropyHTTP.Serve _ => true | _ => false end.

Lemma run_opens w fuel config c :
  loaded w = Ok config → opens c = true → Http c ∈ run_calls (run w fuel) tt →
  Http c ∈ (http_start w config).2.
Proof.
  intros Hl Hc Hin. destruct (run_cases w fuel config _ Hl Hin) as [Hq|[?|[?|(_ & [Hu|(n & ws & _ & ?)])]]]; try done.
  - exfalso. destruct Hq as [?|[[e ?]|[?|[Hq|[b ?]]]]]; [done..| |done]. destruct c; by destruct Hq.
  - exfalso. apply up_cases in Hu. naive_solver.
Qed.

Lemma http_start_opens w config c :
  opens c = true → Http c ∈ (http_start w config).2 →
  ∃ server, EntropyHTTP.NewHTTPServer (EntropyPool.HTTPAddr (EntropyPool config))
      (Some (NewWhitenedPoolWithBounds (EntropyPool.PoolMinBytes (EntropyPool config))
        (EntropyPool.PoolMaxBytes (EntropyPool config))))
      (EntropyPool.ReadyMinBytes (EntropyPool config)) (EntropyPool.AllowPublic (EntropyPool config))
      (EntropyPool.RetryAfterSec (EntropyPool config)) (EntropyPool.RateLimitRPS (EntropyPool config))
      (EntropyPool.RateLimitBurst (EntropyPool config)) (now w) = Ok server ∧
    (c = EntropyHTTP.Listen (EntropyHTTP.address server) ∨
     ∃ socket, c = EntropyHTTP.Serve (if EntropyPool.TLSEnabled (EntropyPool config)
       then EntropyHTTP.TLSListener socket else EntropyHTTP.TCPListener socket)).
Proof.
  intros Hc. unfold http_start, start_server. cbv zeta. destruct (validateEntropyAddr _ _); [|set_solver].
  destruct (EntropyHTTP.NewHTTPServer _ _ _ _ _ _ _ _) as [srv|]; [|set_solver].
  intros Hin. exists srv. split; [done|]. revert Hin.
  unfold EntropyHTTP.StartTLS, EntropyHTTP.Start, mbind, GoM_bind, get, call, modify, mret, GoM_ret.
  destruct (EntropyPool.TLSEnabled _), (EntropyHTTP.pool srv); try set_solver.
  - destruct (configure w _ _ _ _); cbn; [destruct (net_Listen w _) as [k|]|]; cbn; set_solver.
  - destruct (net_Listen w _) as [k|]; cbn; set_solver.
Qed.

(** C12: with a configuration that [Load] returned, the program opens the entropy
    server's socket on a loopback address, or else ALLOW_PUBLIC_HTTP is set, and
    then in production it serves through TLS only. *)
Theorem run_exposure env w fuel config a `{GoFS} :
  Load env = Ok config → loaded w = Ok config →
  EntropyHTTP.Listen a ∈ http_actions (run_calls (run w fuel) tt) →
  (∃ host port, SplitHostPort a = Ok (host, port) ∧ is_loopback_host host) ∨
  EntropyPool.AllowPublic (EntropyPool config) = true ∧
  (Environment config = "prod" →
     EntropyPool.TLSEnabled (EntropyPool config) = true ∧
     ∀ l, EntropyHTTP.Serve l ∈ http_actions (run_calls (run w fuel) tt) →
       ∃ socket, l = EntropyHTTP.TLSListener socket).
Proof.
  intros Hload Hl Hin. apply elem_of_http in Hin.
  apply (run_opens w fuel config (EntropyHTTP.Listen a) Hl eq_refl), http_start_opens in Hin as (srv & Hsrv & Ha); [|done].
  destruct Ha as [[= ->]|(? & [=])]. destruct (EntropyPool.AllowPublic (EntropyPool config)) eqn:Hp.
  - right. split; [done|]. intros Hprod. destruct (Load_ok env config Hload) as [Hv _].
    pose proof (ok_public config Hv Hp Hprod) as Htls. split; [done|].
    intros l Hs%elem_of_http.
    apply (run_opens w fuel config (EntropyHTTP.Serve l) Hl eq_refl), http_start_opens in Hs as (? & _ & Hc); [|done].
    destruct Hc as [[=]|(socket & [= ->])]. rewrite Htls. by exists socket.
  - left. by apply EntropyHTTP.NewHTTPServer_ok in Hsrv as [? _].
Qed.

(** ** When the program returns *)

(** Attempt [S k] is the first that reaches the broker. *)
Definition first_success (w : world) (k : nat) : Prop :=
  (∀ i, (1 ≤ i ≤ k)%nat → is_ok (broker w i) = false) ∧ is_ok (broker w (S k)) = true.

Lemma main_loop_success w k fuel :
  first_success w k → (k < fuel)%nat → ∃ waits, main_loop w fuel = Some (S k, waits) ∧ length waits = k ∧
    main_loop w (S k) = main_loop w fuel.
Proof.
  intros [Hfail Hok] Hf.
  assert (Hloop : ∀ f, (k < f)%nat → main_loop w f = Some (S k,
    (λ i, retry_wait (rng w (S i)) (nth_wait maxDelay i initialDelay)) <$> List.seq 0 k)).
  { intros f Hf'. unfold main_loop, connectMQTTWithRetry. rewrite (retry_ends _ _ _ _ k) by
      (try (intros i Hi; split; [apply Hfail; lia|done]); try (by left); lia).
    cbn [Nat.add]. by destruct (broker w (S k)). }
  rewrite !Hloop by lia. eexists. split; [done|split; [|done]]. by rewrite length_fmap, length_seq.
Qed.

Lemma main_loop_first w fuel n waits : main_loop w fuel = Some (n, waits) → ∃ k, first_success w k ∧ n = S k.
Proof.
  unfold main_loop. destruct (connectMQTTWithRetry _ _ _) as [[[c m|] ws]|] eqn:E; try done. intros [= -> ->].
  apply retry_connected in E as (k & -> & Hf & Hok). exists k. split; [|done]. split; [intros i Hi; apply Hf; lia|done].
Qed.

Lemma run_fuel w k fuel : first_success w k → (k < fuel)%nat → run w fuel tt = run w (S k) tt.
Proof.
  intros Hk Hf. destruct (early_or_loaded w) as [[[code acts] He]|(_ & Hp & config & Hl)].
  { by rewrite !(run_early w _ tt code acts He). }
  rewrite !(run_eq w _ config Hp Hl tt). destruct (main_loop_success w k fuel Hk Hf) as (waits & -> & _ & ->). done.
Qed.

Lemma finish_returned w ds r code :
  finish w ds r = Returned code ↔ Forall (λ a, completes w Deferred a = true) ds ∧ r = Returned code.
Proof.
  unfold finish. destruct (forallb _ ds) eqn:E.
  - rewrite forallb_forall in E. split; [|by intros [_ ->]]. intros ->. split; [|done].
    apply Forall_forall. intros a Ha. by apply E, list_elem_of_In.
  - split; [done|]. intros [Hall _]. rewrite Forall_forall in Hall. exfalso.
    assert (forallb (completes w Deferred) ds = true) by (apply forallb_forall; intros a Ha; by apply Hall, list_elem_of_In).
    congruence.
Qed.

(** Calls that all complete. *)
Lemma unwind_completes w ds r s :
  Forall (λ a, completes w Deferred a = true) ds → r ≠ Blocked → unwind w ds r s = (r, s, ds).
Proof.
  intros Hall Hr. revert r Hr. induction Hall as [|d ds Hd Hall IH]; intros r Hr; [by destruct r|].
  assert (Ht : tried w Deferred d = d) by (unfold tried; by rewrite Hd).
  unfold completes in Hd. destruct (fate_of w Deferred d) eqn:Hf; [|done..].
  destruct r; [..|done]; cbn [unwind]; rewrite (bind_run _ _ s _ _ _ (attempt_eq w Deferred d s)), Hf, Ht;
    unfold run_val, run_state, run_calls; by rewrite IH.
Qed.

Lemma stopping_completes w s :
  Forall (λ a, completes w InRun a = true) stop_actions → stopping w s = (Returned 0, s, stop_actions).
Proof.
  intros Hall. destruct (stopping_body w s) as (r & acts & -> & [(_ & -> & ->)|(pre & a & post & El & _ & Ha & _)]); [done|].
  rewrite El, Forall_app, Forall_cons in Hall. destruct Hall as (_ & Ha' & _). congruence.
Qed.

Lemma run_completes w config k :
  early_exit w = None → loaded w = Ok config → first_success w k →
  Forall (λ a, completes w InRun a = true) stop_actions → Forall (λ a, completes w Deferred a = true) (deferred config) →
  is_ok (http_start w config).1 = true → run_val (run w (S k)) tt = Returned 0.
Proof.
  intros He Hl Hk Hs Hd Hok. destruct (early_or_loaded w) as [[x Hx]|(_ & Hp & _)]; [congruence|].
  unfold run_val. rewrite (run_eq w _ config Hp Hl tt).
  destruct (main_loop_success w k (S k) Hk ltac:(lia)) as (waits & -> & _ & _).
  destruct (http_start w config) as [[[]|e] calls]; [|done]. rewrite call_then. unfold with_defer.
  rewrite (bind_run _ _ _ _ _ _ (stopping_completes w tt Hs)). unfold run_val.
  by rewrite (unwind_completes w (deferred config) (Returned 0) tt Hd).
Qed.

(** C30: when the program returns.  With bad arguments, a request for help or a
    configuration that does not load it always does.  When the entropy server
    cannot be started, it does if the deferred shutdown of the metrics server
    returns.  Otherwise it returns exactly if some attempt reaches the broker,
    the signal then arrives, and every call that takes something down returns,
    those of [waitForShutdown] and the deferred ones: with no broker, without a
    signal, or with one such call that hangs or panics, it never does.  After
    [k] failed attempts and a successful one it has made no more, has waited once
    for each failure, and more fuel changes nothing. *)
Theorem run_returns w :
  ((∃ fuel code, run_val (run w fuel) tt = Returned code) ↔
     Parse (args w) ≠ ParseOk [] ∨ is_ok (loaded w) = false ∨
     ∃ config, loaded w = Ok config ∧
       if is_ok (http_start w config).1
       then (∃ k, first_success w k) ∧ Forall (λ a, completes w InRun a = true) stop_actions ∧
         Forall (λ a, completes w Deferred a = true) (deferred config)
       else Forall (λ a, completes w Deferred a = true) deferred_early) ∧
  ∀ k fuel, first_success w k → (k < fuel)%nat →
    run w fuel tt = run w (S k) tt ∧
    ∀ n waits, ConnectMQTT n waits ∈ run_calls (run w fuel) tt → n = S k ∧ length waits = k.
Proof.
  split; [split|].
  - intros (fuel & code & Hv). assert (Ho : run_val (run w fuel) tt ≠ Blocked) by by rewrite Hv.
    destruct (run_ends w fuel Ho) as [(c & early & He & _)|(He & config & Hl & Hcase)].
    { unfold early_exit in He. destruct (Parse (args w)) as [[|x rest]| |e]; [right; left|by left..].
      by destruct (loaded w). }
    right. right. exists config. split; [done|]. rewrite Hv in Hcase.
    destruct Hcase as [(-> & Hf & _)|(-> & n & waits & mid & r & Hm & _ & Hf & Hr)];
      symmetry in Hf; apply finish_returned in Hf as [Hd Hcode].
    + done.
    + subst r. destruct (main_loop_first w fuel n waits Hm) as (k & Hk & _).
      destruct Hr as [(Hs & _ & _)|(pre & a & post & _ & _ & Hr)]; [|done]. split; [by exists k|done].
  - assert (Hearly : is_Some (early_exit w) → ∃ fuel code, run_val (run w fuel) tt = Returned code).
    { intros [[c acts] He]. exists 0%nat, c. unfold run_val. by rewrite (run_early w 0 tt c acts He). }
    destruct (early_or_loaded w) as [He|(He & Hp & config & Hl)]; [intros _; by apply Hearly|].
    intros [?|[Hno|(config' & Hl' & Hcase)]]; [done|by rewrite Hl in Hno|]. assert (config' = config) as -> by congruence.
    destruct (is_ok (http_start w config).1) eqn:Hok.
    + destruct Hcase as ((k & Hk) & Hs & Hd). exists (S k), 0. by eapply run_completes.
    + exists 0%nat, 1. unfold run_val. rewrite (run_eq w 0 config Hp Hl tt).
      destruct (http_start w config) as [[[]|e] calls]; [done|]. rewrite call_then. cbn [fst].
      by rewrite (unwind_completes w deferred_early (Returned 1) tt Hcase).
  - intros k fuel Hk Hf. split; [by apply run_fuel|]. intros n ws Hin.
    destruct (early_or_loaded w) as [[[code acts] He]|(_ & Hp & config & Hl)].
    { exfalso. unfold run_calls in Hin. rewrite (run_early w fuel tt code acts He) in Hin. cbn [snd] in Hin.
      apply elem_of_app in Hin as [Hin|Hin]; [|set_solver]. by destruct (early_actions w code acts _ He Hin) as [?|[e ?]]. }
    apply (run_connect w fuel config n ws Hl) in Hin as [Hm _].
    destruct (main_loop_success w k fuel Hk Hf) as (waits & Hm' & Hlen & _). rewrite Hm' in Hm. by injection Hm as <- <-.
Qed.
End program.

(** ** Examples and witnesses *)

Definition witness_run (config : result Config.Config) (args : list string) : world :=
  mkWorld args config 0 (λ _, Ok 7) (λ _ _ _ _, Ok tt) (Ok 0%nat) (Err (Errorf "unavailable" []))
    (λ i, if Nat.ltb i 3 then Err (Errorf "refused" []) else Ok tt) (λ _, flit 1 2) (λ _ _, Completes).

Definition public_config : Config.Config :=
  set_EntropyPool (EntropyPool.mk 512 16384 1024 "0.0.0.0:9797" 1 false 25 25 false EmptyString EmptyString
    EmptyString "none") defaultConfig.

(** Two failed attempts, then a signal; and an address that is refused. *)
Example run_ex :
  let U := Config.witness_lower in let FS := witness_fs in
  let w := witness_run (Load ∅) [] in
  run_val (run w 10) tt = Returned 0 ∧
  stop_actions = drop 6 (take 11 (run_calls (run w 10) tt)) ∧
  deferred defaultConfig = drop 11 (run_calls (run w 10) tt) ∧
  run_val (run (witness_run (Ok public_config) []) 10) tt = Returned 1 ∧
  length (run_calls (run (witness_run (Ok public_config) []) 10) tt) = 4%nat ∧
  run_val (run (witness_run (Load ∅) ["-v"]) 10) tt = Returned 2 ∧
  run_val (run (witness_run (Load ∅) ["--help=1"]) 10) tt = Returned 0 ∧
  run_val (run (witness_run (Load ∅) ["x"]) 10) tt = Returned 2.
Proof. vm_compute. by split_and!. Qed.

Lemma run_exposure_witness :
  let U := Config.witness_lower in let FS := witness_fs in
  let w := witness_run (Load ∅) [] in
  ∃ config, Load ∅ = Ok config ∧
    EntropyHTTP.Listen "127.0.0.1:9797" ∈ http_actions (run_calls (run w 10) tt) ∧
    ((∃ host port, SplitHostPort "127.0.0.1:9797" = Ok (host, port) ∧ is_loopback_host host) ∨
     EntropyPool.AllowPublic (EntropyPool config) = true).
Proof.
  intros U FS w.
  assert (H1 : EntropyHTTP.Listen "127.0.0.1:9797" ∈ http_actions (run_calls (run w 10) tt)).
  { assert (http_actions (run_calls (run w 10) tt) =
      [EntropyHTTP.Listen "127.0.0.1:9797"; EntropyHTTP.Serve (EntropyHTTP.TCPListener 7);
       EntropyHTTP.ShutdownServer (Some (10 * Second)); EntropyHTTP.ShutdownServer None]) as ->
      by (vm_compute; reflexivity).
    apply elem_of_cons. left. reflexivity. }
  assert (H2 : ∃ config, Load ∅ = Ok config) by (eexists; vm_compute; reflexivity).
  destruct H2 as [config E]. refine (ex_intro _ config (conj E (conj H1 _))).
  destruct (@run_exposure U ∅ w 10 config "127.0.0.1:9797" FS E E H1) as [H3|[H3 _]]; [by left|by right].
Defined.

(** The default configuration with a broker, a signal and calls that return; and without the signal. *)
Definition no_signal (p : place) (a : action) : fate := match a with AwaitSignal => Blocks | _ => Completes end.

Definition waiting (w : world) : world :=
  mkWorld (args w) (loaded w) (now w) (net_Listen w) (configure w) (built w) (opened w) (broker w) (rng w) no_signal.

Lemma run_returns_witness :
  let U := Config.witness_lower in let FS := witness_fs in
  let w := witness_run (Load ∅) [] in
  first_success w 2 ∧ run w 10 tt = run w 3 tt ∧
  ¬ ∃ fuel code, run_val (run (waiting w) fuel) tt = Returned code.
Proof.
  intros U FS w. assert (H1 : first_success w 2).
  { split; [|reflexivity]. intros i Hi. assert (i = 1 ∨ i = 2)%nat as [->| ->] by lia; reflexivity. }
  split; [exact H1|]. split; [exact (proj1 (proj2 (@run_returns U w) 2%nat 10%nat H1 ltac:(lia)))|].
  intros H2. apply (proj1 (proj1 (@run_returns U (waiting w)))) in H2.
  destruct H2 as [H2|[H2|(config & E & H2)]].
  - apply H2. reflexivity.
  - revert H2. vm_compute. discriminate.
  - assert (H3 : match Load ∅ with Ok c => is_ok (http_start (waiting w) c).1 | Err _ => false end = true)
      by (vm_compute; reflexivity).
    change (Load ∅ = Ok config) in E. rewrite E in H3. rewrite H3 in H2. destruct H2 as (_ & H2 & _). apply Forall_inv in H2. discriminate.
Defined.
