(* ===== verification/Lifetime.v ===== *)
(** * What a run leaves behind

    [Main.run] emits what the program does; here a history weaves its actions
    with what happens meanwhile, and [after] says which parts of the program are
    up, so that closing something twice, too early or in vain makes a difference:
    [Client.Close] of internal/mqtt disconnects only when the connection is open,
    while a lost one comes back by itself, and the goroutine that connects to the
    cloud may attach its client at any time. *)

From S2P Require Import Prelude GoStrings Clock Config GrpcClient Startup Main.
From S2P Require EntropyHTTP.

(** ** Histories *)

(** What happens outside the goroutine of [run]: the connection to the broker is
    lost, and comes back since the client reconnects by itself; the client of an
    attempt that was given up, whose [Close] found no open connection, connects
    after all; the connector attaches its client, or sees that its context is done. *)
Inductive outside := ConnectionLost | ConnectionBack | StrayConnects | ConnectorAttaches | ConnectorStops.

Inductive event := Does (a : action) | Happens (e : outside).

(** Events of the broker arrive while the connection is [Up]; a client that is
    [Lost] tries to reconnect. *)
Inductive link := Down | Up | Lost.

(** [up r]: [r] listens, is attached, takes events or, for the connector, has a
    live context; [conn] is the client [run] connected; [failed] counts the
    attempts before it and [strays] those of their clients that have connected;
    [dialling]: the connector goroutine runs. *)
Record held := mkHeld {
  up : resource → bool;
  conn : link;
  failed : nat;
  strays : nat;
  dialling : bool;
}.

Definition idle : held := mkHeld (λ _, false) Down 0 0 false.

(** [Close] of the MQTT client: [Disconnect] only if [IsConnectionOpen]. *)
Definition close_link (l : link) : link := match l with Up => Down | _ => l end.

(** A call that did not return has no effect one could rely on. *)
Definition does (a : action) (h : held) : held :=
  mkHeld
    (λ r, if decide (stops a = Some r) then false else if decide (starts a = Some r) then true else up h r)
    (match a with ConnectMQTT _ _ => Up | CloseMQTT => close_link (conn h) | _ => conn h end)
    (match a with ConnectMQTT n _ => pred n | _ => failed h end)
    (strays h)
    (match a with GoConnector => true | _ => dialling h end).

Definition happens (e : outside) (h : held) : option held :=
  match e with
  | ConnectionLost =>
      match conn h with Up => Some (mkHeld (up h) Lost (failed h) (strays h) (dialling h)) | _ => None end
  | ConnectionBack =>
      match conn h with Lost => Some (mkHeld (up h) Up (failed h) (strays h) (dialling h)) | _ => None end
  | StrayConnects =>
      if Nat.ltb (strays h) (failed h) then Some (mkHeld (up h) (conn h) (failed h) (S (strays h)) (dialling h)) else None
  | ConnectorAttaches =>
      if dialling h
      then Some (mkHeld (λ r, if decide (r = CloudClient) then true else up h r) (conn h) (failed h) (strays h) false)
      else None
  | ConnectorStops =>
      if dialling h && negb (up h Connector) then Some (mkHeld (up h) (conn h) (failed h) (strays h) false) else None
  end.

Definition next (ev : event) (h : held) : option held :=
  match ev with Does a => Some (does a h) | Happens e => happens e h end.

Fixpoint after (h : held) (l : list event) : option held :=
  match l with
  | [] => Some h
  | ev :: l => h' ← next ev h; after h' l
  end.

(** What the program itself did. *)
Definition did (l : list event) : list action := omap (λ ev, match ev with Does a => Some a | Happens _ => None end) l.

Lemma after_app h l k : after h (l ++ k) = (h' ← after h l; after h' k).
Proof. revert h. induction l as [|ev l IH]; intros h; [done|]. cbn. destruct (next ev h); [apply IH|done]. Qed.

Lemma after_app_some h l k u : after h (l ++ k) = Some u → ∃ t, after h l = Some t ∧ after t k = Some u.
Proof. rewrite after_app. destruct (after h l) as [t|]; [|done]. by exists t. Qed.

Lemma did_app l k : did (l ++ k) = did l ++ did k.
Proof. apply omap_app. Qed.

Lemma elem_of_did a l : a ∈ did l ↔ Does a ∈ l.
Proof.
  unfold did. rewrite list_elem_of_omap. split; [|by intros; exists (Does a)].
  intros ([b|e] & Hin & E); by simplify_eq.
Qed.

(** An invariant of the events of a piece of history. *)
Lemma after_keeps (P : held → Prop) l h u :
  after h l = Some u → (∀ ev t t', ev ∈ l → next ev t = Some t' → P t → P t') → P h → P u.
Proof.
  revert h. induction l as [|ev l IH]; intros h; cbn; [by intros [= <-]|].
  destruct (next ev h) as [h'|] eqn:E; [|done]. cbn. intros Hl Hstep Hh. apply (IH h' Hl).
  - intros e t t' He. apply Hstep. by right.
  - eapply Hstep; [by left|exact E|done].
Qed.

(** ** Cleaning up *)

(** No take-down of [r] got through, and at least one panicked. *)
Definition not_let_down (r : resource) (acts : list action) : Prop :=
  (∀ b, b ∈ acts → stops b ≠ Some r) ∧ ∃ b, stops b = Some r ∧ Interrupted b ∈ acts.

(** The connector attached its client, and no [Close] of the forwarder got through after that. *)
Definition late_attach (hist : list event) : Prop :=
  ∃ pre post, hist = pre ++ Happens ConnectorAttaches :: post ∧ Does DetachCloud ∉ post.

(** The call was made, whether or not it returned. *)
Definition called (b : action) (acts : list action) : Prop := b ∈ acts ∨ Interrupted b ∈ acts.

(** What holds of a history [hist] of the actions [acts] that ends in [h]: of all
    but the broker's connection, only what the panics kept up and a cloud client
    attached too late are up; the forwarder and the client of the broker were told
    to close, and from the moment the latter found no lost connection on, it stays
    down; and there are strays only of failed attempts. *)
Record cleaned (acts : list action) (hist : list event) (h : held) : Prop := {
  cl_down : ∀ r, r ≠ MQTTClient → up h r = true → not_let_down r acts ∨ r = CloudClient ∧ late_attach hist;
  cl_told : ∀ n waits, ConnectMQTT n waits ∈ acts → called CloseMQTT acts;
  cl_detached : GoConnector ∈ acts ∨ AttachCloud ∈ acts → called DetachCloud acts;
  cl_link : ∀ pre mid post t u, hist = pre ++ Does CloseMQTT :: mid ++ post →
    after idle pre = Some t → conn t ≠ Lost → after idle (pre ++ Does CloseMQTT :: mid) = Some u → conn u = Down;
  cl_strays : strays h = 0%nat ∨ ∃ n waits, ConnectMQTT n waits ∈ acts ∧ (strays h ≤ pred n)%nat;
}.

(** A part that comes up again was attached by the connector. *)
Lemma comes_up r l t u :
  after t l = Some u → up t r = false → up u r = true → (∀ a, Does a ∈ l → starts a ≠ Some r) →
  r = CloudClient ∧ late_attach l.
Proof.
  revert u. induction l as [|ev l IH] using rev_ind; intros u; [by intros [= <-] ->|].
  intros (m & Hm & Hn)%after_app_some Ht Hu Hs. cbn in Hn. destruct (next ev m) as [m'|] eqn:E; [|done].
  injection Hn as ->. destruct (up m r) eqn:Hr.
  - destruct (IH m Hm Ht Hr) as (-> & pre & post & -> & Hno); [intros a Ha; apply Hs, elem_of_app; by left|].
    split; [done|]. exists pre, (post ++ [ev]). split; [by rewrite <-(assoc_L (++))|].
    intros [Hd|Hd%list_elem_of_singleton]%elem_of_app; [done|]. subst ev. cbn in E. injection E as <-. done.
  - destruct ev as [a|e]; cbn in E.
    + exfalso. injection E as <-. cbn in Hu. case_decide; [done|]. case_decide as Ha; [|congruence].
      apply (Hs a); [|done]. apply elem_of_app. right. by left.
    + destruct e; unfold happens in E; repeat case_match; simplify_eq/=; try congruence.
      case_decide as Hr'; [|congruence]. split; [done|]. exists l, []. split; [done|]. apply not_elem_of_nil.
Qed.

(** The two phases of a run: it brings things up, then it takes them down. *)
Definition phases (acts : list action) : Prop :=
  ∃ front back, acts = front ++ back ∧ (∀ a, a ∈ front → quiet a) ∧ (∀ a, a ∈ back → starts a = None) ∧
    ∀ r a, a ∈ front → starts a = Some r → ∃ b, stops b = Some r ∧ (b ∈ back ∨ Interrupted b ∈ back).

(** What follows a take-down starts nothing. *)
Lemma phases_split acts l b k :
  phases acts → acts = l ++ b :: k → is_Some (stops b) → ∀ a, a ∈ k → starts a = None.
Proof.
  intros (front & back & E1 & Hq & Hb & _) E2 [r Hr] a Ha. rewrite E1 in E2.
  apply app_eq_inv in E2 as [(m & -> & E)|(m & -> & E)].
  - destruct m as [|x m]; cbn in E.
    + apply Hb. rewrite <-E. by right.
    + exfalso. injection E as <- _. destruct (Hq b) as (_ & Hn & _); [|congruence]. apply elem_of_app. right. by left.
  - apply Hb. rewrite E, elem_of_app. right. by right.
Qed.

Lemma down_at_end acts hist h r :
  phases acts → did hist = acts → after idle hist = Some h → up h r = true →
  not_let_down r acts ∨ r = CloudClient ∧ late_attach hist.
Proof.
  intros Hph Hd Ha Hu. destruct (decide (Exists (λ b, stops b = Some r) acts)) as [(b & Hb & Hs)%Exists_exists|Hno].
  - right. rewrite <-Hd in Hb. apply elem_of_did in Hb. apply list_elem_of_split in Hb as (l & k & ->).
    apply after_app_some in Ha as (t & _ & Hk). cbn in Hk.
    assert (Hst : ∀ a, Does a ∈ k → starts a ≠ Some r).
    { intros a Hin. rewrite did_app in Hd. rewrite (phases_split acts (did l) b (did k) Hph); [done|by rewrite <-Hd|done|by apply elem_of_did]. }
    destruct (comes_up r k _ h Hk) as (-> & pre & post & -> & Hn); [cbn; by case_decide|done|done|].
    split; [done|]. exists (l ++ Does b :: pre), post. split; [by rewrite <-(assoc_L (++))|done].
  - assert (Hall : ∀ b, b ∈ acts → stops b ≠ Some r).
    { intros b Hb Hs. apply Hno, Exists_exists. by exists b. }
    destruct (decide (Exists (λ a, starts a = Some r) acts)) as [(a & Hin & Hs)%Exists_exists|Hnone].
    + left. split; [done|]. destruct Hph as (front & back & -> & Hq & Hb & Hend).
      apply elem_of_app in Hin as [Hin|Hin]; [|rewrite (Hb a Hin) in Hs; done].
      destruct (Hend r a Hin Hs) as (b & Hbs & [Hbin|Hbin]).
      * exfalso. apply (Hall b); [apply elem_of_app; by right|done].
      * exists b. split; [done|]. apply elem_of_app. by right.
    + right. apply (comes_up r hist idle h Ha eq_refl Hu). intros a Hin Hs. apply Hnone, Exists_exists.
      exists a. split; [rewrite <-Hd; by apply elem_of_did|done].
Qed.

Lemma link_stays_down acts hist pre mid post t u :
  phases acts → did hist = acts → hist = pre ++ Does CloseMQTT :: mid ++ post →
  after idle pre = Some t → conn t ≠ Lost → after idle (pre ++ Does CloseMQTT :: mid) = Some u → conn u = Down.
Proof.
  intros Hph Hd -> Ht Hl Hu. rewrite after_app, Ht in Hu. cbn in Hu.
  assert (Hst : ∀ a, Does a ∈ mid → starts a = None).
  { intros a Hin. apply (phases_split acts (did pre) CloseMQTT (did (mid ++ post)) Hph).
    - rewrite <-Hd, did_app. done.
    - by eexists.
    - apply elem_of_did, elem_of_app. by left. }
  refine (after_keeps (λ s, conn s = Down) mid _ u Hu _ _).
  - intros [a|e] s s' Hin Hs Hc; cbn in Hs.
    + injection Hs as <-. cbn. pose proof (Hst a Hin) as Hn. destruct a; try done; by rewrite Hc.
    + destruct e; unfold happens in Hs; repeat case_match; simplify_eq/=; congruence.
  - cbn. destruct (conn t); done.
Qed.

Lemma strays_bounded hist h N :
  after idle hist = Some h → (∀ n waits, Does (ConnectMQTT n waits) ∈ hist → n = N) → (strays h ≤ pred N)%nat.
Proof.
  intros Ha Hn. enough (strays h ≤ pred N ∧ failed h ≤ pred N)%nat by lia.
  refine (after_keeps (λ s, strays s ≤ pred N ∧ failed s ≤ pred N)%nat hist idle h Ha _ _); [|cbn; lia].
  intros [a|e] s s' Hin Hs [H1 H2]; cbn in Hs.
  - injection Hs as <-. cbn. split; [done|]. destruct a; try done. by rewrite (Hn _ _ Hin).
  - destruct e; unfold happens in Hs; repeat case_match; simplify_eq/=; try done. split; [|done].
    match goal with H : Nat.ltb _ _ = true |- _ => apply Nat.ltb_lt in H end. lia.
Qed.

(** A history that starts nothing leaves nothing. *)
Lemma nothing_started hist h :
  after idle hist = Some h → (∀ a, Does a ∈ hist → starts a = None) →
  (∀ r, up h r = false) ∧ conn h = Down ∧ strays h = 0%nat.
Proof.
  intros Ha Hs. enough (((∀ r, up h r = false) ∧ conn h = Down ∧ strays h = 0%nat) ∧ failed h = 0%nat ∧ dialling h = false) by tauto.
  refine (after_keeps (λ s, ((∀ r, up s r = false) ∧ conn s = Down ∧ strays s = 0%nat) ∧ failed s = 0%nat ∧ dialling s = false)
    hist idle h Ha _ _); [|done].
  intros [a|e] s s' Hin Hn ((Hu & Hc & Hst) & Hf & Hd); cbn in Hn.
  - injection Hn as <-. pose proof (Hs a Hin) as E. cbn. split; [split; [|split; [|done]]|].
    + intros r. repeat case_decide; try done. congruence.
    + destruct a; try done. by rewrite Hc.
    + by destruct a.
  - destruct e; unfold happens in Hn; rewrite ?Hc, ?Hst, ?Hf, ?Hd in Hn; by repeat case_match; simplify_eq/=.
Qed.

(** What is started and never told to stop stays up. *)
Lemma stays_up r a hist h :
  after idle hist = Some h → Does a ∈ hist → starts a = Some r → stops a = None →
  (∀ b, Does b ∈ hist → stops b = None) → up h r = true ∧ (r = MQTTClient → conn h ≠ Down).
Proof.
  intros Ha (l & k & ->)%list_elem_of_split Hs Ht Hn. apply after_app_some in Ha as (t & _ & Hk). cbn in Hk.
  refine (after_keeps (λ s, up s r = true ∧ (r = MQTTClient → conn s ≠ Down)) k _ h Hk _ _).
  - intros [b|e] s s' Hin E [Hu Hc]; cbn in E.
    + injection E as <-. cbn. assert (Hb : stops b = None) by (apply Hn; rewrite elem_of_app, elem_of_cons; auto).
      split; [repeat case_decide; congruence|]. by destruct b.
    + destruct e; unfold happens in E; repeat case_match; simplify_eq/=; try done; try (split; [|done]; by repeat case_decide).
  - cbn. split; [by rewrite Ht, Hs; repeat case_decide|]. intros ->. by destruct a; cbn in Hs; repeat case_match; simplify_eq.
Qed.

(** ** Every run is cleaned up *)

Section program.
Context `{GoUnicode}.

Lemma tried_in w (ds : list action) b : b ∈ ds → b ∈ tried w Deferred <$> ds ∨ Interrupted b ∈ tried w Deferred <$> ds.
Proof.
  intros Hb. destruct (completes w Deferred b) eqn:Hc; [left|right]; apply list_elem_of_fmap;
    exists b; (split; [by unfold tried; rewrite Hc|done]).
Qed.

Lemma closing_starts a : closing a → starts a = None.
Proof. intros [->|[[r Hr]|[b ->]]]; [done| |done]. by destruct a; cbn in *; repeat case_match; simplify_eq. Qed.

Lemma tried_starts w (ds : list action) d : (∀ a, a ∈ ds → a = AwaitSignal ∨ is_Some (stops a)) → d ∈ tried w Deferred <$> ds → starts d = None.
Proof. intros Hds (a & -> & Ha)%list_elem_of_fmap. by apply closing_starts, tried_closing, Hds. Qed.

Lemma stop_starts a : a ∈ stop_actions → starts a = None.
Proof. unfold stop_actions. rewrite !elem_of_cons, elem_of_nil. naive_solver. Qed.

(** Whatever is brought up has a deferred take-down. *)
Lemma deferred_all w config n waits r a :
  a ∈ brought_up w config n waits → starts a = Some r → ∃ b, stops b = Some r ∧ b ∈ deferred config.
Proof.
  intros Ha Hs. assert (Hr : cloud_enabled config = true ∨ r ≠ CloudClient).
  { unfold brought_up in Ha. rewrite elem_of_cons, elem_of_app, elem_of_app in Ha.
    destruct Ha as [->|[Ha|[Ha|Ha%list_elem_of_singleton]]].
    - right. by injection Hs as <-.
    - right. by rewrite (http_start_actions w config a r Ha Hs).
    - apply up_cases in Ha as [[c ->]|[[c ->]|[[? _]| ->]]]; [done..|by left|right; by injection Hs as <-].
    - subst a. right. by injection Hs as <-. }
  unfold deferred. destruct r.
  - exists (ShutdownMetrics (5 * Second)). split; [done|]. destruct (cloud_enabled config); set_solver.
  - exists (Http (EntropyHTTP.ShutdownServer None)). split; [done|]. destruct (cloud_enabled config); set_solver.
  - exists DetachCloud. destruct Hr as [->|?]; [|done]. split; [done|]. set_solver.
  - exists CancelRoot. split; [done|]. destruct (cloud_enabled config); set_solver.
  - exists CloseCollector. split; [done|]. set_solver.
  - exists CloseMQTT. split; [done|]. set_solver.
Qed.

Lemma brought_up_quiet w config n waits a : a ∈ brought_up w config n waits → quiet a.
Proof.
  unfold brought_up. rewrite elem_of_cons, elem_of_app, elem_of_app.
  intros [->|[Ha|[Ha|Ha%list_elem_of_singleton]]]; [done|by apply http_start_quiet in Ha|by apply up_quiet in Ha|by subst a].
Qed.

Lemma run_phases w fuel : run_val (run w fuel) tt ≠ Blocked → phases (run_calls (run w fuel) tt).
Proof.
  intros Ho. destruct (run_ends w fuel Ho) as [(code & early & He & _ & ->)|(_ & config & _ & [(Hf & _ & e & ->)|(_ & n & waits & mid & r & _ & -> & _ & Hr)])].
  - exists early, [CancelRoot]. split; [done|]. split; [|split; [set_solver|]].
    + intros a Ha. by destruct (early_actions w code early a He Ha) as [->|[e ->]].
    + intros r a Ha Hs. by destruct (early_actions w code early a He Ha) as [->|[e ->]].
  - exists (metrics_action config :: (http_start w config).2 ++ [Print e]), (tried w Deferred <$> deferred_early).
    split; [cbn [app]; by rewrite <-(assoc_L (++))|]. split; [|split; [intros a; apply tried_starts, early_closing|]].
    + intros a [->|[Ha|Ha%list_elem_of_singleton]%elem_of_app]%elem_of_cons; [done|by apply http_start_quiet in Ha|by subst a].
    + intros r a [->|[Ha|Ha%list_elem_of_singleton]%elem_of_app]%elem_of_cons Hs; [|by rewrite (http_failed_actions w config) in Hs|by subst a].
      injection Hs as <-. exists (ShutdownMetrics (5 * Second)). split; [done|]. apply tried_in. by left.
  - exists (brought_up w config n waits), (mid ++ (tried w Deferred <$> deferred config)). split; [done|].
    split; [apply brought_up_quiet|split].
    + intros a [Ha|Ha]%elem_of_app; [|eapply tried_starts; [|exact Ha]; intros b Hb; apply (stop_closing config), elem_of_app; by right].
      destruct Hr as [(_ & -> & _)|(pre & b & post & E & -> & _)]; [by apply stop_starts|].
      apply elem_of_app in Ha as [Ha|Ha%list_elem_of_singleton]; [|by subst a].
      apply stop_starts. rewrite E. apply elem_of_app. by left.
    + intros x a Ha Hs. destruct (deferred_all w config n waits x a Ha Hs) as (b & Hb & Hin). exists b. split; [done|].
      destruct (tried_in w _ b Hin); rewrite !elem_of_app; auto.
Qed.

(** A run that starts something has loaded its configuration. *)
Lemma run_loaded w fuel a r : a ∈ run_calls (run w fuel) tt → starts a = Some r → ∃ config, loaded w = Ok config.
Proof.
  intros Hin Hs. destruct (early_or_loaded w) as [[[code early] He]|(_ & _ & ?)]; [|done]. exfalso.
  unfold run_calls in Hin. rewrite (run_early w fuel tt _ _ He) in Hin.
  apply elem_of_app in Hin as [Hin|Hin%list_elem_of_singleton]; [|by subst a].
  by destruct (early_actions w code early a He Hin) as [-> |[e ->]].
Qed.

(** Strays are clients of failed attempts. *)
Lemma run_strays w fuel hist h :
  did hist = run_calls (run w fuel) tt → after idle hist = Some h →
  strays h = 0%nat ∨ ∃ n waits, ConnectMQTT n waits ∈ run_calls (run w fuel) tt ∧ (strays h ≤ pred n)%nat.
Proof.
  intros Hd Ha. destruct (decide (strays h = 0%nat)) as [|Hs]; [by left|right].
  destruct (decide (Exists (λ a, starts a = Some MQTTClient) (did hist))) as [(a & Hin & Ea)%Exists_exists|Hno].
  - destruct a; cbn in Ea; repeat case_match; simplify_eq. rewrite Hd in Hin. eexists _, _. split; [exact Hin|].
    apply (strays_bounded hist); [done|]. intros n' waits' Hin'%elem_of_did. rewrite Hd in Hin'.
    destruct (run_loaded w fuel _ MQTTClient Hin eq_refl) as [config Hl].
    destruct (run_connect w fuel config _ _ Hl Hin) as [E1 _], (run_connect w fuel config _ _ Hl Hin') as [E2 _]. congruence.
  - exfalso. enough (strays h ≤ pred 0)%nat by lia. apply (strays_bounded hist); [done|]. intros n waits Hin. exfalso.
    apply Hno, Exists_exists. exists (ConnectMQTT n waits). split; [by apply elem_of_did|done].
Qed.

(** What a run that has got past its servers has done, its deferred calls included. *)
Lemma run_told w fuel config a r d :
  run_val (run w fuel) tt ≠ Blocked → loaded w = Ok config →
  a ∈ run_calls (run w fuel) tt → starts a = Some r → r ≠ MetricsServer → r ≠ EntropyServer →
  d ∈ deferred config → called d (run_calls (run w fuel) tt).
Proof.
  intros Ho Hl Hin Hs Hm He Hd.
  assert (Hok : is_ok (http_start w config).1 = true).
  { destruct (run_cases w fuel config a Hl Hin) as [Hc|[->|[Hh|[? _]]]]; [|by injection Hs as <-| |done].
    - destruct Hc as [->|[[e ->]|Hc%closing_starts]]; [done..|congruence].
    - by rewrite (http_start_actions w config a r Hh Hs) in He. }
  unfold called. destruct (run_ends w fuel Ho) as [(code & early & Hex & _ & E)|(_ & config' & Hl' & Hcase)].
  - exfalso. rewrite E in Hin. apply elem_of_app in Hin as [Hin|Hin%list_elem_of_singleton]; [|by subst a].
    by destruct (early_actions w code early a Hex Hin) as [-> |[e ->]].
  - assert (config' = config) as -> by congruence. destruct Hcase as [(Hf & _)|(_ & n & waits & mid & o & _ & -> & _)]; [congruence|].
    destruct (tried_in w _ d Hd); rewrite !elem_of_app; auto.
Qed.

Lemma run_told_mqtt w fuel n waits :
  run_val (run w fuel) tt ≠ Blocked → ConnectMQTT n waits ∈ run_calls (run w fuel) tt →
  called CloseMQTT (run_calls (run w fuel) tt).
Proof.
  intros Ho Hin. destruct (run_loaded w fuel (ConnectMQTT n waits) MQTTClient Hin eq_refl) as [config Hl].
  apply (run_told w fuel config _ MQTTClient CloseMQTT Ho Hl Hin); [done..|]. by left.
Qed.

Lemma run_told_cloud w fuel :
  run_val (run w fuel) tt ≠ Blocked → let acts := run_calls (run w fuel) tt in
  GoConnector ∈ acts ∨ AttachCloud ∈ acts → called DetachCloud acts.
Proof.
  intros Ho acts Ha.
  assert (Hex : ∃ a r, a ∈ acts ∧ starts a = Some r ∧ (a = GoConnector ∨ a = AttachCloud) ∧ (r = Connector ∨ r = CloudClient)).
  { destruct Ha as [Ha|Ha]; eexists _, _; split_and!; eauto. }
  destruct Hex as (a & r & Hin & Hs & Ha' & Hr). destruct (run_loaded w fuel a r Hin Hs) as [config Hl].
  apply (run_told w fuel config a r DetachCloud Ho Hl Hin Hs); [naive_solver..|].
  destruct (run_cases w fuel config a Hl Hin) as [Hc|[->|[Hh|(_ & [Hu|(n & ws & _ & ->)])]]].
  - destruct Hc as [->|[[e ->]|Hc%closing_starts]]; [done..|congruence].
  - naive_solver.
  - pose proof (http_start_actions w config a r Hh Hs). naive_solver.
  - apply up_cases in Hu as [[c ->]|[[c ->]|[[Hc _]| ->]]]; [naive_solver..| |naive_solver].
    unfold deferred. rewrite Hc. set_solver.
  - naive_solver.
Qed.

(** All of a run that comes to an end is cleaned up. *)
Lemma run_cleaned w fuel hist h :
  let acts := run_calls (run w fuel) tt in
  run_val (run w fuel) tt ≠ Blocked → did hist = acts → after idle hist = Some h → cleaned acts hist h.
Proof.
  intros acts Ho Hd Ha. pose proof (run_phases w fuel Ho) as Hph. split.
  - intros r _. by apply down_at_end.
  - intros n waits. by apply run_told_mqtt.
  - by apply run_told_cloud.
  - intros pre mid post t u. by apply link_stays_down with (acts := acts).
  - by apply (run_strays w fuel hist h).
Qed.

(** What an exit code says: no call was interrupted; 2 is for bad arguments and 0
    for help or a signal; and after the signal come the client of the broker and
    the collector, in this order, before which nothing is taken down. *)
Record coded (w : world) (code : Z) (acts : list action) : Prop := {
  cd_returns : ∀ b, Interrupted b ∉ acts;
  cd_usage : code = 2 ↔ Parse (args w) ≠ ParseOk [] ∧ Parse (args w) ≠ ParseHelp;
  cd_zero : code = 0 ↔ Parse (args w) = ParseHelp ∨ AwaitSignal ∈ acts;
  cd_codes : code = 0 ∨ code = 1 ∨ code = 2;
  cd_order : AwaitSignal ∈ acts →
    ∃ pre post, acts = pre ++ [AwaitSignal; CloseMQTT; CloseCollector] ++ post ∧ ∀ a, a ∈ pre → quiet a;
}.

Lemma tried_all w (ds : list action) : Forall (λ a, completes w Deferred a = true) ds → tried w Deferred <$> ds = ds.
Proof. induction 1 as [|d ds Hd _ IH]; [done|]. cbn. unfold tried at 1. by rewrite Hd, IH. Qed.

Lemma quiet_no (l : list action) : (∀ a, a ∈ l → quiet a) → (AwaitSignal ∉ l) ∧ ∀ b, Interrupted b ∉ l.
Proof. intros Hl. split; [|intros b]; intros Hin; by apply Hl in Hin as (? & ? & ?). Qed.

Lemma early_quiet w code early a : early_exit w = Some (code, early) → a ∈ early → quiet a.
Proof. intros He Ha. by destruct (early_actions w code early a He Ha) as [-> |[e ->]]. Qed.

Lemma coded_early w code early : early_exit w = Some (code, early) → coded w code (early ++ [CancelRoot]).
Proof.
  intros He. destruct (quiet_no early (λ a, early_quiet w code early a He)) as [Hno Hint].
  assert (Hs : AwaitSignal ∉ early ++ [CancelRoot]).
  { intros [?|?%list_elem_of_singleton]%elem_of_app; done. }
  unfold early_exit in He. split; [|destruct (Parse (args w)) as [[|x rest]| |e]; [destruct (loaded w) as [config|e]|..]; naive_solver..].
  intros b [Hb|Hb%list_elem_of_singleton]%elem_of_app; [by apply (Hint b)|done].
Qed.

Lemma coded_failed w config e :
  early_exit w = None → loaded w = Ok config →
  coded w 1 (metrics_action config :: (http_start w config).2 ++ [Print e] ++ deferred_early).
Proof.
  intros He Hl. assert (Hp : Parse (args w) = ParseOk []) by (destruct (early_or_loaded w) as [[x ?]|(_ & ? & _)]; congruence).
  destruct (quiet_no (http_start w config).2 (λ a, http_start_quiet w config a)) as [Hno Hint].
  assert (Hs : AwaitSignal ∉ metrics_action config :: (http_start w config).2 ++ [Print e] ++ deferred_early).
  { unfold deferred_early. cbn [app]. rewrite !elem_of_cons, elem_of_app, !elem_of_cons, elem_of_nil. naive_solver. }
  split; [|rewrite ?Hp; naive_solver..]. intros b. unfold deferred_early. cbn [app].
  rewrite !elem_of_cons, elem_of_app, !elem_of_cons, elem_of_nil. specialize (Hint b). naive_solver.
Qed.

Lemma coded_stopped w config n waits :
  early_exit w = None → loaded w = Ok config →
  coded w 0 (brought_up w config n waits ++ stop_actions ++ deferred config).
Proof.
  intros He Hl. assert (Hp : Parse (args w) = ParseOk []) by (destruct (early_or_loaded w) as [[x ?]|(_ & ? & _)]; congruence).
  destruct (quiet_no (brought_up w config n waits) (brought_up_quiet w config n waits)) as [Hno Hint].
  assert (Hs : AwaitSignal ∈ brought_up w config n waits ++ stop_actions ++ deferred config).
  { rewrite !elem_of_app. right. left. left. }
  split; [|rewrite ?Hp; naive_solver..|].
  - intros b [Hb|[Hb|Hb]%elem_of_app]%elem_of_app; [by apply (Hint b)|..].
    + unfold stop_actions in Hb. rewrite !elem_of_cons, elem_of_nil in Hb. naive_solver.
    + unfold deferred in Hb. destruct (cloud_enabled config); rewrite !elem_of_app, !elem_of_cons, ?elem_of_nil in Hb; naive_solver.
  - intros _. exists (brought_up w config n waits). eexists. split; [reflexivity|]. apply brought_up_quiet.
Qed.

Lemma run_coded w fuel code : run_val (run w fuel) tt = Returned code → coded w code (run_calls (run w fuel) tt).
Proof.
  intros Hv. assert (Ho : run_val (run w fuel) tt ≠ Blocked) by by rewrite Hv.
  destruct (run_ends w fuel Ho) as [(c & early & He & Hc & ->)|(He & config & Hl & [(_ & Hc & e & ->)|(_ & n & waits & mid & r & _ & -> & Hc & Hr)])];
    rewrite Hv in Hc.
  - injection Hc as ->. by apply coded_early.
  - symmetry in Hc. apply finish_returned in Hc as [Hall Hc]. injection Hc as <-. rewrite tried_all by done. by apply coded_failed.
  - symmetry in Hc. apply finish_returned in Hc as [Hall ->]. rewrite tried_all by done.
    destruct Hr as [(_ & -> & [= ->])|(pre & a & post & _ & _ & ?)]; [|done]. by apply coded_stopped.
Qed.

Lemma run_panicked w fuel :
  run_val (run w fuel) tt = Panicked → ∃ b, Interrupted b ∈ run_calls (run w fuel) tt.
Proof.
  intros Hv. assert (Ho : run_val (run w fuel) tt ≠ Blocked) by by rewrite Hv.
  assert (Hf : ∀ ds code, Panicked = finish w ds (Returned code) → ∃ b, Interrupted b ∈ tried w Deferred <$> ds).
  { intros ds code. unfold finish. destruct (forallb _ ds) eqn:E; [done|]. intros _.
    apply not_true_iff_false in E. rewrite forallb_forall in E.
    destruct (decide (Exists (λ d, completes w Deferred d = false) ds)) as [(d & Hd & Hc)%Exists_exists|Hno].
    - exists d. apply list_elem_of_fmap. exists d. split; [unfold tried; by rewrite Hc|done].
    - exfalso. apply E. intros d Hd%list_elem_of_In. destruct (completes w Deferred d) eqn:Hc; [done|].
      exfalso. apply Hno, Exists_exists. by exists d. }
  destruct (run_ends w fuel Ho) as [(c & early & He & Hc & ->)|(He & config & Hl & [(_ & Hc & e & ->)|(_ & n & waits & mid & r & _ & -> & Hc & Hr)])];
    rewrite Hv in Hc; [done|..].
  - destruct (Hf _ _ Hc) as [b Hb]. exists b. rewrite elem_of_cons, !elem_of_app. auto.
  - destruct Hr as [(_ & _ & ->)|(pre & a & post & _ & -> & _)].
    + destruct (Hf _ _ Hc) as [b Hb]. exists b. rewrite !elem_of_app. auto.
    + exists a. rewrite !elem_of_app, elem_of_cons. auto.
Qed.

(** C9: how the program cleans up, whatever happens meanwhile.  When [run] comes
    to an end, by returning or by a panic, what it has brought up is down: the
    metrics server, the entropy server, the collector, the cloud client and the
    context of the connector, unless every call to take it down panicked, or, for
    the cloud client, the connector attached it only after the forwarder had been
    closed, which nobody then closes.  The MQTT client has been told to close; a
    Close that finds the connection open, or closed, closes it for good, so
    that no event arrives any more; one that finds it lost does nothing, and
    the client may reconnect.  There are strays only of attempts that had
    failed.  When it returns a code no call was interrupted: the code is 0 after help
    or a signal, 2 on bad arguments and 1 on an error; nothing is taken down before the signal,
    and then the MQTT client is closed first and the collector next, so that its
    last batches still reach the pool and the cloud. *)
Theorem run_cleans_up w fuel hist h :
  let o := run_val (run w fuel) tt in let acts := run_calls (run w fuel) tt in
  o ≠ Blocked → did hist = acts → after idle hist = Some h →
  cleaned acts hist h ∧
  match o with
  | Returned code => coded w code acts
  | _ => ∃ b, Interrupted b ∈ acts
  end.
Proof.
  intros o acts Ho Hd Ha. split; [by eapply run_cleaned|]. destruct o as [code| |] eqn:E; [|by apply run_panicked|done].
  by apply (run_coded w fuel).
Qed.
End program.

(** ** Witnesses and what can be left *)

Lemma did_does (l : list action) : did (Does <$> l) = l.
Proof. induction l as [|a l IH]; [done|]. change (a :: did (Does <$> l) = a :: l). by rewrite IH. Qed.

Lemma did_happens e l : did (Happens e :: l) = did l.
Proof. done. Qed.

(** Something happens in the course of a list of actions. *)
Lemma did_woven (n : nat) (l : list action) e k : did ((Does <$> take n l) ++ Happens e :: (Does <$> drop n l) ++ (Happens <$> k)) = l.
Proof.
  rewrite did_app, did_happens, did_app, !did_does. assert (did (Happens <$> k) = []) as -> by by induction k.
  by rewrite app_nil_r, take_drop.
Qed.

Lemma after_does (l : list action) h : ∃ u, after h (Does <$> l) = Some u.
Proof. revert h. induction l as [|a l IH]; intros h; [by eexists|]. apply IH. Qed.

Lemma run_cleans_up_witness :
  let U := Config.witness_lower in let FS := witness_fs in
  let w := witness_run (Load ∅) [] in
  let acts := run_calls (run w 10) tt in
  ∃ h, after idle (Does <$> acts) = Some h ∧ cleaned acts (Does <$> acts) h ∧ coded w 0 acts.
Proof.
  intros U FS w acts. destruct (after_does acts idle) as [h Hh].
  assert (H1 : run_val (run w 10) tt = Returned 0) by (vm_compute; reflexivity).
  assert (H2 : run_val (run w 10) tt ≠ Blocked) by (rewrite H1; discriminate).
  destruct (@run_cleans_up U w 10 (Does <$> acts) h H2 (did_does acts) Hh) as [H3 H4].
  rewrite H1 in H4. exact (ex_intro _ h (conj Hh (conj H3 H4))).
Defined.

Lemma after_check (P : held → Prop) hist :
  match after idle hist with Some h => P h | None => False end → ∃ h, after idle hist = Some h ∧ P h.
Proof. destruct (after idle hist) as [h|]; [by exists h|done]. Qed.

(** The connection that [Close] finds lost comes back when the collector has been
    closed, and events arrive until the process is gone. *)
Lemma lost_connection_survives :
  let U := Config.witness_lower in let FS := witness_fs in
  let w := witness_run (Load ∅) [] in
  let acts := run_calls (run w 10) tt in
  ∃ hist h, run_val (run w 10) tt = Returned 0 ∧ did hist = acts ∧ after idle hist = Some h ∧
    conn h = Up ∧ up h TheCollector = false.
Proof.
  intros U FS w acts.
  set (hist := (Does <$> take 6 acts) ++ Happens ConnectionLost :: (Does <$> drop 6 acts) ++ (Happens <$> [ConnectionBack])).
  assert (E : ∃ h, after idle hist = Some h ∧ conn h = Up ∧ up h TheCollector = false)
    by (apply after_check; vm_compute; by split).
  destruct E as (h & E). exists hist, h. split; [by vm_compute|]. split; [exact (did_woven 6 acts ConnectionLost [ConnectionBack])|exact E].
Qed.

(** A configuration with a cloud service that cannot be reached at first. *)
Definition cloud_env : environ :=
  <["CLOUD_FORWARDER_ENABLED":="true"]> (<["CLOUD_FORWARDER_SERVER_ADDR":="cloud:50051"]> ∅).

Lemma detaches l : existsb (λ a, match a with DetachCloud => true | _ => false end) l = true → DetachCloud ∈ l.
Proof. intros (a & Ha & E)%existsb_exists. destruct a; try discriminate. by apply list_elem_of_In. Qed.

(** The connector gets through when the forwarder has been closed: its client stays attached. *)
Lemma late_client_survives :
  let U := Config.witness_lower in let FS := witness_fs in
  let w := witness_run (Load cloud_env) [] in
  let acts := run_calls (run w 10) tt in
  ∃ hist h, run_val (run w 10) tt = Returned 0 ∧ did hist = acts ∧ after idle hist = Some h ∧
    DetachCloud ∈ acts ∧ up h CloudClient = true.
Proof.
  intros U FS w acts. set (n := pred (length acts)).
  set (hist := (Does <$> take n acts) ++ Happens ConnectorAttaches :: (Does <$> drop n acts) ++ (Happens <$> [])).
  assert (E : ∃ h, after idle hist = Some h ∧ up h CloudClient = true) by (apply after_check; vm_compute; reflexivity).
  destruct E as (h & E1 & E2). exists hist, h. split; [by vm_compute|].
  split; [exact (did_woven n acts ConnectorAttaches [])|]. split; [exact E1|]. split; [|exact E2].
  apply detaches. vm_compute. reflexivity.
Qed.
