(* ===== verification/Program.v ===== *)
(** * The running program

    What [Main.run] starts is put together here: [boot] is the gateway with its
    server as the configuration makes it, and the clients' requests then run on
    it as [Traffic] says.  The second part is about how the process ends, with
    what [Main.run] leaves out: the goroutine of the metrics server, which calls
    [log.Fatalf], a panic of any other goroutine, and the signals that nobody
    waits for. *)

From S2P Require Import Prelude Float64 GoStrings GoNet GoStd GoURL Clock Metrics Proto HealthTests QuickTests.
From S2P Require Import MinEntropy Sha256 Whitening MqttHandler Pool Collector TokenBucket.
From S2P Require Import Config GrpcClient Forwarder Gateway Serving Traffic Startup Main Lifetime.
From S2P Require EntropyHTTP Routes MetricsHTTP.

Section boot.
Context `{MathLib, MapRange, ErrorText, GoUnicode, GoAppend}.

(** The gateway and its server once the server is up: the collector is empty, the
    pool is the one the server was given, and the server listens. *)
Definition boot (w : world) (config : Config.Config) : option serving :=
  let p := EntropyPool config in
  match validateEntropyAddr (EntropyPool.HTTPAddr p) (EntropyPool.AllowPublic p) with
  | Err _ => None
  | Ok _ =>
      match EntropyHTTP.NewHTTPServer (EntropyPool.HTTPAddr p)
              (Some (NewWhitenedPoolWithBounds (EntropyPool.PoolMinBytes p) (EntropyPool.PoolMaxBytes p)))
              (EntropyPool.ReadyMinBytes p) (EntropyPool.AllowPublic p) (EntropyPool.RetryAfterSec p)
              (EntropyPool.RateLimitRPS p) (EntropyPool.RateLimitBurst p) (now w) with
      | Err _ => None
      | Ok server =>
          match start_server w p server with
          | (Err _, _, _) => None
          | (Ok _, server, _) =>
              Some (initial_serving (Collector.BatchSize (Config.Collector config)) (cloud_enabled config)
                (EntropyPool.PoolMinBytes p) (EntropyPool.PoolMaxBytes p) server)
          end
      end
  end.

(** Starting only sets the listener. *)
Lemma start_server_keeps w p s r s' calls :
  start_server w p s = (r, s', calls) →
  EntropyHTTP.rateLimiter s' = EntropyHTTP.rateLimiter s ∧ EntropyHTTP.pool s' = EntropyHTTP.pool s ∧
  EntropyHTTP.readyThreshold s' = EntropyHTTP.readyThreshold s.
Proof.
  unfold start_server, EntropyHTTP.StartTLS, EntropyHTTP.Start, mbind, GoM_bind, get, call, modify, mret, GoM_ret.
  destruct (EntropyPool.TLSEnabled p), (EntropyHTTP.pool s) eqn:Hp; cbn; try by intros [= <- <- <-].
  - destruct (configure w _ _ _ _); cbn; [|by intros [= <- <- <-]].
    destruct (Main.net_Listen w _); cbn; by intros [= <- <- <-].
  - destruct (Main.net_Listen w _); cbn; by intros [= <- <- <-].
Qed.

Lemma boot_http_start w config :
  is_ok (http_start w config).1 = true ↔ is_Some (boot w config).
Proof.
  unfold http_start, boot. cbv zeta. destruct (validateEntropyAddr _ _); [|by split; [|intros [? ?]]].
  destruct (EntropyHTTP.NewHTTPServer _ _ _ _ _ _ _ _) as [s|]; [|by split; [|intros [? ?]]].
  destruct (start_server _ _ s) as [[[|] s'] calls]; cbn; (split; [try done; by eexists|by intros [? ?]]).
Qed.

(** What the gateway is booted with. *)
Lemma boot_server w config v :
  boot w config = Some v →
  let p := EntropyPool config in
  v = initial_serving (Collector.BatchSize (Config.Collector config)) (cloud_enabled config)
        (EntropyPool.PoolMinBytes p) (EntropyPool.PoolMaxBytes p) (srv v) ∧
  EntropyHTTP.pool (srv v) = Some (current_pool v) ∧
  (1 ≤ EntropyPool.ReadyMinBytes p → EntropyHTTP.readyThreshold (srv v) = EntropyPool.ReadyMinBytes p) ∧
  (0 < EntropyPool.RateLimitRPS p → 0 < EntropyPool.RateLimitBurst p →
   EntropyHTTP.rateLimiter (srv v) = Some (newTokenBucket (of_int (EntropyPool.RateLimitRPS p))
     (of_int (EntropyPool.RateLimitBurst p)) (Main.now w))).
Proof.
  unfold boot. cbv zeta. destruct (validateEntropyAddr _ _); [|done].
  destruct (EntropyHTTP.NewHTTPServer _ _ _ _ _ _ _ _) as [s|] eqn:Hn; [|done].
  destruct (start_server _ _ s) as [[[|] s'] calls] eqn:Hst; [|done]. intros [= <-].
  apply start_server_keeps in Hst as (Hl & Hp & Ht). cbn [srv initial_serving].
  split; [done|]. rewrite Hp, Ht. split_and!.
  - unfold EntropyHTTP.NewHTTPServer in Hn. cbv zeta in Hn. destruct (EntropyHTTP.enforceLoopbackAddr _ _); [|done].
    by injection Hn as <-.
  - intros Hr. unfold EntropyHTTP.NewHTTPServer in Hn. cbv zeta in Hn. destruct (EntropyHTTP.enforceLoopbackAddr _ _); [|done].
    injection Hn as <-. cbn. by destruct (Z.ltb_spec (EntropyPool.ReadyMinBytes (EntropyPool config)) 0); [lia|].
  - intros Hr Hb. rewrite Hl. by eapply NewHTTPServer_limiter.
Qed.

(** The collector [run] makes, if it gets there, is the one of [boot]. *)
Lemma run_boots w fuel config c :
  loaded w = Ok config → NewCollector c ∈ run_calls (run w fuel) tt →
  ∃ v, boot w config = Some v ∧ c = bc (coll (gw v)).
Proof.
  intros Hl Hin. destruct (run_cases w fuel config _ Hl Hin) as [Hq|[?|[Hh|(Hok & [Hu|(n & ws & _ & ?)])]]]; try done.
  - exfalso. destruct Hq as [?|[[e ?]|[?|[[r Hq]|[b ?]]]]]; done.
  - exfalso. pose proof (http_start_actions w config _ TheCollector Hh eq_refl). done.
  - apply boot_http_start in Hok as [v Hv]. exists v. split; [done|].
    destruct (boot_server w config v Hv) as [-> _]. apply up_cases in Hu as [[? ?]|[[? ?]|[(_ & [?|?])|[= ->]]]]; done.
Qed.

Context (spec : bytes) (redirect : string → string → list EntropyHTTP.srv_call).

(** C3: from the configuration to the answers.  When [run] gets to its collector
    with a configuration that [Load] returned, the collector and the pool behind
    the server are those of one booted gateway; and in every history of client
    requests, to whatever paths, on it, with the clock read at whole seconds up
    to [T], at most ENTROPY_RATE_LIMIT_BURST plus ENTROPY_RATE_LIMIT_RPS times the
    elapsed seconds requests are answered with bytes, 1 to 4096 each, and all of
    them together with at most 32 bytes per batch, less what the pool holds. *)
Theorem program_serves env w fuel config c start T `{GoFS} :
  Load env = Ok config → loaded w = Ok config → NewCollector c ∈ run_calls (run w fuel) tt →
  let p := EntropyPool config in
  let rps := EntropyPool.RateLimitRPS p in let burst := EntropyPool.RateLimitBurst p in
  rps ≤ 2 ^ 19 → burst ≤ 2 ^ 52 → Main.now w = start * Second → 0 ≤ start ≤ T → T ≤ 2 ^ 33 →
  ∃ v, boot w config = Some v ∧ c = bc (coll (gw v)) ∧ EntropyHTTP.pool (srv v) = Some (current_pool v) ∧
    ∀ tr f, fsteps spec redirect (mkFront v []) tr f → whole_seconds start T (strace tr) →
      let answers := bodies (strace tr) in
      len answers ≤ burst + rps * (T - start) ∧
      Forall (λ d, 1 ≤ len d ≤ 4096) answers ∧
      len (concat answers) ≤ 4096 * (burst + rps * (T - start)) ∧
      len (concat answers) + len (whitened (current_pool (inner f))) ≤ 32 * len (batches (gtrace (strace tr))).
Proof.
  intros Hload Hl Hin p rps burst Hr Hb Hnow Hst HT. destruct (Load_ok env config Hload) as [_ Hbd].
  destruct (run_boots w fuel config c Hl Hin) as (v & Hv & Hc). exists v.
  destruct (boot_server w config v Hv) as (Ev & Hp & _ & Hlim). split; [done|split; [done|split; [done|]]].
  intros tr f Hf Hsec. destruct (fsteps_inner _ _ _ _ _ Hf) as (u & Hu & Hs). cbn [inner] in Hu.
  rewrite <-(same_server_pool _ _ Hs). rewrite Ev in Hu. destruct (ok_rate _ Hbd) as [Hr1 Hb1].
  specialize (Hlim ltac:(lia) ltac:(lia)). rewrite Hnow in Hlim. pose proof (ok_batch _ Hbd) as Hbatch.
  eapply served_bounded; try exact Hu; try exact Hsec; try done; [unfold is_i64; lia|..]; subst rps burst p; lia.
Qed.

(** C11: what /ready promises.  Along every history of a loaded configuration it
    answers 200 exactly when the pool holds ENTROPY_READY_MIN_BYTES more than
    ENTROPY_POOL_MIN_BYTES, and then a request for up to that many bytes made next
    is not refused for want of bytes; so it can only be 200 when the two minima
    fit into ENTROPY_POOL_MAX_BYTES, which no check of the configuration demands. *)
Theorem program_ready env w config v tr f path rawQuery calls f' `{GoFS} :
  Load env = Ok config → boot w config = Some v → fsteps spec redirect (mkFront v []) tr f →
  Routes.find_handler path = Routes.To Routes.HandleReady → fstep spec redirect f (FAnswer path rawQuery calls) f' →
  let b := EntropyPool config in
  let p := current_pool (inner f) in
  let code := EntropyHTTP.code_of (EntropyHTTP.response_of calls) in
  (code = Some 200 ∨ code = Some 503) ∧
  (code = Some 200 ↔ EntropyPool.PoolMinBytes b + EntropyPool.ReadyMinBytes b ≤ len (whitened p)) ∧
  (code = Some 200 → ∀ n, 1 ≤ n ≤ EntropyPool.ReadyMinBytes b → ready n p) ∧
  (EntropyPool.PoolMaxBytes b < EntropyPool.PoolMinBytes b + EntropyPool.ReadyMinBytes b → code = Some 503).
Proof.
  intros Hload Hv Hf Hpath Hl b p code. destruct (Load_ok env config Hload) as [_ Hbd].
  pose proof (ok_pool _ Hbd) as Hpool. pose proof (ok_ready _ Hbd) as Hready. fold b in Hpool, Hready.
  destruct (boot_server w config v Hv) as (Ev & _ & Ht & _). specialize (Ht Hready). rewrite Ev in Hf.
  destruct (traffic_pool _ _ _ _ _ _ _ _ _ Hf) as (Hok & Hmin & Hmax & Hthr). fold p in Hok, Hmin, Hmax. rewrite Ht in Hthr.
  destruct (NewWhitenedPoolWithBounds_sizes (EntropyPool.PoolMinBytes b) (EntropyPool.PoolMaxBytes b) Hpool) as [E1 E2].
  fold b in Hmin, Hmax, Hthr. rewrite E1 in Hmin. rewrite E2 in Hmax.
  assert (Hcode : code = Some (if len (whitened p) - EntropyPool.PoolMinBytes b <? EntropyPool.ReadyMinBytes b then 503 else 200)).
  { inversion Hl as [| | | |f0 path0 q0 now d s calls0 _ Hs]; subst f0 path0 q0 calls0. unfold Routes.ServeHTTP in Hs.
    rewrite Hpath, EntropyHTTP.handleReady_eq in Hs. injection Hs as _ <-. subst code.
    change (EntropyHTTP.readyThreshold (server_of (inner f))) with (EntropyHTTP.readyThreshold (srv (inner f))) in Hthr.
    rewrite Hthr. unfold EntropyHTTP.available_of. rewrite server_pool, EntropyHTTP.AvailableEntropy_val.
    fold p. rewrite Hmin. destruct (Z.ltb_spec (len (whitened p) - EntropyPool.PoolMinBytes b) (EntropyPool.ReadyMinBytes b));
      [rewrite (proj2 (Z.ltb_lt _ _)) by lia|rewrite (proj2 (Z.ltb_ge _ _)) by lia]; done. }
  rewrite Hcode. pose proof (ok_whitened _ Hok) as Hw.
  destruct (Z.ltb_spec (len (whitened p) - EntropyPool.PoolMinBytes b) (EntropyPool.ReadyMinBytes b)).
  - split_and!; [by right|split; [done|lia]|done|done].
  - split_and!; [by left|split; [lia|done]| |lia]. intros _ n Hn. unfold ready. lia.
Qed.
End boot.

(** ** How the process ends *)

Section process.
Context `{GoUnicode}.

(** Name resolution, how serving the metrics ends, and their TLS configuration. *)
Context (lookup : string → result (list string)) (serve : MetricsHTTP.serve_outcome).
Context (configure_metrics : string → string → string → Z → result unit).

(** What the goroutine of the metrics server gets from [Start] or [StartTLS]. *)
Definition metrics_outcome (bind : string) (tls : option (string * string * string * Z)) : result unit :=
  run_val
    (match tls with
     | Some (certFile, keyFile, caFile, clientAuth) =>
         MetricsHTTP.StartTLS lookup serve configure_metrics certFile keyFile caFile clientAuth
     | None => MetricsHTTP.Start lookup serve
     end) (MetricsHTTP.NewServer bind).

(** The status with which the process ends, if it is not killed. *)
Inductive os_signal := IntOrTerm | OtherSignal.

Inductive ending := Returns (code : Z) | RunPanics | Crashes | Fatal | KilledBy (s : os_signal).

Definition status (e : ending) : option Z :=
  match e with
  | Returns code => Some code
  | RunPanics | Crashes => Some 2
  | Fatal => Some 1
  | KilledBy _ => None
  end.

(** How the process may end once [run] has done [acts]: [run] returns its exit
    code, or ends with a panic after its deferred calls; another goroutine panics,
    or the runtime gives up with a fatal error or a stack dump, without any
    deferred call of [run]; the goroutine of the metrics server, when that cannot
    be started, has called [log.Fatalf], also without them; SIGINT or SIGTERM
    arrives before [signal.Notify], or another signal that kills at any time. *)
Inductive ends (w : world) (fuel : nat) : list action → ending → Prop :=
| ends_returns code :
    run_val (run w fuel) tt = Returned code → ends w fuel (run_calls (run w fuel) tt) (Returns code)
| ends_panics :
    run_val (run w fuel) tt = Panicked → ends w fuel (run_calls (run w fuel) tt) RunPanics
| ends_crash acts post :
    run_calls (run w fuel) tt = acts ++ post → ends w fuel acts Crashes
| ends_fatal acts post bind tls e :
    run_calls (run w fuel) tt = acts ++ post → GoMetrics bind tls ∈ acts →
    metrics_outcome bind tls = Err e → ends w fuel acts Fatal
| ends_killed acts post s :
    run_calls (run w fuel) tt = acts ++ post → (s = IntOrTerm → ¬ called AwaitSignal acts) → ends w fuel acts (KilledBy s).

Definition metrics_failed (acts : list action) : Prop :=
  ∃ bind tls e, GoMetrics bind tls ∈ acts ∧ metrics_outcome bind tls = Err e.

(** The endings that skip the deferred calls. *)
Definition abrupt (acts : list action) (e : ending) : Prop :=
  e = Crashes ∨ e = Fatal ∧ metrics_failed acts ∨ e = KilledBy OtherSignal ∨
  e = KilledBy IntOrTerm ∧ ¬ called AwaitSignal acts.

(** The configuration with METRICS_ENABLED=false. *)
Definition metrics_disabled (config : Config.Config) : Config.Config :=
  let m := Config.Metrics config in
  set_Metrics (Metrics.mk (Metrics.Port m) (Metrics.Bind m) false (Metrics.TLSEnabled m) (Metrics.TLSCertFile m)
    (Metrics.TLSKeyFile m) (Metrics.TLSCAFile m) (Metrics.TLSClientAuth m)) config.

Definition with_config (config : Config.Config) (w : world) : world :=
  mkWorld (args w) (Ok config) (Main.now w) (Main.net_Listen w) (Main.configure w) (built w) (opened w) (broker w) (rng w)
    (fates w).

(** [run] never looks at that setting. *)
Lemma run_ignores_enabled w fuel config s :
  loaded w = Ok config → run (with_config (metrics_disabled config) w) fuel s = run w fuel s.
Proof. intros Hl. unfold run, run_flags, loadConfig. cbn [args loaded with_config]. by rewrite Hl. Qed.

(** Where [run] is when it has reached the broker. *)
Lemma run_reached w fuel config n waits :
  loaded w = Ok config → ConnectMQTT n waits ∈ run_calls (run w fuel) tt →
  ∃ pre post, run_calls (run w fuel) tt = (metrics_action config :: pre ++ [ConnectMQTT n waits]) ++ post ∧
    (∃ c, NewCollector c ∈ pre) ∧ ∀ a, a ∈ pre → stops a = None.
Proof.
  intros Hl Hin. destruct (run_connect w fuel config n waits Hl Hin) as [Hm Hok].
  destruct (early_or_loaded w) as [[[code acts] He]|(_ & Hp & _)].
  { exfalso. unfold run_calls in Hin. rewrite (run_early w fuel tt code acts He) in Hin. cbn [snd] in Hin.
    apply elem_of_app in Hin as [Hin|Hin]; [|set_solver]. by destruct (early_actions w code acts _ He Hin) as [?|[e ?]]. }
  exists ((http_start w config).2 ++ up_actions w config). unfold run_calls. rewrite (run_eq w fuel config Hp Hl tt), Hm.
  pose proof (http_start_quiet w config) as Hq. pose proof (up_quiet w config) as Hqu.
  destruct (http_start w config) as [[[]|e] calls]; [|done]. cbn [fst snd] in *. rewrite call_then. eexists. split_and!.
  - cbn [app snd]. by rewrite <-!(assoc_L (++)).
  - eexists. unfold up_actions, collector_actions. rewrite !elem_of_app. right. right. by left.
  - intros a [Ha|Ha]%elem_of_app; [by apply Hq|by apply Hqu].
Qed.

Lemma ends_cleaned w fuel acts e hist h :
  ends w fuel acts e → did hist = acts → after idle hist = Some h →
  abrupt acts e ∨ cleaned acts hist h ∧ (e = RunPanics ∧ (∃ b, Interrupted b ∈ acts) ∨ ∃ code, e = Returns code ∧ coded w code acts).
Proof.
  unfold abrupt. intros [code Hv|Hv|acts' post E|acts' post bind tls err E Hin Herr|acts' post s E Hno] Hd Ha.
  - right. split; [apply run_cleaned; [by rewrite Hv|done..]|]. right. exists code. split; [done|by apply run_coded].
  - right. split; [apply run_cleaned; [by rewrite Hv|done..]|]. left. split; [done|by apply run_panicked].
  - by left; left.
  - left; right; left. split; [done|]. by exists bind, tls, err.
  - left; right; right. destruct s; [right; split; [done|by apply Hno]|by left].
Qed.

(** A run that returns 2 has started nothing. *)
Lemma usage_starts_nothing w fuel a :
  run_val (run w fuel) tt = Returned 2 → a ∈ run_calls (run w fuel) tt → starts a = None.
Proof.
  intros Hv Ha. assert (Ho : run_val (run w fuel) tt ≠ Blocked) by by rewrite Hv.
  destruct (run_ends w fuel Ho) as [(c & early & He & Hc & E)|(He & config & Hl & _)].
  - rewrite E in Ha. apply elem_of_app in Ha as [Ha|Ha%list_elem_of_singleton]; [|by subst a].
    by destruct (early_actions w c early a He Ha) as [-> |[e ->]].
  - exfalso. apply run_coded in Hv as [_ [H2 _] _ _ _]. destruct (H2 eq_refl) as [Hp _].
    destruct (early_or_loaded w) as [[x ?]|(_ & ? & _)]; congruence.
Qed.

Lemma one_is_an_error w fuel :
  run_val (run w fuel) tt = Returned 1 →
  is_ok (loaded w) = false ∨ ∃ config, loaded w = Ok config ∧ is_ok (http_start w config).1 = false.
Proof.
  intros Hv. assert (Ho : run_val (run w fuel) tt ≠ Blocked) by by rewrite Hv.
  destruct (run_ends w fuel Ho) as [(c & early & He & Hc & _)|(He & config & Hl & [(Hf & _)|(_ & n & waits & mid & r & _ & _ & Hc & Hr)])].
  - left. rewrite Hv in Hc. injection Hc as <-. unfold early_exit in He.
    destruct (Parse (args w)) as [[|x rest]| |e]; [destruct (loaded w) as [config|e]|..]; done.
  - right. by exists config.
  - exfalso. rewrite Hv in Hc. symmetry in Hc. apply finish_returned in Hc as [_ ->].
    destruct Hr as [(_ & _ & ?)|(? & ? & ? & _ & _ & ?)]; done.
Qed.

(** C10: every way the process can end, and what is up at that moment, whatever
    has happened meanwhile.  Unless the end is abrupt, by a panic of another
    goroutine, by a kill or by the metrics server having failed, everything is
    cleaned up, as far as the take-downs did not panic.  The status is 0 only
    after help or a signal; 1 only when the configuration does not load, the
    entropy server does not start or the metrics server has failed; and 2 only
    for bad arguments, with nothing started, or after a panic.  The metrics
    server that fails to listen may so end the process with status 1 at a
    moment when the broker is connected and the collector takes events, which
    are lost; METRICS_ENABLED=false does not prevent it, since [run] never reads
    that setting. *)
Theorem process_ends w fuel :
  (∀ acts e hist h, ends w fuel acts e → did hist = acts → after idle hist = Some h →
     (abrupt acts e ∨ cleaned acts hist h ∧
        (e = RunPanics ∧ (∃ b, Interrupted b ∈ acts) ∨ ∃ code, e = Returns code ∧ ∀ b, Interrupted b ∉ acts)) ∧
     (status e = Some 0 → Parse (args w) = ParseHelp ∨ AwaitSignal ∈ acts) ∧
     (status e = Some 1 → is_ok (loaded w) = false ∨
        (∃ config, loaded w = Ok config ∧ is_ok (http_start w config).1 = false) ∨ metrics_failed acts) ∧
     (status e = Some 2 → e = RunPanics ∨ e = Crashes ∨
        Parse (args w) ≠ ParseOk [] ∧ (∀ r, up h r = false) ∧ conn h = Down ∧ strays h = 0%nat)) ∧
  (∀ config n waits, loaded w = Ok config → ConnectMQTT n waits ∈ run_calls (run w fuel) tt →
     metrics_failed [metrics_action config] →
     ∃ acts, ends w fuel acts Fatal ∧ ends (with_config (metrics_disabled config) w) fuel acts Fatal ∧
       ∀ hist h, did hist = acts → after idle hist = Some h → conn h ≠ Down ∧ up h TheCollector = true).
Proof.
  split.
  - intros acts e hist h He Hd Ha. pose proof (ends_cleaned w fuel acts e hist h He Hd Ha) as Hc. split_and!.
    + destruct Hc as [?|(? & [?|(code & ? & [? _ _ _ _])])]; eauto 6.
    + destruct Hc as [[->|[[-> _]|[->|[-> _]]]]|(_ & [[-> _]|(code & -> & [_ _ Hz _ _])])]; try done. intros [= ->]. by apply Hz.
    + destruct He as [code Hv|Hv|acts' post E|acts' post bind tls err E Hin Herr|acts' post s E Hno]; try done.
      * intros [= ->]. destruct (one_is_an_error w fuel Hv); auto.
      * intros _. right. right. by exists bind, tls, err.
    + destruct He as [code Hv|Hv|acts' post E|acts' post bind tls err E Hin Herr|acts' post s E Hno]; auto; try done.
      intros [= ->]. right. right. split; [by apply run_coded in Hv as [_ [H2 _] _ _ _]; apply H2|].
      apply (nothing_started hist h Ha). intros a Hin%elem_of_did. rewrite Hd in Hin. by apply (usage_starts_nothing w fuel).
  - intros config n waits Hl Hin (bind & tls & err & Hb & Herr).
    destruct (run_reached w fuel config n waits Hl Hin) as (pre & post & E & (c & Hc) & Hq).
    apply list_elem_of_singleton in Hb. set (acts := metrics_action config :: pre ++ [ConnectMQTT n waits]) in *.
    assert (Hg : GoMetrics bind tls ∈ acts) by (rewrite Hb; by left).
    assert (Hs : ∀ b, b ∈ acts → stops b = None).
    { intros a [->|[Ha|Ha%list_elem_of_singleton]%elem_of_app]%elem_of_cons; [done|by apply Hq|by subst a]. }
    exists acts. split_and!.
    + by eapply ends_fatal.
    + eapply ends_fatal; [|exact Hg|exact Herr]. unfold run_calls in *. rewrite (run_ignores_enabled w fuel config tt Hl). exact E.
    + intros hist h Hd Ha. assert (Hst : ∀ b, Does b ∈ hist → stops b = None).
      { intros b Hb'%elem_of_did. rewrite Hd in Hb'. by apply Hs. }
      split.
      * apply (stays_up MQTTClient (ConnectMQTT n waits) hist h Ha); [|done..].
        apply elem_of_did. rewrite Hd. unfold acts. rewrite elem_of_cons, elem_of_app. right. right. by left.
      * apply (stays_up TheCollector (NewCollector c) hist h Ha); [|done..].
        apply elem_of_did. rewrite Hd. unfold acts. rewrite elem_of_cons, elem_of_app. auto.
Qed.
End process.

(** ** Witnesses *)

Section witnesses.
#[local] Existing Instance witness_math.
#[local] Existing Instance witness_range.
#[local] Existing Instance witness_error.
#[local] Existing Instance Config.witness_lower.
#[local] Existing Instance witness_append.
#[local] Existing Instance witness_fs.

Definition no_redirect (path query : string) : list EntropyHTTP.srv_call := [].

Definition default_config : Config.Config := match Load ∅ with Ok c => c | Err _ => defaultConfig end.

Lemma default_loaded : Load ∅ = Ok default_config.
Proof. vm_compute. reflexivity. Qed.

Definition witness_world : world := witness_run (Ok default_config) [].

(** A request for 32 bytes of the empty pool is admitted. *)
Lemma witness_traffic v :
  boot witness_world default_config = Some v →
  ∃ l f, fstep [] no_redirect (mkFront v []) (FEntropy "/api/v1/entropy/binary" EmptyString l) f ∧ asks_of l = [0].
Proof.
  intros Hv. destruct (EntropyHTTP.entropy_admit EmptyString 0 (server_of v)) as [[r s] calls] eqn:E.
  eexists (SRequest (Routes.bytes_parameter EmptyString) 0 r calls), _. split; [|reflexivity].
  apply (f_entropy [] no_redirect (mkFront v []) "/api/v1/entropy/binary" EmptyString); [reflexivity|].
  apply s_request. exact E.
Qed.

Lemma program_serves_witness :
  ∃ c v l f, NewCollector c ∈ run_calls (run witness_world 10) tt ∧ boot witness_world default_config = Some v ∧
    fsteps [] no_redirect (mkFront v []) [FEntropy "/api/v1/entropy/binary" EmptyString l] f ∧
    len (bodies (strace [FEntropy "/api/v1/entropy/binary" EmptyString l])) ≤ 25.
Proof.
  assert (H1 : ∃ c, NewCollector c ∈ run_calls (run witness_world 10) tt).
  { eexists. assert (nth_error (run_calls (run witness_world 10) tt) 3 = Some (NewCollector
      (setupBatchCollector 1840 false).1)) as E by (vm_compute; reflexivity).
    apply nth_error_In in E. apply list_elem_of_In. exact E. }
  destruct H1 as [c H1].
  assert (H2 : EntropyPool.RateLimitRPS (EntropyPool default_config) ≤ 2 ^ 19) by (vm_compute; discriminate).
  assert (H3 : EntropyPool.RateLimitBurst (EntropyPool default_config) ≤ 2 ^ 52) by (vm_compute; discriminate).
  assert (H4 : Main.now witness_world = 0 * Second) by reflexivity.
  destruct (program_serves [] no_redirect ∅ witness_world 10 default_config c 0 0 default_loaded eq_refl H1 H2 H3 H4
    ltac:(lia) ltac:(lia)) as (v & Hv & _ & _ & Hall).
  destruct (witness_traffic v Hv) as (l & f & Hl & Hask).
  assert (Hf : fsteps [] no_redirect (mkFront v []) [FEntropy "/api/v1/entropy/binary" EmptyString l] f)
    by (apply (fsteps_snoc _ _ _ [] _ _ _ (fsteps_nil _ _ _) Hl)).
  refine (ex_intro _ c (ex_intro _ v (ex_intro _ l (ex_intro _ f (conj H1 (conj Hv (conj Hf _))))))).
  refine (proj1 (Hall _ f Hf _)). exists [0]. split; [|apply Forall_singleton; lia].
  unfold asks, strace. cbn. rewrite app_nil_r. exact Hask.
Defined.

(** The default configuration is not ready at first; nor is one whose minima exceed the maximum, ever. *)
Lemma program_ready_witness :
  ∃ v calls f, boot witness_world default_config = Some v ∧
    fstep [] no_redirect (mkFront v []) (FAnswer "/api/v1/ready" EmptyString calls) f ∧
    EntropyHTTP.code_of (EntropyHTTP.response_of calls) ≠ Some 200.
Proof.
  assert (H1 : ∃ v, boot witness_world default_config = Some v ∧ len (whitened (current_pool v)) = 0).
  { destruct (boot witness_world default_config) as [v|] eqn:E; [|exfalso; revert E; vm_compute; discriminate].
    exists v. split; [reflexivity|]. destruct (boot_server _ _ _ E) as [-> _]. reflexivity. }
  destruct H1 as (v & Hv & Hlen).
  assert (Hpath : Routes.find_handler "/api/v1/ready" = Routes.To Routes.HandleReady) by (vm_compute; reflexivity).
  destruct (Routes.ServeHTTP [] no_redirect "/api/v1/ready" EmptyString 0 0 [] (server_of v)) as [[[] s] calls] eqn:E.
  assert (Hl : fstep [] no_redirect (mkFront v []) (FAnswer "/api/v1/ready" EmptyString calls) (mkFront (left_as s v) []))
    by (apply (f_answer [] no_redirect (mkFront v []) "/api/v1/ready" EmptyString 0 0 s calls); [reflexivity|exact E]).
  refine (ex_intro _ v (ex_intro _ calls (ex_intro _ _ (conj Hv (conj Hl _))))).
  destruct (program_ready [] no_redirect ∅ witness_world default_config v [] (mkFront v []) "/api/v1/ready" EmptyString
    calls _ default_loaded Hv (fsteps_nil _ _ _) Hpath Hl) as (_ & Hiff & _).
  intros Hc%Hiff. cbn [inner] in Hc. rewrite Hlen in Hc. revert Hc. vm_compute. intros Hc. by apply Hc.
Defined.

(** The metrics address cannot be listened on: the program dies when it is connected. *)
Lemma process_ends_witness :
  let failed := MetricsHTTP.ServeFailed (Errorf "address already in use" []) in
  ∃ acts h, ends (λ _, Ok []) failed (λ _ _ _ _, Ok tt) witness_world 10 acts Fatal ∧
    after idle (Does <$> acts) = Some h ∧ conn h ≠ Down ∧ up h TheCollector = true.
Proof.
  intros failed.
  assert (H1 : ∃ n waits, ConnectMQTT n waits ∈ run_calls (run witness_world 10) tt).
  { do 2 eexists. assert (nth_error (run_calls (run witness_world 10) tt) 5 = Some (ConnectMQTT 3
      [1000000000; 2000000000])) as E by (vm_compute; reflexivity).
    apply nth_error_In in E. apply list_elem_of_In. exact E. }
  destruct H1 as (n & waits & H1).
  assert (H2 : metrics_failed (λ _, Ok []) failed (λ _ _ _ _, Ok tt) [metrics_action default_config]).
  { eexists _, _, _. split; [apply elem_of_cons; left; reflexivity|]. vm_compute. reflexivity. }
  destruct (proj2 (process_ends (λ _, Ok []) failed (λ _ _ _ _, Ok tt) witness_world 10) default_config n waits eq_refl H1 H2)
    as (acts & H3 & _ & H4).
  destruct (after_does acts idle) as [h Hh].
  exact (ex_intro _ acts (ex_intro _ h (conj H3 (conj Hh (H4 (Does <$> acts) h (did_does acts) Hh))))).
Defined.
End witnesses.
